(* ===== verification/_CoqProject ===== *)
-Q . S2P
Prelude.v
GoStd.v
GoStrings.v
Values.v
Errors.v
Transfer.v
Unresolvable.v
Fn.v
Resolve.v
Evaluate.v
EvaluateTheory.v
Denote.v
Staging.v
Determinism.v
Failures.v
ResultMapper.v
Samples.v
Query.v
EvaluateProperties.v
FnProperties.v
ApiTypes.v
Merge.v
Yaml.v
YamlTheory.v
YamlProperties.v
Model.v
ManagersMemory.v
ConfigMaps.v
ConfigMapTheory.v
Metadata.v
ManagerSamples.v
ManagerProperties.v
Authenticate.v
AuthKubernetes.v
AuthService.v
AuthTheory.v
ObjUtil.v
AuthIssue.v
AuthProperties.v
MetadataApi.v
MetadataServer.v
APIErrors.v
Service.v
Graph.v
RunStatus.v
RunStatusProperties.v
RunConfig.v
RunConfigProperties.v
Workflow.v
WorkflowProperties.v
ErrMark.v
WorkQueue.v
KubeObjects.v
WorkflowJSON.v
NetworkPolicy.v
TenantDeps.v
TenantReconcile.v
Invariants.v
TenantTheory.v
RunObjects.v
ServerTheory.v
SampleServer.v
TenantProperties.v
RunDeps.v
Metrics.v
Pipeline.v
RunReconcile.v
RunTheory.v
PipelineTheory.v
TriggerDeps.v
TriggerReconcile.v
RunReconcileProperties.v
TriggerProperties.v
Entrypoint.v
Admission.v
EventHandlers.v
Controllers.v
SampleMetadata.v
SampleMetadataProperties.v
Commands.v
