(* ===== verification/Prelude.v ===== *)
(** * relay-core: a verification development

    relay-core runs workflows on Kubernetes.  A workflow file is decoded and mapped to a
    workflow run, a tenant and webhook triggers; controllers reconcile these objects; the
    pods of a step ask a metadata service for what the step may know.  The expressions of
    a workflow (parameters, secrets, outputs, function calls) are evaluated twice: by the
    controller, as far as it can, when the run is configured, and by the metadata service
    when a step asks.  This development models that path in Rocq, file by file, and proves
    what makes it correct.  Paths below are relative to src/.

    ** Conventions

    A Go function that returns a value and an error is a function to [outcome E A], whose
    third constructor is a run-time panic; one that acts on a store, a server or a cluster
    is an [effect E W A] on a world [W].  A map is a [gmap], so that the order of a [range]
    is not part of it: where the order can be seen it is an argument ([GoRuntime]), with
    the laws the language documents.  Strings are byte strings.  Constructors and fields
    have the names of the code; a definition that needs another name (Go has methods, Rocq
    has not) is named after its receiver.  Code of third parties (the clients of Kubernetes
    and Vault, encoding/json, yaml.v3, JWT signing, markdown) is a parameter: a class or a
    record of functions, whose laws, where a theorem needs them, are those the code relies
    on, and are instantiated by concrete functions in the files named Sample*.

    ** The language of expressions (pkg/expr)

    - Prelude, GoStd, GoStrings: outcomes and effects, orders of maps and sets, sorting;
      strings, paths, hexadecimal and SHA-1.  Values, Errors: the dynamic values and the
      error types.  Transfer: base64, UTF-8 validity and the transfer encoding.
    - Unresolvable (evaluate/result.go), Fn (fn, fnlib, convert), Resolve (resolve), Evaluate
      (evaluate.go, option.go, scoped.go), ResultMapper (resultmapper.go, result_json.go),
      Yaml (parse).
    - EvaluateTheory has the recursive equation of the evaluator; Denote a specification
      without fuel, depth or order, which the evaluator refines ([evaluate_all_denotes]);
      Staging, Determinism and Failures show that evaluating in two stages is evaluating
      once, where what the first resolves is data to the second ([stages_compose]), that no
      order of the runtime shows in the result ([evaluate_deterministic]), that the default functions neither panic nor produce a
      value of an unsupported type ([evaluate_no_panic_default]) and where an error comes
      from ([evaluate_error_located]).  Query (select.go, pkg/util/jsonpath, the visitor of
      the vendored jsonpath): a query evaluates what its path visits; where the path meets
      no reference, the result is the child of the evaluated tree ([path_query_projects]).
      YamlTheory and YamlProperties: the rewriting of tags
      ends on acyclic documents and leaves no custom tag.
    - The evaluator calls functions of values.  Merge has the one function of the library
      that changes its arguments (fnlib/merge.go) in memory, where maps are shared:
      [merge_unshared] refines its function of values, [Fn.mergedDescriptor], for arguments
      whose maps nobody else holds; [merge_changes_argument] and [merge_of_itself] show what
      sharing does.  Theorems on evaluations with the library that this would falsify have
      the condition [owned_merges] (Staging): what the arguments of merge take from
      resolvers, or leave of the tree, has no maps.

    ** Actions and managers (pkg/model, pkg/manager)

    - Model: actions (a step of a run, a trigger), their hashes, scripts, the interfaces of
      the managers.  ManagersMemory has the contract a getter and a setter keep, a class,
      and its instances in memory; those of ConfigMaps are instances as well; Metadata (vault,
      builder, reject, resolve, api) models the others.
    - ConfigMapTheory: writes through an API server with optimistic
      concurrency, under any writes of others; ManagerProperties: a successful write changes
      one entry of what is stored ([configmap_set_atomic]), ends
      ([configmap_set_terminates]), and the managers answer as an abstract map of slots
      ([configmap_refines_store]).

    ** The metadata service (pkg/authenticate, pkg/metadataapi)

    - Authenticate, AuthKubernetes, AuthService, AuthIssue: from the pod of a request to a
      token, to claims, to the managers of the request; and how the controllers issue the
      tokens (AnnotateStepToken, AnnotateTriggerToken in pkg/obj; structured hashes of
      pkg/util/hashutil).  AuthTheory
      and AuthProperties: a request that is accepted acts as the action
      its pod was annotated with ([pod_request_authenticated]).
    - MetadataApi: one function per handler of server/api, from the request to the list of
      the responses it writes.  APIErrors (pkg/metadataapi/errors, the vendored errawr and
      httputil): the errors of the API, and the status, header fields and bytes of every
      answer ([answer_sent]); a client learns of an inner error no more than its type
      ([internal_errors_hidden]).
    - MetadataServer (server.go, api/server.go, middleware; the matching of the vendored
      gorilla/mux): from a request to a handler.  [server_dispatch]: the routers are a
      table.  Only an authenticated request is answered by the API
      ([requests_authenticated]), at an address no client can forge past the trusted
      proxies ([forwarded_address]), for the names its path has ([names_reach_handlers]).
    - Service (opt/config.go, pkg/util/lifecycleutil, the vendored viper and lifecycle): the
      configuration from the environment, with the clients that are made of it, and the
      listener, a step relation that ends once the process is told to
      ([graceful_shutdown]).
    - SampleMetadata (opt/sample.go, pkg/metadataapi/sample): the metadata
      service without a cluster, over configuration files.  [sample_step_served]: a request
      with the token that was generated for a step reads what the files say of it.

    ** The controllers (pkg/obj, pkg/workflow, pkg/reconciler, pkg/errmark)

    - ObjUtil (util.go, finalizer.go, status.go): annotations, labels, owners, finalizers,
      conditions.  KubeObjects (obj.go, namespace.go, secret.go, limitrange.go, and the
      dependencies of util.go): objects that are loaded, persisted and deleted through a
      client, and the loaders of the controllers.
    - Graph (the vendored horsehead graph) and RunStatus (workflowrun.go): the status of a
      run from its pipeline run, with the steps that will never run marked as skipped along
      the dependencies.  RunStatusProperties: the traversal ends, and a step is skipped exactly when a failed or skipped step precedes it
      ([skipped_steps]).
    - RunConfig (configmap.go): the ConfigMaps of runs and triggers.  [run_spec_served]
      composes the controller, the storage and the metadata service: a step is served what
      evaluating its specification gives, if what functions return in the first evaluation
      is data to the second ([unmarshaled_reference] shows what jsonUnmarshal can return).
    - Workflow (pkg/workflow/types/v1): the types, the decoder, the three
      mappers.  WorkflowJSON (types.go, pkg/expr/serialize, unstructured_types.go): steps,
      sources and trees as JSON, which reads back ([json_step_roundtrip]).
      [approval_required] follows the condition of an approval step from the file
      to the answer of the metadata service.
    - ErrMark (pkg/errmark, pkg/reconciler/filter): marks of errors and the filters of
      reconcilers.  NetworkPolicy (networkpolicy.go): the policies, whose meaning is that
      documented by Kubernetes ([workload_isolated]).
    - TenantDeps (tenant.go, tenantdeps.go), TenantReconcile (pkg/reconciler/tenant): what
      a tenant depends on, its status, and the whole of a reconciliation.  TenantTheory and
      TenantProperties: a reconciliation removes only a namespace of the tenant's own
      ([tenant_namespaces_safe]), and what makes a tenant ready ([tenant_ready]).
      Invariants composes what calls keep along a reconciliation.
    - RunObjects (serviceaccount.go, role.go, rolebinding.go, util/retry) has the kinds of
      objects and one client for all of them; RunDeps (workflowrundeps.go) what a run
      depends on; Pipeline (task.go, condition.go, pipeline.go, pipelinerun.go) the objects
      of Tekton; RunReconcile (pkg/reconciler/workflow) the reconciliation.  ServerTheory
      has the laws of an API server, a class; RunTheory and PipelineTheory follow what is
      written, against these laws, and SampleServer is an instance.
      RunReconcileProperties: what a run is on the server once it was reconciled
      ([run_reconciled]), what happens before its namespace is there
      ([run_awaits_namespace]), and the wait for the token of an account
      ([account_token_awaited]).
    - TriggerDeps (webhooktriggerdeps.go), TriggerReconcile (knativeservice.go,
      webhooktrigger.go, pkg/reconciler/trigger): webhook triggers, with
      their own objects, the Knative service that answers them and their status.
      TriggerProperties: a reconciliation removes only a ConfigMap of the trigger's own, and
      not the current one of a trigger that stays ([trigger_maps_safe]); what the status
      says of the service ([trigger_status_spec]); the token of a trigger, which does not
      expire, is issued again when its subject, domain, tenant, Vault paths or event sink
      change ([trigger_token_rotates]), and not when other claims do.
    - EventHandlers (pkg/controller/handler): which requests the events of watched objects
      add.  WorkQueue (the vendored workqueue and controller): the queue of requests and its
      workers, a step relation in which everything else acts at any time; no request is
      reconciled twice at a time, and none starves ([workers_exclusive_fair]).
    - Controllers (pkg/controller, and the vendored handlers): what each controller watches
      and how its reconciler is filtered.  From a change to the reconciliation that settles
      it: [tenant_changes_settle], [trigger_changes_settle], [pipeline_events_settle].
    - Metrics (cmd/relay-metrics): how many runs are pending, or have no status, and how
      long ago the oldest was created ([metrics_published]).
    - ApiTypes (pkg/apis, with the types of the libraries they contain): the types as Go has
      them in memory and the generated functions that copy them.  The controllers change
      copies of what their cache shares: a copy is alike and shares nothing
      ([copies_independent]).
    - Commands (cmd, pkg/config, pkg/dependency): the flags and the environment of the
      programs, the dependencies, reconcilers and the issuer of the operator, the
      authenticator and the options of the metadata service.  [issued_token_accepted]
      follows a token from the operator that issues it to the service that accepts it.

    ** Pods (pkg/admission, pkg/entrypoint)

    - Admission: the two webhooks that change the pods of tenants.  The
      tools are mounted where they are asked for and nothing else changes
      ([tools_injected]); the webhooks commute and are idempotent ([webhooks_settle]).
    - Entrypoint (pkg/entrypoint, cmd/relay-runtime-tools): the wrapping of a command and
      the program that runs it.  [entrypoint_runs_command]: what is wrapped is what runs,
      and the exit code is its own; signals are forwarded in the order of arrival, without
      those that find the channel full.

    ** Fuel

    Functions whose recursion is not structural take fuel.  [evaluate] uses a unit per level
    of the tree and starts with the depth of the tree; [evaluate_unfold] shows that this is
    enough, and that no result depends on more.  The work list of YAML nodes has the weight
    of the document ([yaml_terminates] shows that an acyclic document needs no more; a
    cyclic one never ends in the code).  [MutateConfigMap] has a number of rounds, and
    [configmap_set_terminates] bounds those it needs by the writes of others to come.  The
    traversal of a graph has one unit per vertex and is shown to end.  [Retry] has the number
    of rounds its deadline leaves, of which [account_token_awaited] assumes no more than it
    needs.

    ** What the model leaves out

    - A handler or a controller reads the managers while it evaluates; the model evaluates
      against one state of them.  An evaluation works on values: that merge changes maps
      which others hold is shown in Merge, and not followed through an evaluation, so that
      theorems on evaluations hold of the code where merge is called on maps that the
      evaluation has to itself.  JSON field names are matched exactly; Go also accepts other
      capitalisations.  Contexts, deadlines, logging and metrics are left out.
    - A client of Kubernetes is a sequence of calls on a world: the theorems on tenants
      assume that nobody else writes to the namespaces during a reconciliation, those on
      runs that nobody else writes to the objects of the run but to its accounts, and say
      so in the laws of the client; those on ConfigMaps and on tokens do not.  The tokens of
      a reconciliation are issued at one reading of the clock; a run without steps and the
      metrics read it each time the code does.
    - Not modelled: the parsers of queries (gval, jsonpath: parameters) and the decoding
      into Go types (mapstructure); the YAML marshalling of workflows; their JSON schema,
      whose library is a parameter; the metrics of the operator; the helpers of tests.
      Processes, the encoding of pods, and the YAML and markdown libraries are parameters. *)
From stdpp Require Export base tactics option list gmap strings sorting.
From Stdlib Require Export Ascii ZArith.

(** ** Outcomes of Go calls

    A Go function that returns [(T, error)] is a function to [outcome E T]; a
    run-time panic (nil dereference, failed type assertion) is an outcome of its
    own, so that its absence is a theorem and not an assumption. *)
Inductive outcome (E A : Type) : Type :=
| Ok (a : A)
| Err (e : E)
| Panic (why : string).
Arguments Ok {E A} a.
Arguments Err {E A} e.
Arguments Panic {E A} why.

#[export] Instance outcome_ret {E} : MRet (outcome E) := λ A a, Ok a.
#[export] Instance outcome_bind {E} : MBind (outcome E) := λ A B f m,
  match m with
  | Ok a => f a
  | Err e => Err e
  | Panic w => Panic w
  end.

(** [map_err f m] is the code's [if err != nil { return nil, f(err) }]. *)
Definition map_err {E F A} (f : E → F) (m : outcome E A) : outcome F A :=
  match m with
  | Ok a => Ok a
  | Err e => Err (f e)
  | Panic w => Panic w
  end.

Definition is_ok {E A} (m : outcome E A) : bool :=
  match m with Ok _ => true | _ => false end.

Definition no_panic {E A} (m : outcome E A) : Prop := ∀ w, m ≠ Panic w.

(** The loop of a Go function over a slice whose body may return early. *)
Fixpoint fold_outcome {E A S} (f : S → A → outcome E S) (s : S) (l : list A)
    : outcome E S :=
  match l with
  | [] => Ok s
  | x :: l' => s' ← f s x; fold_outcome f s' l'
  end.

(** ** Calls with effects

    A Go method that reads or writes shared state (a manager, an API server) is a
    function from that state to an outcome and the state it leaves. *)
Definition effect (E W A : Type) : Type := W → outcome E A * W.

#[export] Instance effect_ret {E W} : MRet (effect E W) := λ A a w, (Ok a, w).
#[export] Instance effect_bind {E W} : MBind (effect E W) := λ A B f m w,
  match m w with
  | (Ok a, w') => f a w'
  | (Err e, w') => (Err e, w')
  | (Panic s, w') => (Panic s, w')
  end.

(** A computation without effects, and the code's [r, err := m] whose error is
    inspected instead of returned. *)
Definition lift {E W A} (m : outcome E A) : effect E W A := λ w, (m, w).
Definition attempt {E W A} (m : effect E W A) : effect E W (outcome E A) := λ w,
  match m w with
  | (Panic s, w') => (Panic s, w')
  | (r, w') => (Ok r, w')
  end.

(** The state threaded through a list of effects. *)
Fixpoint each_effect {E W A} (f : A → effect E W unit) (l : list A) : effect E W unit :=
  match l with
  | [] => mret tt
  | x :: l' => _ ← f x; each_effect f l'
  end.

(** ** Rewriting and automation *)
Create HintDb relay discriminated.

Lemma bind_Ok {E A B} (f : A → outcome E B) (m : outcome E A) b :
  m ≫= f = Ok b ↔ ∃ a, m = Ok a ∧ f a = Ok b.
Proof. destruct m; cbn; naive_solver. Qed.

Lemma bind_no_panic {E A B} (f : A → outcome E B) (m : outcome E A) :
  no_panic m → (∀ a, m = Ok a → no_panic (f a)) → no_panic (m ≫= f).
Proof. destruct m; unfold no_panic; cbn; naive_solver. Qed.

Lemma Ok_no_panic {E A} (a : A) : no_panic (@Ok E A a).
Proof. by intros w. Qed.

Lemma Err_no_panic {E A} (e : E) : no_panic (@Err E A e).
Proof. by intros w. Qed.

Lemma map_err_Ok {E F A} (f : E → F) (m : outcome E A) a :
  map_err f m = Ok a ↔ m = Ok a.
Proof. destruct m; cbn; naive_solver. Qed.

Lemma map_err_no_panic {E F A} (f : E → F) (m : outcome E A) :
  no_panic m → no_panic (map_err f m).
Proof. destruct m; unfold no_panic; cbn; naive_solver. Qed.

#[export] Hint Resolve Ok_no_panic Err_no_panic map_err_no_panic bind_no_panic : relay.

(** Case analysis on a successful computation: opens binds and mapped errors. *)
Ltac inv_ok :=
  repeat match goal with
  | H : mret _ = _ |- _ => unfold mret, outcome_ret in H
  | H : @Ok _ _ _ = Ok _ |- _ => injection H as H; try subst
  | H : Err _ = Ok _ |- _ => discriminate H
  | H : Panic _ = Ok _ |- _ => discriminate H
  | H : Ok _ = Err _ |- _ => discriminate H
  | H : _ ≫= _ = Ok _ |- _ =>
      let a := fresh "a" in let H1 := fresh H in
      apply bind_Ok in H as (a & H1 & H)
  | H : map_err _ _ = Ok _ |- _ => apply map_err_Ok in H
  end.

(** Case analysis on every [match] of a hypothesis. *)
Ltac split_match_in H :=
  repeat (match type of H with
  | context [match ?x with _ => _ end] =>
      let E := fresh "E" in destruct x eqn:E; try discriminate H
  end).

(** Running a sequence of effects. *)
Lemma effect_bind_run {E W A B} (m : effect E W A) (f : A → effect E W B) w :
  (m ≫= f) w = match m w with
               | (Ok a, w') => f a w'
               | (Err e, w') => (Err e, w')
               | (Panic s, w') => (Panic s, w')
               end.
Proof. done. Qed.

Lemma effect_ret_run {E W A} (a : A) w : (mret a : effect E W A) w = (Ok a, w).
Proof. done. Qed.

(** A call whose result is wrapped. *)
Lemma effect_map_Ok {E W A B} (m : effect E W A) (f : A → B) w b w' :
  (a ← m; mret (f a)) w = (Ok b, w') → ∃ a, m w = (Ok a, w') ∧ f a = b.
Proof.
  rewrite effect_bind_run. destruct (m w) as [[a| |] w1]; [|done..].
  intros [= <- <-]. by exists a.
Qed.

(** ** Lists *)
Lemma mapM_Ok {E A B} (f : A → outcome E B) l k :
  mapM f l = Ok k ↔ Forall2 (λ x y, f x = Ok y) l k.
Proof.
  split.
  - revert k. induction l as [|x l IH]; intros k H; cbn in H; inv_ok; [constructor|].
    constructor; eauto.
  - induction 1 as [|x y l k Hxy _ IH]; cbn; [done|]. rewrite Hxy. cbn. by rewrite IH.
Qed.

Lemma mapM_no_panic {E A B} (f : A → outcome E B) l :
  (∀ x, x ∈ l → no_panic (f x)) → no_panic (mapM f l).
Proof.
  induction l as [|x l IH]; intros H; cbn; [apply Ok_no_panic|].
  apply bind_no_panic; [apply H; left|]. intros y _.
  apply bind_no_panic; [apply IH; intros; apply H; by right|].
  intros; apply Ok_no_panic.
Qed.

Lemma mapM_ext {E A B} (f g : A → outcome E B) l :
  (∀ x, x ∈ l → f x = g x) → mapM f l = mapM g l.
Proof.
  induction l as [|x l IH]; intros H; cbn; [done|].
  rewrite (H x); [|left]. destruct (g x); cbn; [|done..].
  rewrite IH; [done|]. intros; apply H; by right.
Qed.

Lemma fold_outcome_no_panic {E A S} (f : S → A → outcome E S) l :
  (∀ s x, x ∈ l → no_panic (f s x)) → ∀ s, no_panic (fold_outcome f s l).
Proof.
  induction l as [|x l IH]; intros H s; cbn; [apply Ok_no_panic|].
  apply bind_no_panic; [apply H; left|]. intros s' _. apply IH.
  intros; apply H; by right.
Qed.

Lemma fold_outcome_app {E A S} (f : S → A → outcome E S) l1 l2 s :
  fold_outcome f s (l1 ++ l2) = fold_outcome f s l1 ≫= λ s', fold_outcome f s' l2.
Proof.
  revert s; induction l1 as [|x l1 IH]; intros s; cbn; [done|].
  destruct (f s x); cbn; [apply IH|done..].
Qed.

Lemma fold_outcome_ext {E A S} (f g : S → A → outcome E S) l :
  (∀ s x, x ∈ l → f s x = g s x) → ∀ s, fold_outcome f s l = fold_outcome g s l.
Proof.
  induction l as [|x l IH]; intros H s; cbn; [done|]. rewrite H by left.
  destruct (g s x); cbn; [|done..]. apply IH. intros; apply H; by right.
Qed.

(** A strictly sorted list is determined by its elements. *)
Lemma Sorted_strict_unique {A} (R : relation A) `{!Transitive R, !Irreflexive R} l1 l2 :
  Sorted R l1 → Sorted R l2 → l1 ≡ₚ l2 → l1 = l2.
Proof.
  intros H1 H2. apply Sorted_StronglySorted in H1, H2; [|done..].
  revert l2 H2. induction H1 as [|x l1 Hl1 IH Hx]; intros l2 H2 Hp.
  { by apply Permutation_nil_l in Hp as ->. }
  destruct H2 as [|y l2 Hl2 Hy]; [by apply Permutation_nil_r in Hp|].
  assert (x = y) as ->.
  { assert (Hxin : x ∈ y :: l2) by (rewrite <- Hp; left).
    assert (Hyin : y ∈ x :: l1) by (rewrite Hp; left).
    apply elem_of_cons in Hxin as [?|Hxin]; [done|].
    apply elem_of_cons in Hyin as [?|Hyin]; [done|].
    rewrite Forall_forall in Hx, Hy. exfalso.
    apply (irreflexivity R x). by transitivity y; [apply Hx|apply Hy]. }
  f_equal. apply IH; [done|]. by apply Permutation_cons_inv in Hp.
Qed.

Lemma forallb_Forall {A} (p : A → bool) l : forallb p l = true ↔ Forall (λ x, p x = true) l.
Proof. rewrite forallb_forall, List.Forall_forall. done. Qed.

(** ** Maps of computations

    A loop that fills a new map from the entries of an old one and returns at the
    first error.  [l] lists the entries in the order they are visited. *)
Definition sequence_entries {E A} (l : list (string * outcome E A))
    : outcome E (gmap string A) :=
  l' ← mapM (λ kr, a ← kr.2; Ok (kr.1, a)) l; Ok (list_to_map l').

Lemma sequence_entries_Ok_list {E A} (l : list (string * outcome E A)) m' :
  sequence_entries l = Ok m' →
  ∃ l', l = prod_map id Ok <$> l' ∧ m' = list_to_map l'.
Proof.
  unfold sequence_entries. intros H. inv_ok. exists a. split; [|done].
  apply mapM_Ok in H0. induction H0 as [|x y l l' Hxy Hl IH]; [done|].
  destruct x as [k r]. cbn in *. destruct r; try discriminate Hxy.
  injection Hxy as <-. by rewrite IH.
Qed.

Lemma mapM_entries_Ok {E A} (l' : list (string * A)) :
  mapM (λ kr : string * outcome E A, a ← kr.2; Ok (kr.1, a)) (prod_map id Ok <$> l') = Ok l'.
Proof. apply mapM_Ok. induction l' as [|[k a] l' IH]; cbn; constructor; done. Qed.

(** The loop succeeds exactly when every entry does, in whatever order it runs. *)
Lemma sequence_entries_Ok {E A} (m : gmap string (outcome E A)) l m' :
  l ≡ₚ map_to_list m → sequence_entries l = Ok m' ↔ m = Ok <$> m'.
Proof.
  intros Hl. split.
  - intros H. apply sequence_entries_Ok_list in H as (l' & -> & ->).
    rewrite <- list_to_map_fmap, (list_to_map_proper _ (map_to_list m)).
    + by rewrite list_to_map_to_list.
    + rewrite Hl. apply NoDup_fst_map_to_list.
    + done.
  - intros ->. rewrite map_to_list_fmap in Hl. apply Permutation_map_inv in Hl as (l' & -> & Hp).
    unfold sequence_entries. change (List.map ?f ?l) with (f <$> l).
    rewrite mapM_entries_Ok. cbn. f_equal. symmetry in Hp.
    rewrite (list_to_map_proper l' (map_to_list m')); [apply list_to_map_to_list| |done].
    rewrite Hp. apply NoDup_fst_map_to_list.
Qed.

Lemma sequence_entries_no_panic {E A} (l : list (string * outcome E A)) :
  Forall (λ kr, no_panic kr.2) l → no_panic (sequence_entries l).
Proof.
  intros H. rewrite Forall_forall in H. apply bind_no_panic.
  - apply mapM_no_panic. intros kr Hkr. apply bind_no_panic; [by apply H|].
    intros; apply Ok_no_panic.
  - intros; apply Ok_no_panic.
Qed.

Definition sequence_map {E A} (m : gmap string (outcome E A)) : outcome E (gmap string A) :=
  sequence_entries (map_to_list m).

Lemma sequence_map_Ok {E A} (m : gmap string (outcome E A)) m' :
  sequence_map m = Ok m' ↔ m = Ok <$> m'.
Proof. by apply sequence_entries_Ok. Qed.

Lemma fmap_Ok_inv {E A B} (f : A → outcome E B) (m : gmap string A) m' :
  f <$> m = Ok <$> m' →
  ∀ k, match m !! k, m' !! k with
       | Some x, Some y => f x = Ok y
       | None, None => True
       | _, _ => False
       end.
Proof.
  intros H k. assert (Hk := f_equal (.!! k) H). rewrite !lookup_fmap in Hk.
  destruct (m !! k), (m' !! k); cbn in Hk; try discriminate; [|done]. by injection Hk.
Qed.

Lemma fmap_Ok_intro {E A B} (f : A → outcome E B) (m : gmap string A) m' :
  (∀ k, match m !! k, m' !! k with
        | Some x, Some y => f x = Ok y
        | None, None => True
        | _, _ => False
        end) → f <$> m = Ok <$> m'.
Proof.
  intros H. apply map_eq. intros k. specialize (H k). rewrite !lookup_fmap.
  destruct (m !! k), (m' !! k); cbn; try done. by rewrite H.
Qed.

(** Choosing a result for every element of a list or entry of a map. *)
Lemma Forall_exists_Forall2 {A B} (R : A → B → Prop) l :
  Forall (λ x, ∃ y, R x y) l → ∃ k, Forall2 R l k.
Proof.
  induction 1 as [|x l [y Hy] _ [k Hk]]; [by exists []|]. exists (y :: k). by constructor.
Qed.

(** Two maps with the same keys and related entries. *)
Definition map_related {A B} (R : string → A → B → Prop) (m : gmap string A) (n : gmap string B)
    : Prop :=
  ∀ k, match m !! k, n !! k with
       | Some x, Some y => R k x y
       | None, None => True
       | _, _ => False
       end.

Lemma map_exists_related {A B} (R : string → A → B → Prop) m :
  map_Forall (λ k x, ∃ y, R k x y) m → ∃ n, map_related R m n.
Proof.
  induction m as [|k x m Hk IH] using map_ind; intros Hm.
  { exists ∅. intros k. by rewrite !lookup_empty. }
  apply map_Forall_insert in Hm as [[y Hy] Hm]; [|done]. destruct (IH Hm) as [n Hn].
  exists (<[k := y]> n). intros k'. destruct (decide (k = k')) as [->|Hne].
  - by rewrite !lookup_insert_eq.
  - rewrite !lookup_insert_ne by done. apply Hn.
Qed.

Lemma map_related_Some {A B} (R : string → A → B → Prop) m n k x :
  map_related R m n → m !! k = Some x → ∃ y, n !! k = Some y ∧ R k x y.
Proof. intros H Hk. specialize (H k). rewrite Hk in H. destruct (n !! k); naive_solver. Qed.

Lemma map_related_Some_r {A B} (R : string → A → B → Prop) m n k y :
  map_related R m n → n !! k = Some y → ∃ x, m !! k = Some x ∧ R k x y.
Proof. intros H Hk. specialize (H k). rewrite Hk in H. destruct (m !! k); naive_solver. Qed.

Lemma map_related_fmap_Ok {E A B} (f : A → outcome E B) (m : gmap string A) m' :
  f <$> m = Ok <$> m' ↔ map_related (λ _ x y, f x = Ok y) m m'.
Proof. split; [intros H; exact (fmap_Ok_inv f m m' H)|apply (fmap_Ok_intro f)]. Qed.
