(* ===== verification/GoStd.v ===== *)
(** * The parts of Go's runtime and standard library the code uses

    Go strings are byte strings, so they are Rocq [string]s (lists of 8-bit
    characters).  What Go leaves unspecified (the order a [range] over a map visits
    its entries, the order a hash set lists its elements, the algorithm of
    [sort.Sort]) is an interface, [GoRuntime], with its documented laws,
    [GoRuntimeLaws]; results that hold for every lawful runtime are deterministic in
    the real program. *)
From S2P Require Import Prelude.

(** ** The unspecified choices of the runtime *)
Class GoRuntime := {
  (* the entries of a map in the order one [range] visits them *)
  range_map : ∀ {A : Type}, gmap string A → list (string * A);
  (* the order in which a hash set yields its (distinct) elements *)
  set_order : ∀ {A : Type}, list A → list A;
  (* sort.Sort with the Less method given *)
  go_sort : ∀ {A : Type}, (A → A → bool) → list A → list A;
}.

(** [Less] is a strict order in the sense sort.Interface asks for. *)
Definition less_strict {A} (less : A → A → bool) : Prop :=
  (∀ x, less x x = false) ∧ (∀ x y z, less x y = true → less y z = true → less x z = true).

(** [Less] tells any two distinct elements apart. *)
Definition less_total {A} (less : A → A → bool) : Prop :=
  ∀ x y, less x y = true ∨ x = y ∨ less y x = true.

Class GoRuntimeLaws (R : GoRuntime) : Prop := {
  range_map_perm : ∀ A (m : gmap string A), range_map m ≡ₚ map_to_list m;
  set_order_perm : ∀ A (l : list A), set_order l ≡ₚ l;
  go_sort_perm : ∀ A (less : A → A → bool) l, go_sort less l ≡ₚ l;
  go_sort_sorted : ∀ A (less : A → A → bool) l,
    less_strict less → less_total less →
    Sorted (λ x y, less y x = false) (go_sort less l);
}.

Lemma elem_of_range_map `{GoRuntimeLaws} {A} (m : gmap string A) k v :
  (k, v) ∈ range_map m ↔ m !! k = Some v.
Proof. rewrite range_map_perm. apply elem_of_map_to_list. Qed.

Lemma range_map_NoDup `{GoRuntimeLaws} {A} (m : gmap string A) :
  NoDup (range_map m).*1.
Proof. rewrite range_map_perm. apply NoDup_fst_map_to_list. Qed.

Lemma list_to_range_map `{GoRuntimeLaws} {A} (m : gmap string A) :
  list_to_map (range_map m) = m.
Proof.
  rewrite (list_to_map_proper (range_map m) (map_to_list m)).
  - apply list_to_map_to_list.
  - apply range_map_NoDup.
  - apply range_map_perm.
Qed.

(** A map with one entry has one order. *)
Lemma range_map_single `{GoRuntimeLaws} {A} (m : gmap string A) :
  size m = 1 → ∃ k v, m = {[k := v]} ∧ range_map m = [(k, v)].
Proof.
  intros Hs. assert (Hp := range_map_perm A m).
  assert (length (range_map m) = 1) as Hl by (by rewrite Hp, length_map_to_list).
  destruct (range_map m) as [|[k v] [|]] eqn:E; try discriminate Hl.
  exists k, v. split; [|done]. rewrite <- (list_to_range_map m), E. apply insert_empty.
Qed.

(** A loop that inserts the result of a call for each entry. *)
Section insert_results.
Context `{GoRuntimeLaws} {E A B : Type} (f : A → outcome E B).

Definition insert_result (acc : gmap string B) (kv : string * A) : outcome E (gmap string B) :=
  b ← f kv.2; Ok (<[kv.1 := b]> acc).

Lemma fold_insert_Ok l acc r :
  NoDup l.*1 →
  fold_outcome insert_result acc l = Ok r ↔
  (∀ k a, (k, a) ∈ l → ∃ b, f a = Ok b ∧ r !! k = Some b) ∧ (∀ k, k ∉ l.*1 → r !! k = acc !! k).
Proof.
  revert acc. induction l as [|[k v] l IH]; intros acc Hn; cbn [fold_outcome].
  - split.
    + intros [= ->]. split; [intros k a Hin; by apply elem_of_nil in Hin|done].
    + intros [_ Hr]. f_equal. apply map_eq. intros k. symmetry. apply Hr, not_elem_of_nil.
  - cbn in Hn. apply NoDup_cons in Hn as [Hk Hn]. cbn [fmap list_fmap fst].
    rewrite bind_Ok. split.
    + unfold insert_result at 1. cbn [fst snd]. intros (acc' & Hm & Ho).
      apply bind_Ok in Hm as (b & Hb & [= <-]). apply IH in Ho as [H1 H2]; [|done].
      split.
      * intros k' a [[= -> ->]|Hin]%elem_of_cons; [|by apply H1].
        exists b. rewrite H2 by done. by rewrite lookup_insert_eq.
      * intros k' [Hne Hk']%not_elem_of_cons. rewrite H2 by done. by rewrite lookup_insert_ne.
    + intros [H1 H2]. destruct (H1 k v (list_elem_of_here _ _)) as (b & Hb & Hr).
      exists (<[k := b]> acc). split; [unfold insert_result; cbn; by rewrite Hb|]. apply IH; [done|]. split.
      * intros k' a Hin. apply H1. by right.
      * intros k' Hk'. destruct (decide (k = k')) as [<-|Hne]; [by rewrite lookup_insert_eq|].
        rewrite lookup_insert_ne by done. apply H2. cbn. rewrite elem_of_cons. naive_solver.
Qed.

Lemma range_insert_Ok m r :
  fold_outcome insert_result ∅ (range_map m) = Ok r ↔ map_related (λ _ a b, f a = Ok b) m r.
Proof.
  rewrite fold_insert_Ok by apply range_map_NoDup. split.
  - intros [H1 H2] k. destruct (m !! k) as [a|] eqn:Ek.
    + apply elem_of_range_map in Ek. destruct (H1 k a Ek) as (b & Hb & ->). done.
    + rewrite H2; [done|]. intros ([k' a] & -> & Hin)%list_elem_of_fmap.
      apply elem_of_range_map in Hin. cbn in Ek. congruence.
  - intros Hr. split.
    + intros k a Hin%elem_of_range_map. specialize (Hr k). rewrite Hin in Hr.
      destruct (r !! k) as [b|]; [by exists b|done].
    + intros k Hk. specialize (Hr k). destruct (m !! k) as [a|] eqn:Ek.
      * destruct Hk. apply elem_of_range_map in Ek. by apply (list_elem_of_fmap_2 fst _ _ Ek).
      * by destruct (r !! k).
Qed.
End insert_results.

(** A loop that computes one result per entry computes a related map, and every
    related map is computed that way. *)
Section range_related.
Context {Rt : GoRuntime} {RL : GoRuntimeLaws Rt} {A B : Type}.
Implicit Types (R : string → A → B → Prop) (m : gmap string A) (n : gmap string B).

Definition entries_of (l : list (string * A)) (ws : list B) : list (string * B) :=
  zip_with (λ kv w, (kv.1, w)) l ws.

Lemma entries_related R l ws :
  NoDup l.*1 → Forall2 (λ kv w, R kv.1 kv.2 w) l ws →
  map_related R (list_to_map l) (list_to_map (entries_of l ws)).
Proof.
  intros Hnd Hl. induction Hl as [|[k v] w l ws Hkv Hl IH]; cbn.
  { intros k. by rewrite !lookup_empty. }
  apply NoDup_cons in Hnd as [Hk Hnd]. intros k'. destruct (decide (k = k')) as [->|Hne].
  - by rewrite !lookup_insert_eq.
  - rewrite !lookup_insert_ne by done. by apply IH.
Qed.

Lemma range_related R m ws :
  Forall2 (λ kv w, R kv.1 kv.2 w) (range_map m) ws →
  map_related R m (list_to_map (entries_of (range_map m) ws)).
Proof.
  intros Hl. rewrite <- (list_to_range_map m) at 1. apply entries_related; [|done].
  apply range_map_NoDup.
Qed.

Lemma range_related_inv R m n :
  map_related R m n →
  ∃ ws, Forall2 (λ kv w, R kv.1 kv.2 w) (range_map m) ws
        ∧ n = list_to_map (entries_of (range_map m) ws).
Proof.
  intros Hmn.
  assert (∃ ws, Forall2 (λ kv w, n !! kv.1 = Some w ∧ R kv.1 kv.2 w) (range_map m) ws)
    as [ws Hws].
  { apply Forall_exists_Forall2, Forall_forall. intros [k v] Hkv.
    apply elem_of_range_map in Hkv.
    destruct (map_related_Some _ _ _ _ _ Hmn Hkv) as (w & ? & ?). by exists w. }
  exists ws. split; [by eapply Forall2_impl; [done|]; intros ?? []|].
  assert (Hr : map_related (λ k _ w, n !! k = Some w) m
      (list_to_map (entries_of (range_map m) ws))).
  { apply range_related. eapply Forall2_impl; [done|]. by intros ?? []. }
  apply map_eq. intros k. specialize (Hr k). specialize (Hmn k).
  destruct (m !! k), (list_to_map _ !! k), (n !! k); naive_solver.
Qed.
End range_related.

Section sorting.
Context {A : Type} (less : A → A → bool).
Context (Hs : less_strict less) (Ht : less_total less).

#[local] Instance less_transitive : Transitive (λ x y, less x y = true).
Proof. intros x y z. apply Hs. Qed.
#[local] Instance less_irreflexive : Irreflexive (λ x y, less x y = true).
Proof. intros x H. pose proof (proj1 Hs x). cbn in H. congruence. Qed.

Lemma not_less_sorted_strict l :
  NoDup l → Sorted (λ x y, less y x = false) l → Sorted (λ x y, less x y = true) l.
Proof.
  intros Hnd H. induction H as [|x l Hl IH Hx]; [constructor|].
  apply NoDup_cons in Hnd as [Hxl Hnd]. constructor; [by apply IH|].
  destruct Hx as [|y l Hyx]; constructor.
  destruct (Ht x y) as [?|[->|?]]; [done| |congruence].
  exfalso. apply Hxl. left.
Qed.

(** Sorting distinct elements by a total strict [Less] has one possible result. *)
Lemma go_sort_unique {R1 R2} `{!GoRuntimeLaws R1} `{!GoRuntimeLaws R2} (l1 l2 : list A) :
  NoDup l1 → l1 ≡ₚ l2 → @go_sort R1 A less l1 = @go_sort R2 A less l2.
Proof.
  intros Hnd Hp. apply (Sorted_strict_unique (λ x y, less x y = true)).
  - apply not_less_sorted_strict; [by rewrite go_sort_perm|by apply go_sort_sorted].
  - apply not_less_sorted_strict; [by rewrite go_sort_perm, <- Hp|by apply go_sort_sorted].
  - by rewrite !go_sort_perm.
Qed.
End sorting.

(** *** Two lawful runtimes

    Both sort by insertion; they differ in the order they visit maps and sets. *)
Section insertion.
Context {A : Type} (less : A → A → bool).

Fixpoint insert_sorted (x : A) (l : list A) : list A :=
  match l with
  | [] => [x]
  | y :: l' => if less y x then y :: insert_sorted x l' else x :: l
  end.

Fixpoint insertion_sort (l : list A) : list A :=
  match l with
  | [] => []
  | x :: l' => insert_sorted x (insertion_sort l')
  end.

Lemma insert_sorted_perm x l : insert_sorted x l ≡ₚ x :: l.
Proof.
  induction l as [|y l IH]; cbn; [done|]. destruct (less y x); [|done].
  rewrite IH. constructor.
Qed.

Lemma insertion_sort_perm l : insertion_sort l ≡ₚ l.
Proof. induction l as [|x l IH]; cbn; [done|]. by rewrite insert_sorted_perm, IH. Qed.

Lemma insert_sorted_sorted x l :
  less_strict less → less_total less →
  Sorted (λ x y, less y x = false) l →
  Sorted (λ x y, less y x = false) (insert_sorted x l).
Proof.
  intros [Hirr Htr] Ht. induction 1 as [|y l Hl IH Hy]; cbn; [repeat constructor|].
  destruct (less y x) eqn:E.
  - constructor; [done|]. assert (Hxy : less x y = false).
    { destruct (less x y) eqn:E'; [|done]. by rewrite <- (Htr x y x E' E), Hirr. }
    destruct Hy as [|z l Hzy]; cbn; [by constructor|].
    destruct (less z x); by constructor.
  - constructor; constructor; done.
Qed.

Lemma insertion_sort_sorted l :
  less_strict less → less_total less →
  Sorted (λ x y, less y x = false) (insertion_sort l).
Proof. intros. induction l; cbn; [constructor|by apply insert_sorted_sorted]. Qed.
End insertion.

Definition forward_runtime : GoRuntime := {|
  range_map A m := map_to_list m;
  set_order A l := l;
  go_sort A less l := insertion_sort less l;
|}.

Definition backward_runtime : GoRuntime := {|
  range_map A m := reverse (map_to_list m);
  set_order A l := reverse l;
  go_sort A less l := insertion_sort less l;
|}.

#[export] Instance forward_runtime_laws : GoRuntimeLaws forward_runtime.
Proof.
  split; cbn; intros; [done|done|apply insertion_sort_perm|by apply insertion_sort_sorted].
Qed.

#[export] Instance backward_runtime_laws : GoRuntimeLaws backward_runtime.
Proof.
  split; cbn; intros;
    [apply reverse_Permutation|apply reverse_Permutation|apply insertion_sort_perm
    |by apply insertion_sort_sorted].
Qed.
