(* ===== verification/GoStrings.v ===== *)
(** * Go's [strings], [path], [encoding/hex] and [crypto/sha1], as the code uses them *)
From stdpp Require Import pretty.
From S2P Require Import Prelude.
From Stdlib Require Import NArith.

(** ** Strings *)
Lemma string_app_cons a (s t : string) : String a s +:+ t = String a (s +:+ t).
Proof. done. Qed.

Lemma string_app_nil (t : string) : "" +:+ t = t.
Proof. done. Qed.

(** Evaluation that opens appends (stdpp keeps them folded). *)
Ltac str_simpl := repeat (progress (cbn in *; rewrite ?string_app_cons, ?string_app_nil in * )).

Definition slash : ascii := "/"%char.

(** [strings.Split(s, c)] for a one-byte separator. *)
Fixpoint split_on (c : ascii) (s : string) : list string :=
  match s with
  | EmptyString => [""]
  | String a s' =>
      if Ascii.eqb a c then "" :: split_on c s'
      else match split_on c s' with
           | [] => [String a ""]
           | h :: t => String a h :: t
           end
  end.

(** [strings.SplitN(s, c, 2)]: [None] when [c] does not occur. *)
Fixpoint cut (c : ascii) (s : string) : option (string * string) :=
  match s with
  | EmptyString => None
  | String a s' =>
      if Ascii.eqb a c then Some ("", s')
      else match cut c s' with
           | Some (h, t) => Some (String a h, t)
           | None => None
           end
  end.

(** [strings.Join]. *)
Fixpoint join (sep : string) (l : list string) : string :=
  match l with
  | [] => ""
  | [s] => s
  | s :: l' => s +:+ sep +:+ join sep l'
  end.

Definition has_prefix (p s : string) : bool := String.prefix p s.

Lemma has_prefix_cons a b p s :
  has_prefix (String a p) (String b s) = (Ascii.eqb a b && has_prefix p s).
Proof.
  unfold has_prefix. cbn -[ascii_dec]. destruct (ascii_dec a b) as [->|Hne].
  - by rewrite Ascii.eqb_refl.
  - by rewrite (proj2 (Ascii.eqb_neq _ _) Hne).
Qed.

Lemma has_prefix_spec p s : has_prefix p s = true ↔ ∃ r, s = p +:+ r.
Proof.
  revert s. induction p as [|a p IH]; intros s.
  - split; [intros _; by exists s|]. by destruct s.
  - destruct s as [|b s].
    + split; [done|]. intros [r Hr]. by rewrite string_app_cons in Hr.
    + rewrite has_prefix_cons, andb_true_iff, Ascii.eqb_eq, IH. split.
      * intros [-> [r ->]]. by exists r.
      * intros [r Hr]. rewrite string_app_cons in Hr. injection Hr as -> ->. eauto.
Qed.

Fixpoint drop_string (n : nat) (s : string) : string :=
  match n, s with
  | O, _ => s
  | S n', String _ s' => drop_string n' s'
  | S _, EmptyString => ""
  end.

(** [strings.TrimPrefix(s, p)]. *)
Definition trim_prefix (s p : string) : string :=
  if has_prefix p s then drop_string (String.length p) s else s.

Fixpoint string_elem (c : ascii) (s : string) : bool :=
  match s with
  | EmptyString => false
  | String a s' => Ascii.eqb a c || string_elem c s'
  end.

Lemma string_elem_app c s1 s2 :
  string_elem c (s1 +:+ s2) = string_elem c s1 || string_elem c s2.
Proof.
  induction s1 as [|a s1 IH]; str_simpl; [done|]. by rewrite IH, Bool.orb_assoc.
Qed.

Lemma app_string_assoc (s1 s2 s3 : string) : (s1 +:+ s2) +:+ s3 = s1 +:+ (s2 +:+ s3).
Proof. induction s1 as [|a s1 IH]; str_simpl; [done|]. by rewrite IH. Qed.

Lemma app_string_nil_r (s : string) : s +:+ "" = s.
Proof. induction s as [|a s IH]; str_simpl; [done|]. by rewrite IH. Qed.

Lemma length_app_string (s1 s2 : string) :
  String.length (s1 +:+ s2) = String.length s1 + String.length s2.
Proof. induction s1 as [|a s1 IH]; str_simpl; [done|]. by rewrite IH. Qed.

Lemma app_string_inj_l (s s1 s2 : string) : s +:+ s1 = s +:+ s2 → s1 = s2.
Proof. induction s as [|a s IH]; str_simpl; [done|]. intros [=]. auto. Qed.

(** Two strings cut at their first separator agree piecewise. *)
Lemma sep_inj c s1 s2 t1 t2 :
  string_elem c s1 = false → string_elem c s2 = false →
  s1 +:+ String c t1 = s2 +:+ String c t2 → s1 = s2 ∧ t1 = t2.
Proof.
  revert s2. induction s1 as [|a s1 IH]; intros [|b s2] H1 H2 E; str_simpl.
  - by injection E as ->.
  - injection E as -> E. by rewrite Ascii.eqb_refl in H2.
  - injection E as -> E. by rewrite Ascii.eqb_refl in H1.
  - injection E as -> E. apply orb_false_elim in H1 as [_ H1], H2 as [_ H2].
    destruct (IH s2 H1 H2 E) as [-> ->]. done.
Qed.

Lemma sep_absent c s s2 t2 :
  string_elem c s = false → s ≠ s2 +:+ String c t2.
Proof.
  intros H ->. rewrite string_elem_app in H. cbn in H. rewrite Ascii.eqb_refl in H.
  by rewrite Bool.orb_true_r in H.
Qed.

Lemma cut_Some c s h t : cut c s = Some (h, t) → s = h +:+ String c t.
Proof.
  revert h t. induction s as [|a s IH]; intros h t E; [done|]. cbn in E.
  destruct (Ascii.eqb_spec a c) as [->|Hne]; [by injection E as <- <-|].
  destruct (cut c s) as [[h' t']|]; [|done]. injection E as <- <-. by rewrite (IH h' t').
Qed.

Lemma cut_app c h t : string_elem c h = false → cut c (h +:+ String c t) = Some (h, t).
Proof.
  induction h as [|a h IH]; intros Hh; str_simpl.
  - by rewrite Ascii.eqb_refl.
  - apply orb_false_elim in Hh as [Ha Hh]. by rewrite Ha, IH.
Qed.

Lemma split_on_not_nil c s : split_on c s ≠ [].
Proof.
  destruct s as [|a s]; cbn; [done|]. destruct (Ascii.eqb a c); [done|].
  by destruct (split_on c s).
Qed.

Lemma split_on_app c s t :
  string_elem c s = false → split_on c (s +:+ String c t) = s :: split_on c t.
Proof.
  induction s as [|a s IH]; str_simpl; intros H; [by rewrite Ascii.eqb_refl|].
  apply orb_false_elim in H as [-> H]. by rewrite IH.
Qed.

Lemma split_on_single c s : string_elem c s = false → split_on c s = [s].
Proof.
  induction s as [|a s IH]; cbn; intros H; [done|].
  apply orb_false_elim in H as [-> H]. by rewrite IH.
Qed.

Lemma split_on_join c l :
  l ≠ [] → Forall (λ s, string_elem c s = false) l →
  split_on c (join (String c "") l) = l.
Proof.
  induction l as [|s l IH]; [done|]. intros _ H.
  apply Forall_cons in H as [Hs Hl]. destruct l as [|s' l]; cbn [join].
  - by apply split_on_single.
  - change (String c "" +:+ ?r) with (String c r). rewrite split_on_app by done.
    f_equal. by apply IH.
Qed.

(** ** [path.Clean] and [path.Join] *)

(** One segment of the path, against the segments kept so far (last first). *)
Definition clean_segment (rooted : bool) (out : list string) (seg : string)
    : list string :=
  if String.eqb seg "" then out
  else if String.eqb seg "." then out
  else if String.eqb seg ".." then
    match out with
    | [] => if rooted then [] else [".."]
    | top :: rest => if String.eqb top ".." then ".." :: out else rest
    end
  else seg :: out.

Definition path_clean (p : string) : string :=
  let rooted := has_prefix "/" p in
  let out := join "/" (reverse (foldl (clean_segment rooted) [] (split_on slash p))) in
  if rooted then "/" +:+ out
  else if String.eqb out "" then "." else out.

(** [path.Join]: leading empty elements are skipped, the rest is joined and cleaned. *)
Fixpoint path_join (elem : list string) : string :=
  match elem with
  | [] => ""
  | e :: elem' => if String.eqb e "" then path_join elem' else path_clean (join "/" elem)
  end.

(** A path element that [path.Clean] leaves alone. *)
Definition clean_element (s : string) : bool :=
  negb (String.eqb s "") && negb (String.eqb s ".") && negb (String.eqb s "..")
  && negb (string_elem slash s).

Lemma clean_element_spec s :
  clean_element s = true ↔
  s ≠ "" ∧ s ≠ "." ∧ s ≠ ".." ∧ string_elem slash s = false.
Proof.
  unfold clean_element. rewrite !andb_true_iff, !negb_true_iff, !String.eqb_neq. tauto.
Qed.

Lemma clean_segments_clean rooted out l :
  Forall (λ s, clean_element s = true) l →
  foldl (clean_segment rooted) out l = reverse l ++ out.
Proof.
  revert out. induction l as [|s l IH]; intros out H; cbn [foldl]; [done|].
  apply Forall_cons in H as [Hs Hl]. apply clean_element_spec in Hs as (H1 & H2 & H3 & _).
  rewrite IH by done. rewrite reverse_cons, <- app_assoc. unfold clean_segment.
  by rewrite !(proj2 (String.eqb_neq _ _)).
Qed.

Lemma join_slash_clean l :
  l ≠ [] → Forall (λ s, clean_element s = true) l →
  join "/" l ≠ "" ∧ has_prefix "/" (join "/" l) = false.
Proof.
  destruct l as [|s l]; [done|]. intros _ H. apply Forall_cons in H as [Hs _].
  apply clean_element_spec in Hs as (H1 & _ & _ & H4).
  destruct s as [|a s]; [done|]. cbn in H4. apply orb_false_elim in H4 as [H4 _].
  apply Ascii.eqb_neq in H4. unfold slash in H4.
  destruct l as [|s' l]; unfold has_prefix; cbn -[ascii_dec];
    rewrite ?string_app_cons; cbn -[ascii_dec];
    destruct (ascii_dec "/" a); split; congruence.
Qed.

Lemma split_join_clean l :
  l ≠ [] → Forall (λ s, clean_element s = true) l → split_on slash (join "/" l) = l.
Proof.
  intros Hne H. apply (split_on_join slash); [done|]. eapply Forall_impl; [done|].
  intros s Hs. by apply clean_element_spec in Hs as (_&_&_&?).
Qed.

Lemma path_clean_clean l :
  l ≠ [] → Forall (λ s, clean_element s = true) l → path_clean (join "/" l) = join "/" l.
Proof.
  intros Hne H. destruct (join_slash_clean l Hne H) as [Hj Hp].
  unfold path_clean. rewrite Hp, split_join_clean, clean_segments_clean by done.
  rewrite app_nil_r, reverse_involutive. by rewrite (proj2 (String.eqb_neq _ _)).
Qed.

Lemma path_join_clean l :
  l ≠ [] → Forall (λ s, clean_element s = true) l → path_join l = join "/" l.
Proof.
  intros Hne H. destruct l as [|s l]; [done|]. cbn [path_join].
  assert (Hs : s ≠ "").
  { apply Forall_cons in H as [Hs _]. by apply clean_element_spec in Hs as (?&_). }
  rewrite (proj2 (String.eqb_neq _ _)) by done. by apply path_clean_clean.
Qed.

(** Clean elements can be read back from the joined path. *)
Lemma path_join_inj l1 l2 :
  l1 ≠ [] → l2 ≠ [] →
  Forall (λ s, clean_element s = true) l1 → Forall (λ s, clean_element s = true) l2 →
  path_join l1 = path_join l2 → l1 = l2.
Proof.
  intros N1 N2 H1 H2. rewrite !path_join_clean by done. intros E.
  rewrite <- (split_join_clean l1), <- (split_join_clean l2) by done. by rewrite E.
Qed.

(** ** Hexadecimal encoding *)
Definition hex_digit (n : N) : ascii :=
  match String.get (N.to_nat n) "0123456789abcdef" with
  | Some c => c
  | None => "0"%char
  end.

Fixpoint hex_encode (s : string) : string :=
  match s with
  | EmptyString => ""
  | String a s' =>
      let n := N_of_ascii a in
      String (hex_digit (n / 16)) (String (hex_digit (n mod 16)) (hex_encode s'))
  end.

Definition all_ascii : list ascii := ascii_of_nat <$> seq 0 256.

Lemma elem_of_all_ascii a : a ∈ all_ascii.
Proof.
  apply list_elem_of_fmap. exists (nat_of_ascii a).
  split; [by rewrite ascii_nat_embedding|]. apply elem_of_seq.
  pose proof (nat_ascii_bounded a). lia.
Qed.

(** A boolean property of bytes is settled by evaluating it on all of them. *)
Lemma ascii_forall (p : ascii → bool) : forallb p all_ascii = true → ∀ a, p a = true.
Proof.
  intros H a. rewrite forallb_forall in H. apply H, list_elem_of_In, elem_of_all_ascii.
Qed.

Lemma length_hex_encode s : String.length (hex_encode s) = 2 * String.length s.
Proof. induction s as [|a s IH]; cbn -[hex_digit N.div N.modulo]; [done|]. rewrite IH. lia. Qed.

Definition is_hex (c : ascii) : bool := string_elem c "0123456789abcdef".

Lemma hex_digits_is_hex a :
  is_hex (hex_digit (N_of_ascii a / 16)) && is_hex (hex_digit (N_of_ascii a mod 16)) = true.
Proof.
  revert a. apply (ascii_forall (λ a, is_hex (hex_digit (N_of_ascii a / 16))
    && is_hex (hex_digit (N_of_ascii a mod 16)))). by vm_compute.
Qed.

Lemma hex_encode_elem c s : is_hex c = false → string_elem c (hex_encode s) = false.
Proof.
  intros Hc. induction s as [|a s IH]; [done|].
  cbn -[hex_digit N.div N.modulo is_hex]. rewrite IH.
  pose proof (hex_digits_is_hex a) as H. apply andb_true_iff in H as [H1 H2].
  rewrite !(proj2 (Ascii.eqb_neq _ _)); [done| |]; intros <-; congruence.
Qed.

(** ** SHA-1 *)
Module Sha1.
Definition w32 (n : N) : N := N.land n 0xffffffff.
Definition add32 (a b : N) : N := w32 (a + b).
Definition rotl (k n : N) : N := w32 (N.lor (N.shiftl n k) (N.shiftr n (32 - k))).
Definition not32 (n : N) : N := N.lxor n 0xffffffff.

Fixpoint bytes_of_string (s : string) : list N :=
  match s with
  | EmptyString => []
  | String a s' => N_of_ascii a :: bytes_of_string s'
  end.

Definition be_byte (n : N) (i : N) : N := N.land (N.shiftr n (8 * i)) 0xff.

(* the message, 0x80, zeros up to 56 modulo 64, the bit length in 8 bytes *)
Definition pad (m : list N) : list N :=
  let len := N.of_nat (length m) in
  let zeros := N.to_nat ((119 - len mod 64) mod 64) in
  m ++ [0x80%N] ++ repeat 0%N zeros
    ++ (be_byte (8 * len) <$> [7; 6; 5; 4; 3; 2; 1; 0]%N).

Fixpoint words (m : list N) : list N :=
  match m with
  | a :: b :: c :: d :: m' =>
      (N.shiftl a 24 + N.shiftl b 16 + N.shiftl c 8 + d)%N :: words m'
  | _ => []
  end.

Fixpoint blocks (fuel : nat) (ws : list N) : list (list N) :=
  match fuel with
  | O => []
  | S fuel' => match ws with [] => [] | _ => take 16 ws :: blocks fuel' (drop 16 ws) end
  end.

(* the message schedule, kept as the last 16 words, most recent first *)
Definition next_word (last16 : list N) : N :=
  rotl 1 (N.lxor (N.lxor (nth 2 last16 0) (nth 7 last16 0))
                 (N.lxor (nth 13 last16 0) (nth 15 last16 0)))%N.

Definition round_fk (t : nat) (b c d : N) : N * N :=
  if t <? 20 then (N.lor (N.land b c) (N.land (not32 b) d), 0x5a827999%N)
  else if t <? 40 then (N.lxor b (N.lxor c d), 0x6ed9eba1%N)
  else if t <? 60 then
    (N.lor (N.lor (N.land b c) (N.land b d)) (N.land c d), 0x8f1bbcdc%N)
  else (N.lxor b (N.lxor c d), 0xca62c1d6%N).

Record digest := Digest { h0 : N; h1 : N; h2 : N; h3 : N; h4 : N }.

Fixpoint rounds (n t : nat) (pending last16 : list N) (s : digest) : digest :=
  match n with
  | O => s
  | S n' =>
      let '(w, pending') := match pending with
                            | w :: p => (w, p)
                            | [] => (next_word last16, [])
                            end in
      let '(f, k) := round_fk t (h1 s) (h2 s) (h3 s) in
      let tmp := add32 (add32 (add32 (add32 (rotl 5 (h0 s)) f) (h4 s)) k) w in
      rounds n' (S t) pending' (take 16 (w :: last16))
        (Digest tmp (h0 s) (rotl 30 (h1 s)) (h2 s) (h3 s))
  end.

Definition compress (s : digest) (block : list N) : digest :=
  let r := rounds 80 0 block [] s in
  Digest (add32 (h0 s) (h0 r)) (add32 (h1 s) (h1 r)) (add32 (h2 s) (h2 r))
         (add32 (h3 s) (h3 r)) (add32 (h4 s) (h4 r)).

Definition init : digest :=
  Digest 0x67452301 0xefcdab89 0x98badcfe 0x10325476 0xc3d2e1f0.

Definition word_bytes (w : N) : string :=
  String (ascii_of_N (be_byte w 3)) (String (ascii_of_N (be_byte w 2))
    (String (ascii_of_N (be_byte w 1)) (String (ascii_of_N (be_byte w 0)) ""))).

(** [sha1.Sum]: 20 bytes. *)
Definition sum (s : string) : string :=
  let ws := words (pad (bytes_of_string s)) in
  let d := foldl compress init (blocks (length ws) ws) in
  word_bytes (h0 d) +:+ word_bytes (h1 d) +:+ word_bytes (h2 d)
    +:+ word_bytes (h3 d) +:+ word_bytes (h4 d).

Lemma length_sum s : String.length (sum s) = 20.
Proof. unfold sum. by rewrite !length_app_string. Qed.
End Sha1.

Example sha1_abc : hex_encode (Sha1.sum "abc") = "a9993e364706816aba3e25717850c26c9cd0d89d".
Proof. by vm_compute. Qed.

Example sha1_two_blocks :
  hex_encode (Sha1.sum "abcdbcdecdefdefgefghfghighijhijkijkljklmklmnlmnomnopnopq")
  = "84983e441c3bd26ebaae4aa1f95129e5e54670f1".
Proof. by vm_compute. Qed.

Example path_join_ex : path_join ["runs"; "r1"; "steps"; "../../x"] = "runs/x".
Proof. by vm_compute. Qed.
