(* ===== verification/Values.v ===== *)
(** * Go's [interface{}] values, as the expression language carries them

    A value is one dynamic type with its content.  Maps are finite maps with
    extensional equality: the order of their entries is not part of the value, it
    is chosen by each [range] (see GoStd).  A nil map or slice is not told apart
    from an empty one; the code never builds a nil one as an expression value. *)
From Stdlib Require Export SpecFloat.
From S2P Require Import Prelude.

(** [time.Time]: its three fields, compared as a struct. *)
Record go_time := GoTime { time_wall : Z; time_ext : Z; time_loc : string }.

#[export] Instance go_time_eq_dec : EqDecision go_time.
Proof. solve_decision. Defined.

Inductive value : Type :=
| VNil
| VBool (b : bool)
| VInt (z : Z)
| VInt64 (z : Z)
| VUint (z : Z)
| VUint64 (z : Z)
| VFloat64 (f : spec_float)
| VString (s : string)
| VTime (t : go_time)
| VSlice (l : list value)
| VMap (m : gmap string value)
| VBytes (b : string)
| VJSONOrStr (encoding data : string)
| VOther (type_name : string) (content : string).

(** The result of [reflect.TypeOf]; [None] is the type of a nil interface. *)
Inductive gotype : Type :=
| TBool | TInt | TInt64 | TUint | TUint64 | TFloat64 | TString | TTime
| TSlice | TMap | TBytes | TJSONOrStr | TOther (type_name : string).

#[export] Instance gotype_eq_dec : EqDecision gotype.
Proof. solve_decision. Defined.

Definition type_of (v : value) : option gotype :=
  match v with
  | VNil => None
  | VBool _ => Some TBool
  | VInt _ => Some TInt
  | VInt64 _ => Some TInt64
  | VUint _ => Some TUint
  | VUint64 _ => Some TUint64
  | VFloat64 _ => Some TFloat64
  | VString _ => Some TString
  | VTime _ => Some TTime
  | VSlice _ => Some TSlice
  | VMap _ => Some TMap
  | VBytes _ => Some TBytes
  | VJSONOrStr _ _ => Some TJSONOrStr
  | VOther t _ => Some (TOther t)
  end.

(** [v.(string)], [v.([]interface{})], [v.(map[string]interface{})]. *)
Definition as_string (v : value) : option string :=
  match v with VString s => Some s | _ => None end.
Definition as_slice (v : value) : option (list value) :=
  match v with VSlice l => Some l | _ => None end.
Definition as_map (v : value) : option (gmap string value) :=
  match v with VMap m => Some m | _ => None end.

(** ** Size and induction *)
Fixpoint vsize (v : value) : nat :=
  match v with
  | VSlice l => S (foldr (λ v n, vsize v + n) 0 l)
  | VMap m => S (map_fold (λ _ v n, vsize v + n) 0 m)
  | _ => 1
  end.

Lemma vsize_slice v l : v ∈ l → vsize v < vsize (VSlice l).
Proof. induction 1; cbn in *; lia. Qed.

Lemma vsize_map m k v : m !! k = Some v → vsize v < vsize (VMap m).
Proof.
  intros H. cbn. rewrite (map_fold_delete_L (λ _ v n, vsize v + n) 0 k v m); [lia| |done].
  intros; lia.
Qed.

Lemma value_strong_ind (P : value → Prop) :
  (∀ v, (∀ w, vsize w < vsize v → P w) → P v) → ∀ v, P v.
Proof.
  intros H v. remember (vsize v) as n eqn:Hn. revert v Hn.
  induction (lt_wf n) as [n _ IH]. intros v ->. apply H. intros w Hw.
  by apply (IH (vsize w)).
Qed.

Definition is_leaf (v : value) : bool :=
  match v with VSlice _ | VMap _ => false | _ => true end.

(** Induction on values: the leaves, the slices, the maps. *)
Lemma value_ind' (P : value → Prop) :
  (∀ v, is_leaf v = true → P v) →
  (∀ l, Forall P l → P (VSlice l)) →
  (∀ m, map_Forall (λ _, P) m → P (VMap m)) →
  ∀ v, P v.
Proof.
  intros Hleaf Hl Hm v. induction v as [v IH] using value_strong_ind.
  destruct (is_leaf v) eqn:E; [by apply Hleaf|]. destruct v; try discriminate E.
  - apply Hl, Forall_forall. intros w Hw. by apply IH, vsize_slice.
  - apply Hm. intros k w Hw. by eapply IH, vsize_map.
Qed.

(** ** [reflect.DeepEqual] *)
Fixpoint deep_equal (a b : value) : bool :=
  match a, b with
  | VNil, VNil => true
  | VBool x, VBool y => Bool.eqb x y
  | VInt x, VInt y | VInt64 x, VInt64 y | VUint x, VUint y | VUint64 x, VUint64 y =>
      Z.eqb x y
  | VFloat64 x, VFloat64 y => SFeqb x y
  | VString x, VString y => String.eqb x y
  | VTime x, VTime y => bool_decide (x = y)
  | VBytes x, VBytes y => String.eqb x y
  | VJSONOrStr e x, VJSONOrStr f y => String.eqb e f && String.eqb x y
  | VOther t x, VOther u y => String.eqb t u && String.eqb x y
  | VSlice l, VSlice k =>
      (fix go l k :=
         match l, k with
         | [], [] => true
         | x :: l', y :: k' => deep_equal x y && go l' k'
         | _, _ => false
         end) l k
  | VMap m, VMap n =>
      Nat.eqb (size m) (size n)
      && map_fold (λ k x acc, match n !! k with
                              | Some y => deep_equal x y
                              | None => false
                              end && acc) true m
  | _, _ => false
  end.

(** Floats are compared by IEEE equality (NaN differs from itself, the two zeros
    are equal); every other leaf is compared structurally. *)
Definition not_float (v : value) : bool :=
  match v with VFloat64 _ => false | _ => true end.

Fixpoint float_free (v : value) : bool :=
  match v with
  | VFloat64 _ => false
  | VSlice l => forallb float_free l
  | VMap m => map_fold (λ _ v b, float_free v && b) true m
  | _ => true
  end.

Lemma map_fold_andb_true {A} (p : string → A → bool) (m : gmap string A) :
  map_fold (λ k x b, p k x && b) true m = true ↔ map_Forall (λ k x, p k x = true) m.
Proof.
  induction m as [|k x m Hk IH] using map_ind.
  { rewrite map_fold_empty. split; [intros _; apply map_Forall_empty|done]. }
  rewrite map_fold_insert_L, andb_true_iff, IH, map_Forall_insert; [done..| |done].
  intros. destruct (p _ _), (p _ _); cbn; done.
Qed.

Lemma float_free_map m :
  float_free (VMap m) = true ↔ map_Forall (λ _ v, float_free v = true) m.
Proof. apply (map_fold_andb_true (λ _ v, float_free v)). Qed.

Lemma deep_equal_map m n :
  deep_equal (VMap m) (VMap n) = true ↔
  size m = size n ∧
  map_Forall (λ k x, ∃ y, n !! k = Some y ∧ deep_equal x y = true) m.
Proof.
  cbn [deep_equal]. rewrite andb_true_iff, Nat.eqb_eq. apply and_iff_compat_l.
  rewrite (map_fold_andb_true
    (λ k x, match n !! k with Some y => deep_equal x y | None => false end)).
  split; intros H k x Hx; specialize (H k x Hx); cbn in *; destruct (n !! k); naive_solver.
Qed.

Lemma deep_equal_slice_cons x l y k :
  deep_equal (VSlice (x :: l)) (VSlice (y :: k)) = true ↔
  deep_equal x y = true ∧ deep_equal (VSlice l) (VSlice k) = true.
Proof. cbn. by rewrite andb_true_iff. Qed.

(** On values without floats [reflect.DeepEqual] is equality. *)
Lemma deep_equal_spec v w :
  float_free v = true → deep_equal v w = true ↔ v = w.
Proof.
  revert w. induction v as [v Hv|l IH|m IH] using value_ind'; intros w Hf.
  - destruct v; try discriminate Hv; try discriminate Hf; destruct w; cbn;
      rewrite ?andb_true_iff, ?String.eqb_eq, ?Z.eqb_eq, ?Bool.eqb_true_iff, ?bool_decide_eq_true;
      naive_solver.
  - destruct w as [| | | | | | | | |k| | | |]; try done. revert k.
    cbn in Hf. induction IH as [|x l Hx _ IHl]; intros [|y k]; try done.
    cbn in Hf. apply andb_true_iff in Hf as [Hfx Hfl].
    rewrite deep_equal_slice_cons, Hx, IHl by done. naive_solver.
  - destruct w as [| | | | | | | | | |n| | |]; try done. rewrite float_free_map in Hf.
    rewrite deep_equal_map. split.
    + intros [Hsz Hall]. f_equal. apply map_subseteq_size_eq; [|lia].
      apply map_subseteq_spec. intros k x Hx. destruct (Hall k x Hx) as (y & Hy & E).
      apply (IH k x Hx) in E; [by subst|]. by eapply Hf.
    + intros [= <-]. split; [done|]. intros k x Hx. exists x. split; [done|].
      apply (IH k x Hx); [by eapply Hf|done].
Qed.
