(* ===== verification/Errors.v ===== *)
(** * The error values of the expression packages

    One constructor per Go error type (and per exported error variable), grouped by
    the file that declares it.  [Error] renders an error as its [Error()] method
    does; quoting with [%q] (Go's [strconv.Quote]) is a parameter. *)
From stdpp Require Import pretty.
From S2P Require Import Prelude GoStrings Values.

(** The reason of a Kubernetes API status error, as [errors.IsNotFound] and the
    like test it. *)
Inductive api_reason : Type :=
| ReasonNotFound
| ReasonConflict
| ReasonAlreadyExists
| ReasonOther (reason : string).

Inductive error : Type :=
| EResolve (e : resolve_error)
| EFn (e : fn_error)
| EEvaluate (e : evaluate_error)
| EModel (e : model_error)
| EConvertTypeNotSupported
| EUnknownEncodingType
| ENotEncodable
| EBase64 (offset : nat)
| EMergeIndex (i : nat) (cause : error)
| EMergeMode (mode : value)
| EText (message : string)
| EAPI (reason : api_reason) (message : string)
with resolve_error : Type :=
| DataQueryError (query : string)
| DataNotFoundError (query : string)
| SecretNotFoundError (name : string)
| ConnectionNotFoundError (ty name : string)
| OutputNotFoundError (from name : string)
| ParameterNotFoundError (name : string)
| AnswerNotFoundError (ask_ref name : string)
| FunctionResolutionError (name : string) (cause : error)
with fn_error : Type :=
| ErrFunctionNotFound
| ErrArgNotFound
| ErrPositionalArgsNotAccepted
| ErrKeywordArgsNotAccepted
| ArityError (wanted : list nat) (variadic : bool) (got : nat)
| UnexpectedTypeError (wanted : list gotype) (got : option gotype)
| PositionalArgError (arg : nat) (cause : error)
| KeywordArgError (arg : string) (cause : error)
with evaluate_error : Type :=
| ErrUnsupportedLanguage
| UnsupportedValueError (ty : option gotype)
| InvalidTypeError (ty : string) (cause : error)
| FieldNotFoundError (name : string)
| InvalidEncodingError (ty : string) (cause : error)
| PathEvaluationError (path : string) (cause : error)
| UnresolvableError (causes : list error)
with model_error : Type :=
| ErrNotFound
| ErrRejected.

(** The outcomes of the expression packages. *)
Notation result := (outcome error).
Notation io := (effect error).

(** [PathEvaluationError.trace]: the path from the outermost node down to the
    failure, and the error found there.  The loop of the code follows [Cause]. *)
Fixpoint trace_from (path : string) (cause : error) : list string * error :=
  match cause with
  | EEvaluate (PathEvaluationError p c) =>
      let '(ps, e) := trace_from p c in (path :: ps, e)
  | _ => ([path], cause)
  end.

Definition trace (e : error) : option (list string * error) :=
  match e with
  | EEvaluate (PathEvaluationError p c) => Some (trace_from p c)
  | _ => None
  end.

Definition UnderlyingCause (e : error) : option error := snd <$> trace e.

(** The error an evaluation reports for a failure at a path of the tree. *)
Fixpoint at_path (path : list string) (e : error) : error :=
  match path with
  | [] => e
  | p :: ps => EEvaluate (PathEvaluationError p (at_path ps e))
  end.

Definition is_path_error (e : error) : bool :=
  match e with EEvaluate (PathEvaluationError _ _) => true | _ => false end.

Lemma trace_at_path p ps e :
  is_path_error e = false → trace (at_path (p :: ps) e) = Some (p :: ps, e).
Proof.
  cbn. intros He. f_equal. revert p. induction ps as [|q ps IH]; intros p; cbn.
  - destruct e as [| |[]| | | | | | | | |]; try done.
  - by rewrite IH.
Qed.

Fixpoint error_depth (e : error) : nat :=
  match e with
  | EEvaluate (PathEvaluationError _ c) => S (error_depth c)
  | _ => 0
  end.

Definition newline : string := String "010"%char "".
Definition dquote (s : string) : string := String "034"%char (s +:+ String "034"%char "").

Definition model_Error (e : model_error) : string :=
  match e with
  | ErrNotFound => "model: not found"
  | ErrRejected => "model: rejected"
  end.

(** Quoting a string as [%q] does. *)
Class GoFmt := { quote : string → string }.

Section messages.
Context `{GoFmt}.

Definition type_string (t : option gotype) : string :=
  match t with
  | None => "%!s(<nil>)"
  | Some TBool => "bool"
  | Some TInt => "int"
  | Some TInt64 => "int64"
  | Some TUint => "uint"
  | Some TUint64 => "uint64"
  | Some TFloat64 => "float64"
  | Some TString => "string"
  | Some TTime => "time.Time"
  | Some TSlice => "[]interface {}"
  | Some TMap => "map[string]interface {}"
  | Some TBytes => "[]uint8"
  | Some TJSONOrStr => "transfer.JSONOrStr"
  | Some (TOther s) => s
  end.

Definition mode_string (v : value) : string :=
  match v with VString s => quote s | _ => type_string (type_of v) end.

(** The message of an error, with the message of the error its path trace ends in
    (the same message when it is not a [PathEvaluationError]). *)
Fixpoint render (e : error) : string * string :=
  let same s := (s, s) in
  match e with
  | EResolve e => same (resolve_Error e)
  | EFn e => same (fn_Error e)
  | EEvaluate e => evaluate_render e
  | EModel e => same (model_Error e)
  | EConvertTypeNotSupported => same "convert: type not supported"
  | EUnknownEncodingType => same "transfer: unknown encoding type"
  | ENotEncodable =>
      same "transfer: the given value cannot be encoded for this transfer mechanism"
  | EBase64 i => same ("illegal base64 data at input byte " +:+ pretty i)
  | EMergeIndex i c => same ("array index " +:+ pretty i +:+ ": " +:+ (render c).1)
  | EMergeMode m => same ("unexpected value " +:+ mode_string m
      +:+ ", wanted one of " +:+ dquote "deep" +:+ " or " +:+ dquote "shallow")
  | EText s => same s
  | EAPI _ s => same s
  end
with resolve_Error (e : resolve_error) : string :=
  match e with
  | DataQueryError q => "resolve: data query " +:+ quote q +:+ " could not be processed"
  | DataNotFoundError q => "resolve: data for query " +:+ quote q +:+ " could not be found"
  | SecretNotFoundError n => "resolve: secret " +:+ quote n +:+ " could not be found"
  | ConnectionNotFoundError t n =>
      "resolve: connection type " +:+ quote t +:+ " with name " +:+ quote n
        +:+ " could not be found"
  | OutputNotFoundError f n =>
      "resolve: output " +:+ quote n +:+ " of step " +:+ quote f +:+ " could not be found"
  | ParameterNotFoundError n => "resolve: parameter " +:+ quote n +:+ " could not be found"
  | AnswerNotFoundError a n =>
      "resolve: answer " +:+ quote n +:+ " of ask " +:+ quote a +:+ " could not be found"
  | FunctionResolutionError n c =>
      "resolve: function " +:+ quote n +:+ " could not be invoked: " +:+ (render c).1
  end
with fn_Error (e : fn_error) : string :=
  match e with
  | ErrFunctionNotFound => "fn: function not found"
  | ErrArgNotFound => "fn: arg not found"
  | ErrPositionalArgsNotAccepted => "fn: positional arguments cannot be used"
  | ErrKeywordArgsNotAccepted => "fn: keyword arguments cannot be used"
  | ArityError wanted variadic got =>
      "fn: unexpected number of arguments: " +:+ pretty got +:+ " (wanted "
        +:+ join ", " (pretty <$> wanted) +:+ (if variadic then " or more" else "") +:+ ")"
  | UnexpectedTypeError wanted got =>
      "fn: unexpected type " +:+ type_string got +:+ " (wanted "
        +:+ join ", " ((λ t, type_string (Some t)) <$> wanted) +:+ ")"
  | PositionalArgError a c => "fn: arg " +:+ pretty a +:+ ": " +:+ (render c).1
  | KeywordArgError a c => "fn: arg " +:+ quote a +:+ ": " +:+ (render c).1
  end
with evaluate_render (e : evaluate_error) : string * string :=
  let same s := (s, s) in
  match e with
  | ErrUnsupportedLanguage => same "evaluate: unsupported language"
  | UnsupportedValueError t =>
      same ("could not evaluate a value of type " +:+ type_string t
              +:+ ", must be a JSON-compatible type")
  | InvalidTypeError t c =>
      same ("could not evaluate a " +:+ t +:+ " type: " +:+ (render c).1)
  | FieldNotFoundError n =>
      same ("the required field " +:+ quote n +:+ " could not be found")
  | InvalidEncodingError t c =>
      same ("could not evaluate encoding " +:+ quote t +:+ ": " +:+ (render c).1)
  | PathEvaluationError p c =>
      ("path " +:+ quote (join "." (trace_from p c).1) +:+ ": " +:+ (render c).2,
       (render c).2)
  | UnresolvableError cs =>
      same ("unresolvable:" +:+ newline
              +:+ join newline ((λ c, "* " +:+ (render c).1) <$> cs))
  end.

Definition Error (e : error) : string := (render e).1.

Lemma render_trace p c : (render (EEvaluate (PathEvaluationError p c))).2
  = Error (trace_from p c).2.
Proof.
  revert p. unfold Error.
  cut (∀ e, is_path_error e = false → (render e).2 = (render e).1).
  { intros Hsame. assert (Hc : ∀ n c, error_depth c < n → ∀ p,
      (render c).2 = (render (trace_from p c).2).1).
    { induction n as [|n IH]; [lia|]. clear c. intros c Hn p.
      destruct (is_path_error c) eqn:E.
      - destruct c as [| |[]| | | | | | | | |]; try discriminate E. cbn in Hn |- *.
        destruct (trace_from path cause) eqn:Et. cbn.
        rewrite (IH cause ltac:(lia) path). by rewrite Et.
      - rewrite Hsame by done.
        destruct c as [| |[]| | | | | | | | |]; try discriminate E; done. }
    intros p. cbn. apply (Hc (S (error_depth c))). lia. }
  intros [| |[]| | | | | | | | |]; done.
Qed.
End messages.
