(* ===== verification/Transfer.v ===== *)
(** * Transfer encodings: base64, UTF-8 validity and the expanded JSON form

    [encoding/base64] and [unicode/utf8] as Go defines them, and the vendored
    horsehead package [transfer], which the evaluator and the config-map managers
    use to carry byte strings through JSON. *)
From S2P Require Import Prelude GoStrings Values Errors.
From Stdlib Require Import NArith.

(** ** [encoding/base64], standard alphabet with padding *)
Module Base64.
Definition alphabet : string :=
  "ABCDEFGHIJKLMNOPQRSTUVWXYZabcdefghijklmnopqrstuvwxyz0123456789+/".

Definition pad_char : ascii := "="%char.

Definition digit (n : N) : ascii :=
  match String.get (N.to_nat n) alphabet with Some c => c | None => pad_char end.

Fixpoint index_of (c : ascii) (s : string) (i : N) : option N :=
  match s with
  | EmptyString => None
  | String a s' => if Ascii.eqb a c then Some i else index_of c s' (i + 1)%N
  end.

Definition digit_value (c : ascii) : option N := index_of c alphabet 0.

Definition is_newline (c : ascii) : bool :=
  Ascii.eqb c "010"%char || Ascii.eqb c "013"%char.

Fixpoint encode (s : string) : string :=
  match s with
  | EmptyString => ""
  | String a EmptyString =>
      let n := N_of_ascii a in
      String (digit (n / 4)) (String (digit ((n mod 4) * 16)) (String pad_char (String pad_char "")))
  | String a (String b EmptyString) =>
      let n := (N_of_ascii a * 256 + N_of_ascii b)%N in
      String (digit (n / 1024)) (String (digit (n / 16 mod 64))
        (String (digit ((n mod 16) * 4)) (String pad_char "")))
  | String a (String b (String c s')) =>
      let n := (N_of_ascii a * 65536 + N_of_ascii b * 256 + N_of_ascii c)%N in
      String (digit (n / 262144)) (String (digit (n / 4096 mod 64))
        (String (digit (n / 64 mod 64)) (String (digit (n mod 64)) (encode s'))))
  end.

(* skips newlines; the rest and its position *)
Fixpoint skip_newlines (pos : nat) (s : string) : nat * string :=
  match s with
  | EmptyString => (pos, s)
  | String c s' => if is_newline c then skip_newlines (S pos) s' else (pos, s)
  end.

(* what follows the last padding character must be newlines only *)
Definition finish (pos : nat) (s : string) (out : string) : result string :=
  match skip_newlines pos s with
  | (_, EmptyString) => Ok out
  | (pos', _) => Err (EBase64 pos')
  end.

Definition bytes3 (d0 d1 d2 d3 : N) : N * N * N :=
  let v := (d0 * 262144 + d1 * 4096 + d2 * 64 + d3)%N in
  (v / 65536 mod 256, v / 256 mod 256, v mod 256)%N.

(* [quantum] holds the digits read of the current group of four *)
Fixpoint decode_from (pos : nat) (quantum : list N) (s : string) : result string :=
  match s with
  | EmptyString =>
      match quantum with
      | [] => Ok ""
      | _ => Err (EBase64 (pos - length quantum))
      end
  | String c s' =>
      match digit_value c with
      | Some d =>
          match quantum with
          | [d0; d1; d2] =>
              let '(x, y, z) := bytes3 d0 d1 d2 d in
              rest ← decode_from (S pos) [] s';
              Ok (String (ascii_of_N x) (String (ascii_of_N y) (String (ascii_of_N z) rest)))
          | _ => decode_from (S pos) (quantum ++ [d]) s'
          end
      | None =>
          if is_newline c then decode_from (S pos) quantum s'
          else if negb (Ascii.eqb c pad_char) then Err (EBase64 pos)
          else match quantum with
               | [d0; d1] =>
                   let '(x, _, _) := bytes3 d0 d1 0 0 in
                   match skip_newlines (S pos) s' with
                   | (pos', EmptyString) => Err (EBase64 pos')
                   | (pos', String c' s'') =>
                       if Ascii.eqb c' pad_char
                       then finish (S pos') s'' (String (ascii_of_N x) "")
                       else Err (EBase64 (pos' - 1))
                   end
               | [d0; d1; d2] =>
                   let '(x, y, _) := bytes3 d0 d1 d2 0 in
                   finish (S pos) s' (String (ascii_of_N x) (String (ascii_of_N y) ""))
               | _ => Err (EBase64 pos)
               end
      end
  end.

Definition decode (s : string) : result string := decode_from 0 [] s.

Lemma digit_value_digit n : (n < 64)%N → digit_value (digit n) = Some n.
Proof.
  intros Hn. assert (H : forallb (λ k, bool_decide
    (digit_value (digit (N.of_nat k)) = Some (N.of_nat k))) (seq 0 64) = true) by done.
  rewrite forallb_forall in H. specialize (H (N.to_nat n)). rewrite N2Nat.id in H.
  eapply bool_decide_eq_true_1, H, list_elem_of_In, elem_of_seq. lia.
Qed.

Lemma digit_value_pad : digit_value pad_char = None.
Proof. done. Qed.

Lemma string_ind3 (P : string → Prop) :
  P "" → (∀ a, P (String a "")) → (∀ a b, P (String a (String b ""))) →
  (∀ a b c s, P s → P (String a (String b (String c s)))) → ∀ s, P s.
Proof.
  intros H0 H1 H2 H3. fix IH 1. intros [|a [|b [|c s]]]; [done|done|done|].
  apply H3, IH.
Qed.

Ltac div_mod_lia := zify; Z.to_euclidean_division_equations; lia.

Lemma byte_bound a : (N_of_ascii a < 256)%N.
Proof. pose proof (nat_ascii_bounded a). unfold nat_of_ascii in H. lia. Qed.

Lemma ascii_of_N_eq a x : x = N_of_ascii a → ascii_of_N x = a.
Proof. intros ->. apply ascii_N_embedding. Qed.

Lemma decode_from_digit pos q n s :
  (n < 64)%N → length q < 3 →
  decode_from pos q (String (digit n) s) = decode_from (S pos) (q ++ [n]) s.
Proof.
  intros Hn Hq. cbn [decode_from]. rewrite digit_value_digit by done.
  destruct q as [|? [|? [|? [|]]]]; cbn in Hq; try done; lia.
Qed.

Lemma decode_from_group pos d0 d1 d2 n s :
  (n < 64)%N →
  decode_from pos [d0; d1; d2] (String (digit n) s) =
    let '(x, y, z) := bytes3 d0 d1 d2 n in
    decode_from (S pos) [] s ≫= λ rest,
    Ok (String (ascii_of_N x) (String (ascii_of_N y) (String (ascii_of_N z) rest))).
Proof. intros Hn. cbn [decode_from]. by rewrite digit_value_digit. Qed.

(** Decoding inverts encoding, on every byte string. *)
Lemma decode_encode s : decode (encode s) = Ok s.
Proof.
  unfold decode. generalize 0 as pos. induction s as [|a|a b|a b c s IH] using string_ind3;
    intros pos; [done| | |]; cbn [encode].
  - pose proof (byte_bound a). rewrite !decode_from_digit by (cbn; div_mod_lia).
    cbn [app decode_from]. rewrite digit_value_pad. cbn -[bytes3 digit N.div N.modulo N.mul].
    unfold bytes3, finish. cbn [skip_newlines]. do 2 f_equal. apply ascii_of_N_eq. div_mod_lia.
  - pose proof (byte_bound a). pose proof (byte_bound b).
    rewrite !decode_from_digit by (cbn; div_mod_lia).
    cbn [app decode_from]. rewrite digit_value_pad. cbn -[bytes3 digit N.div N.modulo N.mul].
    unfold bytes3, finish. cbn [skip_newlines].
    rewrite (ascii_of_N_eq a), (ascii_of_N_eq b); [done|div_mod_lia..].
  - pose proof (byte_bound a). pose proof (byte_bound b). pose proof (byte_bound c).
    rewrite !decode_from_digit by (cbn; div_mod_lia). cbn [app].
    rewrite decode_from_group by div_mod_lia. unfold bytes3. rewrite IH. cbn [mbind outcome_bind].
    rewrite (ascii_of_N_eq a), (ascii_of_N_eq b), (ascii_of_N_eq c); [done|div_mod_lia..].
Qed.
End Base64.

(** ** [unicode/utf8.Valid] *)
Definition in_range (lo hi : N) (c : ascii) : bool :=
  N.leb lo (N_of_ascii c) && N.leb (N_of_ascii c) hi.

Definition is_cont : ascii → bool := in_range 0x80 0xbf.

Fixpoint utf8_valid (s : string) : bool :=
  match s with
  | EmptyString => true
  | String a s1 =>
      if in_range 0 0x7f a then utf8_valid s1
      else match s1 with
      | EmptyString => false
      | String b s2 =>
        if in_range 0xc2 0xdf a then is_cont b && utf8_valid s2
        else match s2 with
        | EmptyString => false
        | String c s3 =>
          if in_range 0xe0 0xe0 a then in_range 0xa0 0xbf b && is_cont c && utf8_valid s3
          else if in_range 0xe1 0xec a || in_range 0xee 0xef a then
            is_cont b && is_cont c && utf8_valid s3
          else if in_range 0xed 0xed a then in_range 0x80 0x9f b && is_cont c && utf8_valid s3
          else match s3 with
          | EmptyString => false
          | String d s4 =>
            if in_range 0xf0 0xf0 a then
              in_range 0x90 0xbf b && is_cont c && is_cont d && utf8_valid s4
            else if in_range 0xf1 0xf3 a then
              is_cont b && is_cont c && is_cont d && utf8_valid s4
            else if in_range 0xf4 0xf4 a then
              in_range 0x80 0x8f b && is_cont c && is_cont d && utf8_valid s4
            else false
          end
        end
      end
  end.

(** ** The package [transfer] *)
Definition Base64EncodingType : string := "base64".
Definition NoEncodingType : string := "".

(* encodingTypeOf, EncodeJSON: the encoder is chosen by validity and cannot fail *)
Definition EncodeJSON (b : string) : value :=
  if utf8_valid b then VJSONOrStr NoEncodingType b
  else VJSONOrStr Base64EncodingType (Base64.encode b).

(* JSON.Decode *)
Definition transfer_decode (encoding data : string) : result string :=
  if String.eqb encoding Base64EncodingType then Base64.decode data
  else if String.eqb encoding NoEncodingType then Ok data
  else Err EUnknownEncodingType.

(* ParseEncodedValue, DecodeFromTransfer *)
Definition DecodeFromTransfer (v : string) : result string :=
  match cut ":"%char v with
  | Some (p, rest) =>
      if String.eqb p Base64EncodingType then transfer_decode Base64EncodingType rest
      else transfer_decode NoEncodingType v
  | None => transfer_decode NoEncodingType v
  end.

(* EncodeForTransfer *)
Definition EncodeForTransfer (b : string) : string :=
  if utf8_valid b then b else "base64:" +:+ Base64.encode b.

Lemma transfer_decode_EncodeJSON b e d :
  EncodeJSON b = VJSONOrStr e d → transfer_decode e d = Ok b.
Proof.
  unfold EncodeJSON. destruct (utf8_valid b); intros [= <- <-]; [done|].
  apply Base64.decode_encode.
Qed.

(** ** JSON trees and [JSONInterface] *)
Inductive json : Type :=
| JNull
| JBool (b : bool)
| JNumber (literal : string)
| JString (s : string)
| JArray (l : list json)
| JObject (m : gmap string json).

(** What the code relies on of [encoding/json]: how leaves other than null, booleans
    and strings are written, how number literals are read, and the text form. *)
Class JSONText := {
  format_leaf : value → option json;   (* None: json.UnsupportedValueError *)
  parse_number : string → spec_float;
  json_print : json → string;
  json_print_indent : nat → json → string;   (* MarshalIndent, with that many spaces *)
  json_parse : string → option json;
}.

(** All strings (and keys) of the tree are valid UTF-8: what JSON text can carry. *)
Fixpoint json_utf8 (j : json) : bool :=
  match j with
  | JString s => utf8_valid s
  | JArray l => forallb json_utf8 l
  | JObject m => map_fold (λ k j b, (utf8_valid k && json_utf8 j) && b) true m
  | _ => true
  end.

Class JSONTextLaws `{JSONText} : Prop := {
  json_parse_print : ∀ j, json_utf8 j = true → json_parse (json_print j) = Some j;
  json_parse_indent : ∀ n j, json_utf8 j = true → json_parse (json_print_indent n j) = Some j;
  json_parse_empty : json_parse "" = None;
}.

Definition EJSONUnsupported : error := EText "json: unsupported value".
Definition EJSONSyntax : error := EText "json: cannot unmarshal".

Section json_values.
Context `{JSONText}.

Definition json_leaf (v : value) : result json :=
  match format_leaf v with Some j => Ok j | None => Err EJSONUnsupported end.

Definition json_of_transfer (e d : string) : json :=
  if String.eqb e NoEncodingType then JString d
  else JObject (<["$encoding" := JString e]> {["data" := JString d]}).

(** [json.Marshal] on an expression value. *)
Fixpoint json_marshal (v : value) : result json :=
  match v with
  | VNil => Ok JNull
  | VBool b => Ok (JBool b)
  | VString s => Ok (JString s)
  | VJSONOrStr e d => Ok (json_of_transfer e d)
  | VSlice l => l' ← mapM json_marshal l; Ok (JArray l')
  | VMap m => m' ← sequence_map (json_marshal <$> m); Ok (JObject m')
  | _ => json_leaf v
  end.

(** [JSONInterface.MarshalJSON]: strings go through [EncodeJSON]. *)
Fixpoint ji_marshal (v : value) : result json :=
  match v with
  | VString s =>
      match EncodeJSON s with
      | VJSONOrStr e d => Ok (json_of_transfer e d)
      | _ => Err ENotEncodable
      end
  | VSlice l => l' ← mapM ji_marshal l; Ok (JArray l')
  | VMap m => m' ← sequence_map (ji_marshal <$> m); Ok (JObject m')
  | _ => json_marshal v
  end.

(** [json.Unmarshal] into an [interface{}]. *)
Fixpoint json_unmarshal (j : json) : value :=
  match j with
  | JNull => VNil
  | JBool b => VBool b
  | JNumber n => VFloat64 (parse_number n)
  | JString s => VString s
  | JArray l => VSlice (json_unmarshal <$> l)
  | JObject m => VMap (json_unmarshal <$> m)
  end.

(** The [decode] closure of [JSONInterface.UnmarshalJSON]. *)
Fixpoint ji_decode (v : value) : result value :=
  match v with
  | VMap m =>
      encoded ← match m !! "$encoding" with
                | Some (VString ty) =>
                    let d := match m !! "data" with Some (VString d) => d | _ => "" end in
                    b ← transfer_decode ty d; Ok (Some (VString b))
                | _ => Ok None
                end;
      m' ← sequence_map (ji_decode <$> m);
      Ok (match encoded with Some w => w | None => VMap m' end)
  | VSlice l => l' ← mapM ji_decode l; Ok (VSlice l')
  | _ => Ok v
  end.

Definition ji_unmarshal (j : json) : result value := ji_decode (json_unmarshal j).
End json_values.

(** ** Round trip through JSON

    The values that come back unchanged: no numbers or opaque leaves (JSON turns
    every number into a float64), valid UTF-8 keys, and no map that looks like an
    encoding, i.e. has a string under ["$encoding"]. *)
Definition json_plain_leaf (v : value) : bool :=
  match v with VNil | VBool _ | VString _ => true | _ => false end.

Definition encoding_free (m : gmap string value) : bool :=
  match m !! "$encoding" with Some (VString _) => false | _ => true end.

Fixpoint json_faithful (v : value) : bool :=
  match v with
  | VSlice l => forallb json_faithful l
  | VMap m =>
      encoding_free m
      && map_fold (λ k v b, (utf8_valid k && json_faithful v) && b) true m
  | _ => json_plain_leaf v
  end.

Section json_roundtrip.
Context `{JSONText}.

Lemma json_faithful_map m :
  json_faithful (VMap m) = true ↔
  encoding_free m = true
  ∧ map_Forall (λ k v, utf8_valid k = true ∧ json_faithful v = true) m.
Proof.
  cbn [json_faithful]. rewrite andb_true_iff.
  rewrite (map_fold_andb_true (λ k v, utf8_valid k && json_faithful v)).
  apply and_iff_compat_l. split; intros Hm k v Hk; specialize (Hm k v Hk); cbn in *;
    by apply andb_true_iff.
Qed.

Lemma json_utf8_map m :
  map_Forall (λ k j, utf8_valid k = true ∧ json_utf8 j = true) m →
  json_utf8 (JObject m) = true.
Proof.
  intros Hm. cbn [json_utf8].
  apply (map_fold_andb_true (λ k j, utf8_valid k && json_utf8 j)).
  intros k j Hk. apply andb_true_iff. by apply (Hm k j).
Qed.

Lemma encode_alphabet_utf8 b : utf8_valid (Base64.encode b) = true.
Proof.
  assert (Hd : ∀ n s, utf8_valid (String (Base64.digit n) s) = utf8_valid s).
  { intros n s. unfold Base64.digit. destruct (String.get _ _) as [c|] eqn:E; [|done].
    assert (Hc : in_range 0 0x7f c = true); [|cbn [utf8_valid]; by rewrite Hc].
    revert E. generalize (N.to_nat n) as i. unfold Base64.alphabet.
    do 64 (intros [|i]; [intros [= <-]; done|]; cbn [String.get]; revert i).
    intros i. by destruct i. }
  induction b as [|a|a b|a b c s IH] using Base64.string_ind3; cbn [Base64.encode];
    rewrite ?Hd; done.
Qed.

Lemma ji_unmarshal_base64 s :
  ji_unmarshal (json_of_transfer Base64EncodingType (Base64.encode s)) = Ok (VString s).
Proof.
  unfold ji_unmarshal, json_of_transfer.
  change (String.eqb Base64EncodingType NoEncodingType) with false. cbn [json_unmarshal].
  rewrite fmap_insert, map_fmap_singleton. cbn [ji_decode json_unmarshal].
  rewrite lookup_insert_eq, lookup_insert_ne, lookup_singleton_eq by done.
  unfold transfer_decode. rewrite String.eqb_refl, Base64.decode_encode. cbn [mbind outcome_bind].
  rewrite fmap_insert, map_fmap_singleton. cbn [ji_decode].
  assert (sequence_map (<["$encoding" := Ok (VString Base64EncodingType)]>
    {["data" := Ok (VString (Base64.encode s))]}) = @Ok error _
    (<["$encoding" := VString Base64EncodingType]> {["data" := VString (Base64.encode s)]}))
    as ->; [|done].
  apply sequence_map_Ok. by rewrite fmap_insert, map_fmap_singleton.
Qed.

Lemma json_utf8_base64 s :
  json_utf8 (json_of_transfer Base64EncodingType (Base64.encode s)) = true.
Proof.
  apply json_utf8_map. apply map_Forall_insert_2; [done|].
  apply map_Forall_singleton. split; [done|]. apply encode_alphabet_utf8.
Qed.

Definition ji_ok (v : value) : Prop :=
  ∃ j, ji_marshal v = Ok j ∧ json_utf8 j = true ∧ ji_unmarshal j = Ok v.

(** A string comes back from its transfer form, whether or not it is valid UTF-8. *)
Lemma ji_ok_string s : ji_ok (VString s).
Proof.
  unfold ji_ok. cbn [ji_marshal]. unfold EncodeJSON. destruct (utf8_valid s) eqn:Hs.
  - by exists (JString s).
  - eexists. split; [done|]. split; [apply json_utf8_base64|apply ji_unmarshal_base64].
Qed.

Lemma ji_unmarshal_array l k :
  Forall2 (λ j v, ji_unmarshal j = Ok v) l k → ji_unmarshal (JArray l) = Ok (VSlice k).
Proof.
  intros Hl. unfold ji_unmarshal in *. cbn [json_unmarshal ji_decode].
  assert (mapM ji_decode (json_unmarshal <$> l) = Ok k) as ->; [|done].
  apply mapM_Ok. by apply Forall2_fmap_l.
Qed.

Lemma ji_unmarshal_object m n :
  encoding_free n = true →
  ji_unmarshal <$> m = Ok <$> n → ji_unmarshal (JObject m) = Ok (VMap n).
Proof.
  intros Hn Hm. assert (Hk := fmap_Ok_inv _ _ _ Hm "$encoding"). unfold ji_unmarshal in *.
  cbn [json_unmarshal ji_decode].
  assert (sequence_map (ji_decode <$> (json_unmarshal <$> m)) = Ok n) as ->.
  { apply sequence_map_Ok. rewrite <- map_fmap_compose. exact Hm. }
  rewrite lookup_fmap. unfold encoding_free in Hn.
  destruct (m !! "$encoding") as [j|]; cbn; [|done].
  destruct (n !! "$encoding") as [v|]; [|done].
  destruct (json_unmarshal j) eqn:E; cbn; try done.
  injection Hk as <-. discriminate Hn.
Qed.

Lemma ji_ok_slice l : Forall ji_ok l → ji_ok (VSlice l).
Proof.
  intros Hl. assert (∃ k, Forall2 (λ v j, ji_marshal v = Ok j ∧ json_utf8 j = true
      ∧ ji_unmarshal j = Ok v) l k) as [k Hk] by (by apply Forall_exists_Forall2).
  exists (JArray k). split; [|split].
  - cbn [ji_marshal]. rewrite (proj2 (mapM_Ok ji_marshal l k)); [done|].
    eapply Forall2_impl; [done|]. naive_solver.
  - cbn [json_utf8]. apply forallb_Forall. clear -Hk. induction Hk; constructor; naive_solver.
  - apply ji_unmarshal_array. clear -Hk. induction Hk; constructor; naive_solver.
Qed.

Lemma ji_ok_map m :
  encoding_free m = true → map_Forall (λ k v, utf8_valid k = true ∧ ji_ok v) m →
  ji_ok (VMap m).
Proof.
  intros He Hm.
  assert (∃ n, map_related (λ k v j, utf8_valid k = true ∧ ji_marshal v = Ok j
      ∧ json_utf8 j = true ∧ ji_unmarshal j = Ok v) m n) as [n Hn].
  { apply map_exists_related. intros k v Hk. destruct (Hm k v Hk) as (Hu & j & ? & ? & ?).
    by exists j. }
  exists (JObject n). split; [|split].
  - cbn [ji_marshal]. rewrite (proj2 (sequence_map_Ok (ji_marshal <$> m) n)); [done|].
    apply map_related_fmap_Ok. intros k. specialize (Hn k).
    destruct (m !! k), (n !! k); naive_solver.
  - apply json_utf8_map. intros k j Hk.
    destruct (map_related_Some_r _ _ _ _ _ Hn Hk) as (v & _ & ?); naive_solver.
  - apply ji_unmarshal_object; [done|]. apply map_related_fmap_Ok. intros k.
    specialize (Hn k). destruct (m !! k), (n !! k); naive_solver.
Qed.

(** Every faithful value survives [MarshalJSON] followed by [UnmarshalJSON]. *)
Lemma ji_roundtrip v : json_faithful v = true → ji_ok v.
Proof.
  induction v as [v Hv|l IH|m IH] using value_ind'; intros Hf.
  - destruct v; try discriminate Hv; try discriminate Hf.
    + by exists JNull.
    + by exists (JBool b).
    + apply ji_ok_string.
  - apply ji_ok_slice. cbn in Hf. apply forallb_Forall in Hf.
    rewrite Forall_forall in IH, Hf |- *. auto.
  - apply json_faithful_map in Hf as [He Hf]. apply ji_ok_map; [done|].
    intros k v Hk. destruct (Hf k v Hk). split; [done|]. by apply (IH k v Hk).
Qed.
End json_roundtrip.
