(* ===== verification/Unresolvable.v ===== *)
(** * Results of an evaluation (pkg/expr/evaluate/result.go)

    A result is a value together with the references that could not be resolved,
    kept in one list per kind of reference.  [extends] merges two such sets
    through a hash set (which lists its elements in no particular order) followed,
    for every kind but [Data], by a sort. *)
From S2P Require Import Prelude GoStd Values Errors.
From Stdlib Require Import NArith.

(** ** Go's [<] on strings: bytewise lexicographic order *)
Fixpoint string_ltb (s t : string) : bool :=
  match s, t with
  | _, EmptyString => false
  | EmptyString, _ => true
  | String a s', String b t' =>
      if N.ltb (N_of_ascii a) (N_of_ascii b) then true
      else if N.eqb (N_of_ascii a) (N_of_ascii b) then string_ltb s' t' else false
  end.

Lemma N_of_ascii_inj a b : N_of_ascii a = N_of_ascii b → a = b.
Proof. intros H. by rewrite <- (ascii_N_embedding a), H, ascii_N_embedding. Qed.

Lemma string_ltb_irrefl s : string_ltb s s = false.
Proof. induction s as [|a s IH]; cbn; [done|]. by rewrite N.ltb_irrefl, N.eqb_refl. Qed.

Lemma string_ltb_trans s t u :
  string_ltb s t = true → string_ltb t u = true → string_ltb s u = true.
Proof.
  revert t u. induction s as [|a s IH]; intros [|b t] [|c u]; cbn; try done.
  destruct (N.ltb_spec (N_of_ascii a) (N_of_ascii b)), (N.eqb_spec (N_of_ascii a) (N_of_ascii b)),
    (N.ltb_spec (N_of_ascii b) (N_of_ascii c)), (N.eqb_spec (N_of_ascii b) (N_of_ascii c)),
    (N.ltb_spec (N_of_ascii a) (N_of_ascii c)), (N.eqb_spec (N_of_ascii a) (N_of_ascii c));
    try done; try lia; eauto.
Qed.

Lemma string_ltb_total s t : string_ltb s t = true ∨ s = t ∨ string_ltb t s = true.
Proof.
  revert t. induction s as [|a s IH]; intros [|b t]; cbn; try by auto.
  destruct (N.ltb_spec (N_of_ascii a) (N_of_ascii b)); [by left|].
  destruct (N.ltb_spec (N_of_ascii b) (N_of_ascii a)); [by right; right|].
  assert (E : N_of_ascii a = N_of_ascii b) by lia. apply N_of_ascii_inj in E as ->.
  rewrite N.eqb_refl. destruct (IH t) as [?|[->|?]]; auto.
Qed.

(** Ordering by one key, or by two keys lexicographically. *)
Definition key_less {A} (f : A → string) (x y : A) : bool := string_ltb (f x) (f y).

Definition key2_less {A} (f g : A → string) (x y : A) : bool :=
  string_ltb (f x) (f y) || (String.eqb (f x) (f y) && string_ltb (g x) (g y)).

Lemma key_less_strict {A} (f : A → string) : less_strict (key_less f).
Proof. split; unfold key_less; [intros; apply string_ltb_irrefl|eauto using string_ltb_trans]. Qed.

Lemma key_less_total {A} (f : A → string) : Inj (=) (=) f → less_total (key_less f).
Proof.
  intros Hf x y. unfold key_less. destruct (string_ltb_total (f x) (f y)) as [?|[E|?]]; auto.
Qed.

Lemma key2_less_strict {A} (f g : A → string) : less_strict (key2_less f g).
Proof.
  unfold key2_less. split; intros *; rewrite ?string_ltb_irrefl, ?andb_false_r; [done|].
  rewrite !orb_true_iff, !andb_true_iff, !String.eqb_eq.
  intros [H1|[E1 H1]] [H2|[E2 H2]]; rewrite ?E1, ?E2 in *; eauto using string_ltb_trans.
Qed.

Lemma key2_less_total {A} (f g : A → string) :
  (∀ x y, f x = f y → g x = g y → x = y) → less_total (key2_less f g).
Proof.
  intros Hfg x y. unfold key2_less. rewrite !orb_true_iff, !andb_true_iff, !String.eqb_eq.
  destruct (string_ltb_total (f x) (f y)) as [?|[E|?]]; auto.
  destruct (string_ltb_total (g x) (g y)) as [?|[E'|?]]; auto.
Qed.

(** ** The kinds of unresolvable references *)
Record UnresolvableData := MkData { Data_Query : string }.
Record UnresolvableSecret := MkSecret { Secret_Name : string }.
Record UnresolvableConnection := MkConnection { Connection_Type : string; Connection_Name : string }.
Record UnresolvableOutput := MkOutput { Output_From : string; Output_Name : string }.
Record UnresolvableParameter := MkParameter { Parameter_Name : string }.
Record UnresolvableAnswer := MkAnswer { Answer_AskRef : string; Answer_Name : string }.
Record UnresolvableInvocation := MkInvocation { Invocation_Name : string; Invocation_Cause : error }.

#[export] Instance UnresolvableData_eq_dec : EqDecision UnresolvableData.
Proof. solve_decision. Defined.
#[export] Instance UnresolvableSecret_eq_dec : EqDecision UnresolvableSecret.
Proof. solve_decision. Defined.
#[export] Instance UnresolvableConnection_eq_dec : EqDecision UnresolvableConnection.
Proof. solve_decision. Defined.
#[export] Instance UnresolvableOutput_eq_dec : EqDecision UnresolvableOutput.
Proof. solve_decision. Defined.
#[export] Instance UnresolvableParameter_eq_dec : EqDecision UnresolvableParameter.
Proof. solve_decision. Defined.
#[export] Instance UnresolvableAnswer_eq_dec : EqDecision UnresolvableAnswer.
Proof. solve_decision. Defined.

Definition secret_less : UnresolvableSecret → UnresolvableSecret → bool := key_less Secret_Name.

Definition connection_less : UnresolvableConnection → UnresolvableConnection → bool :=
  key2_less Connection_Type Connection_Name.

Definition output_less : UnresolvableOutput → UnresolvableOutput → bool :=
  key2_less Output_From Output_Name.

Definition parameter_less : UnresolvableParameter → UnresolvableParameter → bool :=
  key_less Parameter_Name.

(** As written: the second disjunct tests [Name] twice and never [AskRef]. *)
Definition answer_less (x y : UnresolvableAnswer) : bool :=
  string_ltb (Answer_AskRef x) (Answer_AskRef y)
  || (String.eqb (Answer_Name x) (Answer_Name y) && string_ltb (Answer_Name x) (Answer_Name y)).

Record Unresolvable := MkUnresolvable {
  Data : list UnresolvableData;
  Secrets : list UnresolvableSecret;
  Connections : list UnresolvableConnection;
  Outputs : list UnresolvableOutput;
  Parameters : list UnresolvableParameter;
  Answers : list UnresolvableAnswer;
  Invocations : list UnresolvableInvocation;
}.

Definition no_unresolvable : Unresolvable := MkUnresolvable [] [] [] [] [] [] [].

(** [AsError]: [None] is the nil error. *)
Definition AsError (u : Unresolvable) : option error :=
  let causes :=
    ((λ d, EResolve (DataNotFoundError (Data_Query d))) <$> Data u)
    ++ ((λ s, EResolve (SecretNotFoundError (Secret_Name s))) <$> Secrets u)
    ++ ((λ c, EResolve (ConnectionNotFoundError (Connection_Type c) (Connection_Name c)))
          <$> Connections u)
    ++ ((λ o, EResolve (OutputNotFoundError (Output_From o) (Output_Name o))) <$> Outputs u)
    ++ ((λ p, EResolve (ParameterNotFoundError (Parameter_Name p))) <$> Parameters u)
    ++ ((λ a, EResolve (AnswerNotFoundError (Answer_AskRef a) (Answer_Name a))) <$> Answers u)
    ++ ((λ i, EResolve (FunctionResolutionError (Invocation_Name i) (Invocation_Cause i)))
          <$> Invocations u) in
  match causes with
  | [] => None
  | _ => Some (EEvaluate (UnresolvableError causes))
  end.

(** Interface equality of causes: error variables are equal to themselves, errors
    allocated per call (all the others here) never are. *)
Definition same_cause (a b : error) : bool :=
  match a, b with
  | EFn ErrFunctionNotFound, EFn ErrFunctionNotFound
  | EFn ErrArgNotFound, EFn ErrArgNotFound
  | EFn ErrPositionalArgsNotAccepted, EFn ErrPositionalArgsNotAccepted
  | EFn ErrKeywordArgsNotAccepted, EFn ErrKeywordArgsNotAccepted
  | EEvaluate ErrUnsupportedLanguage, EEvaluate ErrUnsupportedLanguage
  | EModel ErrNotFound, EModel ErrNotFound
  | EModel ErrRejected, EModel ErrRejected
  | EConvertTypeNotSupported, EConvertTypeNotSupported
  | EUnknownEncodingType, EUnknownEncodingType
  | ENotEncodable, ENotEncodable => true
  | _, _ => false
  end.

Definition same_invocation (x y : UnresolvableInvocation) : bool :=
  String.eqb (Invocation_Name x) (Invocation_Name y)
  && same_cause (Invocation_Cause x) (Invocation_Cause y).

Lemma same_cause_eq a b : same_cause a b = true → a = b.
Proof.
  destruct a as [|[]|[]|[]| | | | | | | |], b as [|[]|[]|[]| | | | | | | |]; done.
Qed.

Lemma same_invocation_eq x y : same_invocation x y = true → x = y.
Proof.
  destruct x, y. unfold same_invocation. cbn.
  rewrite andb_true_iff, String.eqb_eq. intros [-> ->%same_cause_eq]. done.
Qed.

Definition invocation_less `{GoFmt} (x y : UnresolvableInvocation) : bool :=
  string_ltb (Invocation_Name x) (Invocation_Name y)
  || (String.eqb (Invocation_Name x) (Invocation_Name y)
      && string_ltb (Error (Invocation_Cause x)) (Error (Invocation_Cause y))).

(** [set.Add] of every element in turn, into an empty hash set. *)
Definition hash_set {A} (eqb : A → A → bool) (l : list A) : list A :=
  foldl (λ s x, if existsb (eqb x) s then s else s ++ [x]) [] l.

Definition eq_eqb {A} `{EqDecision A} (x y : A) : bool := bool_decide (x = y).

(** The shape of each block of [extends]: [arrange] is the sort of the block. *)
Definition merge_into `{GoRuntime} {A} (eqb : A → A → bool) (arrange : list A → list A)
    (u other : list A) : list A :=
  match u, other with
  | [], _ => other
  | _, [] => u
  | _, _ => arrange (set_order (hash_set eqb (u ++ other)))
  end.

Definition extends `{GoRuntime, GoFmt} (u other : Unresolvable) : Unresolvable := {|
  Data := merge_into eq_eqb id (Data u) (Data other);
  Secrets := merge_into eq_eqb (go_sort secret_less) (Secrets u) (Secrets other);
  Connections := merge_into eq_eqb (go_sort connection_less) (Connections u) (Connections other);
  Outputs := merge_into eq_eqb (go_sort output_less) (Outputs u) (Outputs other);
  Parameters := merge_into eq_eqb (go_sort parameter_less) (Parameters u) (Parameters other);
  Answers := merge_into eq_eqb (go_sort answer_less) (Answers u) (Answers other);
  Invocations := merge_into same_invocation (go_sort invocation_less)
                   (Invocations u) (Invocations other);
|}.

(** ** Results *)
Record Result := MkResult { Value : value; Unresolvables : Unresolvable }.

Definition Complete (r : Result) : bool :=
  match AsError (Unresolvables r) with None => true | Some _ => false end.

Definition Result_extends `{GoRuntime, GoFmt} (r other : Result) : Result :=
  MkResult (Value r) (extends (Unresolvables r) (Unresolvables other)).

(** ** The references of a set, whatever their kind *)
Inductive reference : Type :=
| RData (d : UnresolvableData)
| RSecret (s : UnresolvableSecret)
| RConnection (c : UnresolvableConnection)
| ROutput (o : UnresolvableOutput)
| RParameter (p : UnresolvableParameter)
| RAnswer (a : UnresolvableAnswer)
| RInvocation (i : UnresolvableInvocation).

Definition refs (u : Unresolvable) (x : reference) : Prop :=
  match x with
  | RData d => d ∈ Data u
  | RSecret s => s ∈ Secrets u
  | RConnection c => c ∈ Connections u
  | ROutput o => o ∈ Outputs u
  | RParameter p => p ∈ Parameters u
  | RAnswer a => a ∈ Answers u
  | RInvocation i => i ∈ Invocations u
  end.

(** Two sets are equivalent when they hold the same references. *)
#[export] Instance Unresolvable_equiv : Equiv Unresolvable := λ u v, ∀ x, refs u x ↔ refs v x.

#[export] Instance Unresolvable_equivalence : Equivalence (≡@{Unresolvable}).
Proof.
  split; unfold equiv, Unresolvable_equiv.
  - done.
  - intros u v H x. by rewrite H.
  - intros u v w H1 H2 x. by rewrite H1.
Qed.

#[export] Instance refs_proper : Proper ((≡) ==> (=) ==> iff) refs.
Proof. intros u v H x _ <-. apply H. Qed.

Section hash_set.
Context {A : Type} (eqb : A → A → bool) (Heqb : ∀ x y, eqb x y = true → x = y).

Lemma elem_of_hash_fold l s x :
  x ∈ foldl (λ s x, if existsb (eqb x) s then s else s ++ [x]) s l ↔ x ∈ s ++ l.
Proof.
  revert s. induction l as [|y l IH]; intros s; cbn; [by rewrite app_nil_r|].
  rewrite IH. destruct (existsb (eqb y) s) eqn:E; [|set_solver].
  apply existsb_exists in E as (z & Hz & E). apply Heqb in E as ->.
  apply list_elem_of_In in Hz. set_solver.
Qed.

Lemma elem_of_hash_set l x : x ∈ hash_set eqb l ↔ x ∈ l.
Proof. apply elem_of_hash_fold. Qed.

Context (Hrefl : ∀ x, eqb x x = true).

Lemma NoDup_hash_fold l s :
  NoDup s → NoDup (foldl (λ s x, if existsb (eqb x) s then s else s ++ [x]) s l).
Proof.
  revert s. induction l as [|y l IH]; intros s Hs; cbn; [done|].
  apply IH. destruct (existsb (eqb y) s) eqn:E; [done|].
  apply NoDup_app. split_and!; [done| |apply NoDup_singleton].
  intros x Hx ->%list_elem_of_singleton. apply not_true_iff_false in E. apply E.
  apply existsb_exists. exists y. by rewrite Hrefl, <- list_elem_of_In.
Qed.

Lemma NoDup_hash_set l : NoDup (hash_set eqb l).
Proof. apply NoDup_hash_fold. constructor. Qed.
End hash_set.

Lemma eq_eqb_eq {A} `{EqDecision A} (x y : A) : eq_eqb x y = true → x = y.
Proof. unfold eq_eqb. by rewrite bool_decide_eq_true. Qed.

Lemma eq_eqb_refl {A} `{EqDecision A} (x : A) : eq_eqb x x = true.
Proof. unfold eq_eqb. by rewrite bool_decide_eq_true. Qed.

Section merge_into.
Context `{GoRuntimeLaws} {A : Type} (eqb : A → A → bool) (arrange : list A → list A).
Context (Heqb : ∀ x y, eqb x y = true → x = y) (Harr : ∀ l, arrange l ≡ₚ l).

Lemma elem_of_merge_into u v x : x ∈ merge_into eqb arrange u v ↔ x ∈ u ∨ x ∈ v.
Proof.
  unfold merge_into. destruct u as [|y u]; [set_solver|].
  destruct v as [|z v]; [set_solver|].
  rewrite Harr, set_order_perm, elem_of_hash_set by done. apply elem_of_app.
Qed.

Lemma NoDup_merge_into u v :
  (∀ x, eqb x x = true) → NoDup u → NoDup v → NoDup (merge_into eqb arrange u v).
Proof.
  intros Hrefl Hu Hv. unfold merge_into. destruct u as [|y u]; [done|].
  destruct v as [|z v]; [done|].
  rewrite Harr, set_order_perm. by apply NoDup_hash_set.
Qed.
End merge_into.

(** The side conditions of the blocks of [extends]. *)
Ltac block_laws :=
  intros; first [ done | by apply eq_eqb_refl | by eapply eq_eqb_eq
                | by eapply same_invocation_eq | apply go_sort_perm | done ].

(** ** Membership and completeness *)
Section extends.
Context `{RL : GoRuntimeLaws} `{GoFmt}.

Lemma refs_extends u v x : refs (extends u v) x ↔ refs u x ∨ refs v x.
Proof.
  destruct x; cbn; apply elem_of_merge_into; block_laws.
Qed.

Lemma refs_foldl_extends u us x :
  refs (foldl extends u us) x ↔ refs u x ∨ ∃ u', u' ∈ us ∧ refs u' x.
Proof.
  revert u. induction us as [|v us IH]; intros u; cbn; [set_solver|].
  rewrite IH, refs_extends. set_solver.
Qed.

#[export] Instance extends_proper : Proper ((≡) ==> (≡) ==> (≡)) extends.
Proof. intros u u' Hu v v' Hv x. by rewrite !refs_extends, Hu, Hv. Qed.
End extends.

Lemma refs_no_unresolvable x : ¬ refs no_unresolvable x.
Proof. destruct x; cbn; apply not_elem_of_nil. Qed.

Lemma AsError_None u : AsError u = None ↔ u = no_unresolvable.
Proof.
  split; [|by intros ->]. destruct u as [[|??] [|??] [|??] [|??] [|??] [|??] [|??]]; done.
Qed.

Lemma Complete_iff r : Complete r = true ↔ Unresolvables r = no_unresolvable.
Proof. rewrite <- AsError_None. unfold Complete. destruct (AsError _); naive_solver. Qed.

Lemma equiv_no_unresolvable u : u ≡ no_unresolvable ↔ u = no_unresolvable.
Proof.
  split; [|by intros ->]. intros Hu. assert (Hn : ∀ x, ¬ refs u x).
  { intros x Hx. by apply Hu, refs_no_unresolvable in Hx. }
  destruct u as [[|a ?] [|b ?] [|c ?] [|d ?] [|e ?] [|f ?] [|g ?]]; [done|..];
    exfalso; first
    [ apply (Hn (RData a)); left | apply (Hn (RSecret b)); left
    | apply (Hn (RConnection c)); left | apply (Hn (ROutput d)); left
    | apply (Hn (RParameter e)); left | apply (Hn (RAnswer f)); left
    | apply (Hn (RInvocation g)); left ].
Qed.

Lemma Complete_no_refs r : Complete r = true ↔ ∀ x, ¬ refs (Unresolvables r) x.
Proof.
  rewrite Complete_iff, <- equiv_no_unresolvable. split.
  - intros Hu x Hx. by apply Hu, refs_no_unresolvable in Hx.
  - intros Hn x. split; [intros Hx; by apply Hn in Hx|intros Hx; by apply refs_no_unresolvable in Hx].
Qed.

Lemma Complete_equiv r r' :
  Unresolvables r ≡ Unresolvables r' → Complete r = Complete r'.
Proof.
  intros Hu. apply eq_true_iff_eq. rewrite !Complete_no_refs. by setoid_rewrite Hu.
Qed.

(** ** The lists are duplicate-free and, but for [Data], [Answers] and
    [Invocations], sorted *)
Definition strictly_sorted {A} (less : A → A → bool) (l : list A) : Prop :=
  Sorted (λ x y, less x y = true) l.

Record well_ordered (u : Unresolvable) : Prop := {
  wo_data : NoDup (Data u);
  wo_secrets : strictly_sorted secret_less (Secrets u);
  wo_connections : strictly_sorted connection_less (Connections u);
  wo_outputs : strictly_sorted output_less (Outputs u);
  wo_parameters : strictly_sorted parameter_less (Parameters u);
  wo_answers : NoDup (Answers u);
}.

Lemma secret_less_laws : less_strict secret_less ∧ less_total secret_less.
Proof. split; [apply key_less_strict|]. apply key_less_total. intros [] []; cbn; congruence. Qed.

Lemma parameter_less_laws : less_strict parameter_less ∧ less_total parameter_less.
Proof. split; [apply key_less_strict|]. apply key_less_total. intros [] []; cbn; congruence. Qed.

Lemma connection_less_laws : less_strict connection_less ∧ less_total connection_less.
Proof. split; [apply key2_less_strict|]. apply key2_less_total. intros [] []; cbn; congruence. Qed.

Lemma output_less_laws : less_strict output_less ∧ less_total output_less.
Proof. split; [apply key2_less_strict|]. apply key2_less_total. intros [] []; cbn; congruence. Qed.

Lemma strictly_sorted_NoDup {A} (less : A → A → bool) l :
  less_strict less → strictly_sorted less l → NoDup l.
Proof.
  intros Hs Hl. pose proof (less_transitive less Hs) as Ht.
  apply Sorted_StronglySorted in Hl; [|done].
  induction Hl as [|x l Hl IH Hx]; constructor; [|done].
  intros Hin. rewrite Forall_forall in Hx. specialize (Hx x Hin).
  by rewrite (proj1 Hs x) in Hx.
Qed.

Lemma strictly_sorted_merge `{GoRuntimeLaws} {A} `{EqDecision A} (less : A → A → bool) u v :
  less_strict less ∧ less_total less →
  strictly_sorted less u → strictly_sorted less v →
  strictly_sorted less (merge_into eq_eqb (go_sort less) u v).
Proof.
  intros [Hs Ht] Hu Hv. unfold merge_into. destruct u as [|x u]; [done|].
  destruct v as [|y v]; [done|]. apply not_less_sorted_strict; [done..| |].
  - rewrite go_sort_perm, set_order_perm. apply NoDup_hash_set; block_laws.
  - by apply go_sort_sorted.
Qed.

Lemma well_ordered_extends `{GoRuntimeLaws} `{GoFmt} u v :
  well_ordered u → well_ordered v → well_ordered (extends u v).
Proof.
  intros [] []. split; cbn;
    try (apply strictly_sorted_merge; auto using secret_less_laws, connection_less_laws,
      output_less_laws, parameter_less_laws);
    apply NoDup_merge_into; block_laws.
Qed.

Lemma well_ordered_none : well_ordered no_unresolvable.
Proof. split; constructor. Qed.

(** Equivalent well-ordered sets have the same sorted lists. *)
Lemma strictly_sorted_unique {A} (less : A → A → bool) l1 l2 :
  less_strict less → strictly_sorted less l1 → strictly_sorted less l2 →
  (∀ x, x ∈ l1 ↔ x ∈ l2) → l1 = l2.
Proof.
  intros Hs H1 H2 Hin. apply (@Sorted_strict_unique _ _ (less_transitive _ Hs) (less_irreflexive _ Hs));
    [done..|].
  apply NoDup_Permutation; eauto using strictly_sorted_NoDup.
Qed.

(** What two runs of the program agree on. *)
Record same_lists (u v : Unresolvable) : Prop := {
  same_data : Data u ≡ₚ Data v;
  same_secrets : Secrets u = Secrets v;
  same_connections : Connections u = Connections v;
  same_outputs : Outputs u = Outputs v;
  same_parameters : Parameters u = Parameters v;
  same_answers : Answers u ≡ₚ Answers v;
}.

Lemma equiv_same_lists u v :
  well_ordered u → well_ordered v → u ≡ v → same_lists u v.
Proof.
  intros [] [] E. split.
  - apply NoDup_Permutation; [done..|]. intros x. apply (E (RData x)).
  - eapply strictly_sorted_unique; [apply secret_less_laws|done..|]. intros x. apply (E (RSecret x)).
  - eapply strictly_sorted_unique; [apply connection_less_laws|done..|].
    intros x. apply (E (RConnection x)).
  - eapply strictly_sorted_unique; [apply output_less_laws|done..|]. intros x. apply (E (ROutput x)).
  - eapply strictly_sorted_unique; [apply parameter_less_laws|done..|].
    intros x. apply (E (RParameter x)).
  - apply NoDup_Permutation; [done..|]. intros x. apply (E (RAnswer x)).
Qed.
