(* ===== verification/Fn.v ===== *)
(** * Functions callable from expressions (pkg/expr/fn, pkg/expr/fnlib)

    A descriptor turns arguments into an invoker or an error; an invoker is a
    thunk run later.  JSON text and the markdown library are parameters. *)
From S2P Require Import Prelude GoStd GoStrings Values Errors Transfer.

(** ** The package [fn] *)
Definition Invoker : Type := unit → result value.

(* StaticInvoker *)
Definition StaticInvoker (v : value) : Invoker := λ _, Ok v.

(** A nil function field is [None]. *)
Record DescriptorFuncs := MkDescriptor {
  DescriptionFunc : option string;
  PositionalInvokerFunc : option (list value → result Invoker);
  KeywordInvokerFunc : option (gmap string value → result Invoker);
}.

Definition Description (df : DescriptorFuncs) : string :=
  match DescriptionFunc df with None => "<anonymous>" | Some s => s end.

Definition PositionalInvoker (df : DescriptorFuncs) (args : list value) : result Invoker :=
  match PositionalInvokerFunc df with
  | None => Err (EFn ErrPositionalArgsNotAccepted)
  | Some f => f args
  end.

Definition KeywordInvoker (df : DescriptorFuncs) (args : gmap string value) : result Invoker :=
  match KeywordInvokerFunc df with
  | None => Err (EFn ErrKeywordArgsNotAccepted)
  | Some f => f args
  end.

Definition funcMap : Type := gmap string DescriptorFuncs.

Definition Descriptor (fm : funcMap) (name : string) : result DescriptorFuncs :=
  match fm !! name with
  | Some fd => Ok fd
  | None => Err (EFn ErrFunctionNotFound)
  end.

(** ** The library of functions *)
Definition unexpected (wanted : gotype) (got : value) : error :=
  EFn (UnexpectedTypeError [wanted] (type_of got)).
Definition positional (i : nat) (e : error) : error := EFn (PositionalArgError i e).
Definition keyword (k : string) (e : error) : error := EFn (KeywordArgError k e).
Definition arity (wanted : nat) (variadic : bool) (args : list value) : error :=
  EFn (ArityError [wanted] variadic (length args)).

Definition appendDescriptor : DescriptorFuncs := {|
  DescriptionFunc := Some "Adds new items to a given array, returning a new array";
  PositionalInvokerFunc := Some (λ args,
    match args with
    | base :: items =>
        if decide (length args < 2) then Err (arity 2 true args)
        else Ok (λ _,
          match as_slice base with
          | Some l => Ok (VSlice (l ++ items))
          | None => Err (positional 1 (unexpected TSlice base))
          end)
    | [] => Err (arity 2 true args)
    end);
  KeywordInvokerFunc := None;
|}.

(** The loop of concat from argument [i]. *)
Fixpoint concat_strings (i : nat) (args : list value) : result (list string) :=
  match args with
  | [] => Ok []
  | VString s :: args' => strs ← concat_strings (S i) args'; Ok (s :: strs)
  | arg :: _ => Err (positional (i + 1) (unexpected TString arg))
  end.

Definition concatDescriptor : DescriptorFuncs := {|
  DescriptionFunc := Some "Concatenates string arguments into a single string";
  PositionalInvokerFunc := Some (λ args,
    if decide (length args = 0) then Ok (StaticInvoker (VString ""))
    else Ok (λ _, strs ← concat_strings 0 args; Ok (VString (join "" strs))));
  KeywordInvokerFunc := None;
|}.

Definition equalsDescriptor : DescriptorFuncs := {|
  DescriptionFunc := Some "Checks if the left side equals the right side";
  PositionalInvokerFunc := Some (λ args,
    match args with
    | [a; b] => Ok (λ _, Ok (VBool (deep_equal a b)))
    | _ => Err (arity 2 true args)
    end);
  KeywordInvokerFunc := None;
|}.

Definition notEqualsDescriptor : DescriptorFuncs := {|
  DescriptionFunc := Some "Checks if the left side does not equal the right side";
  PositionalInvokerFunc := Some (λ args,
    match args with
    | [a; b] => Ok (λ _, Ok (VBool (negb (deep_equal a b))))
    | _ => Err (arity 2 true args)
    end);
  KeywordInvokerFunc := None;
|}.

(** *** merge

    [merge] writes into a map in memory (see Merge); these are its results as values, where
    nobody else holds the maps of its arguments: [Merge.merge_unshared]. *)
Fixpoint merged_value (deep : bool) (old : option value) (v : value) : value :=
  match v with
  | VMap sm =>
      match deep, old with
      | true, Some (VMap dm) =>
          VMap (map_fold (λ k w d, <[k := merged_value deep (d !! k) w]> d) dm sm)
      | _, _ => v
      end
  | _ => v
  end.

(** The map [dst] after [merge(dst, src, deep)]. *)
Definition merged (dst src : gmap string value) (deep : bool) : gmap string value :=
  map_fold (λ k v d, <[k := merged_value deep (d !! k) v]> d) dst src.

Fixpoint mergedCast_from (i : nat) (os : list value) : result (list (gmap string value)) :=
  match os with
  | [] => Ok []
  | o :: os' =>
      match as_map o with
      | None => Err (EMergeIndex i (unexpected TMap o))
      | Some obj => objs ← mergedCast_from (S i) os'; Ok (obj :: objs)
      end
  end.

Definition mergedCast (os : list value) : result (list (gmap string value)) :=
  mergedCast_from 0 os.

Definition merged_all (deep : bool) (objs : list (gmap string value)) : gmap string value :=
  foldl (λ r obj, merged r obj deep) ∅ objs.

Definition mergedDescriptor : DescriptorFuncs := {|
  DescriptionFunc := Some ("Merges a series of objects, with each object overwriting prior entries."
    +:+ newline +:+ newline
    +:+ "Merges are performed deeply by default. Use the keyword form and set mode: shallow to "
    +:+ "perform a shallow merge.");
  PositionalInvokerFunc := Some (λ args,
    if decide (length args = 0) then Ok (StaticInvoker (VMap ∅))
    else Ok (λ _,
      objs ← map_err (positional 1) (mergedCast args);
      Ok (VMap (merged_all true objs))));
  KeywordInvokerFunc := Some (λ args,
    match args !! "objects" with
    | None => Err (keyword "objects" (EFn ErrArgNotFound))
    | Some oi =>
        let mode := default (VString "deep") (args !! "mode") in
        Ok (λ _,
          deep ← match mode with
                 | VString s =>
                     if String.eqb s "deep" then Ok true
                     else if String.eqb s "shallow" then Ok false
                     else Err (keyword "mode" (EMergeMode mode))
                 | _ => Err (keyword "mode" (EMergeMode mode))
                 end;
          (* os, ok := oi.([]interface{}); the branch for !ok is empty: os is nil *)
          let os := default [] (as_slice oi) in
          objs ← map_err (keyword "objects") (mergedCast os);
          Ok (VMap (merged_all deep objs)))
    end);
|}.

(** *** The functions that depend on other libraries *)
Inductive ConvertType : Type := ConvertTypeHtml | ConvertTypeJira.

(** **** pkg/expr/convert/render/jira

    The nodes of a document: those the renderer looks at, and the others with and
    without children.  A node is rendered under the kind of its parent. *)
Module ast.
Inductive node : Type :=
| Code (literal : string)
| Image (destination : string) (children : list node)
| Link (destination : string) (children : list node)
| Text (literal : string)
| OtherLeaf
| OtherContainer (children : list node).
End ast.

Inductive parent_kind : Type := InLink | InImage | Elsewhere.

(** [regexp]'s white space, and the text after as much of it as there is. *)
Definition regexp_space (c : ascii) : bool :=
  existsb (λ n, Ascii.eqb c (ascii_of_nat n)) [9; 10; 12; 13; 32].
Fixpoint skip_spaces (s : string) : string :=
  match s with String c s' => if regexp_space c then skip_spaces s' else s | EmptyString => "" end.

(** The text after a match of ["(-\s*-\s*-)(\s+|$)"] at the start of a text. *)
Definition after_dash (s : string) : option string :=
  match s with String c s' => if Ascii.eqb c "-" then Some s' else None | EmptyString => None end.
Definition after_rule (s : string) : option string :=
  s ← after_dash s; s ← after_dash (skip_spaces s); s ← after_dash (skip_spaces s);
  match s with
  | EmptyString => Some ""
  | String c _ => if regexp_space c then Some (skip_spaces s) else None
  end.

(** The same with ["(^|\s+)"] before it: [start] is the start of the whole text. *)
Definition after_match (start : bool) (s : string) : option string :=
  match (if start then after_rule s else None) with
  | Some rest => Some rest
  | None => match s with
            | String c _ => if regexp_space c then after_rule (skip_spaces s) else None
            | EmptyString => None
            end
  end.

Fixpoint replace_rules (fuel : nat) (start : bool) (s : string) : string :=
  match fuel with
  | O => s
  | S n =>
      match after_match start s with
      | Some rest => String "010" ("----" +:+ String "010" (replace_rules n false rest))
      | None => match s with
                | EmptyString => ""
                | String c s' => String c (replace_rules n false s')
                end
      end
  end.

Fixpoint trim_suffix (s suffix : string) : string :=
  if String.eqb s suffix then ""
  else match s with EmptyString => "" | String c s' => String c (trim_suffix s' suffix) end.

Definition render_text (parent : parent_kind) (literal : string) : string :=
  match parent with
  | InLink => if String.eqb literal "" then "" else "[" +:+ literal
  | InImage => String "010" (String "010" "")
  | Elsewhere =>
      trim_suffix (trim_prefix (replace_rules (S (String.length literal)) true literal) "%%% ")
        " %%%"
  end.

(** What a node writes when it is entered, or left. *)
Definition RenderNode (parent : parent_kind) (n : ast.node) (entering : bool) : string :=
  match n with
  | ast.Code literal => "{code}" +:+ literal +:+ "{code}"
  | ast.Image destination _ =>
      if entering then ""
      else (match parent with InLink => "[" | _ => "" end) +:+ "!" +:+ destination +:+ "!"
  | ast.Link destination _ => if entering then "" else "|" +:+ destination +:+ "]"
  | ast.Text literal => render_text parent literal
  | ast.OtherLeaf | ast.OtherContainer _ => ""
  end.

(** [ast.Walk]: a node with children is left after them. *)
Fixpoint walk (parent : parent_kind) (n : ast.node) : string :=
  let inside k children := foldr (λ c s, walk k c +:+ s) "" children in
  RenderNode parent n true +:+
  match n with
  | ast.Image _ children => inside InImage children +:+ RenderNode parent n false
  | ast.Link _ children => inside InLink children +:+ RenderNode parent n false
  | ast.OtherContainer children => inside Elsewhere children +:+ RenderNode parent n false
  | ast.Code _ | ast.Text _ | ast.OtherLeaf => ""
  end.

(** The markdown library: its parser and its own renderer. *)
Class Markdown := { markdown_Parse : string → ast.node; html_Render : ast.node → string }.

Definition markdown_Render `{Markdown} (doc : ast.node) (renderer : ConvertType) : string :=
  match renderer with
  | ConvertTypeHtml => html_Render doc
  | ConvertTypeJira => walk Elsewhere doc
  end.

Section library.
Context `{JSONText} `{Markdown}.

Definition jsonUnmarshalDescriptor : DescriptorFuncs := {|
  DescriptionFunc := Some "Unmarshals a JSON-encoded string into the specification";
  PositionalInvokerFunc := Some (λ args,
    match args with
    | [arg] => Ok (λ _,
        match arg with
        | VString b =>
            match json_parse b with
            | Some j => Ok (json_unmarshal j)
            | None => Err EJSONSyntax
            end
        | _ => Err (positional 1 (unexpected TString arg))
        end)
    | _ => Err (arity 1 false args)
    end);
  KeywordInvokerFunc := None;
|}.

Definition NewMarkdownRenderer (ct : string) : result ConvertType :=
  if String.eqb ct "html" then Ok ConvertTypeHtml
  else if String.eqb ct "jira" then Ok ConvertTypeJira
  else Err EConvertTypeNotSupported.

Definition ConvertMarkdown (ct md : string) : result string :=
  let doc := markdown_Parse md in
  renderer ← NewMarkdownRenderer ct; Ok (markdown_Render doc renderer).

Definition convertMarkdownDescriptor : DescriptorFuncs := {|
  DescriptionFunc :=
    Some "Converts a string in markdown format to another applicable syntax";
  PositionalInvokerFunc := Some (λ args,
    match args with
    | [a0; a1] => Ok (λ _,
        match a0, a1 with
        | VString to, VString md => r ← ConvertMarkdown to md; Ok (VString r)
        | VString _, _ => Err (positional 1 (unexpected TString a1))
        | _, _ => Err (positional 0 (unexpected TString a0))
        end)
    | _ => Err (arity 2 false args)
    end);
  KeywordInvokerFunc := Some (λ args,
    match args !! "to", args !! "content" with
    | None, _ => Err (keyword "to" (EFn ErrArgNotFound))
    | _, None => Err (keyword "content" (EFn ErrArgNotFound))
    | Some to, Some content => Ok (λ _,
        match to, content with
        | VString ct, VString md => r ← ConvertMarkdown ct md; Ok (VString r)
        | VString _, _ => Err (keyword "content" (unexpected TString content))
        | _, _ => Err (keyword "to" (unexpected TString to))
        end)
    end);
|}.

(** The functions by name, as functions of values.  They do not change their arguments, but
    for [merge], which has this meaning where nobody else holds the maps of its arguments;
    what it does otherwise is in Merge. *)
Definition library : funcMap := list_to_map [
  ("append", appendDescriptor);
  ("concat", concatDescriptor);
  ("convertMarkdown", convertMarkdownDescriptor);
  ("equals", equalsDescriptor);
  ("jsonUnmarshal", jsonUnmarshalDescriptor);
  ("merge", mergedDescriptor);
  ("notEquals", notEqualsDescriptor)].
End library.

(** ** Merging *)

(** Folding a per-key update over the entries of a map touches each key once. *)
Lemma lookup_fold_entries (f : option value → value → value) (src dst : gmap string value) k :
  map_fold (λ k v d, <[k := f (d !! k) v]> d) dst src !! k =
  match src !! k with Some v => Some (f (dst !! k) v) | None => dst !! k end.
Proof.
  revert k. induction src as [|i v src Hi IH] using map_ind; intros k.
  { by rewrite map_fold_empty, lookup_empty. }
  rewrite map_fold_insert_L; [|intros j1 j2 z1 z2 y Hne _ _|done].
  - destruct (decide (i = k)) as [->|Hne].
    + rewrite !lookup_insert_eq, IH, Hi. done.
    + rewrite !lookup_insert_ne by done. apply IH.
  - rewrite !lookup_insert_ne by done. by rewrite insert_insert_ne.
Qed.

Lemma lookup_merged dst src deep k :
  merged dst src deep !! k =
  match src !! k with
  | Some v => Some (merged_value deep (dst !! k) v)
  | None => dst !! k
  end.
Proof. apply (lookup_fold_entries (merged_value deep)). Qed.

Lemma merged_value_map dm sm deep :
  merged_value deep (Some (VMap dm)) (VMap sm) =
  if deep then VMap (merged dm sm true) else VMap sm.
Proof. by destruct deep. Qed.

(** The loop of the code, [for k, v := range src], in any order. *)
Lemma merged_range `{GoRuntimeLaws} dst src deep :
  merged dst src deep =
  foldl (λ d '(k, v), <[k := merged_value deep (d !! k) v]> d) dst (range_map src).
Proof.
  assert (Hfold : ∀ l : list (string * value), NoDup l.*1 → ∀ (d : gmap string value) k,
    foldl (λ d '(k, v), <[k := merged_value deep (d !! k) v]> d) d l !! k =
    match (list_to_map l : gmap string value) !! k with
    | Some v => Some (merged_value deep (d !! k) v) | None => d !! k end).
  { induction l as [|[i v] l IH]; intros Hnd d k; cbn; [by rewrite lookup_empty|].
    apply NoDup_cons in Hnd as [Hi Hnd]. rewrite IH by done.
    destruct (decide (i = k)) as [->|Hne].
    - rewrite not_elem_of_list_to_map_1 by done. by rewrite !lookup_insert_eq.
    - by rewrite !lookup_insert_ne. }
  apply map_eq. intros k. rewrite lookup_merged, Hfold by apply range_map_NoDup.
  by rewrite list_to_range_map.
Qed.

Lemma merged_empty_r dst deep : merged dst ∅ deep = dst.
Proof. apply map_eq. intros k. by rewrite lookup_merged, lookup_empty. Qed.

Lemma merged_empty_l src deep : merged ∅ src deep = src.
Proof.
  apply map_eq. intros k. rewrite lookup_merged, lookup_empty.
  destruct (src !! k) as [v|]; [|done]. by destruct v, deep.
Qed.

(** One entry of the merge of several objects: their entries under that key, merged
    one after the other. *)
Lemma lookup_merged_all deep objs k :
  merged_all deep objs !! k =
  foldl (λ o obj, match obj !! k with
                  | Some v => Some (merged_value deep o v)
                  | None => o
                  end) None objs.
Proof.
  unfold merged_all. induction objs as [|obj objs IH] using rev_ind; cbn.
  { by rewrite lookup_empty. }
  rewrite !foldl_app. cbn. by rewrite lookup_merged, IH.
Qed.

(** Shallow merging keeps the last object's entry. *)
Lemma lookup_merged_all_shallow objs obj k v :
  obj !! k = Some v → merged_all false (objs ++ [obj]) !! k = Some v.
Proof.
  intros Hk. rewrite lookup_merged_all, foldl_app. cbn. rewrite Hk. by destruct v.
Qed.

Lemma mergedCast_from_Ok i os objs : mergedCast_from i os = Ok objs ↔ os = VMap <$> objs.
Proof.
  revert i objs. induction os as [|o os IH]; intros i objs; cbn.
  { destruct objs; split; naive_solver. }
  split.
  - destruct (as_map o) as [m|] eqn:E; [|done]. intros Hc. inv_ok. apply IH in Hc0 as ->.
    destruct o; try discriminate E. by injection E as ->.
  - destruct objs as [|m objs]; [done|]. intros [= -> Ho]. cbn. by rewrite (proj2 (IH _ _) Ho).
Qed.

Lemma concat_strings_Ok i args strs :
  concat_strings i args = Ok strs ↔ args = VString <$> strs.
Proof.
  revert i strs. induction args as [|a args IH]; intros i strs; cbn.
  { destruct strs; split; naive_solver. }
  split.
  - destruct a; try done. intros Hc. inv_ok. by apply IH in Hc0 as ->.
  - destruct strs as [|s strs]; [done|]. intros [= -> Ha]. by rewrite (proj2 (IH _ _) Ha).
Qed.

Lemma join_empty l : join "" l = foldr (λ s t, s +:+ t) "" l.
Proof.
  induction l as [|s l IH]; [done|]. destruct l as [|t l].
  - cbn. by rewrite app_string_nil_r.
  - change (join "" (s :: t :: l)) with (s +:+ ("" +:+ join "" (t :: l))). by rewrite IH.
Qed.
