(* ===== verification/Resolve.v ===== *)
(** * Resolvers of references (pkg/expr/resolve)

    A resolver is a function from the key of a reference to its value; it reports
    an absent key with the not-found error of its kind, which chains skip. *)
From S2P Require Import Prelude GoStd GoStrings Values Errors Transfer Fn.

Definition DataTypeResolver : Type := string → result value.
Definition SecretTypeResolver : Type := string → result string.
Definition ConnectionTypeResolver : Type := string → string → result value.
Definition OutputTypeResolver : Type := string → string → result value.
Definition ParameterTypeResolver : Type := string → result value.
Definition AnswerTypeResolver : Type := string → string → result value.

Record InvocationResolver := MkInvocationResolver {
  ResolveInvocationPositional : string → list value → result Invoker;
  ResolveInvocation : string → gmap string value → result Invoker;
}.

(** The type tests err.(XNotFoundError). *)
Definition is_data_not_found (e : error) : bool :=
  match e with EResolve (DataNotFoundError _) => true | _ => false end.
Definition is_secret_not_found (e : error) : bool :=
  match e with EResolve (SecretNotFoundError _) => true | _ => false end.
Definition is_connection_not_found (e : error) : bool :=
  match e with EResolve (ConnectionNotFoundError _ _) => true | _ => false end.
Definition is_output_not_found (e : error) : bool :=
  match e with EResolve (OutputNotFoundError _ _) => true | _ => false end.
Definition is_parameter_not_found (e : error) : bool :=
  match e with EResolve (ParameterNotFoundError _) => true | _ => false end.
Definition is_answer_not_found (e : error) : bool :=
  match e with EResolve (AnswerNotFoundError _ _) => true | _ => false end.

(** ** Chains

    The loop the six chain resolvers share. *)
Fixpoint chain_resolve {A} (is_not_found : error → bool) (not_found : error)
    (attempts : list (result A)) : result A :=
  match attempts with
  | [] => Err not_found
  | Err e :: rest => if is_not_found e then chain_resolve is_not_found not_found rest else Err e
  | r :: _ => r
  end.

Definition ChainDataTypeResolvers (resolvers : list DataTypeResolver) : DataTypeResolver :=
  λ query, chain_resolve is_data_not_found (EResolve (DataNotFoundError query))
             ((λ r, r query) <$> resolvers).

Definition ChainSecretTypeResolvers (resolvers : list SecretTypeResolver) : SecretTypeResolver :=
  λ name, chain_resolve is_secret_not_found (EResolve (SecretNotFoundError name))
            ((λ r, r name) <$> resolvers).

Definition ChainConnectionTypeResolvers (resolvers : list ConnectionTypeResolver)
    : ConnectionTypeResolver :=
  λ ty name, chain_resolve is_connection_not_found (EResolve (ConnectionNotFoundError ty name))
               ((λ r, r ty name) <$> resolvers).

Definition ChainOutputTypeResolvers (resolvers : list OutputTypeResolver) : OutputTypeResolver :=
  λ from name, chain_resolve is_output_not_found (EResolve (OutputNotFoundError from name))
                 ((λ r, r from name) <$> resolvers).

Definition ChainParameterTypeResolvers (resolvers : list ParameterTypeResolver)
    : ParameterTypeResolver :=
  λ name, chain_resolve is_parameter_not_found (EResolve (ParameterNotFoundError name))
            ((λ r, r name) <$> resolvers).

Definition ChainAnswerTypeResolvers (resolvers : list AnswerTypeResolver) : AnswerTypeResolver :=
  λ ask name, chain_resolve is_answer_not_found (EResolve (AnswerNotFoundError ask name))
                ((λ r, r ask name) <$> resolvers).

Definition NoOpDataTypeResolver : DataTypeResolver := ChainDataTypeResolvers [].
Definition NoOpSecretTypeResolver : SecretTypeResolver := ChainSecretTypeResolvers [].
Definition NoOpConnectionTypeResolver : ConnectionTypeResolver := ChainConnectionTypeResolvers [].
Definition NoOpOutputTypeResolver : OutputTypeResolver := ChainOutputTypeResolvers [].
Definition NoOpParameterTypeResolver : ParameterTypeResolver := ChainParameterTypeResolvers [].
Definition NoOpAnswerTypeResolver : AnswerTypeResolver := ChainAnswerTypeResolvers [].

(** ** In-memory resolvers *)

(** The gval base language: a query is rejected or denotes a function of the data. *)
Class Gval := { gval_evaluable : string → option (value → option value) }.

Definition MemoryDataTypeResolver `{Gval} (m : gmap string value) : DataTypeResolver := λ query,
  match gval_evaluable query with
  | None => Err (EResolve (DataQueryError query))
  | Some pl =>
      match pl (VMap m) with
      | None => Err (EResolve (DataNotFoundError query))
      | Some v => Ok v
      end
  end.

Definition MemorySecretTypeResolver (m : gmap string string) : SecretTypeResolver := λ name,
  match m !! name with
  | None => Err (EResolve (SecretNotFoundError name))
  | Some s => Ok s
  end.

(** The key records of connections, outputs and answers are pairs. *)
Definition MemoryConnectionTypeResolver (m : gmap (string * string) value)
    : ConnectionTypeResolver := λ ty name,
  match m !! (ty, name) with
  | None => Err (EResolve (ConnectionNotFoundError ty name))
  | Some o => Ok o
  end.

Definition MemoryOutputTypeResolver (m : gmap (string * string) value)
    : OutputTypeResolver := λ from name,
  match m !! (from, name) with
  | None => Err (EResolve (OutputNotFoundError from name))
  | Some o => Ok o
  end.

Definition MemoryParameterTypeResolver (m : gmap string value) : ParameterTypeResolver := λ name,
  match m !! name with
  | None => Err (EResolve (ParameterNotFoundError name))
  | Some p => Ok p
  end.

Definition MemoryAnswerTypeResolver (m : gmap (string * string) value)
    : AnswerTypeResolver := λ ask name,
  match m !! (ask, name) with
  | None => Err (EResolve (AnswerNotFoundError ask name))
  | Some o => Ok o
  end.

(** Errors of an invocation carry the function's name. *)
Definition wrap_invoker (name : string) (i : Invoker) : Invoker := λ _,
  map_err (λ e, EResolve (FunctionResolutionError name e)) (i tt).

Definition MemoryInvocationResolver (m : funcMap) : InvocationResolver :=
  let wrap_err name e := EResolve (FunctionResolutionError name e) in {|
  ResolveInvocationPositional := λ name args,
    f ← map_err (wrap_err name) (Descriptor m name);
    i ← map_err (wrap_err name) (PositionalInvoker f args);
    Ok (wrap_invoker name i);
  ResolveInvocation := λ name args,
    f ← map_err (wrap_err name) (Descriptor m name);
    i ← map_err (wrap_err name) (KeywordInvoker f args);
    Ok (wrap_invoker name i);
|}.

Definition NewDefaultMemoryInvocationResolver `{JSONText} `{Markdown} : InvocationResolver :=
  MemoryInvocationResolver library.

(** ** Chains find the first answer *)
Section chain.
Context {A : Type} (nf : error → bool) (e0 : error).

Definition misses (r : result A) : bool :=
  match r with Err e => nf e | _ => false end.

(** The attempts before the first that does not miss are skipped. *)
Lemma chain_resolve_skip l r rest :
  forallb misses l = true → misses r = false → chain_resolve nf e0 (l ++ r :: rest) = r.
Proof.
  intros Hl Hr. induction l as [|x l IH]; cbn in *.
  - destruct r as [a|e|w]; cbn in *; try done. by rewrite Hr.
  - apply andb_true_iff in Hl as [Hx Hl]. destruct x as [a|e|w]; cbn in *; try done.
    rewrite Hx. auto.
Qed.

Lemma chain_resolve_all_miss l : forallb misses l = true → chain_resolve nf e0 l = Err e0.
Proof.
  induction l as [|x l IH]; cbn; intros Hl; [done|].
  apply andb_true_iff in Hl as [Hx Hl]. destruct x; cbn in *; try done. rewrite Hx. auto.
Qed.

Lemma chain_resolve_cases l :
  (∃ l1 r l2, l = l1 ++ r :: l2 ∧ forallb misses l1 = true ∧ misses r = false
              ∧ chain_resolve nf e0 l = r)
  ∨ (forallb misses l = true ∧ chain_resolve nf e0 l = Err e0).
Proof.
  induction l as [|x l IH]; [by right|]. destruct (misses x) eqn:Hx.
  - destruct IH as [(l1 & r & l2 & -> & H1 & H2 & H3)|[H1 H2]].
    + left. exists (x :: l1), r, l2. cbn [forallb]. rewrite Hx, H1. split_and!; try done.
      apply (chain_resolve_skip (x :: l1)); [|done]. cbn. by rewrite Hx.
    + right. cbn [forallb]. rewrite Hx. split; [done|].
      apply chain_resolve_all_miss. cbn. by rewrite Hx.
  - left. exists [], x, l. split_and!; try done. by apply (chain_resolve_skip []).
Qed.

(** A chain nested in a chain is the flat chain. *)
Lemma chain_resolve_flatten (l1 l2 l3 : list (result A)) :
  nf e0 = true →
  chain_resolve nf e0 (l1 ++ chain_resolve nf e0 l2 :: l3) = chain_resolve nf e0 (l1 ++ l2 ++ l3).
Proof.
  intros He. induction l1 as [|x l1 IH]; cbn [app].
  - induction l2 as [|y l2 IH]; cbn [app].
    + cbn. by rewrite He.
    + destruct y as [a|e|w]; cbn; try done. destruct (nf e) eqn:E; [by rewrite <- IH|].
      cbn. by rewrite E.
  - destruct x as [a|e|w]; cbn; try done. by destruct (nf e).
Qed.
End chain.
