(* ===== verification/Evaluate.v ===== *)
(** * The evaluator (pkg/expr/evaluate/evaluate.go, option.go, scoped.go)

    An evaluation walks a tree of values, replaces the references it can resolve and
    collects the ones it cannot.  The functions that call each other recursively in
    the code take the recursive call as an argument here; [evaluate] ties the knot
    with one unit of fuel per level of the tree, which [evaluate_unfold] shows to be
    enough, so that the code's own recursive equation holds. *)
From stdpp Require Import pretty.
From S2P Require Import Prelude GoStd GoStrings Values Errors Transfer Unresolvable Fn.
From S2P Require Import Resolve.

Inductive Language : Type := LanguagePath | LanguageJSONPath | LanguageJSONPathTemplate.

Definition InvokeFunc : Type := Invoker → result value.
Definition ResultMapper : Type := Result → result Result.

Definition IdentityResultMapper : ResultMapper := λ r, Ok r.

Record Evaluator := MkEvaluator {
  lang : Language;
  invoke : InvokeFunc;
  resultMapper : ResultMapper;
  dataTypeResolver : DataTypeResolver;
  secretTypeResolver : SecretTypeResolver;
  connectionTypeResolver : ConnectionTypeResolver;
  outputTypeResolver : OutputTypeResolver;
  parameterTypeResolver : ParameterTypeResolver;
  answerTypeResolver : AnswerTypeResolver;
  invocationResolver : InvocationResolver;
}.

(** ** Evaluation *)
Definition complete_result (v : value) : Result := MkResult v no_unresolvable.

Definition unresolved_data (e : error) : option Unresolvable :=
  match e with
  | EResolve (DataNotFoundError q) => Some (MkUnresolvable [MkData q] [] [] [] [] [] [])
  | _ => None
  end.
Definition unresolved_secret (e : error) : option Unresolvable :=
  match e with
  | EResolve (SecretNotFoundError n) => Some (MkUnresolvable [] [MkSecret n] [] [] [] [] [])
  | _ => None
  end.
Definition unresolved_connection (e : error) : option Unresolvable :=
  match e with
  | EResolve (ConnectionNotFoundError t n) =>
      Some (MkUnresolvable [] [] [MkConnection t n] [] [] [] [])
  | _ => None
  end.
Definition unresolved_output (e : error) : option Unresolvable :=
  match e with
  | EResolve (OutputNotFoundError f n) => Some (MkUnresolvable [] [] [] [MkOutput f n] [] [] [])
  | _ => None
  end.
Definition unresolved_parameter (e : error) : option Unresolvable :=
  match e with
  | EResolve (ParameterNotFoundError n) => Some (MkUnresolvable [] [] [] [] [MkParameter n] [] [])
  | _ => None
  end.
Definition unresolved_answer (e : error) : option Unresolvable :=
  match e with
  | EResolve (AnswerNotFoundError a n) => Some (MkUnresolvable [] [] [] [] [] [MkAnswer a n] [])
  | _ => None
  end.
Definition unresolved_invocation (e : error) : option Unresolvable :=
  match e with
  | EResolve (FunctionResolutionError n c) =>
      Some (MkUnresolvable [] [] [] [] [] [] [MkInvocation n c])
  | _ => None
  end.

(** [tm[name].(string)], or the error of a [$type] map without it. *)
Definition string_field (tm : gmap string value) (name : string) : option string :=
  tm !! name ≫= as_string.

Definition required (ty : string) (tm : gmap string value) (name : string) : result string :=
  match string_field tm name with
  | Some s => Ok s
  | None => Err (EEvaluate (InvalidTypeError ty (EEvaluate (FieldNotFoundError name))))
  end.

(** What each case of evaluateType does with its resolver's answer. *)
Definition type_result (ty : string) (tm : gmap string value)
    (unresolved : error → option Unresolvable) (answer : result value) : result Result :=
  match answer with
  | Ok v => Ok (complete_result v)
  | Err err =>
      match unresolved err with
      | Some u => Ok (MkResult (VMap tm) u)
      | None => Err (EEvaluate (InvalidTypeError ty err))
      end
  | Panic w => Panic w
  end.

Definition evaluateType (e : Evaluator) (tm : gmap string value) : result Result :=
  match tm !! "$type" with
  | Some (VString ty) =>
      if String.eqb ty "Data" then
        query ← required "Data" tm "query";
        type_result "Data" tm unresolved_data (dataTypeResolver e query)
      else if String.eqb ty "Secret" then
        name ← required "Secret" tm "name";
        type_result "Secret" tm unresolved_secret
          (s ← secretTypeResolver e name; Ok (VString s))
      else if String.eqb ty "Connection" then
        connectionType ← required "Connection" tm "type";
        name ← required "Connection" tm "name";
        type_result "Connection" tm unresolved_connection
          (connectionTypeResolver e connectionType name)
      else if String.eqb ty "Output" then
        from ← match string_field tm "from" with
               | Some from => Ok from
               | None =>
                   match string_field tm "taskName" with
                   | Some from => Ok from
                   | None => required "Output" tm "from"
                   end
               end;
        name ← required "Output" tm "name";
        type_result "Output" tm unresolved_output (outputTypeResolver e from name)
      else if String.eqb ty "Parameter" then
        name ← required "Parameter" tm "name";
        type_result "Parameter" tm unresolved_parameter (parameterTypeResolver e name)
      else if String.eqb ty "Answer" then
        askRef ← required "Answer" tm "askRef";
        name ← required "Answer" tm "name";
        type_result "Answer" tm unresolved_answer (answerTypeResolver e askRef name)
      else Ok (complete_result (VMap tm))
  | _ => Ok (complete_result (VMap tm))
  end.

(** The type switch on the evaluated arguments of an invocation. *)
Definition resolve_invoker (e : Evaluator) (name : string) (args : value) : result Invoker :=
  match args with
  | VSlice args => ResolveInvocationPositional (invocationResolver e) name args
  | VMap args => ResolveInvocation (invocationResolver e) name args
  | args => ResolveInvocationPositional (invocationResolver e) name [args]
  end.

Section evaluator.
Context `{GoRuntime, GoFmt} (e : Evaluator).

Section open_recursion.
Context (evaluate : value → Z → result Result).

Definition evaluateEncoding (em : gmap string value) : result Result :=
  match string_field em "$encoding" with
  | None => Ok (complete_result (VMap em))
  | Some ty =>
      let invalid err := EEvaluate (InvalidEncodingError ty err) in
      dr ← map_err invalid (evaluate (default VNil (em !! "data")) (-1)%Z);
      if negb (Complete dr) then
        let r := complete_result
          (VMap (<["$encoding" := VString ty]> {["data" := Value dr]})) in
        Ok (Result_extends r dr)
      else
        match as_string (Value dr) with
        | None =>
            Err (invalid (EFn (UnexpectedTypeError [TString] (type_of (Value dr)))))
        | Some data =>
            decoded ← map_err invalid (transfer_decode ty data);
            Ok (complete_result (VString decoded))
        end
  end.

(** The key and the value the loop [for key, value = range im {}] ends with. *)
Definition last_entry (im : gmap string value) : string * value :=
  default ("", VNil) (last (range_map im)).

Definition evaluateInvocation (im : gmap string value) : result Result :=
  let '(key, arg) := last_entry im in
  let name := trim_prefix key "$fn." in
  a ← evaluate arg (-1)%Z;
  if negb (Complete a) then
    Ok (Result_extends (complete_result (VMap {[key := Value a]})) a)
  else
    match resolve_invoker e name (Value a) with
    | Err err =>
        match unresolved_invocation err with
        | Some u => Ok (MkResult (VMap im) u)
        | None => Err err
        end
    | Panic w => Panic w
    | Ok i => v ← invoke e i; Ok (complete_result v)
    end.

(** The loops over the elements of a list and the entries of a map: evaluated
    entries are collected, unresolvable references accumulated. *)
Definition evaluate_entry (depth : Z) (acc : list (string * value) * Unresolvable)
    (entry : string * value) : result (list (string * value) * Unresolvable) :=
  nv ← map_err (λ err, EEvaluate (PathEvaluationError entry.1 err))
         (evaluate entry.2 depth);
  Ok (acc.1 ++ [(entry.1, Value nv)], extends acc.2 (Unresolvables nv)).

Definition evaluate_entries (depth : Z) (entries : list (string * value))
    : result (list (string * value) * Unresolvable) :=
  fold_outcome (evaluate_entry depth) ([], no_unresolvable) entries.

Definition evaluateUnchecked (v : value) (depth : Z) : result Result :=
  if Z.eqb depth 0 then Ok (complete_result v)
  else
    match v with
    | VSlice vt =>
        if Z.eqb depth 1 then Ok (complete_result v)
        else
          '(l, u) ← evaluate_entries (depth - 1) (imap (λ i v, (pretty i, v)) vt);
          Ok (MkResult (VSlice l.*2) u)
    | VMap vt =>
        let children _ :=
          '(m, u) ← evaluate_entries (depth - 1) (range_map vt);
          Ok (MkResult (VMap (list_to_map m)) u) in
        if decide (is_Some (vt !! "$type")) then evaluateType e vt
        else if decide (is_Some (vt !! "$encoding")) then evaluateEncoding vt
        else if decide (size vt = 1) then
          if has_prefix "$fn." (last_entry vt).1 then evaluateInvocation vt
          else children tt
        else if Z.eqb depth 1 then Ok (complete_result v)
        else children tt
    | _ => Ok (complete_result v)
    end.
End open_recursion.

(** The type switch at the end of [evaluate]. *)
Definition supported (v : value) : bool :=
  match v with
  | VNil | VBool _ | VFloat64 _ | VString _ | VSlice _ | VMap _ => true
  | VInt _ | VInt64 _ | VUint _ | VUint64 _ | VTime _ => true
  | VBytes _ | VJSONOrStr _ _ | VOther _ _ => false
  end.

Definition check_supported (candidate : Result) : result Result :=
  if supported (Value candidate) then Ok candidate
  else Err (EEvaluate (UnsupportedValueError (type_of (Value candidate)))).

Fixpoint evaluate_fuel (fuel : nat) (v : value) (depth : Z) : result Result :=
  match fuel with
  | O => Panic "evaluate: out of fuel"
  | S fuel' =>
      candidate ← evaluateUnchecked (evaluate_fuel fuel') v depth;
      check_supported candidate
  end.

Definition evaluate (v : value) (depth : Z) : result Result :=
  evaluate_fuel (S (vsize v)) v depth.

Definition Evaluate (tree : value) (depth : Z) : result Result :=
  r ← evaluate tree depth; resultMapper e r.

Definition EvaluateAll (tree : value) : result Result := Evaluate tree (-1)%Z.
End evaluator.
Arguments supported v : simpl nomatch.

(** ** Options and scoped evaluators *)
Definition Option : Type := Evaluator → Evaluator.

Definition WithDataTypeResolver (r : DataTypeResolver) : Option := λ e,
  MkEvaluator (lang e) (invoke e) (resultMapper e) r (secretTypeResolver e)
    (connectionTypeResolver e) (outputTypeResolver e) (parameterTypeResolver e)
    (answerTypeResolver e) (invocationResolver e).
Definition WithSecretTypeResolver (r : SecretTypeResolver) : Option := λ e,
  MkEvaluator (lang e) (invoke e) (resultMapper e) (dataTypeResolver e) r
    (connectionTypeResolver e) (outputTypeResolver e) (parameterTypeResolver e)
    (answerTypeResolver e) (invocationResolver e).
Definition WithConnectionTypeResolver (r : ConnectionTypeResolver) : Option := λ e,
  MkEvaluator (lang e) (invoke e) (resultMapper e) (dataTypeResolver e) (secretTypeResolver e)
    r (outputTypeResolver e) (parameterTypeResolver e) (answerTypeResolver e)
    (invocationResolver e).
Definition WithOutputTypeResolver (r : OutputTypeResolver) : Option := λ e,
  MkEvaluator (lang e) (invoke e) (resultMapper e) (dataTypeResolver e) (secretTypeResolver e)
    (connectionTypeResolver e) r (parameterTypeResolver e) (answerTypeResolver e)
    (invocationResolver e).
Definition WithParameterTypeResolver (r : ParameterTypeResolver) : Option := λ e,
  MkEvaluator (lang e) (invoke e) (resultMapper e) (dataTypeResolver e) (secretTypeResolver e)
    (connectionTypeResolver e) (outputTypeResolver e) r (answerTypeResolver e)
    (invocationResolver e).
Definition WithAnswerTypeResolver (r : AnswerTypeResolver) : Option := λ e,
  MkEvaluator (lang e) (invoke e) (resultMapper e) (dataTypeResolver e) (secretTypeResolver e)
    (connectionTypeResolver e) (outputTypeResolver e) (parameterTypeResolver e) r
    (invocationResolver e).
Definition WithInvocationResolver (r : InvocationResolver) : Option := λ e,
  MkEvaluator (lang e) (invoke e) (resultMapper e) (dataTypeResolver e) (secretTypeResolver e)
    (connectionTypeResolver e) (outputTypeResolver e) (parameterTypeResolver e)
    (answerTypeResolver e) r.
Definition WithLanguage (l : Language) : Option := λ e,
  MkEvaluator l (invoke e) (resultMapper e) (dataTypeResolver e) (secretTypeResolver e)
    (connectionTypeResolver e) (outputTypeResolver e) (parameterTypeResolver e)
    (answerTypeResolver e) (invocationResolver e).
Definition WithInvokeFunc (f : InvokeFunc) : Option := λ e,
  MkEvaluator (lang e) f (resultMapper e) (dataTypeResolver e) (secretTypeResolver e)
    (connectionTypeResolver e) (outputTypeResolver e) (parameterTypeResolver e)
    (answerTypeResolver e) (invocationResolver e).
Definition WithResultMapper (rm : ResultMapper) : Option := λ e,
  MkEvaluator (lang e) (invoke e) rm (dataTypeResolver e) (secretTypeResolver e)
    (connectionTypeResolver e) (outputTypeResolver e) (parameterTypeResolver e)
    (answerTypeResolver e) (invocationResolver e).

(** [Copy]: the options are applied, in order, to a copy. *)
Definition Copy (e : Evaluator) (opts : list Option) : Evaluator :=
  foldl (λ ne opt, opt ne) e opts.

Definition NewEvaluator `{JSONText} `{Markdown} (opts : list Option) : Evaluator :=
  foldl (λ e opt, opt e)
    (MkEvaluator LanguagePath (λ i, i tt) IdentityResultMapper
       NoOpDataTypeResolver NoOpSecretTypeResolver NoOpConnectionTypeResolver
       NoOpOutputTypeResolver NoOpParameterTypeResolver NoOpAnswerTypeResolver
       NewDefaultMemoryInvocationResolver)
    opts.

Record ScopedEvaluator := MkScoped { parent : Evaluator; tree : value }.

Definition ScopeTo (e : Evaluator) (t : value) : ScopedEvaluator := MkScoped e t.
Definition Scoped_Evaluate `{GoRuntime, GoFmt} (se : ScopedEvaluator) (depth : Z) : result Result :=
  Evaluate (parent se) (tree se) depth.
Definition Scoped_EvaluateAll `{GoRuntime, GoFmt} (se : ScopedEvaluator) : result Result :=
  EvaluateAll (parent se) (tree se).
Definition Scoped_Copy (se : ScopedEvaluator) (opts : list Option) : ScopedEvaluator :=
  MkScoped (Copy (parent se) opts) (tree se).
