(* ===== verification/EvaluateTheory.v ===== *)
(** * The equations of the evaluator

    [evaluate_unfold] is the recursive equation of the code; the lemmas after it
    describe an evaluation by the shape of the tree. *)
From stdpp Require Import pretty.
From S2P Require Import Prelude GoStd GoStrings Values Errors Transfer Unresolvable Fn.
From S2P Require Import Resolve Evaluate.

(** ** The shapes of a map *)
Inductive shape : Type :=
| ShType | ShEncoding | ShInvocation (key : string) (arg : value) | ShPlain.

Definition map_shape (m : gmap string value) : shape :=
  if decide (is_Some (m !! "$type")) then ShType
  else if decide (is_Some (m !! "$encoding")) then ShEncoding
  else match map_to_list m with
       | [(key, arg)] => if has_prefix "$fn." key then ShInvocation key arg else ShPlain
       | _ => ShPlain
       end.

Definition no_special_keys (m : gmap string value) : Prop :=
  m !! "$type" = None ∧ m !! "$encoding" = None.

Lemma map_shape_invocation_iff m key arg :
  map_shape m = ShInvocation key arg ↔
  no_special_keys m ∧ m = {[key := arg]} ∧ has_prefix "$fn." key = true.
Proof.
  unfold map_shape, no_special_keys. rewrite !eq_None_not_Some.
  repeat case_decide; try naive_solver. split.
  - destruct (map_to_list m) as [|[k v] [|]] eqn:E; try done.
    destruct (has_prefix "$fn." k) eqn:Hk; [|done]. intros [= <- <-]. split_and!; try done.
    rewrite <- (list_to_map_to_list m), E. apply insert_empty.
  - intros (_ & -> & Hk). by rewrite map_to_list_singleton, Hk.
Qed.

Lemma map_shape_invocation m key arg :
  map_shape m = ShInvocation key arg →
  m = {[key := arg]} ∧ has_prefix "$fn." key = true.
Proof. by intros (_ & ? & ?)%map_shape_invocation_iff. Qed.

Lemma map_shape_type m : map_shape m = ShType ↔ is_Some (m !! "$type").
Proof.
  unfold map_shape. repeat case_decide; [done..|]. split; [|done].
  destruct (map_to_list m) as [|[k v] [|]]; [done| |done]. by destruct (has_prefix "$fn." k).
Qed.

Lemma map_shape_encoding m :
  map_shape m = ShEncoding ↔ m !! "$type" = None ∧ is_Some (m !! "$encoding").
Proof.
  unfold map_shape. rewrite eq_None_not_Some. repeat case_decide; [by split; [|intros []]|done|].
  split; [|by intros []].
  destruct (map_to_list m) as [|[k v] [|]]; [done| |done]. by destruct (has_prefix "$fn." k).
Qed.

Lemma map_shape_plain_iff m :
  map_shape m = ShPlain ↔
  no_special_keys m ∧ ∀ key arg, m = {[key := arg]} → has_prefix "$fn." key = false.
Proof.
  split.
  - intros Hm. split.
    + revert Hm. unfold map_shape, no_special_keys. rewrite !eq_None_not_Some.
      repeat case_decide; done.
    + intros key arg ->. destruct (has_prefix "$fn." key) eqn:Hk; [|done].
      revert Hm. unfold map_shape. repeat case_decide; try done.
      by rewrite map_to_list_singleton, Hk.
  - intros [[H1 H2] Hk]. destruct (map_shape m) eqn:E; try done.
    + apply map_shape_type in E as [? E]. congruence.
    + apply map_shape_encoding in E as [_ [? E]]. congruence.
    + apply map_shape_invocation in E as [E Hp]. by rewrite (Hk _ _ E) in Hp.
Qed.

(** The shape of a map is decided by its keys. *)
Lemma map_related_singleton {A B} (n : gmap string B) k (x : A) :
  map_related (λ _ _ _, True) {[k := x]} n → ∃ y, n = {[k := y]}.
Proof.
  intros Hr. assert (Hk := Hr k). rewrite lookup_singleton_eq in Hk.
  destruct (n !! k) as [y|] eqn:E; [|done]. exists y. apply map_eq. intros k'.
  specialize (Hr k'). destruct (decide (k = k')) as [->|Hne].
  - by rewrite lookup_singleton_eq.
  - rewrite (lookup_singleton_ne k k') in Hr by done. rewrite lookup_singleton_ne by done.
    by destruct (n !! k').
Qed.

Lemma map_related_sym {A B} (m : gmap string A) (n : gmap string B) :
  map_related (λ _ _ _, True) m n → map_related (λ _ _ _, True) n m.
Proof. intros Hr k. specialize (Hr k). by destruct (m !! k), (n !! k). Qed.

Lemma map_shape_plain_related m n :
  map_related (λ _ _ _, True) m n → map_shape m = ShPlain → map_shape n = ShPlain.
Proof.
  rewrite !map_shape_plain_iff. intros Hr [[H1 H2] Hk]. split.
  - assert (E1 := Hr "$type"). assert (E2 := Hr "$encoding"). rewrite H1 in E1. rewrite H2 in E2.
    split; [by destruct (n !! "$type")|by destruct (n !! "$encoding")].
  - intros key arg ->. apply map_related_sym, map_related_singleton in Hr as [y Hy]. eauto.
Qed.

Section theory.
Context `{RL : GoRuntimeLaws} `{GoFmt} (e : Evaluator).

Notation evaluate := (evaluate e).

(** *** The loops *)
Lemma evaluate_entry_eq f d out u k v :
  evaluate_entry f d (out, u) (k, v) =
  match f v d with
  | Ok nv => Ok (out ++ [(k, Value nv)], extends u (Unresolvables nv))
  | Err err => Err (EEvaluate (PathEvaluationError k err))
  | Panic w => Panic w
  end.
Proof. unfold evaluate_entry. cbn. by destruct (f v d). Qed.

Lemma evaluate_entries_app f d es out u :
  fold_outcome (evaluate_entry f d) (out, u) es =
  fold_outcome (evaluate_entry f d) ([], u) es ≫= λ '(out', u'), Ok (out ++ out', u').
Proof.
  revert out u. induction es as [|[k v] es IH]; intros out u; cbn [fold_outcome].
  { cbn. by rewrite app_nil_r. }
  rewrite !evaluate_entry_eq. destruct (f v d) as [nv|err|w]; cbn; [|done..].
  rewrite (IH (out ++ _)), (IH [_]).
  destruct (fold_outcome _ _ _) as [[out' u']|err|w]; cbn; [|done..].
  by rewrite <- app_assoc.
Qed.

Lemma evaluate_entries_acc f d es u out u' :
  fold_outcome (evaluate_entry f d) ([], u) es = Ok (out, u') ↔
  ∃ rs, Forall2 (λ kv r, f kv.2 d = Ok r) es rs
        ∧ out = zip_with (λ kv r, (kv.1, Value r)) es rs
        ∧ u' = foldl extends u (Unresolvables <$> rs).
Proof.
  revert u out u'. induction es as [|[k v] es IH]; intros u out u'; cbn [fold_outcome].
  - split.
    + intros [= <- <-]. exists []. split_and!; [constructor|done|done].
    + intros (rs & Hrs & -> & ->). inversion Hrs; subst. done.
  - rewrite evaluate_entry_eq. destruct (f v d) as [nv|err|w] eqn:E; cbn.
    + rewrite evaluate_entries_app. split.
      * intros Hf. destruct (fold_outcome _ _ es) as [[o u1]|err|w] eqn:Ef; cbn in Hf; try done.
        injection Hf as <- <-. apply IH in Ef as (rs & Hrs & -> & ->).
        exists (nv :: rs). split_and!; [by constructor|done|done].
      * intros (rs & Hrs & -> & ->). inversion Hrs as [|? nv' ? rs' Hnv Hrs']; subst.
        cbn in Hnv. rewrite E in Hnv. injection Hnv as <-.
        erewrite (proj2 (IH _ _ _)); [|by exists rs']. done.
    + split; [done|]. intros (rs & Hrs & _). inversion Hrs; subst; cbn in *; congruence.
    + split; [done|]. intros (rs & Hrs & _). inversion Hrs; subst; cbn in *; congruence.
Qed.

Lemma evaluate_entries_Ok f d es out u :
  evaluate_entries f d es = Ok (out, u) ↔
  ∃ rs, Forall2 (λ kv r, f kv.2 d = Ok r) es rs
        ∧ out = zip_with (λ kv r, (kv.1, Value r)) es rs
        ∧ u = foldl extends no_unresolvable (Unresolvables <$> rs).
Proof. apply evaluate_entries_acc. Qed.

Lemma evaluate_entries_ext f g d es :
  (∀ k v, (k, v) ∈ es → f v d = g v d) → evaluate_entries f d es = evaluate_entries g d es.
Proof.
  intros Hfg. apply fold_outcome_ext. intros [out u] [k v] Hkv. unfold evaluate_entry.
  cbn [snd]. by rewrite (Hfg k v).
Qed.

Lemma elem_of_imap_entries (l : list value) k v :
  (k, v) ∈ imap (λ i v, (pretty i, v)) l → v ∈ l.
Proof.
  rewrite list_elem_of_lookup. intros [i Hi]. rewrite list_lookup_imap in Hi.
  destruct (l !! i) eqn:E; [|done]. injection Hi as _ <-. by eapply list_elem_of_lookup_2.
Qed.

(** *** The recursive equation *)
Lemma last_entry_single (m : gmap string value) :
  size m = 1 → ∃ k v, m = {[k := v]} ∧ last_entry m = (k, v).
Proof.
  intros Hs. destruct (range_map_single m Hs) as (k & v & -> & E). exists k, v.
  split; [done|]. unfold last_entry. by rewrite E.
Qed.

Lemma last_entry_singleton k v : last_entry {[k := v]} = (k, v).
Proof.
  unfold last_entry. assert (range_map {[k := v]} = [(k, v)]) as ->; [|done].
  apply Permutation_singleton_r. by rewrite range_map_perm, map_to_list_singleton.
Qed.

Lemma vsize_pos v : 0 < vsize v.
Proof. destruct v; cbn; lia. Qed.

Lemma vsize_data (m : gmap string value) k :
  is_Some (m !! k) → vsize (default VNil (m !! "data")) < vsize (VMap m).
Proof.
  intros [v Hv]. destruct (m !! "data") as [d|] eqn:E; cbn [default from_option id].
  - by eapply vsize_map.
  - pose proof (vsize_map m k v Hv). pose proof (vsize_pos v). cbn [vsize] in *. lia.
Qed.

Lemma evaluateUnchecked_ext f g v d :
  (∀ w d, vsize w < vsize v → f w d = g w d) →
  evaluateUnchecked e f v d = evaluateUnchecked e g v d.
Proof.
  intros Hfg. unfold evaluateUnchecked. destruct (Z.eqb d 0); [done|].
  destruct v as [| | | | | | | | |l|m| | |]; try done.
  - destruct (Z.eqb d 1); [done|]. erewrite evaluate_entries_ext; [done|].
    intros k w Hw. apply Hfg, vsize_slice. by eapply elem_of_imap_entries.
  - assert (Hch : evaluate_entries f (d - 1) (range_map m)
                  = evaluate_entries g (d - 1) (range_map m)).
    { apply evaluate_entries_ext. intros k w Hw. eapply Hfg, vsize_map.
      by apply elem_of_range_map. }
    case_decide; [done|]. case_decide.
    { unfold evaluateEncoding. destruct (string_field m "$encoding"); [|done].
      rewrite Hfg; [done|]. by eapply vsize_data. }
    case_decide as Hs; [|destruct (Z.eqb d 1); [done|by rewrite Hch]].
    destruct (has_prefix _ _) eqn:Hp; [|by rewrite Hch].
    unfold evaluateInvocation.
    destruct (last_entry_single m Hs) as (k & w & -> & ->). rewrite Hfg; [done|].
    eapply (vsize_map _ k). apply lookup_singleton_eq.
Qed.

Lemma evaluate_fuel_enough n m v d :
  vsize v < n → vsize v < m → evaluate_fuel e n v d = evaluate_fuel e m v d.
Proof.
  revert m v d. induction n as [|n IH]; intros [|m] v d Hn Hm; try lia.
  cbn [evaluate_fuel]. rewrite (evaluateUnchecked_ext _ (evaluate_fuel e m)); [done|].
  intros w d' Hw. apply IH; lia.
Qed.

(** The fuel is enough: [evaluate] satisfies the equation of the code. *)
Lemma evaluate_unfold v d :
  evaluate v d = evaluateUnchecked e evaluate v d ≫= check_supported.
Proof.
  unfold Evaluate.evaluate at 1. cbn [evaluate_fuel].
  rewrite (evaluateUnchecked_ext _ evaluate); [done|].
  intros w d' Hw. unfold Evaluate.evaluate. apply evaluate_fuel_enough; lia.
Qed.

(** *** By shape *)
Definition evaluate_children (m : gmap string value) (d : Z) : result Result :=
  '(m', u) ← evaluate_entries evaluate (d - 1) (range_map m);
  Ok (MkResult (VMap (list_to_map m')) u).

Lemma evaluate_depth0 v : evaluate v 0 = check_supported (complete_result v).
Proof. by rewrite evaluate_unfold. Qed.

Lemma evaluate_leaf v d :
  is_leaf v = true → evaluate v d = check_supported (complete_result v).
Proof.
  intros Hv. rewrite evaluate_unfold. unfold evaluateUnchecked.
  destruct (Z.eqb d 0); [done|]. by destruct v.
Qed.

Lemma evaluate_slice l d :
  d ≠ 0%Z → evaluate (VSlice l) d =
  if Z.eqb d 1 then Ok (complete_result (VSlice l))
  else '(l', u) ← evaluate_entries evaluate (d - 1) (imap (λ i v, (pretty i, v)) l);
       Ok (MkResult (VSlice l'.*2) u).
Proof.
  intros Hd. rewrite evaluate_unfold. unfold evaluateUnchecked.
  rewrite (proj2 (Z.eqb_neq _ _) Hd). destruct (Z.eqb d 1); [done|].
  destruct (evaluate_entries _ _ _) as [[l' u]| |]; done.
Qed.

Lemma evaluate_map m d :
  d ≠ 0%Z → evaluate (VMap m) d =
  match map_shape m with
  | ShType => evaluateType e m ≫= check_supported
  | ShEncoding => evaluateEncoding evaluate m ≫= check_supported
  | ShInvocation _ _ => evaluateInvocation e evaluate m ≫= check_supported
  | ShPlain =>
      if decide (d = 1%Z ∧ size m ≠ 1) then Ok (complete_result (VMap m))
      else evaluate_children m d
  end.
Proof.
  intros Hd. rewrite evaluate_unfold. unfold evaluateUnchecked, map_shape, evaluate_children.
  rewrite (proj2 (Z.eqb_neq _ _) Hd). case_decide; [done|]. case_decide; [done|].
  assert (Hlen := length_map_to_list m). case_decide as Hs.
  - destruct (last_entry_single m Hs) as (k & v & -> & ->).
    rewrite map_to_list_singleton. cbn [fst].
    destruct (has_prefix "$fn." k); [done|]. rewrite decide_False by tauto.
    destruct (evaluate_entries _ _ _) as [[l' u]| |]; done.
  - destruct (map_to_list m) as [|[k v] [|]]; [|cbn in Hlen; lia|];
      (destruct (Z.eqb_spec d 1);
       [by rewrite decide_True|rewrite decide_False by tauto];
       destruct (evaluate_entries _ _ _) as [[l' u]| |]; done).
Qed.

(** All negative depths are alike: -1 means no limit. *)
Lemma evaluate_negative v d : (d < 0)%Z → evaluate v d = evaluate v (-1).
Proof.
  revert d. induction v as [v IH] using value_strong_ind. intros d Hd.
  destruct v as [| | | | | | | | |l|m| | |]; try (by rewrite !evaluate_leaf).
  - rewrite !evaluate_slice by lia. rewrite !(proj2 (Z.eqb_neq _ 1)) by lia.
    rewrite (evaluate_entries_ext evaluate (λ v _, evaluate v (-1)) (d - 1)).
    + rewrite (evaluate_entries_ext evaluate (λ v _, evaluate v (-1)) (-1 - 1)); [done|].
      intros k w Hw%elem_of_imap_entries. apply IH; [by apply vsize_slice|lia].
    + intros k w Hw%elem_of_imap_entries. apply IH; [by apply vsize_slice|lia].
  - assert (Hch : evaluate_children m d = evaluate_children m (-1)).
    { unfold evaluate_children.
      rewrite (evaluate_entries_ext evaluate (λ v _, evaluate v (-1)) (d - 1)).
      - rewrite (evaluate_entries_ext evaluate (λ v _, evaluate v (-1)) (-1 - 1)); [done|].
        intros k w Hw%elem_of_range_map. apply IH; [by eapply vsize_map|lia].
      - intros k w Hw%elem_of_range_map. apply IH; [by eapply vsize_map|lia]. }
    rewrite !evaluate_map, Hch by lia. destruct (map_shape m); try done.
    by rewrite !decide_False by lia.
Qed.
Lemma zip_values (es : list (string * value)) rs :
  zip_with (λ kv r, (kv.1, Value r)) es rs = entries_of es (Value <$> rs).
Proof.
  unfold entries_of. revert rs. induction es as [|? es IH]; intros [|r rs]; cbn; try done.
  by rewrite IH.
Qed.

Lemma snd_entries_of (es : list (string * value)) (ws : list value) :
  length es = length ws → (entries_of es ws).*2 = ws.
Proof.
  unfold entries_of. revert ws. induction es as [|? es IH]; intros [|w ws] Hl; cbn; try done.
  injection Hl as Hl. by rewrite IH.
Qed.

Lemma Forall2_imap_entries {B} (P : value → B → Prop) (l : list value) (ws : list B) :
  Forall2 (λ kv w, P kv.2 w) (imap (λ i v, (pretty i, v)) l) ws ↔ Forall2 P l ws.
Proof.
  rewrite !Forall2_same_length_lookup, length_imap. apply and_iff_compat_l.
  split; intros Hl i.
  - intros v w Hv Hw. apply (Hl i (pretty i, v) w); [|done]. by rewrite list_lookup_imap, Hv.
  - intros [k v] w Hv Hw. rewrite list_lookup_imap in Hv.
    destruct (l !! i) eqn:Hi; [|done]. injection Hv as <- <-. by apply (Hl i).
Qed.

(** What an evaluated list or map is made of. *)
Lemma evaluate_slice_Ok l d r :
  d ≠ 0%Z → d ≠ 1%Z →
  evaluate (VSlice l) d = Ok r ↔
  ∃ rs, Forall2 (λ v r, evaluate v (d - 1) = Ok r) l rs
        ∧ r = MkResult (VSlice (Value <$> rs))
                (foldl extends no_unresolvable (Unresolvables <$> rs)).
Proof.
  intros Hd0 Hd1. rewrite evaluate_slice by done. rewrite (proj2 (Z.eqb_neq _ _) Hd1). split.
  - intros Ho. inv_ok. destruct a as [out u]. injection Ho as <-.
    apply evaluate_entries_Ok in Ho0 as (rs & Hrs & -> & ->). exists rs.
    assert (Hl := Forall2_length _ _ _ Hrs).
    rewrite (Forall2_imap_entries (λ v r, evaluate v (d - 1) = Ok r)) in Hrs. split; [done|].
    rewrite zip_values, snd_entries_of; [done|]. by rewrite length_fmap.
  - intros (rs & Hrs & ->).
    rewrite <- (Forall2_imap_entries (λ v r, evaluate v (d - 1) = Ok r)) in Hrs.
    erewrite (proj2 (evaluate_entries_Ok _ _ _ _ _)); [|by exists rs]. cbn.
    rewrite zip_values, snd_entries_of; [done|]. rewrite length_fmap. by eapply Forall2_length.
Qed.

(** [r] collects the results [n] of the entries of a map. *)
Record collects (n : gmap string Result) (r : Result) : Prop := {
  collects_value : Value r = VMap (Value <$> n);
  collects_refs x :
    refs (Unresolvables r) x ↔ ∃ k r', n !! k = Some r' ∧ refs (Unresolvables r') x;
  collects_ordered :
    map_Forall (λ _ r', well_ordered (Unresolvables r')) n → well_ordered (Unresolvables r);
}.

Lemma elem_of_entries_of_inv {B} (es : list (string * value)) (rs : list B) r :
  length es = length rs → r ∈ rs → ∃ k, (k, r) ∈ entries_of es rs.
Proof.
  unfold entries_of. revert rs. induction es as [|[k v] es IH]; intros [|r' rs] Hl Hr; cbn;
    try done; [by apply not_elem_of_nil in Hr|].
  injection Hl as Hl. apply elem_of_cons in Hr as [->|Hr]; [exists k; left|].
  destruct (IH _ Hl Hr) as [k' ?]. exists k'. by right.
Qed.

Lemma elem_of_entries_of {B} (es : list (string * value)) (rs : list B) k r :
  (k, r) ∈ entries_of es rs → k ∈ es.*1 ∧ r ∈ rs.
Proof.
  unfold entries_of. revert rs. induction es as [|[k' v] es IH]; intros [|r' rs] Hr; cbn in *;
    try by apply not_elem_of_nil in Hr.
  apply elem_of_cons in Hr as [[= -> ->]|Hr]; [split; left|].
  destruct (IH _ Hr). split; by right.
Qed.

Lemma fst_entries_of {B} (es : list (string * value)) (rs : list B) :
  length es = length rs → (entries_of es rs).*1 = es.*1.
Proof.
  unfold entries_of. revert rs. induction es as [|? es IH]; intros [|r rs] Hl; cbn; try done.
  injection Hl as Hl. by rewrite IH.
Qed.

Lemma well_ordered_foldl us u :
  Forall well_ordered us → well_ordered u → well_ordered (foldl extends u us).
Proof.
  intros Hus. revert u. induction Hus as [|v us Hv _ IH]; intros u Hu; cbn; [done|].
  by apply IH, well_ordered_extends.
Qed.

Lemma collects_entries (m : gmap string value) (rs : list Result) :
  length (range_map m) = length rs →
  collects (list_to_map (entries_of (range_map m) rs))
    (MkResult (VMap (list_to_map (entries_of (range_map m) (Value <$> rs))))
       (foldl extends no_unresolvable (Unresolvables <$> rs))).
Proof.
  intros Hl.
  assert (Hin : ∀ k r, (list_to_map (entries_of (range_map m) rs) : gmap string Result) !! k
            = Some r ↔ (k, r) ∈ entries_of (range_map m) rs).
  { intros k r. symmetry. apply elem_of_list_to_map.
    rewrite fst_entries_of by done. apply range_map_NoDup. }
  assert (Hr : ∀ r, r ∈ rs ↔ ∃ k, (list_to_map (entries_of (range_map m) rs)
            : gmap string Result) !! k = Some r).
  { intros r. setoid_rewrite Hin. split; [by apply elem_of_entries_of_inv|].
    by intros [k []%elem_of_entries_of]. }
  split; cbn.
  - f_equal. rewrite <- list_to_map_fmap. f_equal. unfold entries_of. clear.
    revert rs. induction (range_map m) as [|? es IH]; intros [|r rs]; cbn; try done.
    by rewrite IH.
  - intros x. rewrite refs_foldl_extends. split.
    + intros [Hx|(u & Hu & Hx)]; [by apply refs_no_unresolvable in Hx|].
      apply list_elem_of_fmap in Hu as (r & -> & [k Hk]%Hr). by exists k, r.
    + intros (k & r & Hk & Hx). right. exists (Unresolvables r). split; [|done].
      apply list_elem_of_fmap. exists r. split; [done|]. apply Hr. by exists k.
  - intros Hwo. apply well_ordered_foldl; [|apply well_ordered_none].
    apply Forall_fmap, Forall_forall. intros r [k Hk]%Hr. by apply (Hwo k).
Qed.

Lemma evaluate_children_Ok m d r :
  evaluate_children m d = Ok r →
  ∃ n, map_related (λ _ v r', evaluate v (d - 1) = Ok r') m n ∧ collects n r.
Proof.
  unfold evaluate_children. intros Ho. inv_ok. destruct a as [out u]. injection Ho as <-.
  apply evaluate_entries_Ok in Ho0 as (rs & Hrs & -> & ->). rewrite zip_values.
  exists (list_to_map (entries_of (range_map m) rs)). split.
  - by apply (range_related (λ _ v r', evaluate v (d - 1) = Ok r')).
  - apply collects_entries. by eapply Forall2_length.
Qed.

Lemma evaluate_children_intro m d n :
  map_related (λ _ v r', evaluate v (d - 1) = Ok r') m n →
  ∃ r, evaluate_children m d = Ok r ∧ collects n r.
Proof.
  intros Hr.
  apply (range_related_inv (λ _ v r', evaluate v (d - 1) = Ok r')) in Hr as (rs & Hrs & ->).
  eexists. split.
  - unfold evaluate_children.
    erewrite (proj2 (evaluate_entries_Ok _ _ _ _ _)); [|by exists rs].
    cbn. by rewrite zip_values.
  - apply collects_entries. by eapply Forall2_length.
Qed.
(** At depth 1 a plain map comes back as it is. *)
Lemma evaluate_depth_one m :
  map_shape m = ShPlain → (size m = 1 → map_Forall (λ _ v, supported v = true) m) →
  evaluate (VMap m) 1 = Ok (complete_result (VMap m)).
Proof.
  intros Hs Hm. rewrite evaluate_map, Hs by done. case_decide as Hd; [done|].
  assert (Hsz : size m = 1) by (destruct (decide (size m = 1)); [done|]; by destruct Hd). specialize (Hm Hsz).
  destruct (range_map_single m Hsz) as (k & v & -> & E).
  unfold evaluate_children. rewrite E. unfold evaluate_entries. cbn [fold_outcome].
  rewrite evaluate_entry_eq, evaluate_depth0. apply map_Forall_singleton in Hm.
  unfold check_supported. cbn [Value complete_result]. by rewrite Hm.
Qed.
End theory.
