(* ===== verification/Denote.v ===== *)
(** * What an expression denotes

    [denotes e v w] is the specification of a complete evaluation: it says which value
    a tree stands for, without fuel, depth, traversal order or accumulated sets.
    [evaluate_denotes] is the refinement: [EvaluateAll] returns a complete result
    exactly when the tree denotes its value. *)
From stdpp Require Import pretty.
From S2P Require Import Prelude GoStd GoStrings Values Errors Transfer Unresolvable Fn.
From S2P Require Import Resolve Evaluate EvaluateTheory.

(** The call a function reference makes once its arguments are known. *)
Definition call (e : Evaluator) (key : string) (args : value) : result Invoker :=
  resolve_invoker e (trim_prefix key "$fn.") args.

Inductive denotes (e : Evaluator) : value → value → Prop :=
| D_leaf v : is_leaf v = true → supported v = true → denotes e v v
| D_slice l l' :
    length l = length l' →
    (∀ i v w, l !! i = Some v → l' !! i = Some w → denotes e v w) →
    denotes e (VSlice l) (VSlice l')
| D_map m m' :
    map_shape m = ShPlain →
    (∀ k, is_Some (m !! k) ↔ is_Some (m' !! k)) →
    (∀ k v w, m !! k = Some v → m' !! k = Some w → denotes e v w) →
    denotes e (VMap m) (VMap m')
| D_type tm w :
    map_shape tm = ShType → evaluateType e tm = Ok (complete_result w) → supported w = true →
    denotes e (VMap tm) w
| D_encoding em ty data b :
    map_shape em = ShEncoding → string_field em "$encoding" = Some ty →
    denotes e (default VNil (em !! "data")) (VString data) → transfer_decode ty data = Ok b →
    denotes e (VMap em) (VString b)
| D_encoding_other em :
    map_shape em = ShEncoding → string_field em "$encoding" = None → denotes e (VMap em) (VMap em)
| D_invocation im key arg args i w :
    map_shape im = ShInvocation key arg → denotes e arg args → call e key args = Ok i →
    invoke e i = Ok w → supported w = true → denotes e (VMap im) w.

Section refinement.
Context `{RL : GoRuntimeLaws} `{GoFmt}.

Lemma foldl_extends_none us :
  foldl extends no_unresolvable us = no_unresolvable ↔ Forall (λ u, u = no_unresolvable) us.
Proof.
  rewrite <- equiv_no_unresolvable, Forall_forall. split.
  - intros Hu u Hin. apply equiv_no_unresolvable. intros x. split.
    + intros Hx. apply Hu, refs_foldl_extends. right. by exists u.
    + intros Hx. by apply refs_no_unresolvable in Hx.
  - intros Hall x. rewrite refs_foldl_extends. split; [|by left].
    intros [?|(u & Hin & Hx)]; [done|]. by rewrite <- (Hall u Hin).
Qed.

Context (e : Evaluator).

(** [EvaluateAll]'s evaluation of [v] is complete, with value [w]. *)
Definition completes (v w : value) : Prop := evaluate e v (-1) = Ok (complete_result w).

Lemma complete_rs rs :
  Forall (λ u, u = no_unresolvable) (Unresolvables <$> rs) →
  rs = complete_result <$> (Value <$> rs).
Proof.
  induction rs as [|[v u] rs IH]; cbn; intros Hrs; [done|].
  apply Forall_cons in Hrs as [Hu Hrs]. cbn in Hu. subst. unfold complete_result at 1. cbn.
  by rewrite <- IH.
Qed.

(** Below the root the depth is negative too. *)
Lemma entries_complete es out :
  evaluate_entries (evaluate e) (-1 - 1) es = Ok (out, no_unresolvable) ↔
  ∃ ws, Forall2 (λ kv w, completes kv.2 w) es ws ∧ out = entries_of es ws.
Proof.
  rewrite (evaluate_entries_ext _ (λ v _, evaluate e v (-1)))
    by (intros; by apply evaluate_negative).
  rewrite evaluate_entries_Ok. split.
  - intros (rs & Hrs & -> & Hu). symmetry in Hu. apply foldl_extends_none in Hu.
    exists (Value <$> rs). rewrite (complete_rs rs Hu) in Hrs. apply Forall2_fmap_r in Hrs.
    split; [done|]. apply zip_values.
  - intros (ws & Hws & ->). exists (complete_result <$> ws). split_and!.
    + by apply Forall2_fmap_r.
    + rewrite zip_values, <- list_fmap_compose. f_equal. symmetry. apply list_fmap_id.
    + symmetry. apply foldl_extends_none. clear. induction ws; by constructor.
Qed.

Lemma bind_supported_complete (o : result Result) w :
  o ≫= check_supported = Ok (complete_result w) ↔
  o = Ok (complete_result w) ∧ supported w = true.
Proof.
  rewrite bind_Ok. unfold check_supported. split.
  - intros (r & -> & Hr). destruct (supported (Value r)) eqn:E; [|done].
    injection Hr as ->. done.
  - intros [-> Hs]. exists (complete_result w). cbn. by rewrite Hs.
Qed.

Lemma completes_leaf v w :
  is_leaf v = true → completes v w ↔ w = v ∧ supported v = true.
Proof.
  intros Hv. unfold completes. rewrite evaluate_leaf by done. unfold check_supported. cbn.
  destruct (supported v); naive_solver.
Qed.

Lemma completes_slice l w :
  completes (VSlice l) w ↔ ∃ l', w = VSlice l' ∧ Forall2 completes l l'.
Proof.
  unfold completes at 1. rewrite evaluate_slice by done. cbn [Z.eqb].
  split.
  - intros Ho. inv_ok. destruct a as [out u]. injection Ho as <- ->.
    apply entries_complete in Ho0 as (ws & Hws & ->). exists ws.
    rewrite snd_entries_of by (by eapply Forall2_length). by rewrite <- (Forall2_imap_entries completes).
  - intros (l' & -> & Hl). apply (Forall2_imap_entries completes) in Hl.
    erewrite (proj2 (entries_complete _ _)); [|by exists l'].
    cbn. rewrite snd_entries_of; [done|]. by eapply Forall2_length.
Qed.

Lemma completes_plain m w :
  map_shape m = ShPlain →
  completes (VMap m) w ↔ ∃ m', w = VMap m' ∧ map_related (λ _, completes) m m'.
Proof.
  intros Hm. unfold completes at 1. rewrite evaluate_map, Hm by done.
  rewrite decide_False by (by intros []). unfold evaluate_children. split.
  - intros Ho. inv_ok. destruct a as [out u]. injection Ho as <- ->.
    apply entries_complete in Ho0 as (ws & Hws & ->). eexists. split; [done|].
    by apply (range_related (λ _, completes)).
  - intros (m' & -> & Hr).
    apply (range_related_inv (λ _, completes)) in Hr as (ws & Hws & ->).
    erewrite (proj2 (entries_complete _ _)); [|by exists ws]. done.
Qed.

Lemma completes_type m w :
  map_shape m = ShType →
  completes (VMap m) w ↔ evaluateType e m = Ok (complete_result w) ∧ supported w = true.
Proof.
  intros Hm. unfold completes at 1. rewrite evaluate_map, Hm by done.
  apply bind_supported_complete.
Qed.

Lemma Complete_eq r : Complete r = true ↔ r = complete_result (Value r).
Proof.
  rewrite Complete_iff. destruct r as [v u]. unfold complete_result. cbn. naive_solver.
Qed.

Lemma extends_incomplete r dr w :
  Complete dr = false → @Ok error _ (Result_extends r dr) ≠ Ok (complete_result w).
Proof.
  intros Hc Hr.
  assert (Hu : Unresolvables (Result_extends r dr) = no_unresolvable).
  { change no_unresolvable with (Unresolvables (complete_result w)).
    apply (f_equal (λ o : result Result, from_option Unresolvables no_unresolvable
      match o with Ok r => Some r | _ => None end) Hr). }
  apply not_true_iff_false in Hc. apply Hc, Complete_no_refs. intros x Hx.
  apply (refs_no_unresolvable x). rewrite <- Hu. cbn. apply refs_extends. by right.
Qed.

Lemma completes_encoding m w :
  map_shape m = ShEncoding →
  completes (VMap m) w ↔
  match string_field m "$encoding" with
  | None => w = VMap m
  | Some ty => ∃ data b, completes (default VNil (m !! "data")) (VString data)
                         ∧ transfer_decode ty data = Ok b ∧ w = VString b
  end.
Proof.
  intros Hm. unfold completes at 1. rewrite evaluate_map, Hm by done.
  rewrite bind_supported_complete. unfold evaluateEncoding.
  destruct (string_field m "$encoding") as [ty|]; [|naive_solver].
  split.
  - intros [Ho _]. inv_ok. destruct (Complete a) eqn:Hc; cbn [negb] in Ho.
    + destruct (as_string (Value a)) as [data|] eqn:Hd; [|done]. inv_ok.
      exists data, a0. split_and!; [|done..]. unfold completes.
      apply Complete_eq in Hc. rewrite Hc in Ho0. rewrite Ho0.
      by destruct (Value a); try discriminate Hd; injection Hd as ->.
    + by apply extends_incomplete in Ho.
  - intros (data & b & Hd & Hb & ->). split; [|done].
    rewrite Hd. cbn. by rewrite Hb.
Qed.

Lemma completes_invocation m key arg w :
  map_shape m = ShInvocation key arg →
  completes (VMap m) w ↔
  ∃ args i, completes arg args ∧ call e key args = Ok i ∧ invoke e i = Ok w
            ∧ supported w = true.
Proof.
  intros Hm. unfold completes at 1. rewrite evaluate_map, Hm by done.
  rewrite bind_supported_complete. apply map_shape_invocation in Hm as [-> _].
  unfold evaluateInvocation. rewrite last_entry_singleton. split.
  - intros [Ho Hs]. inv_ok. destruct (Complete a) eqn:Hc; cbn [negb] in Ho.
    + apply Complete_eq in Hc. exists (Value a). change (resolve_invoker e (trim_prefix key "$fn.") (Value a))
        with (call e key (Value a)) in Ho.
      destruct (call e key (Value a)) as [i|err|] eqn:Hi; [| |done].
      * inv_ok. exists i. split_and!; try done. unfold completes. by rewrite Ho0, Hc at 1.
      * destruct err as [[]| | | | | | | | | | |]; done.
    + by apply extends_incomplete in Ho.
  - intros (args & i & Ha & Hi & Hv & Hs). split; [|done]. rewrite Ha. cbn.
    fold (call e key args). rewrite Hi. cbn. by rewrite Hv.
Qed.

(** The refinement. *)
Lemma completes_denotes v w : completes v w ↔ denotes e v w.
Proof.
  revert w. induction v as [v IH] using value_strong_ind. intros w.
  destruct (is_leaf v) eqn:Hv.
  { rewrite completes_leaf by done. split.
    - intros [-> Hs]. by constructor.
    - inversion 1; subst; done. }
  destruct v as [| | | | | | | | |l|m| | |]; try discriminate Hv; clear Hv.
  - rewrite completes_slice. split.
    + intros (l' & -> & Hl). apply D_slice; [by eapply Forall2_length|].
      intros i v w Hi Hw. apply IH; [|by eapply Forall2_lookup_lr].
      by eapply vsize_slice, list_elem_of_lookup_2.
    + inversion 1 as [|l1 l' Hlen Hl| | | | |]; subst; try done. exists l'. split; [done|].
      apply Forall2_same_length_lookup. split; [done|]. intros i v w Hi Hw.
      apply IH; [by eapply vsize_slice, list_elem_of_lookup_2|by eapply Hl].
  - destruct (map_shape m) as [| |key arg|] eqn:Hm.
    + rewrite completes_type by done. split.
      * intros []. by apply D_type.
      * inversion 1; subst; try congruence; done.
    + rewrite completes_encoding by done. split.
      * destruct (string_field m "$encoding") as [ty|] eqn:Hty.
        -- intros (data & b & Hd & Hb & ->). eapply D_encoding; try done.
           apply IH; [|done]. eapply (vsize_data _ "$encoding").
           unfold string_field in Hty. by destruct (m !! "$encoding").
        -- intros ->. by apply D_encoding_other.
      * inversion 1 as [| | | |em ty data b ? Hty Hd Hb|em ? Hty|]; subst; try congruence; try done.
        -- rewrite Hty. exists data, b. split_and!; try done. apply IH; [|done].
           eapply (vsize_data _ "$encoding").
           unfold string_field in Hty. by destruct (m !! "$encoding").
        -- by rewrite Hty.
    + rewrite completes_invocation by done.
      assert (Harg : vsize arg < vsize (VMap m)).
      { apply map_shape_invocation in Hm as [-> _]. eapply vsize_map, lookup_singleton_eq. }
      split.
      * intros (args & i & Ha & ? & ? & ?). eapply D_invocation; try done. by apply IH.
      * inversion 1; subst; try congruence; try done.
        match goal with H1 : map_shape m = _ |- _ => rewrite Hm in H1; injection H1 as <- <- end.
        eexists _, _. split_and!; try done. by apply IH.
    + rewrite completes_plain by done. split.
      * intros (m' & -> & Hr). apply D_map; [done| |].
        -- intros k. specialize (Hr k). destruct (m !! k), (m' !! k); try done;
             rewrite !is_Some_alt; naive_solver.
        -- intros k v w Hv Hw. specialize (Hr k). rewrite Hv, Hw in Hr.
           apply IH; [by eapply vsize_map|done].
      * inversion 1 as [| |m1 m' ? Hk Hr| | | |]; subst; try congruence; try done.
        exists m'. split; [done|]. intros k. specialize (Hk k).
        destruct (m !! k) eqn:E1, (m' !! k) eqn:E2.
        -- apply IH; [by eapply vsize_map|by eapply Hr].
        -- destruct Hk as [Hk _]. by destruct (Hk (mk_is_Some _ _ eq_refl)).
        -- destruct Hk as [_ Hk]. by destruct (Hk (mk_is_Some _ _ eq_refl)).
        -- done.
Qed.
End refinement.

(** ** Inversion of [denotes], by the shape of the tree *)
Lemma map_related_iff {A B} (R S : string → A → B → Prop) m n :
  (∀ k x y, R k x y ↔ S k x y) → map_related R m n ↔ map_related S m n.
Proof.
  intros HRS. split; intros Hr k; specialize (Hr k); destruct (m !! k), (n !! k); try done;
    by apply HRS.
Qed.

Section inversion.
Context (e : Evaluator).
#[local] Instance any_runtime : GoRuntime := forward_runtime.
#[local] Instance any_fmt : GoFmt := {| quote s := s |}.

Lemma denotes_leaf v w : is_leaf v = true → denotes e v w ↔ w = v ∧ supported v = true.
Proof. intros Hv. rewrite <- completes_denotes. by apply completes_leaf. Qed.

Lemma denotes_slice l w :
  denotes e (VSlice l) w ↔ ∃ l', w = VSlice l' ∧ Forall2 (denotes e) l l'.
Proof.
  rewrite <- completes_denotes, completes_slice.
  f_equiv; intros l'. apply and_iff_compat_l.
  split; intros Hl; (eapply Forall2_impl; [exact Hl|]); intros; by apply completes_denotes.
Qed.

Lemma denotes_plain m w :
  map_shape m = ShPlain →
  denotes e (VMap m) w ↔ ∃ m', w = VMap m' ∧ map_related (λ _, denotes e) m m'.
Proof.
  intros Hm. rewrite <- completes_denotes, completes_plain by done.
  f_equiv; intros m'. apply and_iff_compat_l, map_related_iff. intros. apply completes_denotes.
Qed.

Lemma denotes_type m w :
  map_shape m = ShType →
  denotes e (VMap m) w ↔ evaluateType e m = Ok (complete_result w) ∧ supported w = true.
Proof. intros Hm. rewrite <- completes_denotes. by apply completes_type. Qed.

Lemma denotes_encoding m w :
  map_shape m = ShEncoding →
  denotes e (VMap m) w ↔
  match string_field m "$encoding" with
  | None => w = VMap m
  | Some ty => ∃ data b, denotes e (default VNil (m !! "data")) (VString data)
                         ∧ transfer_decode ty data = Ok b ∧ w = VString b
  end.
Proof.
  intros Hm. rewrite <- completes_denotes, completes_encoding by done.
  destruct (string_field m "$encoding"); [|done].
  f_equiv; intros data. f_equiv; intros b. by rewrite completes_denotes.
Qed.

Lemma denotes_invocation m key arg w :
  map_shape m = ShInvocation key arg →
  denotes e (VMap m) w ↔
  ∃ args i, denotes e arg args ∧ call e key args = Ok i ∧ invoke e i = Ok w
            ∧ supported w = true.
Proof.
  intros Hm. rewrite <- completes_denotes, (completes_invocation e m key arg) by done.
  f_equiv; intros args. f_equiv; intros i. by rewrite completes_denotes.
Qed.
End inversion.
