(* ===== verification/Staging.v ===== *)
(** * Evaluation in stages

    A workflow's expressions are evaluated more than once: without resolvers when the run
    is configured, the result being stored, and again with the resolvers of the request
    when a step asks for it.  A reference that an early stage cannot resolve is left
    in place, so that the stages compose where what the first resolves is data to the
    second ([stage_stable]): [stages_compose].  The last section says when an evaluation
    has the maps it merges to itself. *)
From S2P Require Import Prelude GoStd GoStrings Values Errors Transfer Unresolvable Fn.
From S2P Require Import Resolve Evaluate EvaluateTheory Denote.

(** ** Sub-trees and data that evaluates to itself *)
Inductive subtree : value → value → Prop :=
| sub_refl v : subtree v v
| sub_slice x v l : v ∈ l → subtree x v → subtree x (VSlice l)
| sub_map x k v m : m !! k = Some v → subtree x v → subtree x (VMap m).

(** A reference: a map evaluated by its own rule, [$type] or [$fn]. *)
Definition is_reference (v : value) : bool :=
  match v with
  | VMap m => match map_shape m with ShType | ShInvocation _ _ => true | _ => false end
  | _ => false
  end.

(** Data without any special map, of supported types throughout. *)
Fixpoint plain (v : value) : bool :=
  match v with
  | VSlice l => forallb plain l
  | VMap m =>
      match map_shape m with ShPlain => true | _ => false end
      && map_fold (λ _ v b, plain v && b) true m
  | _ => supported v
  end.

Lemma plain_map m :
  plain (VMap m) = true ↔ map_shape m = ShPlain ∧ map_Forall (λ _ v, plain v = true) m.
Proof.
  cbn [plain]. rewrite andb_true_iff, (map_fold_andb_true (λ _ v, plain v)).
  apply and_iff_compat_r. destruct (map_shape m); done.
Qed.

Lemma plain_supported v : plain v = true → supported v = true.
Proof. by destruct v. Qed.

Lemma map_related_fmap_keys {A B} (f : A → B) (m : gmap string A) :
  map_related (λ _ _ _, True) m (f <$> m).
Proof. intros k. rewrite lookup_fmap. by destruct (m !! k). Qed.

Lemma map_related_keys {A B} (R : string → A → B → Prop) m n :
  map_related R m n → map_related (λ _ _ _, True) m n.
Proof. intros Hr k. specialize (Hr k). by destruct (m !! k), (n !! k). Qed.

Lemma map_related_fmap_r {A B C} (R : string → A → C → Prop) (f : B → C) m n :
  map_related R m (f <$> n) ↔ map_related (λ k x y, R k x (f y)) m n.
Proof.
  split; intros Hr k; specialize (Hr k); rewrite lookup_fmap in *;
    by destruct (m !! k), (n !! k).
Qed.

Lemma map_related_fmap_l {A B C} (R : string → A → C → Prop) (f : B → A) m n :
  map_related R (f <$> m) n ↔ map_related (λ k x y, R k (f x) y) m n.
Proof.
  split; intros Hr k; specialize (Hr k); rewrite lookup_fmap in *;
    by destruct (m !! k), (n !! k).
Qed.

(** Plain data evaluates to itself, at every depth. *)
Lemma evaluate_plain `{GoRuntimeLaws} `{GoFmt} e v d :
  plain v = true → evaluate e v d = Ok (complete_result v).
Proof.
  revert d. induction v as [v Hv|l IH|m IH] using value_ind'; intros d Hp.
  - rewrite evaluate_leaf by done. unfold check_supported.
    cbn. by rewrite plain_supported.
  - destruct (decide (d = 0%Z)) as [->|Hd0]; [by rewrite evaluate_depth0|].
    rewrite evaluate_slice by done. destruct (Z.eqb_spec d 1); [done|].
    rewrite <- (Z.eqb_neq d 1) in n. cbn in Hp. apply forallb_Forall in Hp.
    assert (Ho : evaluate e (VSlice l) d = Ok (complete_result (VSlice l))).
    { apply evaluate_slice_Ok; [done|by apply Z.eqb_neq|]. exists (complete_result <$> l). split.
      - apply Forall2_fmap_r, Forall_Forall2_diag. rewrite Forall_forall in *. auto.
      - rewrite <- !list_fmap_compose. unfold complete_result. f_equal.
        + f_equal. symmetry. apply list_fmap_id.
        + symmetry. apply foldl_extends_none. clear. induction l; by constructor. }
    by rewrite evaluate_slice, n in Ho.
  - destruct (decide (d = 0%Z)) as [->|Hd0]; [by rewrite evaluate_depth0|].
    apply plain_map in Hp as [Hs Hp]. rewrite evaluate_map, Hs by done. case_decide; [done|].
    destruct (evaluate_children_intro e m d (complete_result <$> m)) as ([v u] & -> & Hc).
    { apply (map_related_fmap_r _ complete_result). intros k.
      destruct (m !! k) eqn:E; [|done]. by apply (IH k v), (Hp k). }
    unfold complete_result at 1. f_equal. destruct Hc as [Hv Hu _]. cbn in *. f_equal.
    + rewrite Hv, <- map_fmap_compose. f_equal. apply map_fmap_id.
    + apply equiv_no_unresolvable. intros x. rewrite Hu. split; [|by intros ?%refs_no_unresolvable].
      intros (k & r & Hk & Hx). rewrite lookup_fmap in Hk.
      destruct (m !! k); [|done]. by injection Hk as <-.
Qed.

(** ** Two stages *)

(** [e1] resolves everything [e0] resolves, to the same values, and calls the same
    functions. *)
Record later_stage (e0 e1 : Evaluator) : Prop := {
  ls_data q v : dataTypeResolver e0 q = Ok v → dataTypeResolver e1 q = Ok v;
  ls_secret n s : secretTypeResolver e0 n = Ok s → secretTypeResolver e1 n = Ok s;
  ls_connection t n v :
    connectionTypeResolver e0 t n = Ok v → connectionTypeResolver e1 t n = Ok v;
  ls_output f n v : outputTypeResolver e0 f n = Ok v → outputTypeResolver e1 f n = Ok v;
  ls_parameter n v : parameterTypeResolver e0 n = Ok v → parameterTypeResolver e1 n = Ok v;
  ls_answer a n v : answerTypeResolver e0 a n = Ok v → answerTypeResolver e1 a n = Ok v;
  ls_invocation key args i : call e0 key args = Ok i → call e1 key args = Ok i;
  ls_invoke i w : invoke e0 i = Ok w → invoke e1 i = Ok w;
}.

(** A second evaluation leaves [w] alone. *)
Definition stable (e : Evaluator) (w : value) : Prop := ∀ w', denotes e w w' ↔ w' = w.

(** What the references of [v] denote in the first stage is left alone by the second. *)
Definition stage_stable (e0 e1 : Evaluator) (v : value) : Prop :=
  ∀ x w, subtree x v → is_reference x = true → denotes e0 x w → stable e1 w.

Lemma plain_stable e w : plain w = true → stable e w.
Proof.
  intros Hp w'.
  rewrite <- (@completes_denotes forward_runtime _ {| quote s := s |} e w w').
  unfold completes. rewrite evaluate_plain by done. naive_solver.
Qed.

Lemma type_result_complete ty tm nf answer w :
  (∀ err u, nf err = Some u → u ≠ no_unresolvable) →
  type_result ty tm nf answer = Ok (complete_result w) ↔ answer = Ok w.
Proof.
  intros Hnf. destruct answer as [v|err|]; cbn; [naive_solver| |done].
  destruct (nf err) as [u|] eqn:E; [|done]. apply Hnf in E.
  split; [|done]. intros Hr. exfalso. apply E. by injection Hr.
Qed.

(** Every reference that cannot be resolved is recorded. *)
Lemma unresolved_nonempty err u :
  unresolved_data err = Some u ∨ unresolved_secret err = Some u
  ∨ unresolved_connection err = Some u ∨ unresolved_output err = Some u
  ∨ unresolved_parameter err = Some u ∨ unresolved_answer err = Some u
  ∨ unresolved_invocation err = Some u → u ≠ no_unresolvable.
Proof.
  destruct err as [[]|[]|[]|[]| | | | | | | |]; cbn; intuition (subst; try discriminate);
    match goal with H : Some _ = Some _ |- _ => injection H as <- end; discriminate.
Qed.

Ltac unresolved_case := intros ? ? ?; eapply unresolved_nonempty; intuition eauto.

Section stages.
Context `{RL0 : GoRuntimeLaws} `{GoFmt} (e0 e1 : Evaluator) (Hls : later_stage e0 e1).

Lemma evaluateType_later tm w :
  evaluateType e0 tm = Ok (complete_result w) → evaluateType e1 tm = Ok (complete_result w).
Proof.
  unfold evaluateType. destruct (tm !! "$type") as [[]|]; try done.
  destruct (String.eqb s "Data").
  { destruct (required _ _ _); cbn; [|done..].
    rewrite !type_result_complete by unresolved_case. apply (ls_data _ _ Hls). }
  destruct (String.eqb s "Secret").
  { destruct (required _ _ _); cbn; [|done..].
    rewrite !type_result_complete by unresolved_case. intros Ho. inv_ok.
    by rewrite (ls_secret _ _ Hls _ _ Ho0). }
  destruct (String.eqb s "Connection").
  { destruct (required _ _ _); cbn; [|done..]. destruct (required _ _ _); cbn; [|done..].
    rewrite !type_result_complete by unresolved_case. apply (ls_connection _ _ Hls). }
  destruct (String.eqb s "Output").
  { destruct (match string_field tm "from" with Some _ => _ | None => _ end); cbn; [|done..].
    destruct (required _ _ _); cbn; [|done..].
    rewrite !type_result_complete by unresolved_case. apply (ls_output _ _ Hls). }
  destruct (String.eqb s "Parameter").
  { destruct (required _ _ _); cbn; [|done..].
    rewrite !type_result_complete by unresolved_case. apply (ls_parameter _ _ Hls). }
  destruct (String.eqb s "Answer"); [|done].
  destruct (required _ _ _); cbn; [|done..]. destruct (required _ _ _); cbn; [|done..].
  rewrite !type_result_complete by unresolved_case. apply (ls_answer _ _ Hls).
Qed.

(** A reference is resolved, or left in place. *)
Lemma type_result_cases ty tm nf answer r :
  type_result ty tm nf answer = Ok r → r = complete_result (Value r) ∨ Value r = VMap tm.
Proof.
  unfold type_result. destruct answer as [v|err|]; [|destruct (nf err)|]; try done;
    intros [= <-]; [by left|by right].
Qed.

Lemma evaluateType_cases e tm r :
  evaluateType e tm = Ok r → r = complete_result (Value r) ∨ Value r = VMap tm.
Proof.
  unfold evaluateType. intros Ho.
  destruct (tm !! "$type") as [[]|]; try (injection Ho as <-; by right).
  repeat (case_match; [inv_ok; by eapply type_result_cases|]).
  injection Ho as <-. by right.
Qed.

(** What the first stage makes of a tree stands for the same value in the second. *)
Definition stage_ok (v : value) (r : Result) : Prop :=
  (∀ w, denotes e1 (Value r) w ↔ denotes e1 v w)
  ∧ (Complete r = true → stable e1 (Value r)).

Lemma stage_ok_kept v u : (Complete (MkResult v u) = true → stable e1 v) → stage_ok v (MkResult v u).
Proof. by split. Qed.

Lemma stage_leaf v r :
  is_leaf v = true → evaluate e0 v (-1) = Ok r → stage_ok v r.
Proof.
  intros Hv. rewrite evaluate_leaf by done. unfold check_supported. cbn.
  destruct (supported v) eqn:Hs; [|done]. intros [= <-]. apply stage_ok_kept. intros _ w.
  rewrite denotes_leaf by done. naive_solver.
Qed.

Lemma stage_slice l rs :
  Forall2 stage_ok l rs →
  stage_ok (VSlice l)
    (MkResult (VSlice (Value <$> rs)) (foldl extends no_unresolvable (Unresolvables <$> rs))).
Proof.
  intros Hl. split; cbn.
  - intros w. rewrite !denotes_slice. f_equiv; intros l'. apply and_iff_compat_l.
    rewrite Forall2_fmap_l. split; revert l';
      induction Hl as [|v r l rs [Hv _] _ IH]; intros l' Hl'; inversion Hl'; subst;
      constructor; solve [by apply Hv | by apply IH].
  - intros Hc%Complete_iff. cbn in Hc. apply foldl_extends_none in Hc. intros w.
    rewrite denotes_slice.
    assert (Hst : Forall (stable e1) (Value <$> rs)).
    { clear -Hl Hc. induction Hl as [|v r l rs [_ Hv] _ IH]; [constructor|].
      cbn in Hc. apply Forall_cons in Hc as [Hr Hc]. constructor; [|by apply IH].
      by apply Hv, Complete_iff. }
    split.
    + intros (l' & -> & Hl'). f_equal. clear -Hst Hl'. revert l' Hl'.
      induction Hst as [|x xs Hx _ IH]; intros l' Hl'; inversion Hl' as [|? y ? ys Hy Hys];
        subst; [done|]. f_equal; [by apply Hx|by apply IH].
    + intros ->. eexists. split; [done|]. apply Forall_Forall2_diag.
      eapply Forall_impl; [exact Hst|]. intros x Hx. by apply Hx.
Qed.

Lemma stage_plain m n r :
  map_shape m = ShPlain → map_related (λ _ v r, stage_ok v r) m n → collects n r →
  stage_ok (VMap m) r.
Proof.
  intros Hs Hr [Hv Hu _].
  assert (Hs' : map_shape (Value <$> n) = ShPlain).
  { eapply map_shape_plain_related; [|exact Hs]. apply map_related_fmap_r.
    by eapply map_related_keys. }
  split; rewrite Hv.
  - intros w. rewrite !denotes_plain by done. f_equiv; intros m'. apply and_iff_compat_l.
    rewrite map_related_fmap_l. split; intros Hn k; specialize (Hr k); specialize (Hn k);
      destruct (m !! k), (n !! k), (m' !! k); try done; destruct Hr as [Hr _]; by apply Hr.
  - intros Hc. rewrite Complete_no_refs in Hc. intros w. rewrite denotes_plain by done.
    assert (Hst : ∀ k r', n !! k = Some r' → stable e1 (Value r')).
    { intros k r' Hk. destruct (map_related_Some_r _ _ _ _ _ Hr Hk) as (x & _ & _ & Hx).
      apply Hx, Complete_no_refs. intros y Hy. apply (Hc y), Hu. by exists k, r'. }
    split.
    + intros (m' & -> & Hn). f_equal. apply map_eq. intros k. specialize (Hn k).
      rewrite lookup_fmap in *. destruct (n !! k) eqn:E, (m' !! k); try done. cbn in *.
      f_equal. by apply (Hst k).
    + intros ->. eexists. split; [done|]. intros k. rewrite lookup_fmap.
      destruct (n !! k) eqn:E; cbn; [|done]. by apply (Hst k).
Qed.

Lemma extends_not_complete r dr : Complete dr = false → Complete (Result_extends r dr) = false.
Proof.
  intros Hc. apply not_true_iff_false. intros Hr%Complete_eq.
  by eapply extends_incomplete, f_equal.
Qed.

Lemma stage_encoding m r :
  map_shape m = ShEncoding →
  (∀ dr, evaluate e0 (default VNil (m !! "data")) (-1) = Ok dr →
         stage_ok (default VNil (m !! "data")) dr) →
  evaluateEncoding (evaluate e0) m = Ok r → stage_ok (VMap m) r.
Proof.
  intros Hm IH Ho. unfold evaluateEncoding in Ho.
  destruct (string_field m "$encoding") as [ty|] eqn:Hty.
  - inv_ok. rename a into dr. specialize (IH dr Ho0) as [IHv _].
    destruct (Complete dr) eqn:Hc; cbn [negb] in Ho.
    + destruct (as_string (Value dr)) as [data|] eqn:Hd; [|done]. inv_ok.
      assert (Value dr = VString data) as Hdr
        by (destruct (Value dr); try discriminate Hd; by injection Hd as ->).
      rewrite Hdr in IHv. split.
      * intros w. cbn [Value complete_result]. rewrite denotes_leaf by done.
        rewrite denotes_encoding, Hty by done. setoid_rewrite <- IHv.
        setoid_rewrite denotes_leaf; [|done]. split.
        -- intros [-> _]. by exists data, a.
        -- intros (d & b & [[= ->] _] & Hb & ->). rewrite Ho1 in Hb. by injection Hb as ->.
      * intros _ w. cbn [Value complete_result]. rewrite denotes_leaf by done. naive_solver.
    + injection Ho as <-. split; [|by rewrite extends_not_complete].
      intros w. cbn [Value Result_extends complete_result].
      rewrite !denotes_encoding; [|done|].
      * unfold string_field. rewrite lookup_insert_eq, lookup_insert_ne by done.
        rewrite lookup_singleton_eq. cbn. unfold string_field in Hty. rewrite Hty.
        by setoid_rewrite IHv.
      * apply map_shape_encoding. by rewrite lookup_insert_eq, lookup_insert_ne.
  - injection Ho as <-. apply stage_ok_kept. intros _ w.
    by rewrite denotes_encoding, Hty.
Qed.

Lemma stage_invocation m key arg r :
  map_shape m = ShInvocation key arg →
  (∀ a, evaluate e0 arg (-1) = Ok a → stage_ok arg a) →
  (∀ w, denotes e0 (VMap m) w → stable e1 w) →
  evaluateInvocation e0 (evaluate e0) m ≫= check_supported = Ok r → stage_ok (VMap m) r.
Proof.
  intros Hm IH Hst Ho. assert (Hm' := Hm). apply map_shape_invocation_iff in Hm' as (Hk & -> & Hp).
  inv_ok. unfold check_supported in Ho. destruct (supported (Value a)) eqn:Hs; [|done].
  injection Ho as <-. unfold evaluateInvocation in Ho0. rewrite last_entry_singleton in Ho0.
  inv_ok. rename a0 into args. destruct (IH args Ho1) as [IHv IHs].
  destruct (Complete args) eqn:Hc; cbn [negb] in Ho0.
  - specialize (IHs eq_refl). fold (call e0 key (Value args)) in Ho0.
    destruct (call e0 key (Value args)) as [i|err|] eqn:Hi; [| |done].
    + inv_ok. cbn [Value complete_result] in *. apply Complete_eq in Hc. rewrite Hc in Ho1.
      assert (Hd : denotes e0 (VMap {[key := arg]}) a0).
      { apply (denotes_invocation e0 _ key arg); [done|]. exists (Value args), i.
        split_and!; try done. by apply completes_denotes. }
      specialize (Hst _ Hd). split; [|done]. intros w. cbn [Value complete_result].
      rewrite (Hst w), (denotes_invocation e1 _ key arg) by done. setoid_rewrite <- IHv.
      assert (Hcall : call e1 key (Value args) = Ok i).
      { by apply (ls_invocation _ _ Hls). }
      assert (Hinv := ls_invoke _ _ Hls _ _ Ho2). split.
      * intros ->. exists (Value args), i. split_and!; try done. by apply IHs.
      * intros (args' & i' & ->%IHs & Hi' & Hw & _). congruence.
    + destruct (unresolved_invocation err) as [u|] eqn:E; [|done]. injection Ho0 as <-.
      apply stage_ok_kept. intros Hcu%Complete_iff. cbn in Hcu.
      destruct (unresolved_nonempty err u); tauto.
  - injection Ho0 as <-. split; [|by rewrite extends_not_complete].
    intros w. cbn [Value Result_extends complete_result].
    rewrite (denotes_invocation e1 {[key := arg]} key arg) by done.
    rewrite (denotes_invocation e1 {[key := Value args]} key (Value args)).
    + by setoid_rewrite IHv.
    + apply map_shape_invocation_iff. split_and!; [|done|done]. destruct Hk as [H1 H2].
      assert (Hne : ∀ k, ({[key := arg]} : gmap string value) !! k = None → key ≠ k).
      { intros k Hk ->. by rewrite lookup_singleton_eq in Hk. }
      split; rewrite lookup_singleton_ne; auto.
Qed.

Lemma stage_step v r :
  stage_stable e0 e1 v → evaluate e0 v (-1) = Ok r → stage_ok v r.
Proof.
  revert r. induction v as [v IH] using value_strong_ind. intros r Hst Ho.
  destruct (is_leaf v) eqn:Hv; [by apply stage_leaf|].
  destruct v as [| | | | | | | | |l|m| | |]; try discriminate Hv; clear Hv.
  - apply evaluate_slice_Ok in Ho as (rs & Hrs & ->); [|done..]. apply stage_slice.
    apply Forall2_same_length_lookup. split; [by eapply Forall2_length|]. intros i v r Hi Hr.
    assert (v ∈ l) by (by eapply list_elem_of_lookup_2).
    apply IH; [by apply vsize_slice| |].
    + intros x w Hx. apply Hst. by eapply sub_slice.
    + rewrite <- (evaluate_negative e0 v (-1 - 1)) by done.
      apply (Forall2_lookup_lr _ _ _ _ _ _ Hrs Hi Hr).
  - rewrite evaluate_map in Ho by done. destruct (map_shape m) as [| |key arg|] eqn:Hm.
    + inv_ok. unfold check_supported in Ho. destruct (supported (Value a)) eqn:Hs; [|done].
      injection Ho as <-. destruct (evaluateType_cases _ _ _ Ho0) as [Hr|Hr].
      * rewrite Hr in Ho0. assert (stable e1 (Value a)) as Ha.
        { apply (Hst (VMap m)); [constructor|cbn; by rewrite Hm|]. by apply denotes_type. }
        split; [|done]. intros w. rewrite (Ha w), denotes_type by done.
        apply evaluateType_later in Ho0. rewrite Ho0. split; [by intros ->|].
        intros [[=] _]. congruence.
      * destruct a as [v u]. cbn in Hr. subst. split; [done|]. intros Hc%Complete_eq.
        cbn in Hc. apply (Hst (VMap m)); [constructor|cbn; by rewrite Hm|].
        apply denotes_type; [done|]. by rewrite Ho0, Hc.
    + inv_ok. unfold check_supported in Ho. destruct (supported (Value a)); [|done].
      injection Ho as <-. eapply stage_encoding; [done| |done]. intros dr Hdr.
      assert (Hsub : is_Some (m !! "$encoding")) by (by apply map_shape_encoding).
      destruct (m !! "data") as [d|] eqn:E; cbn [default from_option id] in *;
        [|by apply stage_leaf].
      apply IH; [by eapply vsize_map| |done]. intros x w Hx. apply Hst. by eapply sub_map.
    + eapply stage_invocation; [done| | |done].
      * intros a Ha. apply map_shape_invocation in Hm as [-> _].
        assert (Hk := lookup_singleton_eq (M:=gmap string) key arg).
        apply IH; [by eapply vsize_map| |done]. intros x w Hx. apply Hst. by eapply sub_map.
      * intros w. apply Hst; [constructor|]. cbn. by rewrite Hm.
    + rewrite decide_False in Ho by (by intros []).
      apply evaluate_children_Ok in Ho as (n & Hn & Hc). eapply stage_plain; [done| |done].
      intros k. specialize (Hn k). destruct (m !! k) as [v|] eqn:Hk, (n !! k); try done.
      rewrite evaluate_negative in Hn by done.
      apply IH; [by eapply vsize_map| |done]. intros x w Hx. apply Hst. by eapply sub_map.
Qed.
End stages.

(** A sufficient condition: resolvers and functions produce plain data. *)
Definition resolves_to (e : Evaluator) (v : value) : Prop :=
  (∃ q, dataTypeResolver e q = Ok v)
  ∨ (∃ n s, secretTypeResolver e n = Ok s ∧ v = VString s)
  ∨ (∃ t n, connectionTypeResolver e t n = Ok v)
  ∨ (∃ f n, outputTypeResolver e f n = Ok v)
  ∨ (∃ n, parameterTypeResolver e n = Ok v)
  ∨ (∃ a n, answerTypeResolver e a n = Ok v).

Record plain_results (e : Evaluator) : Prop := {
  plain_resolved v : resolves_to e v → plain v = true;
  plain_called key args i w : call e key args = Ok i → invoke e i = Ok w → plain w = true;
}.

Lemma evaluateType_values e tm w :
  evaluateType e tm = Ok (complete_result w) →
  resolves_to e w ∨ (w = VMap tm ∧ ∀ e', evaluateType e' tm = Ok (complete_result (VMap tm))).
Proof.
  unfold evaluateType, resolves_to. intros Ho.
  destruct (tm !! "$type") as [[]|]; try (injection Ho as <-; by right).
  repeat (case_match; [left; inv_ok; apply type_result_complete in Ho; [|unresolved_case];
    inv_ok; naive_solver|]).
  injection Ho as <-. by right.
Qed.

Lemma stage_stable_plain e0 e1 v : plain_results e0 → stage_stable e0 e1 v.
Proof.
  intros [Hr Hc] x w _ Hx Hd. destruct x as [| | | | | | | | | |m| | |]; try discriminate Hx.
  cbn in Hx. destruct (map_shape m) as [| |key arg|] eqn:Hm; try discriminate Hx.
  - apply denotes_type in Hd as [Ho _]; [|done].
    apply evaluateType_values in Ho as [Hw|[-> Hw]]; [by apply plain_stable, Hr|].
    intros w'. rewrite denotes_type, Hw by done. split; [by intros [[= ->] _]|by intros ->].
  - apply (denotes_invocation _ _ key arg) in Hd as (args & i & _ & Hi & Hw & _); [|done].
    by eapply plain_stable, Hc.
Qed.

(** ** Maps that an evaluation has to itself

    An evaluation builds new lists and maps, except where it returns a map that others
    hold: what a resolver answers, and a [$type] or [$encoding] map it leaves as it is.
    The functions here are functions of values, and those of the library are, but for
    [merge]: it writes into the maps of its arguments (see Merge).  So it is a function of
    values where the arguments have none of those maps. *)
Definition keeps_map (v : value) : bool :=
  match v with
  | VMap m => match map_shape m with ShType | ShEncoding => true | _ => false end
  | _ => false
  end.
Fixpoint map_free (v : value) : bool :=
  match v with VMap _ => false | VSlice l => forallb map_free l | _ => true end.

Definition own_maps (e : Evaluator) (arg : value) : Prop :=
  ∀ x w, subtree x arg → keeps_map x = true → denotes e x w → map_free w = true.
Definition owned_merges (e : Evaluator) (v : value) : Prop :=
  ∀ arg, subtree (VMap {["$fn.merge" := arg]}) v → own_maps e arg.

(** Two ways to have them: the arguments are plain data, or there is no call of merge. *)
Lemma subtree_plain x v : subtree x v → plain v = true → plain x = true.
Proof.
  induction 1 as [v|x v l Hv _ IH|x k v m Hk _ IH]; [done| |].
  - cbn. rewrite forallb_Forall, Forall_forall. auto.
  - rewrite plain_map. intros [_ Hm]. by apply IH, (Hm k).
Qed.

Lemma own_maps_plain e arg : plain arg = true → own_maps e arg.
Proof.
  intros Hp x w Hx Hk _. apply subtree_plain in Hx; [|done].
  destruct x; try discriminate Hk. apply plain_map in Hx as [Hx _]. cbn in Hk. by rewrite Hx in Hk.
Qed.

Fixpoint merges_plain (v : value) : bool :=
  match v with
  | VSlice l => forallb merges_plain l
  | VMap m =>
      match m !! "$fn.merge" with Some arg => plain arg | None => true end
      && map_fold (λ _ v b, merges_plain v && b) true m
  | _ => true
  end.

Lemma merges_plain_owned e v : merges_plain v = true → owned_merges e v.
Proof.
  intros Hv arg Hs. apply own_maps_plain. remember (VMap {["$fn.merge" := arg]}) as x eqn:Hx.
  induction Hs as [v|x v l Hl _ IH|x k v m Hk _ IH]; subst.
  - apply andb_true_iff in Hv as [Hv _]. by rewrite lookup_singleton_eq in Hv.
  - cbn in Hv. rewrite forallb_Forall, Forall_forall in Hv. auto.
  - apply andb_true_iff in Hv as [_ Hv]. rewrite (map_fold_andb_true (λ _ v, merges_plain v)) in Hv.
    apply IH; [by apply (Hv k)|done].
Qed.
