(* ===== verification/Determinism.v ===== *)
(** * The result of an evaluation does not depend on the runtime

    Two lawful runtimes visit maps and hash sets in different orders.  A successful
    evaluation has the same value in both, and the same unresolvable references, in
    the same order for the kinds whose sort is total. *)
From S2P Require Import Prelude GoStd GoStrings Values Errors Transfer Unresolvable Fn.
From S2P Require Import Resolve Evaluate EvaluateTheory.

Definition agree (r1 r2 : Result) : Prop :=
  Value r1 = Value r2 ∧ Unresolvables r1 ≡ Unresolvables r2.

#[export] Instance agree_equivalence : Equivalence agree.
Proof.
  split.
  - by intros r.
  - intros r1 r2 [H1 H2]. by split.
  - intros r1 r2 r3 [H1 H2] [H3 H4]. split; [congruence|]. by rewrite H2.
Qed.

#[export] Instance Complete_proper : Proper (agree ==> (=)) Complete.
Proof. intros r1 r2 [_ Hu]. by apply Complete_equiv. Qed.

(** A successful outcome is matched by an agreeing one. *)
Definition simulates (o1 o2 : result Result) : Prop :=
  ∀ r1, o1 = Ok r1 → ∃ r2, o2 = Ok r2 ∧ agree r1 r2.

Lemma simulates_refl o : simulates o o.
Proof. intros r Hr. by exists r. Qed.

Lemma simulates_supported o1 o2 :
  simulates o1 o2 → simulates (o1 ≫= check_supported) (o2 ≫= check_supported).
Proof.
  intros Hs r1 Ho. inv_ok. destruct (Hs _ Ho0) as (r2 & -> & Hv & Hu). cbn.
  unfold check_supported in *. destruct (supported (Value a)) eqn:E; [|done].
  injection Ho as <-. rewrite <- Hv, E. by exists r2.
Qed.

Section runtimes.
Context (R1 R2 : GoRuntime) `{!GoRuntimeLaws R1} `{!GoRuntimeLaws R2} `{GoFmt} (e : Evaluator).

Notation eval1 := (@evaluate R1 _ e).
Notation eval2 := (@evaluate R2 _ e).

Lemma foldl_extends_agree rs1 rs2 :
  Forall2 agree rs1 rs2 →
  foldl (@extends R1 _) no_unresolvable (Unresolvables <$> rs1)
  ≡ foldl (@extends R2 _) no_unresolvable (Unresolvables <$> rs2).
Proof.
  intros Hrs x. rewrite !refs_foldl_extends. f_equiv. setoid_rewrite list_elem_of_fmap.
  induction Hrs as [|r1 r2 rs1 rs2 [_ Hu] _ IH].
  - split; intros (u & (r & _ & Hr) & _); by apply not_elem_of_nil in Hr.
  - split; intros (u & (r & -> & [->|Hr]%elem_of_cons) & Hx).
    + exists (Unresolvables r2). split; [|by apply Hu]. exists r2. split; [done|left].
    + destruct (proj1 IH) as (u & (r' & -> & ?) & ?); [by exists (Unresolvables r); split; [exists r|]|].
      exists (Unresolvables r'). split; [|done]. exists r'. split; [done|by right].
    + exists (Unresolvables r1). split; [|by apply Hu]. exists r1. split; [done|left].
    + destruct (proj2 IH) as (u & (r' & -> & ?) & ?); [by exists (Unresolvables r); split; [exists r|]|].
      exists (Unresolvables r'). split; [|done]. exists r'. split; [done|by right].
Qed.

Lemma simulates_slice l d :
  d ≠ 0%Z → Forall (λ v, simulates (eval1 v (d - 1)) (eval2 v (d - 1))) l →
  simulates (eval1 (VSlice l) d) (eval2 (VSlice l) d).
Proof.
  intros Hd Hl r1 Ho. destruct (decide (d = 1%Z)) as [->|Hd1].
  { rewrite evaluate_slice in * by done. by exists r1. }
  apply evaluate_slice_Ok in Ho as (rs1 & Hrs & ->); [|done..].
  assert (∃ rs2, Forall2 (λ v r, eval2 v (d - 1) = Ok r) l rs2 ∧ Forall2 agree rs1 rs2)
    as (rs2 & Hrs2 & Ha).
  { clear -Hrs Hl. induction Hrs as [|v r l rs Hv _ IH]; [by exists []; split; constructor|].
    apply Forall_cons in Hl as [Hs Hl]. destruct (Hs _ Hv) as (r2 & ? & ?).
    destruct (IH Hl) as (rs2 & ? & ?). exists (r2 :: rs2). by split; constructor. }
  eexists. split; [apply evaluate_slice_Ok; [done..|by exists rs2]|]. split; cbn.
  - f_equal. clear -Ha. induction Ha as [|?? ?? [? _]]; cbn; congruence.
  - by apply foldl_extends_agree.
Qed.

Lemma simulates_children m d :
  map_Forall (λ _ v, simulates (eval1 v (d - 1)) (eval2 v (d - 1))) m →
  simulates (@evaluate_children R1 _ e m d) (@evaluate_children R2 _ e m d).
Proof.
  intros Hm r1 Ho. apply evaluate_children_Ok in Ho as (n1 & Hn1 & [Hv1 Hu1 _]).
  assert (∃ n2, map_related (λ k r1 r2, agree r1 r2
      ∧ ∀ v, m !! k = Some v → eval2 v (d - 1) = Ok r2) n1 n2) as [n2 Hn2].
  { apply map_exists_related. intros k r Hk.
    destruct (map_related_Some_r _ _ _ _ _ Hn1 Hk) as (v & Hv & Hr).
    destruct (Hm k v Hv r Hr) as (r2 & ? & ?). exists r2. split; [done|].
    intros v' Hv'. congruence. }
  destruct (@evaluate_children_intro R2 _ _ e m d n2) as (r2 & Hr2 & [Hv2 Hu2 _]).
  { intros k. specialize (Hn1 k). specialize (Hn2 k).
    destruct (m !! k) eqn:Hk, (n1 !! k), (n2 !! k); try done. destruct Hn2 as [_ Hn2].
    by apply Hn2. }
  exists r2. split; [done|]. split.
  - rewrite Hv1, Hv2. f_equal. apply map_eq. intros k. rewrite !lookup_fmap. specialize (Hn2 k).
    destruct (n1 !! k), (n2 !! k); try done. destruct Hn2 as [[Hv _] _]. cbn. by rewrite Hv.
  - intros x. rewrite Hu1, Hu2. split; intros (k & r & Hk & Hx).
    + destruct (map_related_Some _ _ _ _ _ Hn2 Hk) as (r' & ? & [_ Hu] & _).
      exists k, r'. split; [done|]. by apply Hu.
    + destruct (map_related_Some_r _ _ _ _ _ Hn2 Hk) as (r' & ? & [_ Hu] & _).
      exists k, r'. split; [done|]. by apply Hu.
Qed.

Lemma agree_extends v r1 r2 :
  agree r1 r2 →
  agree (@Result_extends R1 _ (complete_result v) r1) (@Result_extends R2 _ (complete_result v) r2).
Proof.
  intros [_ Hu]. split; [done|]. intros x. cbn. rewrite !refs_extends. by rewrite Hu.
Qed.

Lemma simulates_encoding m :
  simulates (eval1 (default VNil (m !! "data")) (-1)) (eval2 (default VNil (m !! "data")) (-1)) →
  simulates (evaluateEncoding eval1 m) (evaluateEncoding eval2 m).
Proof.
  intros Hs r1 Ho. unfold evaluateEncoding in *.
  destruct (string_field m "$encoding") as [ty|]; [|by exists r1].
  inv_ok. destruct (Hs _ Ho0) as (dr & -> & Ha). cbn. rewrite <- (Complete_proper _ _ Ha).
  assert (Hv := proj1 Ha). destruct (Complete a); cbn [negb] in *.
  - rewrite <- Hv. by exists r1.
  - injection Ho as <-. eexists. split; [done|]. rewrite <- Hv. by apply agree_extends.
Qed.

Lemma simulates_invocation key arg :
  simulates (eval1 arg (-1)) (eval2 arg (-1)) →
  simulates (@evaluateInvocation R1 _ e eval1 {[key := arg]})
            (@evaluateInvocation R2 _ e eval2 {[key := arg]}).
Proof.
  intros Hs r1 Ho. unfold evaluateInvocation in *.
  rewrite last_entry_singleton in Ho. rewrite last_entry_singleton.
  inv_ok. destruct (Hs _ Ho0) as (dr & -> & Ha). cbn. rewrite <- (Complete_proper _ _ Ha).
  assert (Hv := proj1 Ha). destruct (Complete a); cbn [negb] in *.
  - rewrite <- Hv. by exists r1.
  - injection Ho as <-. eexists. split; [done|]. rewrite <- Hv. by apply agree_extends.
Qed.

Lemma evaluate_simulates v d : simulates (eval1 v d) (eval2 v d).
Proof.
  revert d. induction v as [v IH] using value_strong_ind. intros d.
  destruct (decide (d = 0%Z)) as [->|Hd].
  { rewrite !evaluate_depth0. apply simulates_refl. }
  destruct (is_leaf v) eqn:Hv; [rewrite !evaluate_leaf by done; apply simulates_refl|].
  destruct v as [| | | | | | | | |l|m| | |]; try discriminate Hv; clear Hv.
  - apply simulates_slice; [done|]. apply Forall_forall. intros v Hv. by apply IH, vsize_slice.
  - rewrite !evaluate_map by done. destruct (map_shape m) as [| |key arg|] eqn:Hm.
    + apply simulates_refl.
    + apply simulates_supported, simulates_encoding. apply IH, (vsize_data m "$encoding").
      by apply map_shape_encoding.
    + apply map_shape_invocation in Hm as [-> _].
      apply simulates_supported, simulates_invocation, IH.
      apply (vsize_map _ key), lookup_singleton_eq.
    + case_decide; [apply simulates_refl|]. apply simulates_children.
      intros k v Hk. by eapply IH, vsize_map.
Qed.
End runtimes.

(** ** The lists of an evaluation are well ordered *)
Section ordered.
Context `{RL : GoRuntimeLaws} `{GoFmt} (e : Evaluator).

Lemma well_ordered_single err u :
  unresolved_data err = Some u ∨ unresolved_secret err = Some u
  ∨ unresolved_connection err = Some u ∨ unresolved_output err = Some u
  ∨ unresolved_parameter err = Some u ∨ unresolved_answer err = Some u
  ∨ unresolved_invocation err = Some u → well_ordered u.
Proof.
  destruct err as [[]|[]|[]|[]| | | | | | | |]; cbn; intuition (subst; try discriminate);
    match goal with H : Some _ = Some _ |- _ => injection H as <- end;
    split; cbn; repeat constructor; apply not_elem_of_nil.
Qed.

Lemma type_result_ordered ty tm nf answer r :
  (∀ err u, nf err = Some u → well_ordered u) →
  type_result ty tm nf answer = Ok r → well_ordered (Unresolvables r).
Proof.
  unfold type_result. intros Hnf. destruct answer as [v|err|]; [|destruct (nf err) eqn:E|];
    try done; intros [= <-]; [apply well_ordered_none|]. by eapply Hnf.
Qed.

Lemma evaluateType_ordered tm r : evaluateType e tm = Ok r → well_ordered (Unresolvables r).
Proof.
  unfold evaluateType. intros Ho.
  destruct (tm !! "$type") as [[]|]; try (injection Ho as <-; apply well_ordered_none).
  repeat (case_match;
    [inv_ok; eapply type_result_ordered; [|done]; intros ???;
     eapply well_ordered_single; intuition eauto|]).
  injection Ho as <-. apply well_ordered_none.
Qed.

Lemma check_supported_ordered o :
  (∀ r, o = Ok r → well_ordered (Unresolvables r)) →
  ∀ r, o ≫= check_supported = Ok r → well_ordered (Unresolvables r).
Proof.
  intros Ho r Hr. inv_ok. unfold check_supported in Hr. destruct (supported _); [|done].
  injection Hr as <-. by apply Ho.
Qed.

Lemma check_complete_ordered v r :
  check_supported (complete_result v) = Ok r → well_ordered (Unresolvables r).
Proof.
  unfold check_supported. destruct (supported _); [|done]. intros [= <-].
  apply well_ordered_none.
Qed.

Lemma evaluate_ordered v d r : evaluate e v d = Ok r → well_ordered (Unresolvables r).
Proof.
  revert d r. induction v as [v IH] using value_strong_ind. intros d r.
  destruct (decide (d = 0%Z)) as [->|Hd].
  { rewrite evaluate_depth0. apply check_complete_ordered. }
  destruct (is_leaf v) eqn:Hv.
  { rewrite evaluate_leaf by done. apply check_complete_ordered. }
  destruct v as [| | | | | | | | |l|m| | |]; try discriminate Hv; clear Hv.
  - intros Ho. destruct (decide (d = 1%Z)) as [->|Hd1].
    { rewrite evaluate_slice in Ho by done. injection Ho as <-. apply well_ordered_none. }
    apply evaluate_slice_Ok in Ho as (rs & Hrs & ->); [|done..].
    apply well_ordered_foldl; [|apply well_ordered_none].
    apply Forall_fmap, Forall_lookup. intros i r Hi.
    destruct (Forall2_lookup_r _ _ _ _ _ Hrs Hi) as (v & Hv & Hr).
    eapply IH; [|exact Hr]. by eapply vsize_slice, list_elem_of_lookup_2.
  - rewrite evaluate_map by done. destruct (map_shape m) as [| |key arg|] eqn:Hm.
    + apply check_supported_ordered, evaluateType_ordered.
    + apply check_supported_ordered. unfold evaluateEncoding. intros r' Ho.
      destruct (string_field m "$encoding") as [ty|];
        [|injection Ho as <-; apply well_ordered_none].
      inv_ok. apply IH in Ho0;
        [|apply (vsize_data m "$encoding"); by apply map_shape_encoding].
      destruct (Complete a); cbn [negb] in Ho.
      * destruct (as_string (Value a)); [|done]. inv_ok. apply well_ordered_none.
      * injection Ho as <-. by apply well_ordered_extends; [apply well_ordered_none|].
    + apply map_shape_invocation in Hm as [-> _]. apply check_supported_ordered.
      unfold evaluateInvocation. rewrite last_entry_singleton. intros r' Ho. inv_ok.
      apply IH in Ho0; [|apply (vsize_map _ key), lookup_singleton_eq].
      destruct (Complete a); cbn [negb] in Ho.
      * destruct (resolve_invoker _ _ _) as [i|err|]; [|destruct (unresolved_invocation err) eqn:E|];
          try done; inv_ok; [apply well_ordered_none|].
        eapply well_ordered_single; intuition eauto.
      * injection Ho as <-. by apply well_ordered_extends; [apply well_ordered_none|].
    + case_decide; [intros [= <-]; apply well_ordered_none|]. intros Ho.
      apply evaluate_children_Ok in Ho as (n & Hn & [_ _ Hwo]). apply Hwo. intros k r' Hk.
      destruct (map_related_Some_r _ _ _ _ _ Hn Hk) as (v & Hv & Hr).
      eapply IH; [by eapply vsize_map|exact Hr].
Qed.
End ordered.
