(* ===== verification/Failures.v ===== *)
(** * How an evaluation can fail

    An evaluation never panics (no nil dereference, no failed type assertion, and the
    recursion is well founded) unless a resolver does; and the error it returns is
    the error of one node of the tree, under the path that leads to it. *)
From stdpp Require Import pretty.
From S2P Require Import Prelude GoStd GoStrings Values Errors Transfer Unresolvable Fn.
From S2P Require Import Resolve Evaluate EvaluateTheory.

(** ** No panics *)
Record calm (e : Evaluator) : Prop := {
  calm_data q : no_panic (dataTypeResolver e q);
  calm_secret n : no_panic (secretTypeResolver e n);
  calm_connection t n : no_panic (connectionTypeResolver e t n);
  calm_output f n : no_panic (outputTypeResolver e f n);
  calm_parameter n : no_panic (parameterTypeResolver e n);
  calm_answer a n : no_panic (answerTypeResolver e a n);
  calm_resolve name args : no_panic (resolve_invoker e name args);
  calm_invoke name args i : resolve_invoker e name args = Ok i → no_panic (invoke e i);
}.

(** Discharges a no-panic goal by case analysis on the program. *)
Ltac calm_step :=
  first
  [ done
  | apply Ok_no_panic
  | apply Err_no_panic
  | apply map_err_no_panic
  | apply bind_no_panic; [|intros ? ?]
  | case_match ].
Ltac calm := intros; repeat calm_step.

Lemma required_no_panic ty tm name : no_panic (required ty tm name).
Proof. unfold required. calm. Qed.

Lemma type_result_no_panic ty tm nf answer :
  no_panic answer → no_panic (type_result ty tm nf answer).
Proof.
  unfold type_result. intros Ha. destruct answer as [v|err|w]; [calm..|]. by destruct (Ha w).
Qed.

Lemma check_supported_no_panic r : no_panic (check_supported r).
Proof. unfold check_supported. calm. Qed.

Lemma decode_from_no_panic s pos q : no_panic (Base64.decode_from pos q s).
Proof.
  revert pos q. induction s as [|c s IH]; intros pos q; cbn [Base64.decode_from].
  - calm.
  - unfold Base64.finish. repeat first [apply IH | calm_step].
Qed.

Lemma transfer_decode_no_panic ty s : no_panic (transfer_decode ty s).
Proof. unfold transfer_decode. calm. apply decode_from_no_panic. Qed.

Section no_panic.
Context `{RL : GoRuntimeLaws} `{GoFmt} (e : Evaluator) (He : calm e).

Lemma evaluateType_no_panic tm : no_panic (evaluateType e tm).
Proof.
  unfold evaluateType.
  repeat first [ apply required_no_panic | apply type_result_no_panic
               | apply (calm_data _ He) | apply (calm_secret _ He) | apply (calm_connection _ He)
               | apply (calm_output _ He) | apply (calm_parameter _ He)
               | apply (calm_answer _ He) | calm_step ].
Qed.

Lemma evaluate_entries_no_panic f d es :
  (∀ k v, (k, v) ∈ es → no_panic (f v d)) → no_panic (evaluate_entries f d es).
Proof.
  intros Hf. apply fold_outcome_no_panic. intros [out u] [k v] Hkv. unfold evaluate_entry.
  calm. by eapply Hf.
Qed.

Lemma evaluate_no_panic v d : no_panic (evaluate e v d).
Proof.
  revert d. induction v as [v IH] using value_strong_ind. intros d.
  destruct (decide (d = 0%Z)) as [->|Hd].
  { rewrite evaluate_depth0. apply check_supported_no_panic. }
  destruct (is_leaf v) eqn:Hv.
  { rewrite evaluate_leaf by done. apply check_supported_no_panic. }
  destruct v as [| | | | | | | | |l|m| | |]; try discriminate Hv; clear Hv.
  - rewrite evaluate_slice by done. case_match; [calm|]. apply bind_no_panic; [|calm].
    apply evaluate_entries_no_panic. intros k v Hv%elem_of_imap_entries.
    by apply IH, vsize_slice.
  - rewrite evaluate_map by done. destruct (map_shape m) as [| |key arg|] eqn:Hm.
    + apply bind_no_panic; [apply evaluateType_no_panic|].
      intros; apply check_supported_no_panic.
    + apply bind_no_panic; [|intros; apply check_supported_no_panic].
      unfold evaluateEncoding. case_match; [|calm]. apply bind_no_panic.
      * apply map_err_no_panic, IH, (vsize_data m "$encoding"). by apply map_shape_encoding.
      * intros. repeat first [apply transfer_decode_no_panic | calm_step].
    + apply map_shape_invocation in Hm as [-> _].
      apply bind_no_panic; [|intros; apply check_supported_no_panic].
      unfold evaluateInvocation. rewrite last_entry_singleton. apply bind_no_panic.
      { apply IH, (vsize_map _ key), lookup_singleton_eq. }
      intros a _. case_match; [calm|].
      destruct (resolve_invoker _ _ _) eqn:E; [|calm|].
      * apply bind_no_panic; [by eapply calm_invoke|calm].
      * by destruct (calm_resolve _ He _ _ _ E).
    + case_match; [calm|]. apply bind_no_panic; [|calm].
      apply evaluate_entries_no_panic. intros k v Hv%elem_of_range_map.
      by eapply IH, vsize_map.
Qed.
End no_panic.

(** *** The default library *)
Section default_library.
Context `{JSONText} `{Markdown}.

Lemma mergedCast_from_no_panic i os : no_panic (mergedCast_from i os).
Proof. revert i. induction os as [|o os IH]; intros i; cbn; [calm|].
  repeat first [apply IH | calm_step]. Qed.

Lemma concat_strings_no_panic i args : no_panic (concat_strings i args).
Proof. revert i. induction args as [|a args IH]; intros i; cbn; [calm|].
  destruct a; repeat first [apply IH | calm_step]. Qed.

Definition calm_invoker (i : Invoker) : Prop := ∀ t, no_panic (i t).

(** A call that returns an invoker returns one that does not panic. *)
Definition calm_call (o : result Invoker) : Prop :=
  match o with Ok i => calm_invoker i | Err _ => True | Panic _ => False end.

Definition calm_descriptor (df : DescriptorFuncs) : Prop :=
  (∀ args, calm_call (PositionalInvoker df args)) ∧ (∀ args, calm_call (KeywordInvoker df args)).

Lemma ConvertMarkdown_no_panic ct md : no_panic (ConvertMarkdown ct md).
Proof. unfold ConvertMarkdown, NewMarkdownRenderer. calm. Qed.

Ltac calm_descriptor :=
  split; intros args; unfold PositionalInvoker, KeywordInvoker; cbn; try done;
  repeat (case_match; cbn; try done); intros ?;
  repeat first [ apply mergedCast_from_no_panic | apply concat_strings_no_panic
               | apply ConvertMarkdown_no_panic | calm_step ].

Lemma library_calm name df : library !! name = Some df → calm_descriptor df.
Proof.
  unfold library. intros Hdf.
  apply elem_of_list_to_map_2 in Hdf.
  repeat (apply elem_of_cons in Hdf as [[= -> ->]|Hdf]; [calm_descriptor|]).
  by apply not_elem_of_nil in Hdf.
Qed.

Lemma wrap_invoker_calm name i : calm_invoker i → calm_invoker (wrap_invoker name i).
Proof. intros Hi t. apply map_err_no_panic, Hi. Qed.

Lemma default_resolve_calm e name args :
  invocationResolver e = NewDefaultMemoryInvocationResolver →
  calm_call (resolve_invoker e name args).
Proof.
  intros He. unfold resolve_invoker. rewrite He. clear He.
  assert (Hp : ∀ l, calm_call (ResolveInvocationPositional NewDefaultMemoryInvocationResolver name l)).
  { intros l. unfold NewDefaultMemoryInvocationResolver, MemoryInvocationResolver, Descriptor.
    cbn [ResolveInvocationPositional].
    destruct (library !! name) as [d|] eqn:E; cbn [map_err mbind outcome_bind]; [|done].
    apply library_calm in E as [E _]. specialize (E l).
    destruct (PositionalInvoker d l); cbn in *; try done. by apply wrap_invoker_calm. }
  assert (Hk : ∀ m, calm_call (ResolveInvocation NewDefaultMemoryInvocationResolver name m)).
  { intros m. unfold NewDefaultMemoryInvocationResolver, MemoryInvocationResolver, Descriptor.
    cbn [ResolveInvocation].
    destruct (library !! name) as [d|] eqn:E; cbn [map_err mbind outcome_bind]; [|done].
    apply library_calm in E as [_ E]. specialize (E m).
    destruct (KeywordInvoker d m); cbn in *; try done. by apply wrap_invoker_calm. }
  destruct args; auto.
Qed.
End default_library.

(** ** Located errors *)

(** [at_node v path x]: following [path] from [v] through lists and plain maps, as
    evaluation does, leads to [x]. *)
Inductive at_node : value → list string → value → Prop :=
| at_root v : at_node v [] v
| at_index l i v path x :
    l !! i = Some v → at_node v path x → at_node (VSlice l) (pretty i :: path) x
| at_key m k v path x :
    map_shape m = ShPlain → m !! k = Some v → at_node v path x → at_node (VMap m) (k :: path) x.

(** A node that evaluation does not simply descend through. *)
Definition is_site (v : value) : bool :=
  match v with
  | VSlice _ => false
  | VMap m => match map_shape m with ShPlain => false | _ => true end
  | _ => true
  end.

Section located.
Context `{RL : GoRuntimeLaws} `{GoFmt} (e : Evaluator).

Lemma fold_outcome_Err {E A S} (f : S → A → outcome E S) s l err :
  fold_outcome f s l = Err err → ∃ x s', x ∈ l ∧ f s' x = Err err.
Proof.
  revert s. induction l as [|x l IH]; intros s; cbn; [done|].
  destruct (f s x) eqn:E1; cbn; [|intros [= ->]|done].
  - intros Hf. destruct (IH _ Hf) as (y & s' & ? & ?). exists y, s'. split; [by right|done].
  - exists x, s. split; [left|done].
Qed.

Lemma evaluate_entries_Err f d es err :
  evaluate_entries f d es = Err err →
  ∃ k v err', (k, v) ∈ es ∧ f v d = Err err' ∧ err = EEvaluate (PathEvaluationError k err').
Proof.
  intros ([k v] & [out u] & Hin & Hf)%fold_outcome_Err. rewrite evaluate_entry_eq in Hf.
  destruct (f v d) as [|err'|] eqn:E; try done. injection Hf as <-. by exists k, v, err'.
Qed.

(** Every error of an evaluation is the error of a site, wrapped in its path. *)
Lemma evaluate_Err_located v err :
  evaluate e v (-1) = Err err →
  ∃ path x err', at_node v path x ∧ is_site x = true
                 ∧ evaluate e x (-1) = Err err' ∧ err = at_path path err'.
Proof.
  revert err. induction v as [v IH] using value_strong_ind. intros err Herr.
  destruct (is_site v) eqn:Hv.
  { exists [], v, err. split_and!; try done. constructor. }
  destruct v as [| | | | | | | | |l|m| | |]; try discriminate Hv.
  - rewrite evaluate_slice in Herr by done. cbn [Z.eqb] in Herr.
    destruct (evaluate_entries _ _ _) as [[]|err1|] eqn:E; try done. injection Herr as <-.
    apply evaluate_entries_Err in E as (k & v & err' & Hin & Hv' & ->).
    apply list_elem_of_lookup in Hin as [i Hi]. rewrite list_lookup_imap in Hi.
    destruct (l !! i) as [v'|] eqn:Hl; [|done]. injection Hi as <- <-.
    rewrite evaluate_negative in Hv' by done.
    destruct (IH v') with err' as (path & x & err1 & Hat & Hs & Hx & ->); [|done|].
    { by eapply vsize_slice, list_elem_of_lookup_2. }
    exists (pretty i :: path), x, err1. split_and!; try done. by eapply at_index.
  - cbn in Hv. destruct (map_shape m) eqn:Hm; try done.
    rewrite evaluate_map, Hm, decide_False in Herr by (done || by intros []).
    unfold evaluate_children in Herr.
    destruct (evaluate_entries _ _ _) as [[]|err1|] eqn:E; try done. injection Herr as <-.
    apply evaluate_entries_Err in E as (k & v & err' & Hin%elem_of_range_map & Hv' & ->).
    rewrite evaluate_negative in Hv' by done.
    destruct (IH v) with err' as (path & x & err1 & Hat & Hs & Hx & ->); [|done|].
    { by eapply vsize_map. }
    exists (k :: path), x, err1. split_and!; try done. by eapply at_key.
Qed.
End located.
