(* ===== verification/ResultMapper.v ===== *)
(** * Result mappers and result envelopes
    (pkg/expr/evaluate/resultmapper.go, result_json.go) *)
From S2P Require Import Prelude GoStd GoStrings Values Errors Transfer Unresolvable Fn.
From S2P Require Import Resolve Evaluate.

(** [for _, rm := range rms { nr, err = rm.MapResult(ctx, nr) ... }] *)
Definition ChainResultMappers (rms : list ResultMapper) : ResultMapper := λ r,
  fold_outcome (λ nr rm, rm nr) r rms.

(** The method [do] of the UTF-8 mapper; [EncodeJSON] always finds an encoder, so the
    error returns of the code are never taken. *)
Fixpoint utf8_do (v : value) : value :=
  match v with
  | VBytes b => EncodeJSON b
  | VString s => EncodeJSON s
  | VMap vt => VMap (utf8_do <$> vt)
  | VSlice vt => VSlice (utf8_do <$> vt)
  | _ => v
  end.

Definition UTF8SafeResultMapper : ResultMapper := λ r,
  Ok (MkResult (utf8_do (Value r)) (Unresolvables r)).

Record JSONResultMapper := MkJSONResultMapper { encoder : ResultMapper; indent : Z }.

Section json.
Context `{JSONText}.

Definition JSONResultMapper_MapResult (jrm : JSONResultMapper) : ResultMapper := λ r,
  r ← encoder jrm r;
  j ← json_marshal (Value r);
  let text := if Z.ltb 0 (indent jrm) then json_print_indent (Z.to_nat (indent jrm)) j
              else json_print j in
  Ok (MkResult (VBytes text) (Unresolvables r)).

Definition JSONResultMapperOption : Type := JSONResultMapper → JSONResultMapper.

Definition WithJSONResultMapperIndent (spaces : Z) : JSONResultMapperOption := λ jrm,
  MkJSONResultMapper (encoder jrm) spaces.

(** The options are accepted and never applied. *)
Definition NewJSONResultMapper (opts : list JSONResultMapperOption) : JSONResultMapper :=
  MkJSONResultMapper UTF8SafeResultMapper 0.
End json.

(** ** The JSON envelope of a result *)
Definition json_field (k v : string) : string * json := (k, JString v).
Definition json_object (fields : list (string * json)) : json := JObject (list_to_map fields).

(** A list field with [omitempty]. *)
Definition list_field {A} (k : string) (f : A → json) (l : list A) : list (string * json) :=
  match l with [] => [] | _ => [(k, JArray (f <$> l))] end.

(** [NewJSONUnresolvableEnvelope], as it is marshaled.  Data references have no field. *)
Definition NewJSONUnresolvableEnvelope (ur : Unresolvable) : json :=
  json_object
    (list_field "secrets" (λ s, json_object [json_field "name" (Secret_Name s)]) (Secrets ur)
     ++ list_field "connections"
          (λ c, json_object [json_field "type" (Connection_Type c);
                             json_field "name" (Connection_Name c)]) (Connections ur)
     ++ list_field "outputs"
          (λ o, json_object [json_field "from" (Output_From o);
                             json_field "name" (Output_Name o)]) (Outputs ur)
     ++ list_field "parameters" (λ p, json_object [json_field "name" (Parameter_Name p)])
          (Parameters ur)
     ++ list_field "answers"
          (λ o, json_object [json_field "askRef" (Answer_AskRef o);
                             json_field "name" (Answer_Name o)]) (Answers ur)
     ++ list_field "invocations" (λ i, json_object [json_field "name" (Invocation_Name i)])
          (Invocations ur)).

Record JSONResultEnvelope := MkEnvelope {
  env_value : value;            (* marshaled as a transfer.JSONInterface *)
  env_unresolvable : json;
  env_complete : bool;
}.

Definition NewJSONResultEnvelope (rv : Result) : JSONResultEnvelope := {|
  env_value := Value rv;
  env_unresolvable := NewJSONUnresolvableEnvelope (Unresolvables rv);
  env_complete := Complete rv;
|}.

Definition envelope_marshal `{JSONText} (env : JSONResultEnvelope) : result json :=
  v ← ji_marshal (env_value env);
  Ok (json_object [("value", v); ("unresolvable", env_unresolvable env);
                   ("complete", JBool (env_complete env))]).

(** ** Lemmas *)

(** No strings or byte slices are left: [utf8_do] has replaced them all. *)
Fixpoint utf8_safe (v : value) : bool :=
  match v with
  | VString _ | VBytes _ => false
  | VSlice l => forallb utf8_safe l
  | VMap m => map_fold (λ _ v b, utf8_safe v && b) true m
  | _ => true
  end.

Lemma utf8_safe_map m : utf8_safe (VMap m) = true ↔ map_Forall (λ _ v, utf8_safe v = true) m.
Proof. apply (map_fold_andb_true (λ _ v, utf8_safe v)). Qed.

Lemma utf8_safe_EncodeJSON s : utf8_safe (EncodeJSON s) = true.
Proof. unfold EncodeJSON. by destruct (utf8_valid s). Qed.

Lemma utf8_do_safe v : utf8_safe (utf8_do v) = true.
Proof.
  induction v as [v Hv|l IH|m IH] using value_ind'.
  - destruct v; try done; apply utf8_safe_EncodeJSON.
  - cbn. apply forallb_Forall, Forall_fmap. exact IH.
  - cbn [utf8_do]. apply utf8_safe_map. intros k v Hk. rewrite lookup_fmap in Hk.
    destruct (m !! k) eqn:E; [|done]. injection Hk as <-. by eapply IH.
Qed.

Lemma utf8_do_fixed v : utf8_safe v = true → utf8_do v = v.
Proof.
  induction v as [v Hv|l IH|m IH] using value_ind'; intros Hs.
  - by destruct v.
  - cbn in *. apply forallb_Forall in Hs. f_equal.
    induction IH as [|v l Hv _ IHl]; [done|]. apply Forall_cons in Hs as [? Hs].
    cbn. rewrite Hv, IHl; done.
  - cbn [utf8_do]. f_equal. apply utf8_safe_map in Hs. apply map_eq. intros k.
    rewrite lookup_fmap. destruct (m !! k) eqn:E; [|done]. cbn. f_equal.
    by apply (IH k); [|apply (Hs k)].
Qed.

Lemma json_marshal_EncodeJSON `{JSONText} s : json_marshal (EncodeJSON s) = ji_marshal (VString s).
Proof. cbn. unfold EncodeJSON. by destruct (utf8_valid s). Qed.

(** Marshaling what the mapper returns is [JSONInterface]'s marshaling of the value. *)
Lemma json_marshal_utf8_do `{JSONText} v :
  json_faithful v = true → json_marshal (utf8_do v) = ji_marshal v.
Proof.
  induction v as [v Hv|l IH|m IH] using value_ind'; intros Hf.
  - destruct v; try done. apply json_marshal_EncodeJSON.
  - cbn in *. apply forallb_Forall in Hf.
    assert (mapM json_marshal (utf8_do <$> l) = mapM ji_marshal l) as ->; [|done].
    induction IH as [|v l Hv _ IHl]; [done|]. apply Forall_cons in Hf as [? Hf].
    cbn. rewrite Hv by done. by rewrite (IHl Hf).
  - apply json_faithful_map in Hf as [_ Hf]. cbn [utf8_do json_marshal ji_marshal].
    assert (json_marshal <$> (utf8_do <$> m) = ji_marshal <$> m) as ->; [|done].
    apply map_eq. intros k. rewrite !lookup_fmap. destruct (m !! k) eqn:E; [|done].
    cbn. f_equal. apply (IH k v E). by apply (Hf k).
Qed.
