(* ===== verification/Samples.v ===== *)
(** * A JSON text format

    A concrete instance of [JSONText] that satisfies its law: trees are written as
    the binary code of a finite tree.  It stands for [encoding/json] where a property
    that assumes the law is instantiated. *)
From stdpp Require Import countable.
From S2P Require Import Prelude GoStd GoStrings Values Errors Transfer Unresolvable Fn.
From S2P Require Import Resolve Evaluate.

Fixpoint jsize (j : json) : nat :=
  match j with
  | JArray l => S (foldr (λ j n, jsize j + n) 0 l)
  | JObject m => S (map_fold (λ _ j n, jsize j + n) 0 m)
  | _ => 1
  end.

Lemma jsize_array j l : j ∈ l → jsize j < jsize (JArray l).
Proof. induction 1; cbn in *; lia. Qed.

Lemma jsize_object m k j : m !! k = Some j → jsize j < jsize (JObject m).
Proof.
  intros H. cbn. rewrite (map_fold_delete_L (λ _ j n, jsize j + n) 0 k j m); [lia| |done].
  intros; lia.
Qed.

Lemma json_ind' (P : json → Prop) :
  P JNull → (∀ b, P (JBool b)) → (∀ s, P (JNumber s)) → (∀ s, P (JString s)) →
  (∀ l, Forall P l → P (JArray l)) → (∀ m, map_Forall (λ _, P) m → P (JObject m)) → ∀ j, P j.
Proof.
  intros H1 H2 H3 H4 Hl Hm j. remember (jsize j) as n eqn:Hn. revert j Hn.
  induction (lt_wf n) as [n _ IH]. intros [| | | |l|m] ->; auto.
  - apply Hl, Forall_forall. intros j Hj. by eapply IH; [apply jsize_array|].
  - apply Hm. intros k j Hj. by eapply IH; [eapply jsize_object|].
Qed.

Definition entry_tree (kt : string * gen_tree (bool + string)) : gen_tree (bool + string) :=
  GenNode 4 [GenLeaf (inr kt.1); kt.2].

Fixpoint tree_of (j : json) : gen_tree (bool + string) :=
  match j with
  | JNull => GenNode 0 []
  | JBool b => GenLeaf (inl b)
  | JNumber s => GenNode 1 [GenLeaf (inr s)]
  | JString s => GenLeaf (inr s)
  | JArray l => GenNode 2 (tree_of <$> l)
  | JObject m => GenNode 3 (entry_tree <$> map_to_list (tree_of <$> m))
  end.

Fixpoint of_tree (t : gen_tree (bool + string)) : option json :=
  match t with
  | GenLeaf (inl b) => Some (JBool b)
  | GenLeaf (inr s) => Some (JString s)
  | GenNode 0 _ => Some JNull
  | GenNode 1 [GenLeaf (inr s)] => Some (JNumber s)
  | GenNode 2 l => JArray <$> mapM of_tree l
  | GenNode 3 l =>
      es ← mapM (λ e, match e with
                      | GenNode 4 [GenLeaf (inr k); t] => j ← of_tree t; Some (k, j)
                      | _ => None
                      end) l;
      Some (JObject (list_to_map es))
  | _ => None
  end.

Lemma of_tree_of j : of_tree (tree_of j) = Some j.
Proof.
  induction j as [| | | |l IH|m IH] using json_ind'; try done; cbn.
  - assert (mapM of_tree (tree_of <$> l) = Some l) as ->; [|done].
    apply mapM_Some. apply Forall2_fmap_l. apply Forall_Forall2_diag. exact IH.
  - erewrite (proj2 (mapM_Some _ _ (map_to_list m))); [cbn; by rewrite list_to_map_to_list|].
    rewrite map_to_list_fmap, <- list_fmap_compose. apply Forall2_fmap_l, Forall_Forall2_diag.
    apply Forall_forall. intros [k j] Hj%elem_of_map_to_list. cbn. by rewrite (IH k j Hj).
Qed.

Fixpoint bits (p : positive) : string :=
  match p with
  | xH => ""
  | xO p => String "0" (bits p)
  | xI p => String "1" (bits p)
  end.

Fixpoint unbits (s : string) : positive :=
  match s with
  | EmptyString => xH
  | String a s => if Ascii.eqb a "0" then xO (unbits s) else xI (unbits s)
  end.

Lemma unbits_bits p : unbits (bits p) = p.
Proof. induction p as [p IH|p IH|]; cbn; congruence. Qed.

Definition tree_json : JSONText := {|
  format_leaf _ := None;
  parse_number _ := S754_nan;
  json_print j := String "j" (bits (encode (tree_of j)));
  json_print_indent _ j := String "j" (bits (encode (tree_of j)));
  json_parse s := match s with
                  | EmptyString => None
                  | String _ s => t ← decode (unbits s); of_tree t
                  end;
|}.

#[export] Instance tree_json_laws : @JSONTextLaws tree_json.
Proof.
  split; [intros j _|intros n j _|done]; cbn; rewrite unbits_bits, decode_encode; apply of_tree_of.
Qed.

(** * Concrete parameters

    Instances of the interfaces with no code of their own (quoting) and small
    evaluators and trees, on which the properties are instantiated. *)
Definition sample_fmt : GoFmt := {| quote := dquote |}.

(** A map with two entries. *)
Definition map2 (k1 : string) (v1 : value) (k2 : string) (v2 : value) : value :=
  VMap (<[k1 := v1]> {[k2 := v2]}).

Definition ref_parameter (n : string) : value :=
  map2 "$type" (VString "Parameter") "name" (VString n).
Definition ref_secret (n : string) : value :=
  map2 "$type" (VString "Secret") "name" (VString n).
Definition fn_call (f : string) (args : list value) : value := VMap {["$fn." +:+ f := VSlice args]}.

Definition sample_functions : InvocationResolver :=
  MemoryInvocationResolver {["concat" := concatDescriptor]}.

Definition sample_evaluator (secrets : gmap string string) (parameters : gmap string value)
    : Evaluator :=
  MkEvaluator LanguagePath (λ i, i tt) IdentityResultMapper
    NoOpDataTypeResolver (MemorySecretTypeResolver secrets) NoOpConnectionTypeResolver
    NoOpOutputTypeResolver (MemoryParameterTypeResolver parameters) NoOpAnswerTypeResolver
    sample_functions.

(** [{greeting: !Fn.concat [!Parameter who, !Secret key]}] *)
Definition sample_tree : value :=
  VMap {["greeting" := fn_call "concat" [ref_parameter "who"; ref_secret "key"]]}.

Definition sample_parameters : gmap string value := {["who" := VString "world"]}.
Definition sample_secrets : gmap string string := {["key" := "!"]}.

Definition sample_markdown : Markdown := {|
  markdown_Parse s := ast.OtherContainer [ast.Text s]; html_Render _ := "" |}.
