(* ===== verification/Query.v ===== *)
(** * Queries (pkg/expr/evaluate/select.go, EvaluateQuery; pkg/util/jsonpath)

    A query asks for a part of a tree: a path, a JSONPath or a template of JSONPaths.  The
    languages are those of gval, whose parsers are parameters; what a variable means in
    them, that is, how a path is followed and what of the tree is evaluated on the way, is
    the code modelled here.  The references that a query meets and cannot resolve are
    added to a set, the state of a query. *)
From stdpp Require Import pretty.
From S2P Require Import Prelude GoStd GoStrings Values Errors Transfer Unresolvable Fn.
From S2P Require Import Resolve Evaluate EvaluateTheory Denote Staging Samples.

(** An error of a visitor: one that a JSONPath may drop, or not. *)
Inductive visit_error : Type :=
| VisitError (e : error)
| ForcePropagation (Cause : error).
Definition propagated (e : visit_error) : error :=
  match e with VisitError e | ForcePropagation e => e end.
Definition map_failure {E F W A} (f : E → F) (m : effect E W A) : effect F W A := λ w,
  let '(r, w') := m w in (map_err f r, w').

(** ** A child of a value (the vendored [DefaultVariableVisitor().VisitChild])

    [strconv.ParseInt(s, 10, 32)]: a sign and digits, read from left to right. *)
Definition decimal_digit (c : ascii) : option Z :=
  let n := (Z.of_N (N_of_ascii c) - 48)%Z in
  if bool_decide (0 ≤ n < 10)%Z then Some n else None.
Definition out_of_range : string := "value out of range".
Definition invalid_syntax : string := "invalid syntax".
Fixpoint parse_digits (n : Z) (s : string) : outcome string Z :=
  match s with
  | "" => Ok n
  | String c s =>
      match decimal_digit c with
      | None => Err invalid_syntax
      | Some d =>
          if (4294967295 <? 10 * n + d)%Z then Err out_of_range else parse_digits (10 * n + d) s
      end
  end.
Definition parse_magnitude (s : string) : outcome string Z :=
  match s with "" => Err invalid_syntax | _ => parse_digits 0 s end.
Definition parse_int32 (s : string) : outcome string Z :=
  match s with
  | String "-" s =>
      n ← parse_magnitude s; if (2147483648 <? n)%Z then Err out_of_range else Ok (- n)%Z
  | String "+" s | s =>
      n ← parse_magnitude s; if (2147483648 <=? n)%Z then Err out_of_range else Ok n
  end.

(** [int(f)] on a 64-bit machine: what does not fit is the least integer. *)
Definition int_of_float (f : spec_float) : Z :=
  let least := (- 2 ^ 63)%Z in
  match f with
  | S754_zero _ => 0
  | S754_finite s m e =>
      let z := Z.shiftl (Zpos m) e in
      let z := if s then (- z)%Z else z in
      if bool_decide (- 2 ^ 63 ≤ z < 2 ^ 63)%Z then z else least
  | _ => least
  end%Z.

(** [strconv.FormatFloat(f, 'f', -1, 64)] and [%v]. *)
Class ValueText := { format_float : spec_float → string; sprint : value → string }.

Definition type_verb (v : value) : string :=
  match v with VNil => "<nil>" | _ => type_string (type_of v) end.

Section queries.
Context `{GoRuntime, GoFmt, ValueText}.

Definition slice_index (key : value) : outcome error Z :=
  match key with
  | VString kt =>
      map_err (λ what, EText ("unexpected string index " +:+ quote kt
          +:+ " for slice, must be convertible to int: strconv.ParseInt: parsing "
          +:+ quote kt +:+ ": " +:+ what)) (parse_int32 kt)
  | VInt i | VInt64 i => Ok i
  | VUint i | VUint64 i => Ok (if (2 ^ 63 <=? i)%Z then i - 2 ^ 64 else i)%Z
  | VFloat64 f => Ok (int_of_float f)
  | _ => Err (EText ("unexpected index type " +:+ type_verb key +:+ " for slice"))
  end.

(** [FormatInt] has no base 64. *)
Definition map_key (key : value) : outcome error string :=
  match key with
  | VString kt => Ok kt
  | VInt _ | VInt64 _ | VUint _ | VUint64 _ => Panic "strconv: illegal AppendInt/FormatInt base"
  | VFloat64 f => Ok (format_float f)
  | _ => Err (EText ("unexpected key type " +:+ type_verb key +:+ " for map"))
  end.

(** The path and the value that the visitor goes on with. *)
Definition default_VisitChild (v key : value) : outcome error (string * value) :=
  match v with
  | VSlice vt =>
      i ← slice_index key;
      match (if (i <? 0)%Z then None else vt !! Z.to_nat i) with
      | Some x => Ok (pretty i, x)
      | None => Err (EText ("index " +:+ pretty i +:+ " out of bounds"))
      end
  | VMap vt =>
      k ← map_key key;
      match vt !! k with
      | Some x => Ok (k, x)
      | None => Err (EText ("unknown key " +:+ k))
      end
  | _ => Err (EText ("unsupported value type " +:+ type_verb v
           +:+ " for select, expected map[string]interface{} or []interface{}"))
  end.

(** ** Following a path

    What a language evaluates: a function of the value it is given, which adds to the
    references that were not resolved. *)
Definition Evaluable : Type := value → effect error Unresolvable value.
(** [VisitChild], with what its continuation is given, unless it is not called. *)
Definition VisitChildFunc : Type :=
  value → value → effect visit_error Unresolvable (option (string * value)).

Definition DefaultVariableVisitor : VisitChildFunc := λ v key,
  pv ← lift (map_err VisitError (default_VisitChild v key)); mret (Some pv).

(** The value of a child is expanded without recursing; an incomplete one ends the visit. *)
Definition variableVisitor (e : Evaluator) : VisitChildFunc := λ v key,
  '(path, child) ← lift (map_err VisitError (default_VisitChild v key));
  nr ← lift (map_err ForcePropagation (evaluate e child 1));
  if Complete nr then mret (Some (path, Value nr))
  else λ r, (Ok None, extends r (Unresolvables nr)).

(** The keys of a path are evaluated on the value reached so far; a nil ends it. *)
Fixpoint variableSelector (e : Evaluator) (path : list Evaluable) : Evaluable := λ v,
  match path with
  | [] => mret v
  | key :: rest =>
      key ← key v;
      nv ← map_failure propagated (variableVisitor e v key);
      match nv with
      | None | Some (_, VNil) => mret VNil
      | Some (_, nv) => variableSelector e rest nv
      end
  end.

(** ** Templates (pkg/util/jsonpath)

    A template as it was parsed: text, expressions in braces, and ranges. *)
Definition eval (ev : Evaluable) (parameter : value) : effect error Unresolvable string :=
  v ← ev parameter;
  mret (match v with
        | VNil => ""
        | VString s => s
        | VSlice vt => join " " (sprint <$> vt)
        | v => sprint v
        end).

Inductive template : Type :=
| TConst (text : string)
| TExpression (ev : Evaluable)
| TConcat (a b : template)
| TRange (query : Evaluable) (sub : template).

Section range.
Context (sub : value → effect error Unresolvable string).
Fixpoint range_over (els : list value) (s : string) : effect error Unresolvable string :=
  match els with
  | [] => mret s
  | el :: els => v ← sub el; range_over els (s +:+ v)
  end.
End range.
Fixpoint template_text (t : template) (parameter : value) : effect error Unresolvable string :=
  match t with
  | TConst text => mret text
  | TExpression ev => eval ev parameter
  | TConcat a b => ea ← template_text a parameter; eb ← template_text b parameter; mret (ea +:+ eb)
  | TRange query sub =>
      candidate ← query parameter;
      match candidate with
      | VSlice els => range_over (template_text sub) els ""
      | _ => mret ""
      end
  end.

(** [==] in an expression: a list is equal to any of its elements. *)
Definition eq_operator (a b : value) : bool :=
  match a, b with
  | VSlice vs, _ => existsb (λ v, deep_equal v b) vs || deep_equal a b
  | _, VSlice vs => existsb (λ v, deep_equal a v) vs || deep_equal a b
  | _, _ => deep_equal a b
  end.

(** ** The languages

    A language compiles the text of a query.  A path is given the meaning of its variables,
    a JSONPath the visitor of its children and its equality.  The range of a template is
    an expression of the package's own language, with the default visitor. *)
Class QueryLanguages := {
  path_language : (list Evaluable → Evaluable) → string → result Evaluable;
  jsonpath_language : (value → value → bool) → VisitChildFunc → string → result Evaluable;
  template_language :
    (value → value → bool) → VisitChildFunc → VisitChildFunc → string → result template }.

Definition NewEvaluable `{QueryLanguages} (e : Evaluator) (query : string) : result Evaluable :=
  match lang e with
  | LanguagePath => path_language (variableSelector e) query
  | LanguageJSONPath => jsonpath_language eq_operator (variableVisitor e) query
  | LanguageJSONPathTemplate =>
      t ← template_language eq_operator DefaultVariableVisitor (variableVisitor e) query;
      Ok (λ v, s ← template_text t v; mret (VString s))
  end.

Definition EvaluateQuery `{QueryLanguages} (e : Evaluator) (tree : value) (query : string)
    : result Result :=
  path ← NewEvaluable e query;
  let '(v, r) := path tree no_unresolvable in
  v ← v;
  er ← evaluate e v (-1);
  resultMapper e (MkResult (Value er) (extends (Unresolvables er) r)).
Definition Scoped_EvaluateQuery `{QueryLanguages} (se : ScopedEvaluator) (query : string)
    : result Result := EvaluateQuery (parent se) (tree se) query.
End queries.

(** * Properties of queries

    ** Trees and what they stand for, child by child *)
Definition special (v : value) : bool :=
  match v with VMap m => match map_shape m with ShPlain => false | _ => true end | _ => false end.

Lemma plain_not_special v : plain v = true → special v = false.
Proof.
  destruct v as [| | | | | | | | | |m| | |]; try done.
  rewrite plain_map. intros [Hs _]. cbn. by rewrite Hs.
Qed.
Lemma plain_subtree x v : subtree x v → plain v = true → plain x = true.
Proof.
  induction 1 as [|x v l Hv _ IH|x k v m Hk _ IH]; [done| |]; intros Hp; apply IH.
  - cbn in Hp. rewrite forallb_forall in Hp. by apply Hp, list_elem_of_In.
  - apply plain_map in Hp as [_ Hp]. exact (Hp k v Hk).
Qed.

Section projection.
Context `{GoRuntimeLaws, GoFmt, ValueText} (e : Evaluator).

(** What the references in a tree denote is plain data. *)
Definition references_plain (v : value) : Prop :=
  ∀ x w, subtree x v → special x = true → denotes e x w → plain w = true.

Lemma plain_references_plain v : plain v = true → references_plain v.
Proof.
  intros Hp x w Hx Hs. apply (plain_subtree x) in Hp; [|done].
  apply plain_not_special in Hp. congruence.
Qed.
Lemma references_plain_sub x v : references_plain v → subtree x v → references_plain x.
Proof.
  intros Hr Hx y w Hy. apply Hr. clear -Hx Hy. revert y Hy.
  induction Hx as [|x v l Hv Hx IH|x k v m Hk Hx IH]; intros y Hy; [done|by eapply sub_slice, IH|
    by eapply sub_map, IH].
Qed.

Lemma denotes_supported v w : denotes e v w → supported v = true.
Proof. intros Hd. destruct v; try done; by apply denotes_leaf in Hd as [_ ?]. Qed.

(** A child is expanded to a value that stands for the same. *)
Lemma expanded v w :
  denotes e v w → references_plain v →
  ∃ c, evaluate e v 1 = Ok (complete_result c) ∧ denotes e c w
       ∧ special c = false ∧ references_plain c.
Proof.
  intros Hd Hr. destruct (special v) eqn:Hs.
  - assert (Hp := Hr v w (sub_refl v) Hs Hd). exists w. split_and!.
    + apply completes_denotes in Hd. unfold completes in Hd. rewrite <- Hd.
      destruct v as [| | | | | | | | | |m| | |]; try done. cbn in Hs.
      rewrite !evaluate_map by done. by destruct (map_shape m).
    + by apply (plain_stable e w Hp).
    + by apply plain_not_special.
    + by apply plain_references_plain.
  - exists v. split; [|done]. assert (Hv := denotes_supported v w Hd).
    destruct v as [| | | | | | | | |l|m| | |]; try discriminate Hv;
      try (by rewrite evaluate_leaf).
    + by rewrite evaluate_slice.
    + cbn in Hs. destruct (map_shape m) eqn:Hm; try discriminate Hs.
      apply evaluate_depth_one; [done|]. intros _ k x Hk.
      apply denotes_plain in Hd as (m' & -> & Hm'); [|done].
      apply (map_related_Some _ _ _ _ _ Hm') in Hk as (y & _ & Hxy). by eapply denotes_supported.
Qed.

Definition same_child (v : value) (a b : outcome error (string * value)) : Prop :=
  match a, b with
  | Ok (p, c), Ok (p', c') => p = p' ∧ denotes e c c' ∧ subtree c v
  | Err x, Err y => x = y
  | Panic x, Panic y => x = y
  | _, _ => False
  end.
Lemma denoted_child v w key :
  special v = false → denotes e v w →
  same_child v (default_VisitChild v key) (default_VisitChild w key).
Proof.
  intros Hs Hd. destruct v as [| | | | | | | | |l|m| | |];
    try (apply denotes_leaf in Hd as [-> _]; done).
  - apply denotes_slice in Hd as (l' & -> & Hl). cbn [default_VisitChild].
    destruct (slice_index key) as [i|x|x]; cbn [mbind outcome_bind]; [|done..].
    destruct (i <? 0)%Z; [done|]. destruct (l !! Z.to_nat i) as [c|] eqn:E.
    + destruct (Forall2_lookup_l _ _ _ _ _ Hl E) as (c' & -> & Hc). split_and!; [done..|].
      eapply sub_slice; [|apply sub_refl]. by eapply list_elem_of_lookup_2.
    + apply (Forall2_length) in Hl as Hlen. apply lookup_ge_None in E. rewrite Hlen in E.
      apply lookup_ge_None in E. by rewrite E.
  - cbn in Hs. destruct (map_shape m) eqn:Hm; try discriminate Hs.
    apply denotes_plain in Hd as (m' & -> & Hr); [|done]. cbn [default_VisitChild].
    destruct (map_key key) as [k|x|x]; cbn [mbind outcome_bind]; [|done..].
    assert (Hk := Hr k). destruct (m !! k) as [c|] eqn:E, (m' !! k); try done.
    split_and!; [done..|]. eapply sub_map; [exact E|apply sub_refl].
Qed.

(** ** A path, on data without references *)
Fixpoint follow (ks : list value) (w : value) : outcome error value :=
  match ks with
  | [] => Ok w
  | k :: ks =>
      '(_, c) ← default_VisitChild w k;
      match c with VNil => Ok VNil | c => follow ks c end
  end.
(** [p.Const] *)
Definition constant (v : value) : Evaluable := λ _, mret v.

Definition same_end (a b : outcome error value) : Prop :=
  match a, b with
  | Ok x, Ok y => denotes e x y
  | Err x, Err y => x = y
  | Panic x, Panic y => x = y
  | _, _ => False
  end.
Lemma selector_step k ks v u :
  variableSelector e (constant <$> k :: ks) v u =
  match default_VisitChild v k with
  | Ok (_, c) =>
      match evaluate e c 1 with
      | Ok nr =>
          if Complete nr then
            match Value nr with VNil => (Ok VNil, u) | nv => variableSelector e (constant <$> ks) nv u end
          else (Ok VNil, extends u (Unresolvables nr))
      | Err x => (Err x, u)
      | Panic x => (Panic x, u)
      end
  | Err x => (Err x, u)
  | Panic x => (Panic x, u)
  end.
Proof.
  cbn [fmap list_fmap variableSelector]. unfold mbind, effect_bind, constant at 1, mret, effect_ret.
  unfold map_failure, variableVisitor, lift, mbind, effect_bind.
  destruct (default_VisitChild v k) as [[p c]|x|x]; [|done..]. cbn [map_err].
  destruct (evaluate e c 1) as [nr|x|x]; [|done..]. cbn [map_err].
  destruct (Complete nr); [|done]. cbn. by destruct (Value nr).
Qed.

Lemma denotes_nil_iff v w : special v = false → denotes e v w → v = VNil ↔ w = VNil.
Proof.
  intros Hs Hd. destruct v as [| | | | | | | | |l|m| | |];
    try (by apply denotes_leaf in Hd as [-> _]).
  - by apply denotes_slice in Hd as (l' & -> & _).
  - cbn in Hs. destruct (map_shape m) eqn:Hm; try discriminate Hs.
    by apply denotes_plain in Hd as (m' & -> & _).
Qed.

Lemma selector_follows ks u : ∀ v w,
  special v = false → references_plain v → denotes e v w →
  ∃ r, variableSelector e (constant <$> ks) v u = (r, u) ∧ same_end r (follow ks w).
Proof.
  induction ks as [|k ks IH]; intros v w Hs Hr Hd; [by exists (Ok v)|].
  rewrite selector_step. cbn [follow]. assert (Hc := denoted_child v w k Hs Hd).
  destruct (default_VisitChild v k) as [[p c]|x|x], (default_VisitChild w k) as [[p' c']|y|y];
    try done; [|by eexists..].
  destruct Hc as (_ & Hc & Hsub). cbn [mbind outcome_bind].
  destruct (expanded c c' Hc (references_plain_sub _ _ Hr Hsub)) as (c1 & -> & Hc1 & Hs1 & Hr1).
  change (Complete (complete_result c1)) with true. cbn [Value complete_result].
  assert (Hn := denotes_nil_iff c1 c' Hs1 Hc1). assert (c1 = VNil ∨ c1 ≠ VNil) as [->|Hne] by (destruct c1; auto).
  - rewrite (proj1 Hn eq_refl). exists (Ok VNil). split; [done|]. cbn. by apply denotes_leaf.
  - destruct (IH c1 c' Hs1 Hr1 Hc1) as (r & E & Hr'). exists r.
    split; [by destruct c1|]. by destruct c'; try (apply Hr'); destruct (Hne (proj2 Hn eq_refl)).
Qed.

(** ** The part of a value that a path of names leads to *)
Definition child_of (w : value) (k : string) : option value :=
  match w with
  | VMap m => m !! k
  | VSlice l =>
      match parse_int32 k with
      | Ok i => if (i <? 0)%Z then None else l !! Z.to_nat i
      | _ => None
      end
  | _ => None
  end.
Fixpoint project (ks : list string) (w : value) : option value :=
  match ks with
  | [] => Some w
  | k :: ks => c ← child_of w k; match c with VNil => Some VNil | c => project ks c end
  end.

Lemma visit_child_of w k :
  match child_of w k with
  | Some c => ∃ p, default_VisitChild w (VString k) = Ok (p, c)
  | None => ∃ x, default_VisitChild w (VString k) = Err x
  end.
Proof.
  destruct w as [| | | | | | | | |l|m| | |]; try (by eexists).
  - cbn. assert (Hp : ∀ s, parse_int32 k ≠ Panic s).
    { intros s. assert (Hd : ∀ t n, parse_digits n t ≠ Panic s).
      { induction t as [|c t IH]; intros n; cbn [parse_digits]; [done|].
        destruct (decimal_digit c); [|done]. by case_match. }
      assert (Hm : ∀ t, parse_magnitude t ≠ Panic s) by (intros []; [done|apply Hd]).
      assert (Hb : ∀ t (f : Z → outcome string Z), (∀ n, f n ≠ Panic s) → (n ← parse_magnitude t; f n) ≠ Panic s)
        by (intros t f Hf; specialize (Hm t); destruct (parse_magnitude t); cbn; [apply Hf|done|congruence]).
      unfold parse_int32. repeat case_match; apply Hb; intros n; by case_match. }
    destruct (parse_int32 k) as [i|x|x]; cbn; [|by eexists|by destruct (Hp x)].
    destruct (i <? 0)%Z; [by eexists|]. destruct (l !! Z.to_nat i); by eexists.
  - cbn. destruct (m !! k); by eexists.
Qed.

Lemma follow_project ks : ∀ w,
  match project ks w with
  | Some x => follow (VString <$> ks) w = Ok x
  | None => ∃ err, follow (VString <$> ks) w = Err err
  end.
Proof.
  induction ks as [|k ks IH]; intros w; [done|]. cbn [project fmap list_fmap follow].
  assert (Hc := visit_child_of w k). destruct (child_of w k) as [c|].
  - destruct Hc as [p ->]. cbn [mbind option_bind outcome_bind]. destruct c; try done; apply IH.
  - destruct Hc as [x ->]. by eexists.
Qed.

(** All sub-trees, to check a tree by evaluating its references. *)
Fixpoint subtrees (v : value) : list value :=
  v :: match v with
       | VSlice l => concat (subtrees <$> l)
       | VMap m => map_fold (λ _ v acc, subtrees v ++ acc) [] m
       | _ => []
       end.
Lemma subtrees_self v : v ∈ subtrees v.
Proof. destruct v; left. Qed.
Lemma map_fold_app {A B} (f : A → list B) (m : gmap string A) k a x :
  m !! k = Some a → x ∈ f a → x ∈ map_fold (λ _ v acc, f v ++ acc) [] m.
Proof.
  intros Hk Hx. revert k a Hk Hx.
  apply (map_fold_weak_ind (λ acc m, ∀ k a, m !! k = Some a → x ∈ f a → x ∈ acc)).
  - intros k a Hk. by rewrite lookup_empty in Hk.
  - intros i b m' acc _ IH k a Hk Hx. apply elem_of_app.
    destruct (decide (i = k)) as [->|Hne].
    + rewrite lookup_insert_eq in Hk. injection Hk as ->. by left.
    + rewrite lookup_insert_ne in Hk by done. right. by eapply IH.
Qed.
Lemma subtree_elem x v : subtree x v → x ∈ subtrees v.
Proof.
  induction 1 as [v|x v l Hv _ IH|x k v m Hk _ IH]; [apply subtrees_self| |]; cbn; right.
  - apply list_elem_of_In, in_concat. exists (subtrees v).
    split; [apply list_elem_of_In, list_elem_of_fmap; by eexists|by apply list_elem_of_In].
  - by eapply map_fold_app.
Qed.
Definition plain_reference (x : value) : bool :=
  negb (special x) || match evaluate e x (-1) with Ok r => plain (Value r) | _ => true end.
Lemma references_plain_check v : forallb plain_reference (subtrees v) = true → references_plain v.
Proof.
  rewrite forallb_forall. intros Hc x w Hx Hs Hd. apply subtree_elem, list_elem_of_In, Hc in Hx.
  unfold plain_reference in Hx. rewrite Hs in Hx. apply completes_denotes in Hd.
  unfold completes in Hd. by rewrite Hd in Hx.
Qed.

(** C16: A path query serves the projection of what the whole tree stands for.  If the
    tree, which is not itself a reference, denotes [w], and what its references denote is
    plain data, then a query whose text is compiled to the path of the names [ks] gives
    the part of [w] to which they lead, completely, or fails if there is none; indices
    of lists are names of digits, and a null ends a path.  A tree that is a reference is
    not looked through ([query_of_reference]), and what a reference stands for is evaluated
    once more if it is not plain data ([query_evaluates_again]). *)
Theorem path_query_projects `{QueryLanguages} tree w q ks :
  lang e = LanguagePath → resultMapper e = IdentityResultMapper →
  (∀ selector, path_language selector q = Ok (selector (constant ∘ VString <$> ks))) →
  special tree = false → references_plain tree → denotes e tree w →
  match project ks w with
  | Some x => EvaluateQuery e tree q = Ok (complete_result x)
  | None => ∃ err, EvaluateQuery e tree q = Err err
  end.
Proof.
  intros Hl Hm Hq Hs Hr Hd. unfold EvaluateQuery, NewEvaluable. rewrite Hl, Hq, list_fmap_compose.
  cbn [mbind outcome_bind].
  destruct (selector_follows (VString <$> ks) no_unresolvable tree w Hs Hr Hd) as (r & -> & Hf).
  assert (Hp := follow_project ks w). destruct (project ks w) as [x|].
  - rewrite Hp in Hf. destruct r as [y| |]; try done. cbn [mbind outcome_bind].
    apply completes_denotes in Hf. unfold completes in Hf. rewrite Hf, Hm. done.
  - destruct Hp as [x Hp]. rewrite Hp in Hf. destruct r; try done. by eexists.
Qed.
End projection.

(** ** Queries of small trees

    A path language with names and dots; templates that are one expression, or the range
    of one path over its elements. *)
Definition names_of (q : string) : list string := split_on "."%char q.
Definition visited_path (visit : VisitChildFunc) (names : list string) : Evaluable := λ v u,
  (fix go names v u :=
     match names with
     | [] => (Ok v, u)
     | n :: names =>
         match visit v (VString n) u with
         | (Ok (Some (_, c)), u) => go names c u
         | (Ok None, u) | (Err (VisitError _), u) => (Ok VNil, u)
         | (Err (ForcePropagation x), u) => (Err x, u)
         | (Panic x, u) => (Panic x, u)
         end
     end) names v u.
#[local] Instance sample_text : ValueText := {|
  format_float _ := "0"; sprint v := match v with VString s => s | _ => "value" end |}.
#[local] Instance sample_languages : QueryLanguages := {|
  path_language selector q := Ok (selector (constant ∘ VString <$> names_of q));
  jsonpath_language _ visit q := Ok (visited_path visit (names_of q));
  template_language _ range_visit visit q :=
    Ok (TRange (visited_path range_visit (names_of q)) (TExpression (visited_path visit []))) |}.
#[local] Existing Instances forward_runtime sample_fmt.

Definition query_parameters : gmap string value :=
  {["who" := VString "world"; "list" := VSlice [VString "a"; VString "b"];
    "expr" := ref_secret "key"]}.
Definition query_evaluator (l : Language) : Evaluator :=
  WithLanguage l (sample_evaluator sample_secrets query_parameters).
Definition query_tree : value :=
  map2 "steps" (VSlice [VNil; VMap {["greeting" := fn_call "concat" [ref_parameter "who"; ref_secret "key"]]}])
       "items" (ref_parameter "list").

Definition query_value : value :=
  map2 "steps" (VSlice [VNil; VMap {["greeting" := VString "world!"]}])
       "items" (VSlice [VString "a"; VString "b"]).

Lemma path_query_projects_witness :
  EvaluateQuery (query_evaluator LanguagePath) query_tree "steps.1.greeting"
    = Ok (complete_result (VString "world!"))
  ∧ EvaluateQuery (query_evaluator LanguagePath) query_tree "items.1" = Ok (complete_result (VString "b"))
  ∧ ∃ err, EvaluateQuery (query_evaluator LanguagePath) query_tree "items.2" = Err err.
Proof.
  split_and!;
    [apply (path_query_projects (query_evaluator LanguagePath) query_tree query_value
              _ ["steps"; "1"; "greeting"])
    |apply (path_query_projects (query_evaluator LanguagePath) query_tree query_value _ ["items"; "1"])
    |apply (path_query_projects (query_evaluator LanguagePath) query_tree query_value _ ["items"; "2"])];
    try (intros; vm_compute; reflexivity);
    try (apply references_plain_check; vm_compute; reflexivity);
    apply completes_denotes; vm_compute; reflexivity.
Defined.

(** A tree that is itself a reference is not expanded before the path is followed. *)
Lemma query_of_reference :
  EvaluateQuery (query_evaluator LanguagePath) (ref_parameter "who") "name"
    = Ok (complete_result (VString "who"))
  ∧ EvaluateAll (query_evaluator LanguagePath) (ref_parameter "who")
    = Ok (complete_result (VString "world")).
Proof. split; vm_compute; reflexivity. Qed.

(** What a reference stands for is evaluated again: the value of a parameter that has the
    form of a secret is replaced by the secret. *)
Lemma query_evaluates_again :
  EvaluateAll (query_evaluator LanguagePath) (VMap {["x" := ref_parameter "expr"]})
    = Ok (complete_result (VMap {["x" := ref_secret "key"]}))
  ∧ EvaluateQuery (query_evaluator LanguagePath) (VMap {["x" := ref_parameter "expr"]}) "x"
    = Ok (complete_result (VString "!")).
Proof. split; vm_compute; reflexivity. Qed.

(** The range of a template does not expand references: a list that is the value of a
    parameter has no elements. *)
Lemma range_over_reference :
  EvaluateQuery (query_evaluator LanguageJSONPathTemplate) query_tree "items"
    = Ok (complete_result (VString ""))
  ∧ EvaluateQuery (query_evaluator LanguageJSONPathTemplate) query_value "items"
    = Ok (complete_result (VString "ab")).
Proof. split; vm_compute; reflexivity. Qed.
