(* ===== verification/EvaluateProperties.v ===== *)
(** * Properties of the evaluator *)
From S2P Require Import Prelude GoStd GoStrings Values Errors Transfer Unresolvable Fn.
From S2P Require Import Resolve Evaluate EvaluateTheory Denote Staging Determinism.
From S2P Require Import Failures Samples.

Definition map_value_of (v : value) : gmap string value := default ∅ (as_map v).

(** C1: [EvaluateAll] implements the specification of expressions.  With the default
    result mapper it returns a complete result with value [w] exactly when the tree
    denotes [w]: fuel, depth counters, traversal order and accumulation do not show. *)
Theorem evaluate_all_denotes `{GoRuntimeLaws} `{GoFmt} e v w :
  resultMapper e = IdentityResultMapper →
  (∃ r, EvaluateAll e v = Ok r ∧ Complete r = true ∧ Value r = w) ↔ denotes e v w.
Proof.
  intros Hm. rewrite <- completes_denotes. unfold completes, EvaluateAll, Evaluate.Evaluate.
  rewrite Hm. split.
  - intros (r & Hr & Hc & <-). unfold IdentityResultMapper in Hr. inv_ok. apply Complete_eq in Hc. by rewrite <- Hc.
  - intros Hr. exists (complete_result w). by rewrite Hr.
Qed.

Lemma evaluate_all_denotes_witness :
  denotes (sample_evaluator sample_secrets sample_parameters) sample_tree
    (VMap {["greeting" := VString "world!"]}).
Proof.
  apply (@evaluate_all_denotes forward_runtime _ sample_fmt); [reflexivity|].
  exists (complete_result (VMap {["greeting" := VString "world!"]})).
  split; [|split]; vm_compute; reflexivity.
Defined.

(** C15: Evaluations compose, if what the first one puts in the tree is data to the second.
    Let a first evaluator resolve part of a tree, and a later one resolve at least as much,
    to the same values ([later_stage]).  If every reference of the tree stands, for the
    first, for a value that the later one evaluates to itself ([stage_stable]), and merge
    is called on maps that the evaluation has to itself, then evaluating what the first
    left gives the complete result that evaluating the original tree gives.  A parameter
    whose value looks like a reference is not stable: it is data to the first evaluation
    and a reference to the second ([unstable_parameter]). *)
Theorem stages_compose R0 R1 `{!GoRuntimeLaws R0} `{!GoRuntimeLaws R1} `{GoFmt} e0 e1 v r0 w :
  later_stage e0 e1 → stage_stable e0 e1 v →
  owned_merges e0 v → owned_merges e1 v → owned_merges e1 (Value r0) →
  @evaluate R0 _ e0 v (-1) = Ok r0 →
  @evaluate R1 _ e1 (Value r0) (-1) = Ok (complete_result w) ↔
  @evaluate R1 _ e1 v (-1) = Ok (complete_result w).
Proof.
  intros Hls Hst _ _ _ Hr. destruct (stage_step e0 e1 Hls v r0 Hst Hr) as [Hd _].
  pose proof (completes_denotes e1 (Value r0) w) as H1.
  pose proof (completes_denotes e1 v w) as H2. unfold completes in *.
  by rewrite H1, H2.
Qed.

Definition early_evaluator : Evaluator := sample_evaluator ∅ sample_parameters.
Definition late_evaluator : Evaluator := sample_evaluator sample_secrets sample_parameters.

Lemma early_late : later_stage early_evaluator late_evaluator.
Proof. split; cbn; try done. Qed.

Lemma sample_call_plain e key args i w :
  invocationResolver e = sample_functions → (∀ i, invoke e i = i tt) →
  call e key args = Ok i → invoke e i = Ok w → plain w = true.
Proof.
  intros Hf Hinv Hc Hw. rewrite Hinv in Hw. unfold call, resolve_invoker in Hc. rewrite Hf in Hc.
  assert (Hp : ∀ n l, ResolveInvocationPositional sample_functions n l = Ok i → plain w = true).
  { intros n l. unfold sample_functions, MemoryInvocationResolver, Descriptor. cbn.
    destruct ({["concat" := concatDescriptor]} !! n) as [df|] eqn:E; [|done].
    apply lookup_singleton_Some in E as [_ <-]. cbn.
    case_decide; intros [= <-]; unfold wrap_invoker in Hw; cbn in Hw; inv_ok; done. }
  assert (Hk : ∀ n m, ResolveInvocation sample_functions n m ≠ Ok i).
  { intros n m. unfold sample_functions, MemoryInvocationResolver, Descriptor. cbn.
    destruct ({["concat" := concatDescriptor]} !! n) as [df|] eqn:E; [|done].
    by apply lookup_singleton_Some in E as [_ <-]. }
  destruct args; try by eapply Hp. by apply Hk in Hc.
Qed.

Lemma early_plain : plain_results early_evaluator.
Proof.
  split.
  - intros v H. unfold resolves_to in H. cbn in H.
    destruct H as [[? H]|[(? & ? & H & _)|[(? & ? & H)|[(? & ? & H)|[(n & H)|(? & ? & H)]]]]];
      try discriminate H.
    unfold MemoryParameterTypeResolver, sample_parameters in H.
    destruct ({["who" := VString "world"]} !! n) eqn:E; [|discriminate H].
    apply lookup_singleton_Some in E as [_ <-]. by injection H as <-.
  - intros key args i w. by apply sample_call_plain.
Qed.

Lemma stages_compose_witness :
  ∃ r0, @evaluate forward_runtime sample_fmt early_evaluator sample_tree (-1) = Ok r0
        ∧ Complete r0 = false
        ∧ @evaluate backward_runtime sample_fmt late_evaluator (Value r0) (-1)
          = Ok (complete_result (VMap {["greeting" := VString "world!"]})).
Proof.
  eexists. split; [vm_compute; reflexivity|]. split; [vm_compute; reflexivity|].
  apply (stages_compose forward_runtime backward_runtime early_evaluator late_evaluator sample_tree).
  - apply early_late.
  - apply stage_stable_plain, early_plain.
  - apply merges_plain_owned. reflexivity.
  - apply merges_plain_owned. reflexivity.
  - apply merges_plain_owned. vm_compute. reflexivity.
  - vm_compute; reflexivity.
  - vm_compute; reflexivity.
Defined.

(** What fails without [stage_stable]: a parameter that looks like a reference to a secret is
    data to one evaluation, and the secret in two. *)
Definition secret_parameter : gmap string value := {["p" := ref_secret "key"]}.
Lemma unstable_parameter :
  let tree := VMap {["$type" := VString "Parameter"; "name" := VString "p"]} in
  let early := sample_evaluator ∅ secret_parameter in
  let late := sample_evaluator sample_secrets secret_parameter in
  ∃ w, @evaluate forward_runtime sample_fmt early tree (-1) = Ok (complete_result (ref_secret "key"))
    ∧ @evaluate forward_runtime sample_fmt late tree (-1) = Ok (complete_result (ref_secret "key"))
    ∧ @evaluate forward_runtime sample_fmt late (ref_secret "key") (-1) = Ok (complete_result (VString w)).
Proof. eexists. split_and!; vm_compute; reflexivity. Qed.

(** C17: The result of an evaluation does not depend on the order in which maps and
    hash sets are visited, if merge is called only on maps that the evaluation has to
    itself ([owned_merges]: what its arguments take from resolvers has no maps).  Between
    any two lawful runtimes a successful evaluation has the same value and the same
    unresolvable references; secrets, connections, outputs and parameters are even listed
    in the same order.  Functions are functions of values here; the condition says where
    the library's are, as merge writes into the maps of its arguments, and other parts of
    the tree could show when it does ([Merge.merge_changes_argument]). *)
Theorem evaluate_deterministic R1 R2 `{!GoRuntimeLaws R1} `{!GoRuntimeLaws R2} `{GoFmt} e v d r1 :
  owned_merges e v →
  @evaluate R1 _ e v d = Ok r1 →
  ∃ r2, @evaluate R2 _ e v d = Ok r2 ∧ Value r2 = Value r1
        ∧ Unresolvables r1 ≡ Unresolvables r2
        ∧ same_lists (Unresolvables r1) (Unresolvables r2).
Proof.
  intros _ Hr. destruct (evaluate_simulates R1 R2 e v d r1 Hr) as (r2 & Hr2 & Hv & Hu).
  exists r2. split_and!; try done. apply equiv_same_lists; [| |done].
  - exact (@evaluate_ordered R1 _ _ e v d r1 Hr).
  - exact (@evaluate_ordered R2 _ _ e v d r2 Hr2).
Qed.

Definition two_secrets : value :=
  map2 "a" (VSlice [ref_secret "x"; ref_secret "y"]) "b" (VSlice [ref_secret "z"; ref_secret "x"]).

Definition two_secrets_result : Result :=
  MkResult two_secrets
    (MkUnresolvable [] [MkSecret "x"; MkSecret "y"; MkSecret "z"] [] [] [] [] []).

Lemma evaluate_deterministic_witness :
  ∃ r2, @evaluate backward_runtime sample_fmt early_evaluator two_secrets (-1) = Ok r2
    ∧ Value r2 = two_secrets
    ∧ Unresolvables two_secrets_result ≡ Unresolvables r2
    ∧ same_lists (Unresolvables two_secrets_result) (Unresolvables r2).
Proof.
  apply (evaluate_deterministic forward_runtime backward_runtime early_evaluator two_secrets (-1)
    two_secrets_result).
  - apply merges_plain_owned. vm_compute. reflexivity.
  - vm_compute. reflexivity.
Defined.

(** C19: An evaluation with the default function library never panics: no nil
    dereference, failed type assertion or runaway recursion, whatever the tree and
    the depth, provided the six resolvers do not panic and merge is called only on maps
    that the evaluation has to itself ([owned_merges]).  What it returns has one of
    the supported types.  Without the latter condition merge can make a parameter contain
    itself, and a later merge of it then does not end ([Merge.merge_of_itself]). *)
Theorem evaluate_no_panic_default `{GoRuntimeLaws} `{GoFmt} `{JSONText} `{Markdown} e v d :
  invocationResolver e = NewDefaultMemoryInvocationResolver →
  (∀ i, invoke e i = i tt) →
  owned_merges e v →
  (∀ q, no_panic (dataTypeResolver e q)) →
  (∀ n, no_panic (secretTypeResolver e n)) →
  (∀ t n, no_panic (connectionTypeResolver e t n)) →
  (∀ f n, no_panic (outputTypeResolver e f n)) →
  (∀ n, no_panic (parameterTypeResolver e n)) →
  (∀ a n, no_panic (answerTypeResolver e a n)) →
  no_panic (evaluate e v d) ∧ ∀ r, evaluate e v d = Ok r → supported (Value r) = true.
Proof.
  intros Hf Hi _. intros. split.
  - apply evaluate_no_panic. split; try done.
    + intros name args w Hw. pose proof (default_resolve_calm e name args Hf) as Hc.
      by rewrite Hw in Hc.
    + intros name args i Hw. pose proof (default_resolve_calm e name args Hf) as Hc.
      rewrite Hw in Hc. rewrite Hi. apply Hc.
  - intros r Hr. rewrite evaluate_unfold in Hr. inv_ok. unfold check_supported in Hr.
    destruct (supported (Value a)) eqn:E; [|done]. by injection Hr as <-.
Qed.

(** A tree that merges two objects. *)
Definition merging_tree : value :=
  VMap {["$fn.merge" := VSlice [map2 "a" (VInt 1) "b" (VInt 2); VMap {["b" := VInt 3]}]]}.

Lemma evaluate_no_panic_default_witness :
  (no_panic (@evaluate forward_runtime sample_fmt
    (@NewEvaluator tree_json sample_markdown []) merging_tree (-1))
  ∧ ∀ r, @evaluate forward_runtime sample_fmt
      (@NewEvaluator tree_json sample_markdown []) merging_tree (-1) = Ok r →
      supported (Value r) = true)
  ∧ @evaluate forward_runtime sample_fmt (@NewEvaluator tree_json sample_markdown []) merging_tree (-1)
    = Ok (complete_result (map2 "a" (VInt 1) "b" (VInt 3))).
Proof.
  split; [|vm_compute; reflexivity].
  apply (@evaluate_no_panic_default forward_runtime _ sample_fmt tree_json sample_markdown);
    intros; try reflexivity; [|intros ?; discriminate..].
  apply merges_plain_owned. vm_compute. reflexivity.
Defined.

(** Plain data, i.e. values of supported types in which no map has the keys of a
    reference, evaluates to itself at every depth. *)
Theorem plain_data_unchanged `{GoRuntimeLaws} `{GoFmt} e v d :
  plain v = true → evaluate e v d = Ok (complete_result v).
Proof. apply evaluate_plain. Qed.

Lemma plain_data_unchanged_witness :
  @evaluate forward_runtime sample_fmt early_evaluator
    (VSlice [VInt 1; map2 "type" (VString "Secret") "name" (VString "x")]) 2
  = Ok (complete_result (VSlice [VInt 1; map2 "type" (VString "Secret") "name" (VString "x")])).
Proof. apply (@plain_data_unchanged forward_runtime _). vm_compute. reflexivity. Defined.

(** At depth 1 only the node itself is evaluated: a list, or a map that is not a
    reference, comes back as it is, references inside it included.  (A map with one
    entry is still rebuilt, which checks the type of that entry.) *)
Theorem depth_one_shallow `{GoRuntimeLaws} `{GoFmt} e v :
  match v with
  | VSlice _ => True
  | VMap m => map_shape m = ShPlain ∧ (size m = 1 → map_Forall (λ _ v, supported v = true) m)
  | _ => False
  end →
  evaluate e v 1 = Ok (complete_result v).
Proof.
  intros Hv. destruct v as [| | | | | | | | |l|m| | |]; try done.
  destruct Hv as [Hs Hm]. by apply evaluate_depth_one.
Qed.

Lemma depth_one_shallow_witness :
  @evaluate forward_runtime sample_fmt late_evaluator (VSlice [ref_secret "key"]) 1
  = Ok (complete_result (VSlice [ref_secret "key"])).
Proof. apply (@depth_one_shallow forward_runtime _). exact I. Defined.

(** C20: The error of a failed evaluation names the node that failed: some node [x],
    reached through lists and plain maps along [path], fails on its own with [err'],
    and the error returned is [err'] wrapped once per step, which [trace] undoes. *)
Theorem evaluate_error_located `{GoRuntimeLaws} `{GoFmt} e v err :
  evaluate e v (-1) = Err err →
  ∃ path x err', at_node v path x ∧ is_site x = true ∧ evaluate e x (-1) = Err err'
    ∧ err = at_path path err'
    ∧ (path ≠ [] → is_path_error err' = false → trace err = Some (path, err')).
Proof.
  intros (path & x & err' & Hat & Hs & Hx & ->)%evaluate_Err_located.
  exists path, x, err'. split_and!; try done. intros Hp He. destruct path; [done|].
  by apply trace_at_path.
Qed.

Definition bad_tree : value := VMap {["steps" := VSlice [VNil; VMap {["$type" := VString "Secret"]}]]}.

Lemma evaluate_error_located_witness :
  ∃ path x err', at_node bad_tree path x ∧ is_site x = true
    ∧ @evaluate forward_runtime sample_fmt late_evaluator x (-1) = Err err'
    ∧ at_path ["steps"; "1"] (EEvaluate (InvalidTypeError "Secret" (EEvaluate (FieldNotFoundError "name"))))
      = at_path path err'
    ∧ (path ≠ [] → is_path_error err' = false →
       trace (at_path ["steps"; "1"]
         (EEvaluate (InvalidTypeError "Secret" (EEvaluate (FieldNotFoundError "name")))))
       = Some (path, err')).
Proof.
  apply (@evaluate_error_located forward_runtime _). vm_compute. reflexivity.
Defined.
