(* ===== verification/FnProperties.v ===== *)
(** * Properties of the result mappers, the function library and the Jira renderer *)
From S2P Require Import Prelude GoStd GoStrings Values Errors Transfer Unresolvable Fn.
From S2P Require Import Resolve Evaluate ResultMapper Samples.

(** The UTF-8 mapper replaces every string and byte slice of a value, at any depth,
    by its transfer form, so that mapping a second time changes nothing; the
    unresolvable references are kept. *)
Theorem utf8_mapper_idempotent r :
  ∃ r', UTF8SafeResultMapper r = Ok r' ∧ utf8_safe (Value r') = true
        ∧ Unresolvables r' = Unresolvables r
        ∧ ChainResultMappers [UTF8SafeResultMapper; UTF8SafeResultMapper] r = Ok r'.
Proof.
  eexists. split_and!; [done|apply utf8_do_safe|done|].
  cbn. by rewrite (utf8_do_fixed (utf8_do _)) by apply utf8_do_safe.
Qed.

(** The JSON result mapper loses nothing on the values JSON can carry: it returns
    text that parses to a tree from which [transfer.JSONInterface] reads the value
    back, strings that are not valid UTF-8 included. *)
Theorem json_mapper_roundtrip `{JSONTextLaws} opts r :
  json_faithful (Value r) = true →
  ∃ text j, JSONResultMapper_MapResult (NewJSONResultMapper opts) r
              = Ok (MkResult (VBytes text) (Unresolvables r))
            ∧ json_parse text = Some j ∧ ji_unmarshal j = Ok (Value r).
Proof.
  intros Hf. destruct (ji_roundtrip _ Hf) as (j & Hj & Hu & Hr).
  exists (json_print j), j. split_and!; [|by apply json_parse_print|done].
  cbn. rewrite json_marshal_utf8_do, Hj by done. done.
Qed.

Definition not_utf8 : string := String "255" "".
Definition sample_value : value := VSlice [VString "text"; VString not_utf8; VBool true; VNil].

Lemma json_mapper_roundtrip_witness :
  ∃ text j, @JSONResultMapper_MapResult tree_json (NewJSONResultMapper []) (complete_result sample_value)
              = Ok (MkResult (VBytes text) no_unresolvable)
            ∧ @json_parse tree_json text = Some j ∧ @ji_unmarshal tree_json j = Ok sample_value.
Proof.
  apply (@json_mapper_roundtrip tree_json _ [] (complete_result sample_value)). vm_compute. reflexivity.
Defined.

(** The envelope of a result is marked complete exactly when its list of
    unresolvable references is the empty object and no data query is unresolved
    (data queries have no field of their own in the envelope). *)
Theorem envelope_complete r :
  env_complete (NewJSONResultEnvelope r) = true ↔
  env_unresolvable (NewJSONResultEnvelope r) = JObject ∅ ∧ Data (Unresolvables r) = [].
Proof.
  cbn. rewrite Complete_iff. split; [by intros ->|].
  destruct r as [v [d s c o p a i]]. cbn [Unresolvables Data env_unresolvable NewJSONResultEnvelope].
  unfold NewJSONUnresolvableEnvelope, json_object.
  intros [Hj ->]. injection Hj as Hm.
  assert (Hl : ∀ l, list_to_map l = (∅ : gmap string json) → l = []).
  { intros [|[k x] l]; [done|]. cbn. intros He. by apply insert_non_empty in He. }
  apply Hl in Hm. repeat (apply app_eq_nil in Hm as [? Hm]).
  destruct s, c, o, p, a, i; done.
Qed.

(** * Properties of the function library and of resolver chains *)
(** Calling a function of a map by name with positional or keyword arguments. *)
Definition run_positional (fm : funcMap) (name : string) (args : list value) : result value :=
  f ← Descriptor fm name; i ← PositionalInvoker f args; i tt.
Definition run_keyword (fm : funcMap) (name : string) (args : gmap string value) : result value :=
  f ← Descriptor fm name; i ← KeywordInvoker f args; i tt.

Section library.
Context `{JSONText} `{Markdown}.

Lemma library_lookup name df :
  (name, df) ∈ [("append", appendDescriptor); ("concat", concatDescriptor);
    ("convertMarkdown", convertMarkdownDescriptor); ("equals", equalsDescriptor);
    ("jsonUnmarshal", jsonUnmarshalDescriptor); ("merge", mergedDescriptor);
    ("notEquals", notEqualsDescriptor)] →
  library !! name = Some df.
Proof.
  intros Hin. apply elem_of_list_to_map; [|done].
  refine (bool_decide_eq_true_1 (NoDup _) _). vm_compute. reflexivity.
Qed.

Ltac library_elem := repeat (first [apply list_elem_of_here | apply list_elem_of_further]).

Lemma Descriptor_merge : Descriptor library "merge" = Ok mergedDescriptor.
Proof. unfold Descriptor. rewrite (library_lookup _ mergedDescriptor); [done|library_elem]. Qed.
Lemma Descriptor_concat : Descriptor library "concat" = Ok concatDescriptor.
Proof. unfold Descriptor. rewrite (library_lookup _ concatDescriptor); [done|library_elem]. Qed.
Lemma Descriptor_append : Descriptor library "append" = Ok appendDescriptor.
Proof. unfold Descriptor. rewrite (library_lookup _ appendDescriptor); [done|library_elem]. Qed.
Lemma Descriptor_equals : Descriptor library "equals" = Ok equalsDescriptor.
Proof. unfold Descriptor. rewrite (library_lookup _ equalsDescriptor); [done|library_elem]. Qed.
Lemma Descriptor_notEquals : Descriptor library "notEquals" = Ok notEqualsDescriptor.
Proof. unfold Descriptor. rewrite (library_lookup _ notEqualsDescriptor); [done|library_elem]. Qed.
End library.

(** ** merge along paths *)
Fixpoint path_lookup (v : value) (path : list string) : option value :=
  match path with
  | [] => Some v
  | k :: path' =>
      match v with
      | VMap m => m !! k ≫= λ w, path_lookup w path'
      | _ => None
      end
  end.

Lemma path_lookup_leaf_source src dst path v :
  path_lookup (VMap src) path = Some v → as_map v = None →
  path_lookup (VMap (merged dst src true)) path = Some v.
Proof.
  revert src dst. induction path as [|k path IH]; intros src dst Hp Hv; cbn in *.
  { injection Hp as <-. done. }
  rewrite lookup_merged. destruct (src !! k) as [w|] eqn:Hk; [|done]. cbn in *.
  destruct w as [| | | | | | | | | |sm| | |]; try done.
  destruct (dst !! k) as [[| | | | | | | | | |dm| | |]|]; try done.
  rewrite merged_value_map. by apply IH.
Qed.

(** The maps that [src] and [dst] have in common along [path]. *)
Fixpoint common_maps (dst src : gmap string value) (path : list string) : Prop :=
  match path with
  | [] => True
  | k :: path' => ∃ dm sm, dst !! k = Some (VMap dm) ∧ src !! k = Some (VMap sm)
                           ∧ common_maps dm sm path'
  end.

Lemma path_lookup_kept dst src path k :
  common_maps dst src path → path_lookup (VMap src) (path ++ [k]) = None →
  path_lookup (VMap (merged dst src true)) (path ++ [k]) = path_lookup (VMap dst) (path ++ [k]).
Proof.
  revert dst src. induction path as [|i path IH]; intros dst src Hc Hn; cbn in *.
  - rewrite lookup_merged. destruct (src !! k); [done|]. done.
  - destruct Hc as (dm & sm & Hd & Hs & Hc). rewrite lookup_merged, Hs, Hd in *. cbn [mbind option_bind].
    rewrite merged_value_map. cbn. by apply IH.
Qed.

(** [merge] with positional arguments merges objects deeply, later objects first:
    a value of the second object that is not a map is found at its path in the
    result, and a path of the first object survives where the objects agree on being
    maps and the second has no entry. *)
Theorem merge_two_objects `{JSONText} `{Markdown} dst src :
  ∃ m, run_positional library "merge" [VMap dst; VMap src] = Ok (VMap m)
    ∧ (∀ path v, path_lookup (VMap src) path = Some v → as_map v = None →
                 path_lookup (VMap m) path = Some v)
    ∧ (∀ path k, common_maps dst src path → path_lookup (VMap src) (path ++ [k]) = None →
                 path_lookup (VMap m) (path ++ [k]) = path_lookup (VMap dst) (path ++ [k])).
Proof.
  exists (merged dst src true). split_and!.
  - unfold run_positional. rewrite Descriptor_merge. cbn. rewrite decide_False by done.
    unfold merged_all. cbn. by rewrite merged_empty_l.
  - intros. by apply path_lookup_leaf_source.
  - intros. by apply path_lookup_kept.
Qed.

(** Merging any number of objects succeeds, and an entry of the result is the
    objects' entries under that key merged from left to right; in shallow mode it is
    the last one.  An argument that is not an object is reported by its index. *)
Theorem merge_entries `{JSONText} `{Markdown} objs :
  run_positional library "merge" (VMap <$> objs) = Ok (VMap (merged_all true objs))
  ∧ run_keyword library "merge"
      (<["mode" := VString "shallow"]> {["objects" := VSlice (VMap <$> objs)]})
    = Ok (VMap (merged_all false objs))
  ∧ (∀ deep k, merged_all deep objs !! k =
       foldl (λ o obj, match obj !! k with
                       | Some v => Some (merged_value deep o v) | None => o end) None objs)
  ∧ (∀ v rest, as_map v = None →
       run_positional library "merge" ((VMap <$> objs) ++ v :: rest)
       = Err (positional 1 (EMergeIndex (length objs) (unexpected TMap v)))).
Proof.
  split_and!.
  - unfold run_positional. rewrite Descriptor_merge. cbn. case_decide as Hl.
    { rewrite length_fmap in Hl. by destruct objs. }
    unfold mergedCast. by rewrite (proj2 (mergedCast_from_Ok 0 _ objs)).
  - unfold run_keyword. rewrite Descriptor_merge. cbn.
    rewrite lookup_insert_ne, lookup_singleton_eq, lookup_insert_eq by done. cbn.
    unfold mergedCast. by rewrite (proj2 (mergedCast_from_Ok 0 _ objs)).
  - intros. apply lookup_merged_all.
  - intros v rest Hv. unfold run_positional. rewrite Descriptor_merge. cbn.
    case_decide as Hl; [rewrite length_app in Hl; cbn in Hl; lia|]. unfold mergedCast.
    assert (Hi : ∀ i, mergedCast_from i ((VMap <$> objs) ++ v :: rest)
              = Err (EMergeIndex (i + length objs) (unexpected TMap v))).
    { clear Hl. induction objs as [|o objs IH]; intros i; cbn.
      - by rewrite Hv, Nat.add_0_r.
      - rewrite IH. cbn. by rewrite Nat.add_succ_r. }
    cbn. by rewrite Hi.
Qed.

(** The string and comparison functions: [concat] joins strings and reports the
    first argument that is not one, counting from 1; [append] puts the items after
    the base list; [equals] and [notEquals] decide equality of values without floats. *)
Theorem library_functions `{JSONText} `{Markdown} :
  (∀ strs, run_positional library "concat" (VString <$> strs)
           = Ok (VString (foldr (λ s t, s +:+ t) "" strs)))
  ∧ (∀ strs v rest, as_string v = None →
       run_positional library "concat" ((VString <$> strs) ++ v :: rest)
       = Err (positional (S (length strs)) (unexpected TString v)))
  ∧ (∀ l x items, run_positional library "append" (VSlice l :: x :: items)
                  = Ok (VSlice (l ++ x :: items)))
  ∧ (∀ a b, float_free a = true →
       ∃ c, run_positional library "equals" [a; b] = Ok (VBool c)
            ∧ run_positional library "notEquals" [a; b] = Ok (VBool (negb c))
            ∧ (c = true ↔ a = b)).
Proof.
  split_and!.
  - intros strs. unfold run_positional. rewrite Descriptor_concat. cbn. case_decide as Hl.
    { rewrite length_fmap in Hl. by destruct strs. }
    cbn. rewrite (proj2 (concat_strings_Ok 0 _ strs)) by done. cbn. by rewrite join_empty.
  - intros strs v rest Hv. unfold run_positional. rewrite Descriptor_concat. cbn.
    case_decide as Hl; [rewrite length_app in Hl; cbn in Hl; lia|]. cbn. clear Hl.
    assert (Hi : ∀ i, concat_strings i ((VString <$> strs) ++ v :: rest)
              = Err (positional (i + length strs + 1) (unexpected TString v))).
    { induction strs as [|s strs IH]; intros i; cbn.
      - destruct v; try done; by rewrite Nat.add_0_r.
      - rewrite IH. cbn. do 2 f_equal. lia. }
    rewrite Hi. cbn. do 2 f_equal. lia.
  - intros l x items. unfold run_positional. rewrite Descriptor_append. cbn.
    case_decide; [lia|]. done.
  - intros a b Ha. exists (deep_equal a b). unfold run_positional.
    rewrite Descriptor_equals, Descriptor_notEquals. split_and!; [done|done|].
    by apply deep_equal_spec.
Qed.

(** A chain of resolvers answers with the first resolver that knows the reference:
    it returns [v] exactly when some resolver does and all before it report not-found. *)
Theorem chain_first_found resolvers from name v :
  ChainOutputTypeResolvers resolvers from name = Ok v ↔
  ∃ before r after, resolvers = before ++ r :: after ∧ r from name = Ok v
    ∧ Forall (λ r : OutputTypeResolver,
         ∃ f n, r from name = Err (EResolve (OutputNotFoundError f n))) before.
Proof.
  unfold ChainOutputTypeResolvers.
  assert (Hmiss : ∀ before : list OutputTypeResolver,
    forallb (misses is_output_not_found) ((λ r, r from name) <$> before) = true ↔
    Forall (λ r : OutputTypeResolver,
      ∃ f n, r from name = Err (EResolve (OutputNotFoundError f n))) before).
  { intros before. rewrite forallb_Forall, Forall_fmap. apply Forall_iff. intros r. cbn.
    destruct (r from name) as [|[[]| | | | | | | | | | |]|]; cbn; naive_solver. }
  split.
  - destruct (chain_resolve_cases is_output_not_found
      (EResolve (OutputNotFoundError from name)) ((λ r, r from name) <$> resolvers))
      as [(l1 & r & l2 & Hl & H1 & H2 & ->)|[_ ->]]; [|done].
    intros ->. apply fmap_app_inv in Hl as (before & l & -> & Hl & ->).
    symmetry in Hl. apply fmap_cons_inv in Hl as (r & after & Hr & -> & ->).
    exists before, r, after. split_and!; [done|done|]. by apply Hmiss.
  - intros (before & r & after & -> & Hr & Hb). rewrite fmap_app, fmap_cons.
    rewrite chain_resolve_skip; [done|by apply Hmiss|by rewrite Hr].
Qed.

Lemma chain_first_found_witness :
  ChainOutputTypeResolvers
    [NoOpOutputTypeResolver; MemoryOutputTypeResolver {[("step", "out") := VInt 7]}] "step" "out"
  = Ok (VInt 7).
Proof.
  apply chain_first_found. exists [NoOpOutputTypeResolver].
  eexists _, []. split_and!; [reflexivity|vm_compute; reflexivity|].
  constructor; [|constructor]. eexists _, _. reflexivity.
Defined.

(** Chains of chains are flat, for the six kinds of reference: grouping resolvers
    does not change what is found, nor the error when nothing is. *)
Theorem chains_flatten :
  (∀ l1 l2 l3 q, ChainDataTypeResolvers (l1 ++ ChainDataTypeResolvers l2 :: l3) q
                 = ChainDataTypeResolvers (l1 ++ l2 ++ l3) q)
  ∧ (∀ l1 l2 l3 n, ChainSecretTypeResolvers (l1 ++ ChainSecretTypeResolvers l2 :: l3) n
                   = ChainSecretTypeResolvers (l1 ++ l2 ++ l3) n)
  ∧ (∀ l1 l2 l3 t n,
       ChainConnectionTypeResolvers (l1 ++ ChainConnectionTypeResolvers l2 :: l3) t n
       = ChainConnectionTypeResolvers (l1 ++ l2 ++ l3) t n)
  ∧ (∀ l1 l2 l3 f n, ChainOutputTypeResolvers (l1 ++ ChainOutputTypeResolvers l2 :: l3) f n
                     = ChainOutputTypeResolvers (l1 ++ l2 ++ l3) f n)
  ∧ (∀ l1 l2 l3 n, ChainParameterTypeResolvers (l1 ++ ChainParameterTypeResolvers l2 :: l3) n
                   = ChainParameterTypeResolvers (l1 ++ l2 ++ l3) n)
  ∧ (∀ l1 l2 l3 a n, ChainAnswerTypeResolvers (l1 ++ ChainAnswerTypeResolvers l2 :: l3) a n
                     = ChainAnswerTypeResolvers (l1 ++ l2 ++ l3) a n).
Proof.
  split_and!; intros;
    unfold ChainDataTypeResolvers, ChainSecretTypeResolvers, ChainConnectionTypeResolvers,
      ChainOutputTypeResolvers, ChainParameterTypeResolvers, ChainAnswerTypeResolvers;
    rewrite !fmap_app, fmap_cons; by apply chain_resolve_flatten.
Qed.

(** ** The Jira renderer *)

(** The document of the test of the renderer, as it is parsed. *)
Example jira_document_tested :
  walk Elsewhere (ast.OtherContainer [ast.OtherContainer
    [ast.Text "%%% @contact "; ast.Link "imageRedirect" [ast.Image "imageUrl" [ast.Text "imageTitle"]];
     ast.Text " "; ast.Code "data{context} > threshold";
     ast.Text " Detailed description. - - - ["; ast.Link "link1" [ast.Text "linkTitle1"];
     ast.Text "] · ["; ast.Link "link2" [ast.Text "linkTitle2"]; ast.Text "] %%%"]])
  = "@contact " +:+ String "010" (String "010" "") +:+ "[!imageUrl!|imageRedirect] "
    +:+ "{code}data{context} > threshold{code} Detailed description." +:+ String "010" "----"
    +:+ String "010" "[[linkTitle1|link1]] · [[linkTitle2|link2]]".
Proof. by vm_compute. Qed.

Lemma after_dash_none s : string_elem "-" s = false → after_dash s = None.
Proof. destruct s as [|c s]; [done|]. cbn. by intros [-> _]%orb_false_elim. Qed.

Lemma skip_spaces_elem c s : string_elem c s = false → string_elem c (skip_spaces s) = false.
Proof.
  induction s as [|a s IH]; [done|]. cbn -[regexp_space]. intros H. destruct (regexp_space a); [|done].
  apply IH. by apply orb_false_elim in H as [_ ?].
Qed.

Lemma after_rule_none s : string_elem "-" s = false → after_rule s = None.
Proof. intros Hs. unfold after_rule. by rewrite after_dash_none. Qed.

Lemma no_match b s : string_elem "-" s = false → after_match b s = None.
Proof.
  intros Hs. unfold after_match. rewrite !(after_rule_none s Hs).
  replace (if b then @None string else None) with (@None string) by by destruct b.
  destruct s as [|c s]; [done|]. destruct (regexp_space c); [|done].
  by apply after_rule_none, skip_spaces_elem.
Qed.

Lemma replace_rules_id n b s : string_elem "-" s = false → replace_rules n b s = s.
Proof.
  revert b s. induction n as [|n IH]; intros b s Hs; cbn [replace_rules]; [done|].
  rewrite no_match by done. destruct s as [|c s]; [done|]. rewrite IH; [done|].
  by apply orb_false_elim in Hs as [_ ?].
Qed.

(** Text without dashes and percent signs is written as it is. *)
Lemma jira_plain_text s :
  string_elem "-" s = false → string_elem "%" s = false → render_text Elsewhere s = s.
Proof.
  intros Hd Hp. unfold render_text. rewrite replace_rules_id by done.
  unfold trim_prefix. destruct (has_prefix "%%% " s) eqn:E.
  { apply has_prefix_spec in E as [r ->]. by vm_compute in Hp. }
  assert (∀ t, string_elem "%" t = false → trim_suffix t " %%%" = t) as Ht; [|by apply Ht].
  clear. induction t as [|c t IH]; [done|]. intros Ht. cbn [trim_suffix].
  destruct (String.eqb_spec (String c t) " %%%") as [E|]; [by rewrite E in Ht|].
  f_equal. apply IH. by apply orb_false_elim in Ht as [_ ?].
Qed.

(** A link around plain text has the form of Jira. *)
Lemma jira_link destination t :
  t ≠ "" → walk Elsewhere (ast.Link destination [ast.Text t]) = "[" +:+ t +:+ "|" +:+ destination +:+ "]".
Proof.
  intros Ht. cbn. rewrite (proj2 (String.eqb_neq t "")) by done.
  by rewrite !app_string_nil_r.
Qed.

(** A link whose text is formatted has no opening bracket; one that is formatted in part
    has one for each plain part, and a fenced block of code is not written at all. *)
Lemma jira_formatted_link destination t u :
  string_elem "-" t = false → string_elem "%" t = false → u ≠ "" →
  walk Elsewhere (ast.Link destination [ast.OtherContainer [ast.Text t]])
    = t +:+ "|" +:+ destination +:+ "]"
  ∧ walk Elsewhere (ast.Link destination [ast.Text u; ast.OtherContainer [ast.Text t]; ast.Text u])
    = "[" +:+ u +:+ t +:+ "[" +:+ u +:+ "|" +:+ destination +:+ "]".
Proof.
  intros Hd Hp Hu. assert (Ht := jira_plain_text t Hd Hp).
  assert (Hb : render_text InLink u = "[" +:+ u).
  { cbn [render_text]. by rewrite (proj2 (String.eqb_neq u "")). }
  split; cbn [walk RenderNode foldr]; rewrite ?Hb, Ht, !string_app_nil, !app_string_nil_r; [done|].
  by rewrite !app_string_assoc.
Qed.
