(* ===== verification/ApiTypes.v ===== *)
(** * The types of the API and their copies (pkg/apis)

    The controllers read objects from a cache that others read as well, and change copies
    of them.  The values of Go's types are modelled with the memory their pointers, slices
    and maps refer to, so that a copy can be told from one that shares it.  The functions
    are those that controller-gen generated, with those of the libraries they call. *)
From S2P Require Import Prelude GoStd Values Errors.

(** ** Memory

    A basic value has no references; a time counts as one, as it is never changed in place,
    and so does the number of a quantity.  A slice refers to the whole of its array. *)
Inductive basic : Type :=
| BString (s : string)
| BBool (b : bool)
| BInt64 (n : Z)
| BFloat64 (f : spec_float)
| BNumber (s : string)
| BOther (type text : string).
Inductive kind := KPointer | KSlice | KMap.
#[export] Instance kind_eq_dec : EqDecision kind. Proof. solve_decision. Defined.
Notation loc := positive.

(** An interface that is nil is [GNil]; a reference that is nil has a type. *)
Inductive gval : Type :=
| GNil
| GBasic (b : basic)
| GRef (k : kind) (l : option loc)
| GStruct (fields : list (string * gval)).
Inductive cell : Type :=
| CPointer (x : gval)
| CSlice (xs : list gval)
| CMap (m : gmap string gval).
Definition heap : Type := gmap loc cell.
Definition pointer (l : loc) : gval := GRef KPointer (Some l).

Definition new (c : cell) : io heap loc := λ h, let l := fresh (dom h) in (Ok l, <[l := c]> h).
Definition load (l : loc) : io heap cell := λ h,
  match h !! l with Some c => (Ok c, h) | None => (Panic "invalid memory address", h) end.

(** ** Copying

    What the type system of the language excludes is a panic of its own. *)
Definition copier : Type := gval → io heap gval.
Definition ill_typed {A} : io heap A := lift (Panic "ill-typed").

(** [*out = *in] *)
Definition keep : copier := mret.

(** [*out = new(T)], [make([]T, len( *in))], [make(map[string]T, len( *in))] and their
    elements, unless they are nil. *)
Definition pointer_copy (cp : copier) : copier := λ v,
  match v with
  | GRef KPointer None => mret v
  | GRef KPointer (Some l) =>
      c ← load l;
      match c with
      | CPointer x => x ← cp x; l ← new (CPointer x); mret (pointer l)
      | _ => ill_typed
      end
  | _ => ill_typed
  end.
Definition slice_copy (cp : copier) : copier := λ v,
  match v with
  | GRef KSlice None => mret v
  | GRef KSlice (Some l) =>
      c ← load l;
      match c with
      | CSlice xs => xs ← mapM cp xs; l ← new (CSlice xs); mret (GRef KSlice (Some l))
      | _ => ill_typed
      end
  | _ => ill_typed
  end.
Definition copy_entry (cp : string → copier) (e : string * gval) : io heap (string * gval) :=
  x ← cp e.1 e.2; mret (e.1, x).
Definition map_copy (cp : copier) : copier := λ v,
  match v with
  | GRef KMap None => mret v
  | GRef KMap (Some l) =>
      c ← load l;
      match c with
      | CMap m =>
          es ← mapM (copy_entry (λ _, cp)) (map_to_list m);
          l ← new (CMap (list_to_map es)); mret (GRef KMap (Some l))
      | _ => ill_typed
      end
  | _ => ill_typed
  end.

(** The fields of a struct: those with references have a copier of their own. *)
Fixpoint field_copier (cps : list (string * copier)) (name : string) : copier :=
  match cps with
  | [] => keep
  | (n, cp) :: cps => if String.eqb n name then cp else field_copier cps name
  end.
Definition struct_copy (cps : list (string * copier)) : copier := λ v,
  match v with
  | GStruct fs => fs ← mapM (copy_entry (field_copier cps)) fs; mret (GStruct fs)
  | _ => ill_typed
  end.

(** [runtime.DeepCopyJSONValue].  A map in an interface is a [map[string]interface{}], a
    slice an [[]interface{}]; a value that contains itself overflows the stack. *)
Fixpoint DeepCopyJSONValue (fuel : nat) : copier := λ v,
  match fuel with
  | O => lift (Panic "stack overflow")
  | S fuel =>
      match v with
      | GRef KMap _ => map_copy (DeepCopyJSONValue fuel) v
      | GRef KSlice _ => slice_copy (DeepCopyJSONValue fuel) v
      | GNil => mret v
      | GBasic (BOther type _) => lift (Panic ("cannot deep copy " +:+ type))
      | GBasic _ => mret v
      | GRef KPointer _ | GStruct _ => lift (Panic "cannot deep copy")
      end
  end.

(** ** Types *)
Inductive gotype : Type :=
| TBasic
| TPointer (t : gotype)
| TSlice (t : gotype)
| TMap (t : gotype)
| TStruct (fields : list (string * gotype))
| TJSON.
Definition basics (names : list string) : list (string * gotype) := (λ n, (n, TBasic)) <$> names.

(** *** The libraries' types *)
Definition TypeMeta : gotype := TStruct (basics ["Kind"; "APIVersion"]).
Definition LocalObjectReference : gotype := TStruct (basics ["Name"]).
Definition OwnerReference_type : gotype :=
  TStruct (basics ["APIVersion"; "Kind"; "Name"; "UID"]
           ++ [("Controller", TPointer TBasic); ("BlockOwnerDeletion", TPointer TBasic)]).
Definition FieldsV1 : gotype := TStruct [("Raw", TSlice TBasic)].
Definition ManagedFieldsEntry : gotype :=
  TStruct (basics ["Manager"; "Operation"; "APIVersion"]
           ++ [("Time", TPointer TBasic); ("FieldsType", TBasic); ("FieldsV1", TPointer FieldsV1)]).
Definition ObjectMeta_type : gotype :=
  TStruct (basics ["Name"; "GenerateName"; "Namespace"; "SelfLink"; "UID"; "ResourceVersion";
                   "Generation"; "CreationTimestamp"]
           ++ [("DeletionTimestamp", TPointer TBasic); ("DeletionGracePeriodSeconds", TPointer TBasic);
               ("Labels", TMap TBasic); ("Annotations", TMap TBasic);
               ("OwnerReferences", TSlice OwnerReference_type); ("Finalizers", TSlice TBasic);
               ("ClusterName", TBasic); ("ManagedFields", TSlice ManagedFieldsEntry)]).
Definition ListMeta : gotype :=
  TStruct (basics ["SelfLink"; "ResourceVersion"; "Continue"] ++ [("RemainingItemCount", TPointer TBasic)]).
Definition LabelSelectorRequirement : gotype :=
  TStruct (basics ["Key"; "Operator"] ++ [("Values", TSlice TBasic)]).
Definition LabelSelector_type : gotype :=
  TStruct [("MatchLabels", TMap TBasic); ("MatchExpressions", TSlice LabelSelectorRequirement)].
Definition Quantity : gotype :=
  TStruct [("i", TBasic); ("d", TPointer TBasic); ("s", TBasic); ("Format", TBasic)].
Definition ResourceRequirements : gotype :=
  TStruct [("Limits", TMap Quantity); ("Requests", TMap Quantity)].
Definition TypedLocalObjectReference : gotype :=
  TStruct [("APIGroup", TPointer TBasic); ("Kind", TBasic); ("Name", TBasic)].
Definition PersistentVolumeClaimSpec : gotype :=
  TStruct [("AccessModes", TSlice TBasic); ("Selector", TPointer LabelSelector_type);
           ("Resources", ResourceRequirements); ("VolumeName", TBasic);
           ("StorageClassName", TPointer TBasic); ("VolumeMode", TPointer TBasic);
           ("DataSource", TPointer TypedLocalObjectReference)].
Definition PersistentVolumeClaimCondition : gotype :=
  TStruct (basics ["Type"; "Status"; "LastProbeTime"; "LastTransitionTime"; "Reason"; "Message"]).
Definition PersistentVolumeClaimStatus : gotype :=
  TStruct [("Phase", TBasic); ("AccessModes", TSlice TBasic); ("Capacity", TMap Quantity);
           ("Conditions", TSlice PersistentVolumeClaimCondition)].
Definition PersistentVolumeClaim_type : gotype :=
  TStruct [("TypeMeta", TypeMeta); ("ObjectMeta", ObjectMeta_type); ("Spec", PersistentVolumeClaimSpec);
           ("Status", PersistentVolumeClaimStatus)].

(** *** relay.sh/v1beta1 *)
Definition Unstructured_type : gotype := TStruct [("value", TStruct [("Data", TJSON)])].
Definition UnstructuredObject_type : gotype := TMap Unstructured_type.
Definition Condition_type : gotype :=
  TStruct (basics ["Status"; "LastTransitionTime"; "Reason"; "Message"]).
Definition NamespaceTemplate_type : gotype := TStruct [("Metadata", ObjectMeta_type)].
Definition ToolInjection_type : gotype :=
  TStruct [("VolumeClaimTemplate", TPointer PersistentVolumeClaim_type)].
Definition SecretKeySelector_type : gotype :=
  TStruct [("LocalObjectReference", LocalObjectReference); ("Key", TBasic)].
Definition APITokenSource_type : gotype := TStruct [("SecretKeyRef", TPointer SecretKeySelector_type)].
Definition APITriggerEventSink_type : gotype :=
  TStruct (basics ["URL"; "Token"] ++ [("TokenFrom", TPointer APITokenSource_type)]).
Definition TriggerEventSink_type : gotype := TStruct [("API", TPointer APITriggerEventSink_type)].
Definition TenantSpec_type : gotype :=
  TStruct [("NamespaceTemplate", NamespaceTemplate_type); ("ToolInjection", ToolInjection_type);
           ("TriggerEventSink", TriggerEventSink_type)].
Definition TenantCondition_type : gotype := TStruct [("Condition", Condition_type); ("Type", TBasic)].
Definition TenantStatus_type : gotype :=
  TStruct (basics ["ObservedGeneration"; "Namespace"] ++ [("Conditions", TSlice TenantCondition_type)]).
Definition Tenant_type : gotype :=
  TStruct [("TypeMeta", TypeMeta); ("ObjectMeta", ObjectMeta_type); ("Spec", TenantSpec_type);
           ("Status", TenantStatus_type)].
Definition list_type (item : gotype) : gotype :=
  TStruct [("TypeMeta", TypeMeta); ("ListMeta", ListMeta); ("Items", TSlice item)].
Definition TenantList_type : gotype := list_type Tenant_type.
Definition WebhookTriggerSpec_type : gotype :=
  TStruct [("TenantRef", LocalObjectReference); ("Name", TBasic); ("Image", TBasic);
           ("Input", TSlice TBasic); ("Command", TBasic); ("Args", TSlice TBasic);
           ("Spec", UnstructuredObject_type); ("Env", UnstructuredObject_type)].
Definition WebhookTriggerCondition_type : gotype :=
  TStruct [("Condition", Condition_type); ("Type", TBasic)].
Definition WebhookTriggerStatus_type : gotype :=
  TStruct (basics ["ObservedGeneration"; "Namespace"; "URL"]
           ++ [("Conditions", TSlice WebhookTriggerCondition_type)]).
Definition WebhookTrigger_type : gotype :=
  TStruct [("TypeMeta", TypeMeta); ("ObjectMeta", ObjectMeta_type); ("Spec", WebhookTriggerSpec_type);
           ("Status", WebhookTriggerStatus_type)].
Definition WebhookTriggerList_type : gotype := list_type WebhookTrigger_type.

(** *** nebula.puppet.com/v1 *)
Definition WorkflowStep_type : gotype :=
  TStruct [("Name", TBasic); ("Image", TBasic); ("Spec", UnstructuredObject_type);
           ("Input", TSlice TBasic); ("Command", TBasic); ("Args", TSlice TBasic);
           ("Env", UnstructuredObject_type); ("When", Unstructured_type); ("DependsOn", TSlice TBasic)].
Definition Workflow_type : gotype :=
  TStruct [("Name", TBasic); ("Steps", TSlice (TPointer WorkflowStep_type));
           ("Parameters", UnstructuredObject_type)].
Definition WorkflowRunSpec_type : gotype :=
  TStruct [("Name", TBasic); ("Workflow", Workflow_type); ("Parameters", UnstructuredObject_type);
           ("TenantRef", TPointer LocalObjectReference)].
Definition WorkflowRunState_type : gotype :=
  TStruct [("Workflow", UnstructuredObject_type); ("Steps", TMap UnstructuredObject_type)].
Definition WorkflowRunStatusSummary_type : gotype :=
  TStruct (basics ["Name"; "Status"; "LogKey"]
           ++ [("StartTime", TPointer TBasic); ("CompletionTime", TPointer TBasic)]).
Definition WorkflowRunStatus_type : gotype :=
  TStruct [("Status", TBasic); ("StartTime", TPointer TBasic); ("CompletionTime", TPointer TBasic);
           ("Steps", TMap WorkflowRunStatusSummary_type);
           ("Conditions", TMap WorkflowRunStatusSummary_type)].
Definition WorkflowRun_type : gotype :=
  TStruct [("TypeMeta", TypeMeta); ("ObjectMeta", ObjectMeta_type); ("Spec", WorkflowRunSpec_type);
           ("State", WorkflowRunState_type); ("Status", WorkflowRunStatus_type)].
Definition WorkflowRunList_type : gotype := list_type WorkflowRun_type.

(** ** The generated functions *)
Definition Time_DeepCopyInto : copier := keep.
Definition Time_DeepCopy : copier := pointer_copy Time_DeepCopyInto.
Definition Quantity_DeepCopy : copier := struct_copy [("d", pointer_copy keep)].
Definition OwnerReference_DeepCopyInto : copier :=
  struct_copy [("Controller", pointer_copy keep); ("BlockOwnerDeletion", pointer_copy keep)].
Definition FieldsV1_DeepCopyInto : copier := struct_copy [("Raw", slice_copy keep)].
Definition ManagedFieldsEntry_DeepCopyInto : copier :=
  struct_copy [("Time", Time_DeepCopy); ("FieldsV1", pointer_copy FieldsV1_DeepCopyInto)].
Definition ObjectMeta_DeepCopyInto : copier :=
  struct_copy [("CreationTimestamp", Time_DeepCopyInto); ("DeletionTimestamp", Time_DeepCopy);
               ("DeletionGracePeriodSeconds", pointer_copy keep); ("Labels", map_copy keep);
               ("Annotations", map_copy keep);
               ("OwnerReferences", slice_copy OwnerReference_DeepCopyInto);
               ("Finalizers", slice_copy keep);
               ("ManagedFields", slice_copy ManagedFieldsEntry_DeepCopyInto)].
Definition ListMeta_DeepCopyInto : copier := struct_copy [("RemainingItemCount", pointer_copy keep)].
Definition LabelSelectorRequirement_DeepCopyInto : copier := struct_copy [("Values", slice_copy keep)].
Definition LabelSelector_DeepCopyInto : copier :=
  struct_copy [("MatchLabels", map_copy keep);
               ("MatchExpressions", slice_copy LabelSelectorRequirement_DeepCopyInto)].
Definition ResourceRequirements_DeepCopyInto : copier :=
  struct_copy [("Limits", map_copy Quantity_DeepCopy); ("Requests", map_copy Quantity_DeepCopy)].
Definition TypedLocalObjectReference_DeepCopyInto : copier := struct_copy [("APIGroup", pointer_copy keep)].
Definition PersistentVolumeClaimSpec_DeepCopyInto : copier :=
  struct_copy [("AccessModes", slice_copy keep); ("Selector", pointer_copy LabelSelector_DeepCopyInto);
               ("Resources", ResourceRequirements_DeepCopyInto); ("StorageClassName", pointer_copy keep);
               ("VolumeMode", pointer_copy keep);
               ("DataSource", pointer_copy TypedLocalObjectReference_DeepCopyInto)].
Definition PersistentVolumeClaimCondition_DeepCopyInto : copier :=
  struct_copy [("LastProbeTime", Time_DeepCopyInto); ("LastTransitionTime", Time_DeepCopyInto)].
Definition PersistentVolumeClaimStatus_DeepCopyInto : copier :=
  struct_copy [("AccessModes", slice_copy keep); ("Capacity", map_copy Quantity_DeepCopy);
               ("Conditions", slice_copy PersistentVolumeClaimCondition_DeepCopyInto)].
Definition PersistentVolumeClaim_DeepCopyInto : copier :=
  struct_copy [("TypeMeta", keep); ("ObjectMeta", ObjectMeta_DeepCopyInto);
               ("Spec", PersistentVolumeClaimSpec_DeepCopyInto);
               ("Status", PersistentVolumeClaimStatus_DeepCopyInto)].

(** The functions of the API copy JSON data to a depth; a [DeepCopy] makes a new value, of
    what is not nil, and copies into it. *)
Section generated.
Context (fuel : nat).

Definition Unstructured_DeepCopyInto : copier :=
  struct_copy [("value", struct_copy [("Data", DeepCopyJSONValue fuel)])].
Definition UnstructuredObject_DeepCopyInto : copier := λ v,
  match v with
  | GRef KMap None => l ← new (CMap ∅); mret (GRef KMap (Some l))
  | _ => map_copy Unstructured_DeepCopyInto v
  end.

Definition SecretKeySelector_DeepCopyInto : copier := struct_copy [("LocalObjectReference", keep)].
Definition APITokenSource_DeepCopyInto : copier := struct_copy [("SecretKeyRef", pointer_copy keep)].
Definition APITriggerEventSink_DeepCopyInto : copier :=
  struct_copy [("TokenFrom", pointer_copy APITokenSource_DeepCopyInto)].
Definition Condition_DeepCopyInto : copier := struct_copy [("LastTransitionTime", Time_DeepCopyInto)].
Definition NamespaceTemplate_DeepCopyInto : copier := struct_copy [("Metadata", ObjectMeta_DeepCopyInto)].
Definition ToolInjection_DeepCopyInto : copier :=
  struct_copy [("VolumeClaimTemplate", pointer_copy PersistentVolumeClaim_DeepCopyInto)].
Definition TriggerEventSink_DeepCopyInto : copier :=
  struct_copy [("API", pointer_copy APITriggerEventSink_DeepCopyInto)].
Definition TenantSpec_DeepCopyInto : copier :=
  struct_copy [("NamespaceTemplate", NamespaceTemplate_DeepCopyInto);
               ("ToolInjection", ToolInjection_DeepCopyInto);
               ("TriggerEventSink", TriggerEventSink_DeepCopyInto)].
Definition TenantCondition_DeepCopyInto : copier := struct_copy [("Condition", keep)].
Definition TenantStatus_DeepCopyInto : copier := struct_copy [("Conditions", slice_copy keep)].
Definition Tenant_DeepCopyInto : copier :=
  struct_copy [("TypeMeta", keep); ("ObjectMeta", ObjectMeta_DeepCopyInto);
               ("Spec", TenantSpec_DeepCopyInto); ("Status", TenantStatus_DeepCopyInto)].
Definition TenantList_DeepCopyInto : copier :=
  struct_copy [("TypeMeta", keep); ("ListMeta", ListMeta_DeepCopyInto);
               ("Items", slice_copy Tenant_DeepCopyInto)].
Definition WebhookTriggerSpec_DeepCopyInto : copier :=
  struct_copy [("TenantRef", keep); ("Input", slice_copy keep); ("Args", slice_copy keep);
               ("Spec", map_copy Unstructured_DeepCopyInto); ("Env", map_copy Unstructured_DeepCopyInto)].
Definition WebhookTriggerCondition_DeepCopyInto : copier := struct_copy [("Condition", keep)].
Definition WebhookTriggerStatus_DeepCopyInto : copier := struct_copy [("Conditions", slice_copy keep)].
Definition WebhookTrigger_DeepCopyInto : copier :=
  struct_copy [("TypeMeta", keep); ("ObjectMeta", ObjectMeta_DeepCopyInto);
               ("Spec", WebhookTriggerSpec_DeepCopyInto); ("Status", WebhookTriggerStatus_DeepCopyInto)].
Definition WebhookTriggerList_DeepCopyInto : copier :=
  struct_copy [("TypeMeta", keep); ("ListMeta", ListMeta_DeepCopyInto);
               ("Items", slice_copy WebhookTrigger_DeepCopyInto)].

Definition WorkflowStep_DeepCopyInto : copier :=
  struct_copy [("Spec", map_copy Unstructured_DeepCopyInto); ("Input", slice_copy keep);
               ("Args", slice_copy keep); ("Env", map_copy Unstructured_DeepCopyInto);
               ("When", Unstructured_DeepCopyInto); ("DependsOn", slice_copy keep)].
Definition Workflow_DeepCopyInto : copier :=
  struct_copy [("Steps", slice_copy (pointer_copy WorkflowStep_DeepCopyInto));
               ("Parameters", map_copy Unstructured_DeepCopyInto)].
Definition WorkflowRunSpec_DeepCopyInto : copier :=
  struct_copy [("Workflow", Workflow_DeepCopyInto); ("Parameters", map_copy Unstructured_DeepCopyInto);
               ("TenantRef", pointer_copy keep)].
Definition WorkflowRunState_DeepCopyInto : copier :=
  struct_copy [("Workflow", map_copy Unstructured_DeepCopyInto);
               ("Steps", map_copy (map_copy Unstructured_DeepCopyInto))].
Definition WorkflowRunStatusSummary_DeepCopyInto : copier :=
  struct_copy [("StartTime", Time_DeepCopy); ("CompletionTime", Time_DeepCopy)].
Definition WorkflowRunStatus_DeepCopyInto : copier :=
  struct_copy [("StartTime", Time_DeepCopy); ("CompletionTime", Time_DeepCopy);
               ("Steps", map_copy WorkflowRunStatusSummary_DeepCopyInto);
               ("Conditions", map_copy WorkflowRunStatusSummary_DeepCopyInto)].
Definition WorkflowRun_DeepCopyInto : copier :=
  struct_copy [("TypeMeta", keep); ("ObjectMeta", ObjectMeta_DeepCopyInto);
               ("Spec", WorkflowRunSpec_DeepCopyInto); ("State", WorkflowRunState_DeepCopyInto);
               ("Status", WorkflowRunStatus_DeepCopyInto)].
Definition WorkflowRunList_DeepCopyInto : copier :=
  struct_copy [("TypeMeta", keep); ("ListMeta", ListMeta_DeepCopyInto);
               ("Items", slice_copy WorkflowRun_DeepCopyInto)].

(** The [DeepCopy] of a pointer; that of a map takes it by its value. *)
Definition APITokenSource_DeepCopy : copier := pointer_copy APITokenSource_DeepCopyInto.
Definition APITriggerEventSink_DeepCopy : copier := pointer_copy APITriggerEventSink_DeepCopyInto.
Definition Condition_DeepCopy : copier := pointer_copy Condition_DeepCopyInto.
Definition NamespaceTemplate_DeepCopy : copier := pointer_copy NamespaceTemplate_DeepCopyInto.
Definition SecretKeySelector_DeepCopy : copier := pointer_copy SecretKeySelector_DeepCopyInto.
Definition Tenant_DeepCopy : copier := pointer_copy Tenant_DeepCopyInto.
Definition TenantCondition_DeepCopy : copier := pointer_copy TenantCondition_DeepCopyInto.
Definition TenantList_DeepCopy : copier := pointer_copy TenantList_DeepCopyInto.
Definition TenantSpec_DeepCopy : copier := pointer_copy TenantSpec_DeepCopyInto.
Definition TenantStatus_DeepCopy : copier := pointer_copy TenantStatus_DeepCopyInto.
Definition ToolInjection_DeepCopy : copier := pointer_copy ToolInjection_DeepCopyInto.
Definition TriggerEventSink_DeepCopy : copier := pointer_copy TriggerEventSink_DeepCopyInto.
Definition Unstructured_DeepCopy : copier := pointer_copy Unstructured_DeepCopyInto.
Definition WebhookTrigger_DeepCopy : copier := pointer_copy WebhookTrigger_DeepCopyInto.
Definition WebhookTriggerCondition_DeepCopy : copier := pointer_copy WebhookTriggerCondition_DeepCopyInto.
Definition WebhookTriggerList_DeepCopy : copier := pointer_copy WebhookTriggerList_DeepCopyInto.
Definition WebhookTriggerSpec_DeepCopy : copier := pointer_copy WebhookTriggerSpec_DeepCopyInto.
Definition WebhookTriggerStatus_DeepCopy : copier := pointer_copy WebhookTriggerStatus_DeepCopyInto.
Definition Workflow_DeepCopy : copier := pointer_copy Workflow_DeepCopyInto.
Definition WorkflowRun_DeepCopy : copier := pointer_copy WorkflowRun_DeepCopyInto.
Definition WorkflowRunList_DeepCopy : copier := pointer_copy WorkflowRunList_DeepCopyInto.
Definition WorkflowRunSpec_DeepCopy : copier := pointer_copy WorkflowRunSpec_DeepCopyInto.
Definition WorkflowRunState_DeepCopy : copier := pointer_copy WorkflowRunState_DeepCopyInto.
Definition WorkflowRunStatus_DeepCopy : copier := pointer_copy WorkflowRunStatus_DeepCopyInto.
Definition WorkflowRunStatusSummary_DeepCopy : copier := pointer_copy WorkflowRunStatusSummary_DeepCopyInto.
Definition WorkflowStep_DeepCopy : copier := pointer_copy WorkflowStep_DeepCopyInto.
Definition UnstructuredObject_DeepCopy : copier := λ v,
  match v with GRef KMap None => mret v | _ => UnstructuredObject_DeepCopyInto v end.

(** [DeepCopyObject] is the copy as an interface, which is nil if the pointer is. *)
Definition as_object (c : gval) : gval := match c with GRef _ None => GNil | c => c end.
Definition Tenant_DeepCopyObject : copier := λ v, c ← Tenant_DeepCopy v; mret (as_object c).
Definition TenantList_DeepCopyObject : copier := λ v, c ← TenantList_DeepCopy v; mret (as_object c).
Definition WebhookTrigger_DeepCopyObject : copier := λ v, c ← WebhookTrigger_DeepCopy v; mret (as_object c).
Definition WebhookTriggerList_DeepCopyObject : copier := λ v, c ← WebhookTriggerList_DeepCopy v; mret (as_object c).
Definition WorkflowRun_DeepCopyObject : copier := λ v, c ← WorkflowRun_DeepCopy v; mret (as_object c).
Definition WorkflowRunList_DeepCopyObject : copier := λ v, c ← WorkflowRunList_DeepCopy v; mret (as_object c).

(** The types whose pointers are copied. *)
Definition copied_types : list (string * gotype * copier) :=
  [("APITokenSource", APITokenSource_type, APITokenSource_DeepCopy);
   ("APITriggerEventSink", APITriggerEventSink_type, APITriggerEventSink_DeepCopy);
   ("Condition", Condition_type, Condition_DeepCopy);
   ("NamespaceTemplate", NamespaceTemplate_type, NamespaceTemplate_DeepCopy);
   ("SecretKeySelector", SecretKeySelector_type, SecretKeySelector_DeepCopy);
   ("Tenant", Tenant_type, Tenant_DeepCopy);
   ("TenantCondition", TenantCondition_type, TenantCondition_DeepCopy);
   ("TenantList", TenantList_type, TenantList_DeepCopy);
   ("TenantSpec", TenantSpec_type, TenantSpec_DeepCopy);
   ("TenantStatus", TenantStatus_type, TenantStatus_DeepCopy);
   ("ToolInjection", ToolInjection_type, ToolInjection_DeepCopy);
   ("TriggerEventSink", TriggerEventSink_type, TriggerEventSink_DeepCopy);
   ("Unstructured", Unstructured_type, Unstructured_DeepCopy);
   ("WebhookTrigger", WebhookTrigger_type, WebhookTrigger_DeepCopy);
   ("WebhookTriggerCondition", WebhookTriggerCondition_type, WebhookTriggerCondition_DeepCopy);
   ("WebhookTriggerList", WebhookTriggerList_type, WebhookTriggerList_DeepCopy);
   ("WebhookTriggerSpec", WebhookTriggerSpec_type, WebhookTriggerSpec_DeepCopy);
   ("WebhookTriggerStatus", WebhookTriggerStatus_type, WebhookTriggerStatus_DeepCopy);
   ("Workflow", Workflow_type, Workflow_DeepCopy);
   ("WorkflowRun", WorkflowRun_type, WorkflowRun_DeepCopy);
   ("WorkflowRunList", WorkflowRunList_type, WorkflowRunList_DeepCopy);
   ("WorkflowRunSpec", WorkflowRunSpec_type, WorkflowRunSpec_DeepCopy);
   ("WorkflowRunState", WorkflowRunState_type, WorkflowRunState_DeepCopy);
   ("WorkflowRunStatus", WorkflowRunStatus_type, WorkflowRunStatus_DeepCopy);
   ("WorkflowRunStatusSummary", WorkflowRunStatusSummary_type, WorkflowRunStatusSummary_DeepCopy);
   ("WorkflowStep", WorkflowStep_type, WorkflowStep_DeepCopy)].
End generated.

(** The kinds that are registered with the clients, by their group and version. *)
Definition addKnownTypes (group version : string) (kinds : list string)
    (scheme : gmap (string * string * string) string) : gmap (string * string * string) string :=
  foldl (λ scheme k, <[(group, version, k) := k]> scheme) scheme kinds.
Notation Scheme := (gmap (string * string * string) string).
Definition nebula_AddToScheme : Scheme → Scheme :=
  addKnownTypes "nebula.puppet.com" "v1" ["WorkflowRun"; "WorkflowRunList"].
Definition relay_AddToScheme : Scheme → Scheme :=
  addKnownTypes "relay.sh" "v1beta1" ["Tenant"; "TenantList"; "WebhookTrigger"; "WebhookTriggerList"].
Definition AddToScheme (scheme : Scheme) : Scheme := nebula_AddToScheme (relay_AddToScheme scheme).

(** * Properties of copies

    ** Alike: two values of a type, in two heaps

    They have the same basic values, elements, keys and nil references; the references of
    the second are among [fresh].  JSON data is nested less deep than [depth]. *)
Section alike.
Context (depth : nat) (fresh : loc → Prop) (h1 h2 : heap).

Definition refs_alike (k : kind) (R : cell → cell → Prop) (v v' : gval) : Prop :=
  match v, v' with
  | GRef k1 None, GRef k2 None => k1 = k ∧ k2 = k
  | GRef k1 (Some l), GRef k2 (Some l') =>
      k1 = k ∧ k2 = k ∧ fresh l' ∧ ∃ c c', h1 !! l = Some c ∧ h2 !! l' = Some c' ∧ R c c'
  | _, _ => False
  end.
Definition pointers_alike (R : gval → gval → Prop) (c c' : cell) : Prop :=
  match c, c' with CPointer x, CPointer x' => R x x' | _, _ => False end.
Definition slices_alike (R : gval → gval → Prop) (c c' : cell) : Prop :=
  match c, c' with CSlice xs, CSlice xs' => Forall2 R xs xs' | _, _ => False end.
Definition maps_alike (R : gval → gval → Prop) (c c' : cell) : Prop :=
  match c, c' with CMap m, CMap m' => ∀ k, option_Forall2 R (m !! k) (m' !! k) | _, _ => False end.

Definition json_basic (b : basic) : bool := match b with BOther _ _ => false | _ => true end.
Fixpoint json_alike (n : nat) (v v' : gval) : Prop :=
  match n with
  | O => False
  | S n =>
      match v with
      | GNil => v' = GNil
      | GBasic b => json_basic b = true ∧ v' = v
      | GRef KMap _ => refs_alike KMap (maps_alike (json_alike n)) v v'
      | GRef KSlice _ => refs_alike KSlice (slices_alike (json_alike n)) v v'
      | _ => False
      end
  end.

Fixpoint alike (t : gotype) : gval → gval → Prop :=
  match t with
  | TBasic => λ v v', v' = v ∧ match v with GBasic _ => True | _ => False end
  | TPointer t => refs_alike KPointer (pointers_alike (alike t))
  | TSlice t => refs_alike KSlice (slices_alike (alike t))
  | TMap t => refs_alike KMap (maps_alike (alike t))
  | TStruct fs => λ v v',
      match v, v' with
      | GStruct xs, GStruct xs' =>
          (fix fields fs xs xs' :=
             match fs, xs, xs' with
             | [], [], [] => True
             | (n, t) :: fs, (n1, x) :: xs, (n2, x') :: xs' =>
                 n1 = n ∧ n2 = n ∧ alike t x x' ∧ fields fs xs xs'
             | _, _, _ => False
             end) fs xs xs'
      | _, _ => False
      end
  | TJSON => json_alike depth
  end.
Fixpoint fields_alike (fs : list (string * gotype)) (xs xs' : list (string * gval)) : Prop :=
  match fs, xs, xs' with
  | [], [], [] => True
  | (n, t) :: fs, (n1, x) :: xs, (n2, x') :: xs' =>
      n1 = n ∧ n2 = n ∧ alike t x x' ∧ fields_alike fs xs xs'
  | _, _, _ => False
  end.
Lemma alike_struct fs v v' :
  alike (TStruct fs) v v' ↔ ∃ xs xs', v = GStruct xs ∧ v' = GStruct xs' ∧ fields_alike fs xs xs'.
Proof.
  assert (E : ∀ xs xs', alike (TStruct fs) (GStruct xs) (GStruct xs') ↔ fields_alike fs xs xs').
  { cbn. induction fs as [|[n t] fs IH]; intros [|[n1 x] xs] [|[n2 x'] xs']; cbn; try done. by rewrite IH. }
  split.
  - intros H. destruct v as [| | |xs], v' as [| | |xs']; try done. exists xs, xs'. by rewrite <- E.
  - intros (xs & xs' & -> & -> & H). by rewrite E.
Qed.
End alike.

(** A value that is alike to itself is well-typed; a copy is alike and all new. *)
Definition typed (depth : nat) (h : heap) (t : gotype) (v : gval) : Prop :=
  alike depth (λ _, True) h h t v v.
Definition copy_of (depth : nat) (old h : heap) (t : gotype) (v v' : gval) : Prop :=
  alike depth (λ l, l ∉ dom old) old h t v v'.

(** A copier makes deep copies of a type, whatever was allocated before. *)
Class Deep (depth : nat) (t : gotype) (cp : copier) : Prop :=
  deep_copies : ∀ old h v, typed depth old t v → old ⊆ h →
    ∃ v' h', cp v h = (Ok v', h') ∧ h ⊆ h' ∧ copy_of depth old h' t v v'.

Section gotype_ind.
Context (P : gotype → Prop) (Hb : P TBasic) (Hp : ∀ t, P t → P (TPointer t)).
Context (Hs : ∀ t, P t → P (TSlice t)) (Hm : ∀ t, P t → P (TMap t)).
Context (Hf : ∀ fs, Forall (λ f, P f.2) fs → P (TStruct fs)) (Hj : P TJSON).
Fixpoint gotype_fields_ind (t : gotype) : P t :=
  match t with
  | TBasic => Hb
  | TPointer t => Hp t (gotype_fields_ind t)
  | TSlice t => Hs t (gotype_fields_ind t)
  | TMap t => Hm t (gotype_fields_ind t)
  | TStruct fs =>
      Hf fs ((fix fields (fs : list (string * gotype)) : Forall (λ f, P f.2) fs :=
                match fs with
                | [] => List.Forall_nil _
                | f :: fs => List.Forall_cons _ f _ (gotype_fields_ind f.2) (fields fs)
                end) fs)
  | TJSON => Hj
  end.
End gotype_ind.

(** ** Allocating more, and flat types *)
Section mono.
Context (depth : nat) (fresh1 fresh2 : loc → Prop) (h1 h2 h3 : heap).
Hypothesis (Hfresh : ∀ l, fresh1 l → fresh2 l) (Hheap : h2 ⊆ h3).

Lemma refs_alike_mono k (R1 R2 : cell → cell → Prop) v v' :
  (∀ c c', R1 c c' → R2 c c') →
  refs_alike fresh1 h1 h2 k R1 v v' → refs_alike fresh2 h1 h3 k R2 v v'.
Proof.
  intros HR. destruct v as [| |k1 [l|]|], v' as [| |k2 [l'|]|]; try done.
  intros (-> & -> & Hl & c & c' & E & E' & Hc). split_and!; [done|done|auto|].
  exists c, c'. split_and!; [done| |auto]. by eapply lookup_weaken.
Qed.
Lemma pointers_mono (R1 R2 : gval → gval → Prop) :
  (∀ v v', R1 v v' → R2 v v') → ∀ c c', pointers_alike R1 c c' → pointers_alike R2 c c'.
Proof. intros HR [] []; try done. apply HR. Qed.
Lemma slices_mono (R1 R2 : gval → gval → Prop) :
  (∀ v v', R1 v v' → R2 v v') → ∀ c c', slices_alike R1 c c' → slices_alike R2 c c'.
Proof. intros HR [] []; try done. cbn. intros H. by eapply Forall2_impl. Qed.
Lemma maps_mono (R1 R2 : gval → gval → Prop) :
  (∀ v v', R1 v v' → R2 v v') → ∀ c c', maps_alike R1 c c' → maps_alike R2 c c'.
Proof.
  intros HR [] []; try done. cbn. intros H k. destruct (H k); constructor. by apply HR.
Qed.
Lemma json_mono n m v v' :
  n ≤ m → json_alike fresh1 h1 h2 n v v' → json_alike fresh2 h1 h3 m v v'.
Proof.
  revert m v v'. induction n as [|n IH]; intros [|m] v v' Hn; try done; [lia|]. cbn.
  assert (H : ∀ x x', json_alike fresh1 h1 h2 n x x' → json_alike fresh2 h1 h3 m x x')
    by (intros x x'; apply IH; lia).
  destruct v as [| |[] l|]; try done; apply refs_alike_mono; [by apply slices_mono|by apply maps_mono].
Qed.
Lemma alike_mono t v v' :
  alike depth fresh1 h1 h2 t v v' → alike depth fresh2 h1 h3 t v v'.
Proof.
  revert v v'. induction t as [|t IH|t IH|t IH|fs IH|] using gotype_fields_ind; intros v v'.
  - done.
  - by apply refs_alike_mono, pointers_mono.
  - by apply refs_alike_mono, slices_mono.
  - by apply refs_alike_mono, maps_mono.
  - rewrite !alike_struct. intros (xs & xs' & -> & -> & H). exists xs, xs'. split_and!; [done..|].
    revert xs xs' H. induction IH as [|[n t] fs Ht _ IHf]; intros [|[n1 x] xs] [|[n2 x'] xs']; cbn; try done.
    intros (-> & -> & Hx & Hxs). split_and!; auto.
  - by apply json_mono.
Qed.
End mono.

Lemma copy_of_mono depth old h h' t v v' : h ⊆ h' → copy_of depth old h t v v' → copy_of depth old h' t v v'.
Proof. intros Hh. by apply alike_mono. Qed.

(** A struct of basic values has no references: assigning it copies it. *)
Fixpoint flat (t : gotype) : bool :=
  match t with TBasic => true | TStruct fs => forallb (λ f, flat f.2) fs | _ => false end.
Lemma flat_alike depth fresh1 fresh2 h1 h2 h3 h4 t v v' :
  flat t = true → alike depth fresh1 h1 h2 t v v' → alike depth fresh2 h3 h4 t v v'.
Proof.
  revert v v'. induction t as [| | | |fs IH|] using gotype_fields_ind; intros v v' Hf; try done.
  rewrite !alike_struct. intros (xs & xs' & -> & -> & H). exists xs, xs'. split_and!; [done..|].
  revert xs xs' Hf H. induction IH as [|[n t] fs Ht _ IHf]; intros [|[n1 x] xs] [|[n2 x'] xs']; cbn; try done.
  intros [Hf1 Hf2]%andb_true_iff (-> & -> & Hx & Hxs). split_and!; auto.
Qed.

(** ** Each way of copying is deep *)
Lemma mapM_extends {A B} (f : A → io heap B) (R : heap → A → B → Prop) old xs :
  (∀ h h' a b, h ⊆ h' → R h a b → R h' a b) →
  (∀ a, a ∈ xs → ∀ h, old ⊆ h → ∃ b h', f a h = (Ok b, h') ∧ h ⊆ h' ∧ R h' a b) →
  ∀ h, old ⊆ h → ∃ bs h', mapM f xs h = (Ok bs, h') ∧ h ⊆ h' ∧ Forall2 (R h') xs bs.
Proof.
  intros Hmono Hf. induction xs as [|a xs IH]; intros h Hh; cbn [mapM].
  - exists [], h. split_and!; [done|done|constructor].
  - destruct (Hf a (list_elem_of_here _ _) h Hh) as (b & h1 & E1 & H1 & Hb).
    destruct (IH (λ a' Ha', Hf a' (list_elem_of_further _ _ _ Ha')) h1) as (bs & h2 & E2 & H2 & Hbs);
      [by etrans|].
    exists (b :: bs), h2. rewrite effect_bind_run, E1, effect_bind_run, E2.
    split_and!; [done|by etrans|]. constructor; [by eapply Hmono|done].
Qed.

Lemma new_fresh (c : cell) (old h : heap) :
  old ⊆ h → ∃ l h', new c h = (Ok l, h') ∧ h ⊆ h' ∧ h' !! l = Some c ∧ l ∉ dom old.
Proof.
  intros Hh. exists (fresh (dom h)), (<[fresh (dom h) := c]> h). split_and!; [done| | |].
  - apply insert_subseteq, not_elem_of_dom, is_fresh.
  - apply lookup_insert_eq.
  - intros Hin. apply (is_fresh (dom h)). by apply (subseteq_dom old h).
Qed.

(** A reference that is not nil: its cell is loaded, copied and stored anew. *)
Lemma ref_deep old h (k : kind) (l : loc) (R : heap → cell → cell → Prop) c (copy : io heap cell) :
  old ⊆ h → old !! l = Some c →
  (∃ c' h', copy h = (Ok c', h') ∧ h ⊆ h' ∧ ∀ h2, h' ⊆ h2 → R h2 c c') →
  ∃ v' h', (c' ← copy; l ← new c'; mret (GRef k (Some l))) h = (Ok v', h') ∧ h ⊆ h'
    ∧ refs_alike (λ l, l ∉ dom old) old h' k (R h') (GRef k (Some l)) v'.
Proof.
  intros Hh Hl (c' & h1 & E1 & H1 & HR).
  destruct (new_fresh c' old h1) as (l' & h2 & E2 & H2 & El' & Hf); [by etrans|].
  exists (GRef k (Some l')), h2. rewrite effect_bind_run, E1, effect_bind_run, E2.
  split_and!; [done|by etrans|]. cbn. split_and!; [done..|]. exists c, c'. auto.
Qed.

Lemma entries_alike {A B} (R : A → B → Prop) (es : list (string * A)) (es' : list (string * B)) :
  Forall2 (λ e e', e'.1 = e.1 ∧ R e.2 e'.2) es es' →
  ∀ k, option_Forall2 R ((list_to_map es : gmap string A) !! k) ((list_to_map es' : gmap string B) !! k).
Proof.
  induction 1 as [|[n x] [n' x'] es es' [E Hx] _ IH]; intros k; cbn in *; [rewrite !lookup_empty; constructor|].
  subst n'. destruct (decide (n = k)) as [->|]; [rewrite !lookup_insert_eq; by constructor|].
  rewrite !lookup_insert_ne by done. apply IH.
Qed.
Lemma maps_diag (R : gval → gval → Prop) m :
  maps_alike R (CMap m) (CMap m) → ∀ k x, m !! k = Some x → R x x.
Proof. intros H k x E. specialize (H k). rewrite E in H. by inversion_clear H. Qed.
Lemma slices_diag (R : gval → gval → Prop) xs : slices_alike R (CSlice xs) (CSlice xs) → Forall (λ x, R x x) xs.
Proof. cbn. induction xs; inversion_clear 1; constructor; auto. Qed.

Section deep.
Context (depth : nat).
Notation Deep := (Deep depth).

Lemma deep_keep t : flat t = true → Deep t keep.
Proof. intros Hf old h v Hv Hh. exists v, h. split_and!; [done|done|]. by eapply flat_alike. Qed.

Lemma pointer_copy_run cp l x h :
  h !! l = Some (CPointer x) →
  pointer_copy cp (GRef KPointer (Some l)) h
  = (c ← (x ← cp x; mret (CPointer x)); l ← new c; mret (GRef KPointer (Some l))) h.
Proof.
  intros E. unfold pointer_copy. rewrite !effect_bind_run. unfold load. rewrite E.
  rewrite !effect_bind_run. by destruct (cp x h) as [[]].
Qed.
Lemma slice_copy_run cp l xs h :
  h !! l = Some (CSlice xs) →
  slice_copy cp (GRef KSlice (Some l)) h
  = (c ← (xs ← mapM cp xs; mret (CSlice xs)); l ← new c; mret (GRef KSlice (Some l))) h.
Proof.
  intros E. unfold slice_copy. rewrite !effect_bind_run. unfold load. rewrite E.
  rewrite !effect_bind_run. by destruct ((mapM cp xs : io heap _) h) as [[]].
Qed.
Lemma map_copy_run cp l m h :
  h !! l = Some (CMap m) →
  map_copy cp (GRef KMap (Some l)) h
  = (c ← (es ← mapM (copy_entry (λ _, cp)) (map_to_list m); mret (CMap (list_to_map es)));
     l ← new c; mret (GRef KMap (Some l))) h.
Proof.
  intros E. unfold map_copy. rewrite !effect_bind_run. unfold load. rewrite E.
  rewrite !effect_bind_run. by destruct ((mapM _ (map_to_list m) : io heap _) h) as [[]].
Qed.

(** The copies of the contents of a reference, for any relation that more memory keeps. *)
Section contents.
Context (old : heap) (R0 : gval → Prop) (R : heap → gval → gval → Prop) (cp : copier).
Hypothesis (Hmono : ∀ h h' v v', h ⊆ h' → R h v v' → R h' v v').
Hypothesis (Hcp : ∀ h v, R0 v → old ⊆ h → ∃ v' h', cp v h = (Ok v', h') ∧ h ⊆ h' ∧ R h' v v').
Notation new_ l := (l ∉ dom old).

Lemma pointer_copied h l x :
  old ⊆ h → old !! l = Some (CPointer x) → R0 x →
  ∃ v' h', pointer_copy cp (GRef KPointer (Some l)) h = (Ok v', h') ∧ h ⊆ h'
    ∧ refs_alike (λ l, new_ l) old h' KPointer (pointers_alike (R h')) (GRef KPointer (Some l)) v'.
Proof.
  intros Hh E Hx. rewrite (pointer_copy_run cp l x h) by (by eapply lookup_weaken).
  apply (ref_deep old h KPointer l (λ h', pointers_alike (R h')) _ _ Hh E).
  destruct (Hcp h x Hx Hh) as (x' & h1 & E1 & H1 & Hx1). exists (CPointer x'), h1.
  rewrite effect_bind_run, E1. split_and!; [done|done|]. intros h2 Hh2. by eapply Hmono.
Qed.
Lemma slice_copied h l xs :
  old ⊆ h → old !! l = Some (CSlice xs) → Forall R0 xs →
  ∃ v' h', slice_copy cp (GRef KSlice (Some l)) h = (Ok v', h') ∧ h ⊆ h'
    ∧ refs_alike (λ l, new_ l) old h' KSlice (slices_alike (R h')) (GRef KSlice (Some l)) v'.
Proof.
  intros Hh E Hx. rewrite (slice_copy_run cp l xs h) by (by eapply lookup_weaken).
  apply (ref_deep old h KSlice l (λ h', slices_alike (R h')) _ _ Hh E).
  destruct (mapM_extends cp R old xs) with (h := h) as (xs' & h1 & E1 & H1 & Hx1); [exact Hmono| |done|].
  - intros x Hin h2 Hh2. apply Hcp; [|done]. by eapply Forall_forall in Hx.
  - exists (CSlice xs'), h1. rewrite effect_bind_run, E1. split_and!; [done|done|].
    intros h2 Hh2. cbn. eapply Forall2_impl; [done|]. intros ??. by apply Hmono.
Qed.
Lemma map_copied h l m :
  old ⊆ h → old !! l = Some (CMap m) → (∀ k x, m !! k = Some x → R0 x) →
  ∃ v' h', map_copy cp (GRef KMap (Some l)) h = (Ok v', h') ∧ h ⊆ h'
    ∧ refs_alike (λ l, new_ l) old h' KMap (maps_alike (R h')) (GRef KMap (Some l)) v'.
Proof.
  intros Hh E Hx. rewrite (map_copy_run cp l m h) by (by eapply lookup_weaken).
  apply (ref_deep old h KMap l (λ h', maps_alike (R h')) _ _ Hh E).
  destruct (mapM_extends (copy_entry (λ _, cp)) (λ h' e e', e'.1 = e.1 ∧ R h' e.2 e'.2)
    old (map_to_list m)) with (h := h) as (es & h1 & E1 & H1 & Hx1); [| |done|].
  - intros h1 h2 e e' H12 [? ?]. split; [done|]. by eapply Hmono.
  - intros [n x] Hin h2 Hh2. apply elem_of_map_to_list, Hx in Hin.
    destruct (Hcp h2 x Hin Hh2) as (x' & h3 & E3 & H3 & Hx3).
    exists (n, x'), h3. unfold copy_entry. rewrite effect_bind_run. cbn [fst snd]. by rewrite E3.
  - exists (CMap (list_to_map es)), h1. rewrite effect_bind_run, E1. split_and!; [done|done|].
    intros h2 Hh2. cbn. intros k. rewrite <- (list_to_map_to_list m) at 1. apply entries_alike.
    eapply Forall2_impl; [done|]. intros ?? [? ?]. split; [done|]. by eapply Hmono.
Qed.
End contents.

Lemma deep_pointer t cp : Deep t cp → Deep (TPointer t) (pointer_copy cp).
Proof.
  intros Hcp old h [| |k [l|]|] Hv Hh; try done.
  - destruct Hv as (-> & _ & _ & c & c' & E & E' & Hc). assert (c' = c) as -> by congruence.
    destruct c as [x| |]; try done.
    apply (pointer_copied old (typed depth old t) (λ h', copy_of depth old h' t) cp) with (x := x); auto.
    by intros; eapply copy_of_mono.
  - destruct Hv as [-> _]. by exists (GRef KPointer None), h.
Qed.
Lemma deep_slice t cp : Deep t cp → Deep (TSlice t) (slice_copy cp).
Proof.
  intros Hcp old h [| |k [l|]|] Hv Hh; try done.
  - destruct Hv as (-> & _ & _ & c & c' & E & E' & Hc). assert (c' = c) as -> by congruence.
    destruct c as [|xs|]; try done.
    apply (slice_copied old (typed depth old t) (λ h', copy_of depth old h' t) cp) with (xs := xs); auto.
    + by intros; eapply copy_of_mono.
    + by apply slices_diag.
  - destruct Hv as [-> _]. by exists (GRef KSlice None), h.
Qed.
Lemma deep_map t cp : Deep t cp → Deep (TMap t) (map_copy cp).
Proof.
  intros Hcp old h [| |k [l|]|] Hv Hh; try done.
  - destruct Hv as (-> & _ & _ & c & c' & E & E' & Hc). assert (c' = c) as -> by congruence.
    destruct c as [| |m]; try done.
    apply (map_copied old (typed depth old t) (λ h', copy_of depth old h' t) cp) with (m := m); auto.
    + by intros; eapply copy_of_mono.
    + by apply maps_diag.
  - destruct Hv as [-> _]. by exists (GRef KMap None), h.
Qed.

Lemma deep_struct fs cps :
  Forall (λ f, Deep f.2 (field_copier cps f.1)) fs → Deep (TStruct fs) (struct_copy cps).
Proof.
  intros Hfs old h v (xs & xs' & -> & E & Hv)%alike_struct Hh. injection E as <-.
  enough (∃ ys h', mapM (copy_entry (field_copier cps)) xs h = (Ok ys, h') ∧ h ⊆ h'
           ∧ fields_alike depth (λ l, l ∉ dom old) old h' fs xs ys) as (ys & h' & E & Hh' & Hys).
  { exists (GStruct ys), h'. unfold struct_copy. rewrite effect_bind_run, E. split_and!; [done..|].
    apply alike_struct. by exists xs, ys. }
  revert xs Hv h Hh. induction Hfs as [|[n t] fs Hf _ IH]; intros [|[n1 x] xs] Hv h Hh; try done.
  - exists [], h. by split_and!.
  - destruct Hv as (-> & _ & Hx & Hxs). destruct (Hf old h x Hx Hh) as (y & h1 & E1 & H1 & Hy).
    destruct (IH xs Hxs h1) as (ys & h2 & E2 & H2 & Hys); [by etrans|].
    exists ((n, y) :: ys), h2.
    assert (Ey : copy_entry (field_copier cps) (n, x) h = (Ok (n, y), h1))
      by (unfold copy_entry; rewrite effect_bind_run; cbn [fst snd] in *; by rewrite E1).
    cbn [mapM]. rewrite effect_bind_run, Ey, effect_bind_run, E2. split_and!; [done|by etrans|].
    cbn. split_and!; try done. by eapply copy_of_mono.
Qed.


Lemma json_deep fuel n old h v :
  n ≤ fuel → json_alike (λ _, True) old old n v v → old ⊆ h →
  ∃ v' h', DeepCopyJSONValue fuel v h = (Ok v', h') ∧ h ⊆ h'
    ∧ json_alike (λ l, l ∉ dom old) old h' n v v'.
Proof.
  revert fuel h v. induction n as [|n IH]; intros [|fuel] h v Hn Hv Hh; try done; [lia|].
  assert (Hmono : ∀ h h' v v', h ⊆ h' → json_alike (λ l, l ∉ dom old) old h n v v' →
    json_alike (λ l, l ∉ dom old) old h' n v v') by (intros h1 h2 x x' H12 Hx; revert Hx; apply json_mono; done).
  assert (Hcp : ∀ h v, json_alike (λ _, True) old old n v v → old ⊆ h →
    ∃ v' h', DeepCopyJSONValue fuel v h = (Ok v', h') ∧ h ⊆ h' ∧ json_alike (λ l, l ∉ dom old) old h' n v v')
    by (intros ??; apply IH; lia).
  destruct v as [|b|[] l|]; try done; cbn [DeepCopyJSONValue json_alike] in *.
  - by exists GNil, h.
  - destruct Hv as [Hb _]. exists (GBasic b), h. by destruct b.
  - destruct l as [l|]; [|by exists (GRef KSlice None), h].
    destruct Hv as (_ & _ & _ & c & c' & E & E' & Hc). assert (c' = c) as -> by congruence.
    destruct c as [|xs|]; try done.
    apply (slice_copied old _ _ _ Hmono Hcp h l xs Hh E). by apply slices_diag.
  - destruct l as [l|]; [|by exists (GRef KMap None), h].
    destruct Hv as (_ & _ & _ & c & c' & E & E' & Hc). assert (c' = c) as -> by congruence.
    destruct c as [| |m]; try done.
    apply (map_copied old _ _ _ Hmono Hcp h l m Hh E). by apply maps_diag.
Qed.
Lemma deep_json fuel : depth ≤ fuel → Deep TJSON (DeepCopyJSONValue fuel).
Proof. intros Hn old h v Hv Hh. by eapply json_deep. Qed.
End deep.

(** ** The generated functions are deep

    A field without a copier of its own has to be flat. *)
Ltac fields :=
  lazymatch goal with
  | |- Deep _ (TStruct ?fs) (struct_copy ?cps) =>
      apply deep_struct;
      let fs' := eval lazy [basics app fmap list_fmap] in fs in change fs with fs';
      repeat (apply List.Forall_cons;
              [cbn [fst snd];
               lazymatch goal with
               | |- Deep _ _ ?cp =>
                   let cp' := eval lazy [field_copier String.eqb Ascii.eqb Bool.eqb] in cp in
                   change cp with cp'
               end|]);
      [..|apply List.Forall_nil]
  end.
Ltac deep :=
  repeat first
    [ done
    | apply deep_keep; reflexivity
    | apply deep_pointer
    | apply deep_slice
    | apply deep_map
    | by auto with deepcopy
    | fields ].
Create HintDb deepcopy.

Section libraries.
Context (depth : nat).
Notation Deep := (Deep depth).

Lemma Time_deep : Deep TBasic Time_DeepCopyInto.
Proof. by apply deep_keep. Qed.
#[local] Hint Resolve Time_deep : deepcopy.
Lemma Time_pointer_deep : Deep (TPointer TBasic) Time_DeepCopy.
Proof. by apply deep_pointer, deep_keep. Qed.
#[local] Hint Resolve Time_pointer_deep : deepcopy.
Lemma Quantity_deep : Deep Quantity Quantity_DeepCopy.
Proof. unfold Quantity, Quantity_DeepCopy. deep. Qed.
#[local] Hint Resolve Quantity_deep : deepcopy.
Lemma OwnerReference_deep : Deep OwnerReference_type OwnerReference_DeepCopyInto.
Proof. unfold OwnerReference_type, OwnerReference_DeepCopyInto. deep. Qed.
#[local] Hint Resolve OwnerReference_deep : deepcopy.
Lemma FieldsV1_deep : Deep FieldsV1 FieldsV1_DeepCopyInto.
Proof. unfold FieldsV1, FieldsV1_DeepCopyInto. deep. Qed.
#[local] Hint Resolve FieldsV1_deep : deepcopy.
Lemma ManagedFieldsEntry_deep : Deep ManagedFieldsEntry ManagedFieldsEntry_DeepCopyInto.
Proof. unfold ManagedFieldsEntry, ManagedFieldsEntry_DeepCopyInto. deep. Qed.
#[local] Hint Resolve ManagedFieldsEntry_deep : deepcopy.
Lemma ObjectMeta_deep : Deep ObjectMeta_type ObjectMeta_DeepCopyInto.
Proof. unfold ObjectMeta_type, ObjectMeta_DeepCopyInto. deep. Qed.
#[local] Hint Resolve ObjectMeta_deep : deepcopy.
Lemma ListMeta_deep : Deep ListMeta ListMeta_DeepCopyInto.
Proof. unfold ListMeta, ListMeta_DeepCopyInto. deep. Qed.
#[local] Hint Resolve ListMeta_deep : deepcopy.
Lemma LabelSelectorRequirement_deep : Deep LabelSelectorRequirement LabelSelectorRequirement_DeepCopyInto.
Proof. unfold LabelSelectorRequirement, LabelSelectorRequirement_DeepCopyInto. deep. Qed.
#[local] Hint Resolve LabelSelectorRequirement_deep : deepcopy.
Lemma LabelSelector_deep : Deep LabelSelector_type LabelSelector_DeepCopyInto.
Proof. unfold LabelSelector_type, LabelSelector_DeepCopyInto. deep. Qed.
#[local] Hint Resolve LabelSelector_deep : deepcopy.
Lemma ResourceRequirements_deep : Deep ResourceRequirements ResourceRequirements_DeepCopyInto.
Proof. unfold ResourceRequirements, ResourceRequirements_DeepCopyInto. deep. Qed.
#[local] Hint Resolve ResourceRequirements_deep : deepcopy.
Lemma TypedLocalObjectReference_deep : Deep TypedLocalObjectReference TypedLocalObjectReference_DeepCopyInto.
Proof. unfold TypedLocalObjectReference, TypedLocalObjectReference_DeepCopyInto. deep. Qed.
#[local] Hint Resolve TypedLocalObjectReference_deep : deepcopy.
Lemma PersistentVolumeClaimSpec_deep : Deep PersistentVolumeClaimSpec PersistentVolumeClaimSpec_DeepCopyInto.
Proof. unfold PersistentVolumeClaimSpec, PersistentVolumeClaimSpec_DeepCopyInto. deep. Qed.
#[local] Hint Resolve PersistentVolumeClaimSpec_deep : deepcopy.
Lemma PersistentVolumeClaimCondition_deep : Deep PersistentVolumeClaimCondition PersistentVolumeClaimCondition_DeepCopyInto.
Proof. unfold PersistentVolumeClaimCondition, PersistentVolumeClaimCondition_DeepCopyInto. deep. Qed.
#[local] Hint Resolve PersistentVolumeClaimCondition_deep : deepcopy.
Lemma PersistentVolumeClaimStatus_deep : Deep PersistentVolumeClaimStatus PersistentVolumeClaimStatus_DeepCopyInto.
Proof. unfold PersistentVolumeClaimStatus, PersistentVolumeClaimStatus_DeepCopyInto. deep. Qed.
#[local] Hint Resolve PersistentVolumeClaimStatus_deep : deepcopy.
Lemma PersistentVolumeClaim_deep : Deep PersistentVolumeClaim_type PersistentVolumeClaim_DeepCopyInto.
Proof. unfold PersistentVolumeClaim_type, PersistentVolumeClaim_DeepCopyInto. deep. Qed.
#[local] Hint Resolve PersistentVolumeClaim_deep : deepcopy.
End libraries.
#[export] Hint Resolve Time_deep Time_pointer_deep Quantity_deep OwnerReference_deep FieldsV1_deep ManagedFieldsEntry_deep ObjectMeta_deep ListMeta_deep LabelSelectorRequirement_deep LabelSelector_deep ResourceRequirements_deep TypedLocalObjectReference_deep PersistentVolumeClaimSpec_deep PersistentVolumeClaimCondition_deep PersistentVolumeClaimStatus_deep PersistentVolumeClaim_deep : deepcopy.

Section api.
Context (depth fuel : nat).
Hypothesis (Hfuel : depth ≤ fuel).
Notation Deep := (Deep depth).

Lemma Unstructured_deep : Deep Unstructured_type (Unstructured_DeepCopyInto fuel).
Proof. unfold Unstructured_type, Unstructured_DeepCopyInto. deep. by apply deep_json. Qed.
#[local] Hint Resolve Unstructured_deep : deepcopy.
Lemma UnstructuredObject_deep : Deep UnstructuredObject_type (map_copy (Unstructured_DeepCopyInto fuel)).
Proof. unfold UnstructuredObject_type. deep. Qed.
#[local] Hint Resolve UnstructuredObject_deep : deepcopy.
Lemma SecretKeySelector_deep : Deep SecretKeySelector_type SecretKeySelector_DeepCopyInto.
Proof. unfold SecretKeySelector_type, SecretKeySelector_DeepCopyInto. deep. Qed.
#[local] Hint Resolve SecretKeySelector_deep : deepcopy.
Lemma APITokenSource_deep : Deep APITokenSource_type APITokenSource_DeepCopyInto.
Proof. unfold APITokenSource_type, APITokenSource_DeepCopyInto. deep. Qed.
#[local] Hint Resolve APITokenSource_deep : deepcopy.
Lemma APITriggerEventSink_deep : Deep APITriggerEventSink_type APITriggerEventSink_DeepCopyInto.
Proof. unfold APITriggerEventSink_type, APITriggerEventSink_DeepCopyInto. deep. Qed.
#[local] Hint Resolve APITriggerEventSink_deep : deepcopy.
Lemma Condition_deep : Deep Condition_type Condition_DeepCopyInto.
Proof. unfold Condition_type, Condition_DeepCopyInto. deep. Qed.
#[local] Hint Resolve Condition_deep : deepcopy.
Lemma NamespaceTemplate_deep : Deep NamespaceTemplate_type NamespaceTemplate_DeepCopyInto.
Proof. unfold NamespaceTemplate_type, NamespaceTemplate_DeepCopyInto. deep. Qed.
#[local] Hint Resolve NamespaceTemplate_deep : deepcopy.
Lemma ToolInjection_deep : Deep ToolInjection_type ToolInjection_DeepCopyInto.
Proof. unfold ToolInjection_type, ToolInjection_DeepCopyInto. deep. Qed.
#[local] Hint Resolve ToolInjection_deep : deepcopy.
Lemma TriggerEventSink_deep : Deep TriggerEventSink_type TriggerEventSink_DeepCopyInto.
Proof. unfold TriggerEventSink_type, TriggerEventSink_DeepCopyInto. deep. Qed.
#[local] Hint Resolve TriggerEventSink_deep : deepcopy.
Lemma TenantSpec_deep : Deep TenantSpec_type TenantSpec_DeepCopyInto.
Proof. unfold TenantSpec_type, TenantSpec_DeepCopyInto. deep. Qed.
#[local] Hint Resolve TenantSpec_deep : deepcopy.
Lemma TenantCondition_deep : Deep TenantCondition_type TenantCondition_DeepCopyInto.
Proof. unfold TenantCondition_type, TenantCondition_DeepCopyInto. deep. Qed.
#[local] Hint Resolve TenantCondition_deep : deepcopy.
Lemma TenantStatus_deep : Deep TenantStatus_type TenantStatus_DeepCopyInto.
Proof. unfold TenantStatus_type, TenantStatus_DeepCopyInto. deep. Qed.
#[local] Hint Resolve TenantStatus_deep : deepcopy.
Lemma Tenant_deep : Deep Tenant_type Tenant_DeepCopyInto.
Proof. unfold Tenant_type, Tenant_DeepCopyInto. deep. Qed.
#[local] Hint Resolve Tenant_deep : deepcopy.
Lemma TenantList_deep : Deep TenantList_type TenantList_DeepCopyInto.
Proof. unfold TenantList_type, TenantList_DeepCopyInto, list_type. deep. Qed.
#[local] Hint Resolve TenantList_deep : deepcopy.
Lemma WebhookTriggerSpec_deep : Deep WebhookTriggerSpec_type (WebhookTriggerSpec_DeepCopyInto fuel).
Proof. unfold WebhookTriggerSpec_type, WebhookTriggerSpec_DeepCopyInto. deep. Qed.
#[local] Hint Resolve WebhookTriggerSpec_deep : deepcopy.
Lemma WebhookTriggerCondition_deep : Deep WebhookTriggerCondition_type WebhookTriggerCondition_DeepCopyInto.
Proof. unfold WebhookTriggerCondition_type, WebhookTriggerCondition_DeepCopyInto. deep. Qed.
#[local] Hint Resolve WebhookTriggerCondition_deep : deepcopy.
Lemma WebhookTriggerStatus_deep : Deep WebhookTriggerStatus_type WebhookTriggerStatus_DeepCopyInto.
Proof. unfold WebhookTriggerStatus_type, WebhookTriggerStatus_DeepCopyInto. deep. Qed.
#[local] Hint Resolve WebhookTriggerStatus_deep : deepcopy.
Lemma WebhookTrigger_deep : Deep WebhookTrigger_type (WebhookTrigger_DeepCopyInto fuel).
Proof. unfold WebhookTrigger_type, WebhookTrigger_DeepCopyInto. deep. Qed.
#[local] Hint Resolve WebhookTrigger_deep : deepcopy.
Lemma WebhookTriggerList_deep : Deep WebhookTriggerList_type (WebhookTriggerList_DeepCopyInto fuel).
Proof. unfold WebhookTriggerList_type, WebhookTriggerList_DeepCopyInto, list_type. deep. Qed.
#[local] Hint Resolve WebhookTriggerList_deep : deepcopy.
Lemma WorkflowStep_deep : Deep WorkflowStep_type (WorkflowStep_DeepCopyInto fuel).
Proof. unfold WorkflowStep_type, WorkflowStep_DeepCopyInto. deep. Qed.
#[local] Hint Resolve WorkflowStep_deep : deepcopy.
Lemma Workflow_deep : Deep Workflow_type (Workflow_DeepCopyInto fuel).
Proof. unfold Workflow_type, Workflow_DeepCopyInto. deep. Qed.
#[local] Hint Resolve Workflow_deep : deepcopy.
Lemma WorkflowRunSpec_deep : Deep WorkflowRunSpec_type (WorkflowRunSpec_DeepCopyInto fuel).
Proof. unfold WorkflowRunSpec_type, WorkflowRunSpec_DeepCopyInto. deep. Qed.
#[local] Hint Resolve WorkflowRunSpec_deep : deepcopy.
Lemma WorkflowRunState_deep : Deep WorkflowRunState_type (WorkflowRunState_DeepCopyInto fuel).
Proof. unfold WorkflowRunState_type, WorkflowRunState_DeepCopyInto. deep. Qed.
#[local] Hint Resolve WorkflowRunState_deep : deepcopy.
Lemma WorkflowRunStatusSummary_deep : Deep WorkflowRunStatusSummary_type WorkflowRunStatusSummary_DeepCopyInto.
Proof. unfold WorkflowRunStatusSummary_type, WorkflowRunStatusSummary_DeepCopyInto. deep. Qed.
#[local] Hint Resolve WorkflowRunStatusSummary_deep : deepcopy.
Lemma WorkflowRunStatus_deep : Deep WorkflowRunStatus_type WorkflowRunStatus_DeepCopyInto.
Proof. unfold WorkflowRunStatus_type, WorkflowRunStatus_DeepCopyInto. deep. Qed.
#[local] Hint Resolve WorkflowRunStatus_deep : deepcopy.
Lemma WorkflowRun_deep : Deep WorkflowRun_type (WorkflowRun_DeepCopyInto fuel).
Proof. unfold WorkflowRun_type, WorkflowRun_DeepCopyInto. deep. Qed.
#[local] Hint Resolve WorkflowRun_deep : deepcopy.
Lemma WorkflowRunList_deep : Deep WorkflowRunList_type (WorkflowRunList_DeepCopyInto fuel).
Proof. unfold WorkflowRunList_type, WorkflowRunList_DeepCopyInto, list_type. deep. Qed.
#[local] Hint Resolve WorkflowRunList_deep : deepcopy.
End api.
#[export] Hint Resolve Unstructured_deep UnstructuredObject_deep SecretKeySelector_deep APITokenSource_deep APITriggerEventSink_deep Condition_deep NamespaceTemplate_deep ToolInjection_deep TriggerEventSink_deep TenantSpec_deep TenantCondition_deep TenantStatus_deep Tenant_deep TenantList_deep WebhookTriggerSpec_deep WebhookTriggerCondition_deep WebhookTriggerStatus_deep WebhookTrigger_deep WebhookTriggerList_deep WorkflowStep_deep Workflow_deep WorkflowRunSpec_deep WorkflowRunState_deep WorkflowRunStatusSummary_deep WorkflowRunStatus_deep WorkflowRun_deep WorkflowRunList_deep : deepcopy.

Lemma copied_types_deep depth fuel :
  depth ≤ fuel →
  Forall (λ e : string * gotype * copier, Deep depth (TPointer e.1.2) e.2) (copied_types fuel).
Proof.
  intros Hn. unfold copied_types.
  repeat (apply List.Forall_cons; [apply deep_pointer; by auto with deepcopy|]). apply List.Forall_nil.
Qed.

Lemma copied_types_nil fuel (h : heap) :
  Forall (λ e : string * gotype * copier, e.2 (GRef KPointer None) h = (Ok (GRef KPointer None), h))
    (copied_types fuel).
Proof. unfold copied_types. by repeat constructor. Qed.

(** ** What a value reaches *)
Fixpoint refs (v : gval) : list loc :=
  match v with
  | GNil | GBasic _ | GRef _ None => []
  | GRef _ (Some l) => [l]
  | GStruct fs => (fix fields fs := match fs with [] => [] | (_, x) :: fs => refs x ++ fields fs end) fs
  end.
Definition cell_values (c : cell) : list gval :=
  match c with CPointer x => [x] | CSlice xs => xs | CMap m => (map_to_list m).*2 end.
Inductive reaches (h : heap) : gval → loc → Prop :=
| reaches_ref v l : l ∈ refs v → reaches h v l
| reaches_cell v k c x l :
    k ∈ refs v → h !! k = Some c → x ∈ cell_values c → reaches h x l → reaches h v l.

Section reach.
Context (old h : heap).

(** What is known of a cell that was allocated for a copy. *)
Definition copy_cell (l : loc) : Prop :=
  l ∉ dom old ∧ ∀ c x, h !! l = Some c → x ∈ cell_values c → ∃ depth t w, copy_of depth old h t w x.

Lemma refs_copied k (R : cell → cell → Prop) v v' l :
  (∀ c c' x, R c c' → x ∈ cell_values c' → ∃ depth t w, copy_of depth old h t w x) →
  refs_alike (λ l, l ∉ dom old) old h k R v v' → l ∈ refs v' → copy_cell l.
Proof.
  intros HR. destruct v as [| |k1 [l1|]|], v' as [| |k2 [l2|]|]; try done; [|by intros _ ?%elem_of_nil].
  intros (_ & _ & Hf & c & c' & E & E' & Hc) ->%list_elem_of_singleton. split; [done|].
  intros c2 x E2 Hx. assert (c2 = c') as -> by congruence. by eapply HR.
Qed.
Section contents.
Context (R : gval → gval → Prop) (HR : ∀ w x, R w x → ∃ depth t w, copy_of depth old h t w x).
Lemma pointer_contents c c' x : pointers_alike R c c' → x ∈ cell_values c' → ∃ depth t w, copy_of depth old h t w x.
Proof. destruct c, c'; try done. intros H ->%list_elem_of_singleton. by eapply HR. Qed.
Lemma slice_contents c c' x : slices_alike R c c' → x ∈ cell_values c' → ∃ depth t w, copy_of depth old h t w x.
Proof.
  destruct c, c'; try done. cbn. intros H Hx.
  eapply Forall2_Forall_r in H; [|by apply Forall_true, HR]. by eapply Forall_forall in H.
Qed.
Lemma map_contents c c' x : maps_alike R c c' → x ∈ cell_values c' → ∃ depth t w, copy_of depth old h t w x.
Proof.
  destruct c as [| |m], c' as [| |m']; try done. cbn. intros H [[k y] [-> Hx%elem_of_map_to_list]]%list_elem_of_fmap.
  specialize (H k). cbn in Hx. rewrite Hx in H. inversion_clear H as [w ? Hw|]. by eapply HR.
Qed.
End contents.

Lemma copy_refs depth t v v' l : copy_of depth old h t v v' → l ∈ refs v' → copy_cell l.
Proof.
  revert v v'. induction t as [|t IH|t IH|t IH|fs IH|] using gotype_fields_ind; intros v v'.
  - intros [-> Hv]. destruct v; try done. by intros ?%elem_of_nil.
  - apply refs_copied. intros c c' x. apply pointer_contents. intros w y Hy. by exists depth, t, w.
  - apply refs_copied. intros c c' x. apply slice_contents. intros w y Hy. by exists depth, t, w.
  - apply refs_copied. intros c c' x. apply map_contents. intros w y Hy. by exists depth, t, w.
  - intros (xs & xs' & -> & -> & H)%alike_struct. revert xs xs' H.
    induction IH as [|[n t] fs Ht _ IHf]; intros [|[n1 x] xs] [|[n2 x'] xs']; try done.
    + by intros _ ?%elem_of_nil.
    + intros (_ & _ & Hx & Hxs) [Hl|Hl]%elem_of_app; [by eapply Ht|by eapply IHf].
  - intros H. change (json_alike (λ l, l ∉ dom old) old h depth v v') in H.
    destruct depth as [|n]; [done|].
    assert (HR : ∀ w x, json_alike (λ l, l ∉ dom old) old h n w x → ∃ depth t w, copy_of depth old h t w x)
      by (intros w x Hx; by exists n, TJSON, w).
    destruct v as [|b|[] k|]; try done; cbn [json_alike] in H.
    + subst v'. by intros ?%elem_of_nil.
    + destruct H as [_ ->]. by intros ?%elem_of_nil.
    + revert H. apply refs_copied. intros c c' x. by apply slice_contents.
    + revert H. apply refs_copied. intros c c' x. by apply map_contents.
Qed.

Lemma copy_new depth t v v' l : copy_of depth old h t v v' → reaches h v' l → l ∉ dom old.
Proof.
  intros Hc Hr. revert depth t v Hc. induction Hr as [v' l Hl|v' k c x l Hk Ek Hx _ IH]; intros depth t v Hc.
  - by eapply copy_refs in Hl as [? _].
  - eapply copy_refs in Hk as [_ H]; [|exact Hc]. destruct (H c x Ek Hx) as (d & t' & w & Hw). by eapply IH.
Qed.
End reach.

(** C30: A deep copy of an object of the API is independent of it: for every type whose
    pointers are copied, copying a pointer to a value leaves every cell of the memory as
    it was, and makes a pointer to a value that is alike, with the same basic values, nil
    references, elements and keys at any depth, from which no cell of the memory as it
    was can be reached, so that no change of the copy can be seen in what was copied, or
    the other way around; a nil pointer is copied to nil. *)
Theorem copies_independent depth fuel h name t DeepCopy l :
  depth ≤ fuel → (name, t, DeepCopy) ∈ copied_types fuel →
  typed depth h (TPointer t) (pointer l) →
  (∃ l' h', DeepCopy (pointer l) h = (Ok (pointer l'), h') ∧ h ⊆ h'
     ∧ copy_of depth h h' (TPointer t) (pointer l) (pointer l')
     ∧ ∀ k, reaches h' (pointer l') k → k ∉ dom h)
  ∧ DeepCopy (GRef KPointer None) h = (Ok (GRef KPointer None), h).
Proof.
  intros Hn Hin Hv. split.
  2:{ exact (proj1 (Forall_forall _ _) (copied_types_nil fuel h) _ Hin). }
  assert (Hd := proj1 (Forall_forall _ _) (copied_types_deep _ _ Hn) _ Hin).
  destruct (Hd h h (pointer l) Hv) as (v' & h' & E & Hh & Hc); [done|].
  assert (Hp : ∃ l', v' = pointer l').
  { destruct v' as [| |k [l'|]|]; try done. destruct Hc as (_ & -> & _). by exists l'. }
  destruct Hp as [l' ->]. exists l', h'. split_and!; [done..|]. intros k. by eapply copy_new.
Qed.

(** ** Checking that a value is well-typed *)
Section check.
Context (depth : nat) (h : heap).

Definition check_ref (k : kind) (p : cell → bool) (v : gval) : bool :=
  match v with
  | GRef k' None => bool_decide (k' = k)
  | GRef k' (Some l) => bool_decide (k' = k) && match h !! l with Some c => p c | None => false end
  | _ => false
  end.
Definition check_slice (p : gval → bool) (c : cell) : bool :=
  match c with CSlice xs => forallb p xs | _ => false end.
Definition check_map (p : gval → bool) (c : cell) : bool :=
  match c with CMap m => forallb (λ e, p e.2) (map_to_list m) | _ => false end.
Fixpoint check_json (n : nat) (v : gval) : bool :=
  match n with
  | O => false
  | S n =>
      match v with
      | GNil => true
      | GBasic b => json_basic b
      | GRef KMap _ => check_ref KMap (check_map (check_json n)) v
      | GRef KSlice _ => check_ref KSlice (check_slice (check_json n)) v
      | _ => false
      end
  end.
Fixpoint well_typed (t : gotype) (v : gval) : bool :=
  match t with
  | TBasic => match v with GBasic _ => true | _ => false end
  | TPointer t => check_ref KPointer (λ c, match c with CPointer x => well_typed t x | _ => false end) v
  | TSlice t => check_ref KSlice (check_slice (well_typed t)) v
  | TMap t => check_ref KMap (check_map (well_typed t)) v
  | TStruct fs =>
      match v with
      | GStruct xs =>
          (fix fields fs xs :=
             match fs, xs with
             | [], [] => true
             | (n, t) :: fs, (n', x) :: xs => String.eqb n' n && well_typed t x && fields fs xs
             | _, _ => false
             end) fs xs
      | _ => false
      end
  | TJSON => check_json depth v
  end.

Section sound.
Context (p : gval → bool) (R : gval → gval → Prop) (Hp : ∀ v, p v = true → R v v).
Lemma check_ref_sound k q Q v :
  (∀ c, q c = true → Q c c) → check_ref k q v = true → refs_alike (λ _, True) h h k Q v v.
Proof.
  intros HQ. destruct v as [| |k' [l|]|]; try done; cbn.
  - intros [->%bool_decide_eq_true Hc]%andb_true_iff. destruct (h !! l) as [c|] eqn:E; [|done].
    split_and!; [done..|]. exists c, c. auto.
  - by intros ->%bool_decide_eq_true.
Qed.
Lemma check_slice_sound c : check_slice p c = true → slices_alike R c c.
Proof.
  destruct c as [|xs|]; try done. cbn. intros H. apply Forall_Forall2_diag, Forall_forall.
  intros x Hx. rewrite forallb_forall in H. by apply Hp, H, list_elem_of_In.
Qed.
Lemma check_map_sound c : check_map p c = true → maps_alike R c c.
Proof.
  destruct c as [| |m]; try done. cbn. intros H k. rewrite forallb_forall in H.
  destruct (m !! k) as [x|] eqn:E; constructor.
  by apply Hp, (H (k, x)), list_elem_of_In, elem_of_map_to_list.
Qed.
End sound.

Lemma check_json_sound n v : check_json n v = true → json_alike (λ _, True) h h n v v.
Proof.
  revert v. induction n as [|n IH]; intros v; [done|]. destruct v as [| |[] l|]; try done; cbn [check_json json_alike].
  - apply check_ref_sound. intros c. by apply check_slice_sound.
  - apply check_ref_sound. intros c. by apply check_map_sound.
Qed.
Lemma well_typed_sound t v : well_typed t v = true → typed depth h t v.
Proof.
  unfold typed. revert v. induction t as [|t IH|t IH|t IH|fs IH|] using gotype_fields_ind; intros v.
  - by destruct v.
  - apply check_ref_sound. intros [x| |]; try done. apply IH.
  - apply check_ref_sound. intros c. by apply check_slice_sound.
  - apply check_ref_sound. intros c. by apply check_map_sound.
  - destruct v as [| | |xs]; try done. intros H. apply alike_struct. exists xs, xs. split_and!; [done..|].
    revert xs H. induction IH as [|[n t] fs Ht _ IHf]; intros [|[n' x] xs]; try done.
    cbn. intros [[->%String.eqb_eq Hx]%andb_true_iff Hxs]%andb_true_iff. split_and!; auto.
  - apply check_json_sound.
Qed.
End check.

(** ** A workflow with a step whose specification has a list *)
Definition text (s : string) : gval := GBasic (BString s).
Definition as_unstructured (v : gval) : gval := GStruct [("value", GStruct [("Data", v)])].
Definition workflow_heap (x : gval) : heap :=
  {[1%positive := CPointer (GStruct [("Name", text "w"); ("Steps", GRef KSlice (Some 2%positive));
                                     ("Parameters", GRef KMap None)]);
    2%positive := CSlice [pointer 3];
    3%positive := CPointer (GStruct
      [("Name", text "s"); ("Image", text "alpine"); ("Spec", GRef KMap (Some 4%positive));
       ("Input", GRef KSlice None); ("Command", text ""); ("Args", GRef KSlice None);
       ("Env", GRef KMap None); ("When", as_unstructured GNil); ("DependsOn", GRef KSlice None)]);
    4%positive := CMap {["list" := as_unstructured (GRef KSlice (Some 5%positive))]};
    5%positive := CSlice [text "a"; x]]}.

Lemma copies_independent_witness :
  typed 3 (workflow_heap GNil) (TPointer Workflow_type) (pointer 1)
  ∧ ∃ l' h', Workflow_DeepCopy 3 (pointer 1) (workflow_heap GNil) = (Ok (pointer l'), h')
      ∧ workflow_heap GNil ⊆ h'
      ∧ copy_of 3 (workflow_heap GNil) h' (TPointer Workflow_type) (pointer 1) (pointer l')
      ∧ ∀ k, reaches h' (pointer l') k → k ∉ dom (workflow_heap GNil).
Proof.
  assert (Hv : typed 3 (workflow_heap GNil) (TPointer Workflow_type) (pointer 1))
    by (apply well_typed_sound; vm_compute; reflexivity).
  split; [exact Hv|].
  refine (proj1 (copies_independent 3 3 (workflow_heap GNil) "Workflow" Workflow_type
    (Workflow_DeepCopy 3) 1 _ _ Hv)); [lia|].
  unfold copied_types. do 18 right. left.
Defined.

(** JSON data has no integers but 64-bit ones: an object that was made of a workflow file,
    whose integers are [int], cannot be copied before it was written and read as JSON. *)
Lemma copy_of_int_panics :
  (Workflow_DeepCopy 3 (pointer 1) (workflow_heap (GBasic (BOther "int" "1")))).1
  = Panic "cannot deep copy int".
Proof. vm_compute. reflexivity. Qed.

(** Every kind that is registered can be copied. *)
Lemma registered_copied fuel :
  Forall (λ e, e.2 ∈ (copied_types fuel).*1.*1) (map_to_list (AddToScheme ∅)).
Proof. apply (bool_decide_unpack _). vm_compute. exact I. Qed.
