(* ===== verification/Merge.v ===== *)
(** * The function merge in memory (pkg/expr/fnlib/merge.go)

    [merge] writes into the map it is given, and stores maps of its arguments in it, which
    a later argument is then merged into.  So it is modelled on memory: a map is a
    reference to its entries, which others may hold as well.  [merge_unshared] relates it
    to [Fn.mergedDescriptor], the function of values that the library of functions has
    under its name: on arguments whose maps nobody else holds the two agree, and nothing
    but the arguments is written.  [merge_changes_argument] and [merge_of_itself] show
    what happens otherwise. *)
From S2P Require Import Prelude GoStd GoStrings Values Errors Transfer Fn Samples.

(** ** Memory

    A scalar is a [value] without lists and maps.  No function writes into a list, so that
    a list is its elements; a map is a reference, nil or not, to its entries. *)
Notation loc := positive.
Inductive obj : Type :=
| OScalar (v : value)
| OSlice (l : list obj)
| OMap (l : option loc).
Notation memory := (gmap loc (gmap string obj)).
Notation call := (effect error memory).
Definition invoker : Type := call obj.

Definition new (m : gmap string obj) : call loc := λ h,
  let l := fresh (dom h) in (Ok l, <[l := m]> h).

(** Reading a nil map is reading an empty one; writing to it panics. *)
Definition load (m : option loc) : call (gmap string obj) := λ h,
  (Ok (default ∅ (m ≫= λ l, h !! l)), h).
Definition store (m : option loc) (k : string) (o : obj) : call unit := λ h,
  match m with
  | Some l => (Ok tt, <[l := <[k := o]> (default ∅ (h !! l))]> h)
  | None => (Panic "assignment to entry in nil map", h)
  end.

(** [reflect.TypeOf] of an object, and the value [%q] prints, which does not end on a map
    that contains itself. *)
Definition dynamic (o : obj) : value :=
  match o with OScalar v => v | OSlice _ => VSlice [] | OMap _ => VMap ∅ end.
Fixpoint printed (fuel : nat) (o : obj) : call value :=
  match fuel with
  | O => lift (Panic "stack overflow")
  | S fuel =>
      match o with
      | OScalar v => mret v
      | OSlice l => vs ← mapM (printed fuel) l; mret (VSlice vs)
      | OMap m =>
          es ← load m;
          vs ← mapM (λ e, v ← printed fuel e.2; mret (e.1, v)) (map_to_list es);
          mret (VMap (list_to_map vs))
      end
  end.

(** ** The code *)
Section merge.
Context `{GoRuntime}.

(** The body of the loop.  It reads the entry when it comes to it, as [dst] may be the same
    map as [src]. *)
Definition merge_entry (merge : option loc → option loc → bool → call unit)
    (dst src : option loc) (deep : bool) (k : string) : call unit :=
  entries ← load src;
  match entries !! k with
  | None => mret tt
  | Some v =>
      old ← load dst;
      match deep, old !! k, v with
      | true, Some (OMap dm), OMap sm => merge dm sm deep
      | _, _, _ => store dst k v
      end
  end.

(** An entry added to [src] meanwhile is not visited: Go leaves open whether it is.  Maps
    that contain themselves overflow the stack. *)
Fixpoint merge (fuel : nat) (dst src : option loc) (deep : bool) : call unit :=
  match fuel with
  | O => lift (Panic "stack overflow")
  | S fuel =>
      entries ← load src;
      each_effect (merge_entry (merge fuel) dst src deep) (range_map entries).*1
  end.

Fixpoint mergeCast_from (i : nat) (os : list obj) : result (list (option loc)) :=
  match os with
  | [] => Ok []
  | OMap m :: os => objs ← mergeCast_from (S i) os; Ok (m :: objs)
  | o :: _ => Err (EMergeIndex i (unexpected TMap (dynamic o)))
  end.
Definition mergeCast (os : list obj) : result (list (option loc)) := mergeCast_from 0 os.

(** [r := make(...)], and each object merged into it. *)
Definition merge_objects (fuel : nat) (objs : list (option loc)) (deep : bool) : call obj :=
  r ← new ∅;
  _ ← each_effect (λ o, merge fuel (Some r) o deep) objs;
  mret (OMap (Some r)).

(** A descriptor of this function, whose invokers act on memory. *)
Record MemoryDescriptor := MkMemoryDescriptor {
  PositionalInvokerFunc : list obj → call invoker;
  KeywordInvokerFunc : gmap string obj → call invoker;
}.

Definition mergeDescriptor (fuel : nat) : MemoryDescriptor := {|
  PositionalInvokerFunc := λ args,
    if decide (length args = 0) then
      r ← new ∅; mret (mret (OMap (Some r)) : invoker)
    else mret (
      objs ← lift (map_err (positional 1) (mergeCast args));
      merge_objects fuel objs true : invoker);
  KeywordInvokerFunc := λ args,
    match args !! "objects" with
    | None => lift (Err (keyword "objects" (EFn ErrArgNotFound)))
    | Some oi =>
        let mode := default (OScalar (VString "deep")) (args !! "mode") in
        let unexpected_mode := v ← printed fuel mode; lift (Err (keyword "mode" (EMergeMode v))) in
        mret (
          deep ← match mode with
                 | OScalar (VString s) =>
                     if String.eqb s "deep" then mret true
                     else if String.eqb s "shallow" then mret false
                     else unexpected_mode
                 | _ => unexpected_mode
                 end;
          (* os, ok := oi.([]interface{}); the branch for !ok is empty: os is nil *)
          let os := match oi with OSlice os => os | _ => [] end in
          objs ← lift (map_err (keyword "objects") (mergeCast os));
          merge_objects fuel objs deep : invoker)
    end;
|}.
End merge.

(** ** Objects that nobody else holds

    [owned h X o v]: the object [o] stands for the value [v], and its maps are different
    cells of [X], each reached once. *)
Definition scalar (v : value) : bool :=
  match v with VSlice _ | VMap _ => false | _ => true end.

Inductive owned (h : memory) : gset loc → obj → value → Prop :=
| owned_scalar X v : scalar v = true → owned h X (OScalar v) v
| owned_slice X (Xs : nat → gset loc) os vs :
    length os = length vs →
    (∀ i o v, os !! i = Some o → vs !! i = Some v → owned h (Xs i) o v) →
    (∀ i, Xs i ⊆ X) → (∀ i j, i ≠ j → Xs i ## Xs j) →
    owned h X (OSlice os) (VSlice vs)
| owned_map X l (Xs : string → gset loc) es vs :
    h !! l = Some es →
    (∀ k, is_Some (es !! k) ↔ is_Some (vs !! k)) →
    (∀ k o v, es !! k = Some o → vs !! k = Some v → owned h (Xs k) o v) →
    l ∈ X → (∀ k, Xs k ⊆ X ∖ {[l]}) → (∀ k k', k ≠ k' → Xs k ## Xs k') →
    owned h X (OMap (Some l)) (VMap vs).

Lemma owned_frame h h' X o v :
  owned h X o v → (∀ l, l ∈ X → h' !! l = h !! l) → owned h' X o v.
Proof.
  induction 1 as [X v Hv|X Xs os vs Hl _ IH Hs Hd|X l Xs es vs Hh He _ IH Hx Hs Hd]; intros Hf.
  - by constructor.
  - econstructor; eauto. intros i o v Ho Hv. eapply IH; eauto. intros l Hi. by apply Hf, (Hs i).
  - econstructor; eauto.
    + rewrite Hf; eauto.
    + intros k o v Ho Hv. eapply IH; eauto. intros i Hi. apply Hf.
      specialize (Hs k i Hi). set_solver.
Qed.

Lemma owned_weaken h X Y o v : owned h X o v → X ⊆ Y → owned h Y o v.
Proof.
  intros Ho HX. destruct Ho; econstructor; eauto; set_solver.
Qed.

(** The entries of one map, each with the cells it owns. *)
Definition entries (h : memory) (Xs : string → gset loc) (es : gmap string obj)
    (vs : gmap string value) : Prop :=
  ∀ k, match es !! k, vs !! k with
       | Some o, Some v => owned h (Xs k) o v
       | None, None => True
       | _, _ => False
       end.
Definition apart (l : loc) (Xs : string → gset loc) : Prop :=
  (∀ k, l ∉ Xs k) ∧ ∀ k k', k ≠ k' → Xs k ## Xs k'.

Lemma owned_map_iff h X m vs :
  owned h X (OMap m) (VMap vs) ↔
  ∃ l Xs es, m = Some l ∧ h !! l = Some es ∧ entries h Xs es vs ∧ apart l Xs
    ∧ l ∈ X ∧ ∀ k, Xs k ⊆ X.
Proof.
  split.
  - intros Ho. inversion Ho as [| |? l Xs es ? Hh Hk He Hl Hs Hd]; subst.
    exists l, Xs, es. split_and!; try done; [|split; set_solver|set_solver].
    intros k. specialize (Hk k). specialize (He k).
    destruct (es !! k), (vs !! k); [by apply He| | |done].
    + by apply (is_Some_None (A:=value)), Hk.
    + by apply (is_Some_None (A:=obj)), Hk.
  - intros (l & Xs & es & -> & Hh & He & [Hl Hd] & Hx & Hs). econstructor; eauto; [| |set_solver].
    + intros k. specialize (He k). destruct (es !! k), (vs !! k); naive_solver.
    + intros k o v Ho Hv. specialize (He k). by rewrite Ho, Hv in He.
Qed.

(** ** Merging into a map that nobody else holds *)
Definition entry_value (deep : bool) (sv dv : gmap string value) (k : string) : gmap string value :=
  match sv !! k with Some v => <[k := merged_value deep (dv !! k) v]> dv | None => dv end.

Lemma lookup_entry_value deep sv dv k j :
  entry_value deep sv dv k !! j =
  if decide (j = k)
  then match sv !! k with Some v => Some (merged_value deep (dv !! k) v) | None => dv !! k end
  else dv !! j.
Proof.
  unfold entry_value. case_decide as Hj; [subst|]; destruct (sv !! k); try done.
  - by rewrite lookup_insert_eq.
  - by rewrite lookup_insert_ne.
Qed.

Lemma lookup_entry_values deep sv ks dv k :
  NoDup ks →
  foldl (entry_value deep sv) dv ks !! k =
  if decide (k ∈ ks) then entry_value deep sv dv k !! k else dv !! k.
Proof.
  revert dv. induction ks as [|i ks IH]; intros dv Hnd; cbn; [done|].
  apply NoDup_cons in Hnd as [Hi Hnd]. rewrite IH, !lookup_entry_value by done.
  destruct (decide (k = i)) as [->|Hk].
  - rewrite (decide_False (P:=i ∈ ks)), (decide_True (P:=i ∈ i :: ks)) by (done || set_solver).
    by rewrite decide_True.
  - rewrite !(decide_True (P:=k = k)) by done.
    repeat case_decide; set_solver.
Qed.

Lemma entry_values deep sv ks dv :
  NoDup ks → (∀ k, is_Some (sv !! k) → k ∈ ks) →
  foldl (entry_value deep sv) dv ks = merged dv sv deep.
Proof.
  intros Hnd Hks. apply map_eq. intros k.
  rewrite lookup_entry_values, lookup_merged, lookup_entry_value, (decide_True (P:=k = k)) by done.
  specialize (Hks k). destruct (sv !! k); [rewrite decide_True by eauto|case_decide]; done.
Qed.

Lemma entries_insert h Xs es dv k o v X :
  entries h Xs es dv → owned h X o v →
  entries h (λ j, if decide (j = k) then X else Xs j) (<[k := o]> es) (<[k := v]> dv).
Proof.
  intros He Ho j. destruct (decide (j = k)) as [->|Hne].
  - by rewrite !lookup_insert_eq.
  - rewrite !lookup_insert_ne by done. apply He.
Qed.

Lemma entries_frame h h' Xs es dv :
  entries h Xs es dv → (∀ k l, l ∈ Xs k → h' !! l = h !! l) → entries h' Xs es dv.
Proof.
  intros He Hf k. specialize (He k). destruct (es !! k), (dv !! k); try done.
  eapply owned_frame; [done|]. apply Hf.
Qed.

Lemma entries_Some h Xs es dv k v :
  entries h Xs es dv → dv !! k = Some v → ∃ o, es !! k = Some o ∧ owned h (Xs k) o v.
Proof. intros He Hk. specialize (He k). rewrite Hk in He. destruct (es !! k); [eauto|done]. Qed.

(** A map [d] with entries [dv] of its own, into which a map [s] with entries [sv] of its
    own is being merged; the keys [ks] remain. *)
Record merging (h : memory) (d s : loc) (Xs Ys : string → gset loc)
    (dv sv : gmap string value) (ks : list string) : Prop := {
  mg_dst : ∃ es, h !! d = Some es ∧ entries h Xs es dv;
  mg_src : ∃ es, h !! s = Some es
    ∧ ∀ k, k ∈ ks → ∃ o v, es !! k = Some o ∧ sv !! k = Some v ∧ owned h (Ys k) o v;
  mg_dst_apart : apart d Xs;
  mg_src_apart : apart s Ys;
  mg_outside : s ≠ d ∧ (∀ k, s ∉ Xs k) ∧ ∀ k, d ∉ Ys k;
  mg_keys : NoDup ks ∧ ∀ k j, k ∈ ks → Xs j ## Ys k;
}.

Definition grown (Xs Ys : string → gset loc) (k : string) : string → gset loc :=
  λ j, if decide (j = k) then Xs k ∪ Ys k else Xs j.

Lemma grown_apart d Xs Ys k :
  apart d Xs → (∀ j, Xs j ## Ys k) → (∀ j, d ∉ Ys j) → apart d (grown Xs Ys k).
Proof.
  intros [H1 H2] Hk Hd. unfold grown. split.
  - intros j. case_decide; [|done]. apply not_elem_of_union. by split.
  - intros i j Hij. repeat case_decide; subst; [done|..|by apply H2].
    + apply disjoint_union_l. split; [by apply H2|]. symmetry. apply Hk.
    + apply disjoint_union_r. split; [by apply H2|apply Hk].
Qed.

(** After one entry, written by a call that keeps to the cells of the entry. *)
Lemma merging_step h h' d s Xs Ys dv dv' sv k ks es :
  merging h d s Xs Ys dv sv (k :: ks) →
  h' !! d = Some es → entries h' (grown Xs Ys k) es dv' →
  (∀ l, l ≠ d → l ∉ Xs k → h' !! l = h !! l) →
  merging h' d s (grown Xs Ys k) Ys dv' sv ks.
Proof.
  intros [Hd (ss & Hs & Hss) [Hd1 Hd2] [Hs1 Hs2] (Ho1 & Ho2 & Ho3) [Hnd Hk]] Hd' He Hf.
  apply NoDup_cons in Hnd as [Hki Hnd]. unfold grown in *. split.
  - by exists es.
  - exists ss. rewrite Hf by done. split; [done|]. intros j Hj.
    destruct (Hss j) as (o & v & Ho & Hv & Hov); [by right|]. exists o, v. split_and!; [done..|].
    eapply owned_frame; [done|]. intros l Hl. apply Hf.
    + intros ->. by apply (Ho3 j).
    + intros Hx. by apply (Hk j k (list_elem_of_further _ _ _ Hj) l).
  - apply grown_apart; [done| |done]. intros j. apply Hk. by left.
  - done.
  - split_and!; [done| |done]. intros j. unfold grown.
    case_decide; [|done]. apply not_elem_of_union. split; [apply Ho2|apply Hs1].
  - split; [done|]. intros i j Hi. unfold grown.
    assert (i ≠ k) by (by intros ->). case_decide; [|apply Hk; by right].
    apply disjoint_union_l. split; [apply Hk; by right|by apply Hs2].
Qed.

Section loop.
Context `{GoRuntime} (rec : option loc → option loc → bool → call unit) (n : nat).
Context (Hrec : ∀ dst src deep h X Y dm sm,
  owned h X (OMap dst) (VMap dm) → owned h Y (OMap src) (VMap sm) → X ## Y →
  vsize (VMap sm) ≤ n →
  ∃ h', rec dst src deep h = (Ok tt, h')
    ∧ owned h' (X ∪ Y) (OMap dst) (VMap (merged dm sm deep))
    ∧ ∀ l, l ∉ X → h' !! l = h !! l).

Lemma store_owned h d k o v Xs Ys es dv :
  h !! d = Some es → entries h Xs es dv → apart d Xs → d ∉ Ys k → owned h (Ys k) o v →
  ∃ h' es', store (Some d) k o h = (Ok tt, h') ∧ h' !! d = Some es'
    ∧ entries h' (grown Xs Ys k) es' (<[k := v]> dv) ∧ ∀ l, l ≠ d → l ∉ Xs k → h' !! l = h !! l.
Proof.
  intros Hd He [Ha _] Hk Ho. unfold store. rewrite Hd. cbn.
  assert (Hf : ∀ l, l ≠ d → <[d := <[k := o]> es]> h !! l = h !! l) by (intros; by rewrite lookup_insert_ne).
  eexists _, (<[k := o]> es). split_and!; [done|by rewrite lookup_insert_eq| |auto].
  apply entries_insert.
  - eapply entries_frame; [done|]. intros j l Hl. apply Hf. intros ->. by apply (Ha j).
  - eapply owned_weaken; [|apply union_subseteq_r]. eapply owned_frame; [done|].
    intros l Hl. apply Hf. by intros ->.
Qed.

Lemma entry_owned h d s Xs Ys dv sv k ks deep :
  merging h d s Xs Ys dv sv (k :: ks) → (∀ v, sv !! k = Some v → vsize v ≤ n) →
  ∃ h', merge_entry rec (Some d) (Some s) deep k h = (Ok tt, h')
    ∧ merging h' d s (grown Xs Ys k) Ys (entry_value deep sv dv k) sv ks
    ∧ ∀ l, l ≠ d → l ∉ Xs k → h' !! l = h !! l.
Proof.
  intros Hm Hn. destruct (Hm) as [(es & Hd & He) (ss & Hs & Hss) Ha _ (_ & _ & Hdy) [_ Hk]].
  destruct (Hss k) as (o & v & Ho & Hv & Hov); [by left|].
  assert (Hstep : ∀ v', (∃ h' es', merge_entry rec (Some d) (Some s) deep k h = (Ok tt, h')
      ∧ h' !! d = Some es' ∧ entries h' (grown Xs Ys k) es' (<[k := v']> dv)
      ∧ ∀ l, l ≠ d → l ∉ Xs k → h' !! l = h !! l) → merged_value deep (dv !! k) v = v' →
    ∃ h', merge_entry rec (Some d) (Some s) deep k h = (Ok tt, h')
    ∧ merging h' d s (grown Xs Ys k) Ys (entry_value deep sv dv k) sv ks
    ∧ ∀ l, l ≠ d → l ∉ Xs k → h' !! l = h !! l).
  { intros v' (h' & es' & Hr & Hd' & He' & Hf) <-. exists h'. split_and!; [done| |done].
    eapply merging_step; [done..| |done]. unfold entry_value. by rewrite Hv. }
  assert (Hrun : merge_entry rec (Some d) (Some s) deep k h =
    match deep, es !! k, o with
    | true, Some (OMap dm), OMap sm => rec dm sm deep
    | _, _, _ => store (Some d) k o
    end h).
  { unfold merge_entry, load. rewrite effect_bind_run. cbn. rewrite Hs. cbn. rewrite Ho, effect_bind_run.
    cbn. by rewrite Hd. }
  specialize (He k) as Hek.
  destruct (decide (deep = true ∧ is_Some (dv !! k ≫= as_map) ∧ is_Some (as_map v))) as [Hmaps|Hmaps].
  - destruct Hmaps as (-> & [dm Hdm] & [sm Hsm]). destruct v; try discriminate Hsm. injection Hsm as ->.
    destruct (dv !! k) as [[]|] eqn:Hdk; try discriminate Hdm. injection Hdm as ->.
    destruct (es !! k) as [eo|] eqn:Hes; [|done].
    assert (∃ dl sl, eo = OMap dl ∧ o = OMap sl) as (dl & sl & -> & ->)
      by (inversion Hek; inversion Hov; naive_solver).
    destruct (Hrec dl sl true h (Xs k) (Ys k) dm sm) as (h' & Hr & Ho' & Hf); [done..|by apply Hk; left|by apply Hn|].
    apply (Hstep (VMap (merged dm sm true))); [|done]. exists h', es. split_and!.
    + by rewrite Hrun.
    + rewrite Hf; [done|apply Ha].
    + intros j. unfold grown. destruct (decide (j = k)) as [->|Hj].
      * by rewrite lookup_insert_eq, Hes.
      * rewrite lookup_insert_ne by done. specialize (He j). destruct (es !! j), (dv !! j); try done.
        eapply owned_frame; [done|]. intros l Hl. apply Hf. intros Hx.
        by apply (proj2 Ha j k Hj l).
    + intros l _. apply Hf.
  - apply (Hstep v).
    + rewrite Hrun. destruct (store_owned h d k o v Xs Ys es dv) as (h' & es' & Hst); [done..|].
      exists h', es'. rewrite <- (proj1 Hst) at 1. split; [|apply Hst].
      destruct deep, (es !! k) as [[]|], o; try done. exfalso. apply Hmaps.
      destruct (dv !! k); [|done]. inversion Hek; inversion Hov; subst; cbn; eauto.
    + destruct v, deep; try done. destruct (dv !! k) as [[]|]; try done. exfalso. apply Hmaps. eauto.
Qed.

Lemma loop_owned deep d s sv ks h Xs Ys dv :
  merging h d s Xs Ys dv sv ks → (∀ k v, sv !! k = Some v → vsize v ≤ n) →
  ∃ h' Xs' es, each_effect (merge_entry rec (Some d) (Some s) deep) ks h = (Ok tt, h')
    ∧ h' !! d = Some es ∧ entries h' Xs' es (foldl (entry_value deep sv) dv ks) ∧ apart d Xs'
    ∧ (∀ j, Xs' j ⊆ Xs j ∪ Ys j)
    ∧ ∀ l, l ≠ d → (∀ j, j ∈ ks → l ∉ Xs j) → h' !! l = h !! l.
Proof.
  intros Hm Hn. revert h Xs dv Hm. induction ks as [|k ks IH]; intros h Xs dv Hm; cbn.
  { destruct Hm as [(es & Hd & He) _ Ha _ _ _]. exists h, Xs, es. split_and!; try done. set_solver. }
  assert (Hki : k ∉ ks) by (by destruct (mg_keys _ _ _ _ _ _ _ _ Hm) as [[? _]%NoDup_cons _]).
  destruct (entry_owned h d s Xs Ys dv sv k ks deep) as (h1 & Hr & Hm1 & Hf1); [done|by apply Hn|].
  destruct (IH _ _ _ Hm1) as (h' & Xs' & es & Hr' & Hd & He & Ha & Hs & Hf).
  exists h', Xs', es. split_and!; try done.
  - by rewrite effect_bind_run, Hr.
  - intros j. specialize (Hs j). unfold grown in Hs. case_decide; set_solver.
  - intros l Hl Hj. rewrite Hf, Hf1; [done|done|by apply Hj; left|done|].
    intros j Hjk. unfold grown. rewrite decide_False by (by intros ->). apply Hj. by right.
Qed.
End loop.

Section owned.
Context `{GoRuntimeLaws}.

(** Merging a map that nobody else holds into another: the first then stands for the
    merged value, and has taken over cells of the second; only its own were written. *)
Lemma merge_owned fuel dst src deep h X Y dm sm :
  owned h X (OMap dst) (VMap dm) → owned h Y (OMap src) (VMap sm) → X ## Y →
  vsize (VMap sm) ≤ fuel →
  ∃ h', merge fuel dst src deep h = (Ok tt, h')
    ∧ owned h' (X ∪ Y) (OMap dst) (VMap (merged dm sm deep))
    ∧ ∀ l, l ∉ X → h' !! l = h !! l.
Proof.
  revert dst src deep h X Y dm sm. induction fuel as [|fuel IH];
    intros dst src deep h X Y dm sm Hd Hs Hxy Hn; [cbn in Hn; lia|].
  apply owned_map_iff in Hd as (d & Xs & es & -> & Hd & He & Ha & Hdx & Hxs).
  apply owned_map_iff in Hs as (s & Ys & ss & -> & Hs & Hss & Hb & Hsy & Hys).
  assert (Hkeys : ∀ k, k ∈ (range_map ss).*1 ↔ is_Some (ss !! k)).
  { intros k. rewrite list_elem_of_fmap. split.
    - intros ([k' o] & -> & Ho%elem_of_range_map). by exists o.
    - intros [o Ho]. exists (k, o). by rewrite elem_of_range_map. }
  destruct (loop_owned (merge fuel) fuel IH deep d s sm (range_map ss).*1 h Xs Ys dm)
    as (h' & Xs' & es' & Hr & Hd' & He' & Ha' & Hs' & Hf).
  - split; [by exists es| |done|done| |].
    + exists ss. split; [done|]. intros k [o Ho]%Hkeys. specialize (Hss k). rewrite Ho in Hss.
      destruct (sm !! k) as [v|] eqn:Hv; [by exists o, v|done].
    + split_and!; [set_solver|set_solver|set_solver].
    + split; [apply range_map_NoDup|]. set_solver.
  - intros k v Hk. apply vsize_map in Hk. lia.
  - exists h'. split_and!.
    + cbn [merge]. rewrite effect_bind_run. unfold load at 1. cbn. by rewrite Hs.
    + rewrite entry_values in He'; [| apply range_map_NoDup |].
      * apply owned_map_iff. exists d, Xs', es'. split_and!; try done; [set_solver|].
        intros k. specialize (Hs' k). set_solver.
      * intros k [v Hv]. apply Hkeys. destruct (entries_Some _ _ _ _ _ _ Hss Hv) as (o & Ho & _).
        by exists o.
    + intros l Hl. apply Hf; set_solver.
Qed.

Lemma each_owned fuel deep r os vs h X (Xs : nat → gset loc) dm :
  owned h X (OMap r) (VMap dm) → length os = length vs →
  (∀ i o m, os !! i = Some o → vs !! i = Some m → owned h (Xs i) (OMap o) (VMap m)) →
  (∀ i, X ## Xs i) → (∀ i j, i ≠ j → Xs i ## Xs j) →
  (∀ m, m ∈ vs → vsize (VMap m) ≤ fuel) →
  ∃ h' X', each_effect (λ o, merge fuel r o deep) os h = (Ok tt, h')
    ∧ owned h' X' (OMap r) (VMap (foldl (λ r obj, merged r obj deep) dm vs))
    ∧ (∀ l, l ∈ X' → l ∈ X ∨ ∃ i, l ∈ Xs i)
    ∧ ∀ l, l ∉ X → (∀ i, l ∉ Xs i) → h' !! l = h !! l.
Proof.
  revert vs h X Xs dm. induction os as [|o os IH]; intros [|m vs] h X Xs dm Hr Hl Hos Hx Hxs Hn;
    try discriminate Hl.
  { exists h, X. split_and!; try done. by left. }
  destruct (merge_owned fuel r o deep h X (Xs 0) dm m Hr) as (h1 & H1 & Ho1 & Hf1).
  { by apply (Hos 0). }
  { apply Hx. }
  { apply Hn. by left. }
  destruct (IH vs h1 (X ∪ Xs 0) (λ i, Xs (S i)) (merged dm m deep)) as (h' & X' & H2 & Ho2 & Hs2 & Hf2).
  - done.
  - by injection Hl.
  - intros i o' m' Ho' Hm'. eapply owned_frame; [by apply (Hos (S i))|].
    intros l Hli. apply Hf1. specialize (Hx (S i)). set_solver.
  - intros i. apply disjoint_union_l. split; [apply Hx|by apply Hxs].
  - intros i j Hij. apply Hxs. lia.
  - intros m' Hm'. apply Hn. by right.
  - exists h', X'. split_and!; try done.
    + cbn. by rewrite effect_bind_run, H1.
    + intros l [[]%elem_of_union|[i Hi]]%Hs2; eauto.
    + intros l Hlx Hli. rewrite Hf2, Hf1; [done|done| |by intros].
      apply not_elem_of_union. by split.
Qed.

Lemma owned_dom h X o v : owned h X o v → owned h (X ∩ dom h) o v.
Proof.
  induction 1 as [X v Hv|X Xs os vs Hl _ IH Hs Hd|X l Xs es vs Hh He _ IH Hx Hs Hd].
  - by constructor.
  - apply (owned_slice _ _ (λ i, Xs i ∩ dom h)); [done|done| |].
    + intros i. specialize (Hs i). set_solver.
    + intros i j Hij. specialize (Hd i j Hij). set_solver.
  - apply (owned_map _ _ _ (λ k, Xs k ∩ dom h) es); [done..| | |].
    + apply elem_of_dom_2 in Hh. set_solver.
    + intros k. specialize (Hs k). set_solver.
    + intros i j Hij. specialize (Hd i j Hij). set_solver.
Qed.

(** [mergeCast] depends on the types of the arguments only. *)
Lemma mergeCast_owned h X args vs :
  owned h X (OSlice args) (VSlice vs) →
  match mergedCast vs with
  | Ok ms => ∃ objs, mergeCast args = Ok objs ∧ args = OMap <$> objs ∧ vs = VMap <$> ms
  | Err e => mergeCast args = Err e
  | Panic _ => False
  end.
Proof.
  intros Ho. inversion Ho as [|? Xs ? ? Hl Hos _ _|]; subst. clear Ho.
  unfold mergedCast, mergeCast. generalize 0 at 1 2 3. intros n. revert vs n Xs Hl Hos.
  induction args as [|o args IH]; intros [|v vs] n Xs Hl Hos; try discriminate Hl; cbn.
  { by exists []. }
  injection Hl as Hl. assert (Hov := Hos 0 o v eq_refl eq_refl).
  assert (Hargs := IH vs (S n) (λ i, Xs (S i)) Hl (λ i, Hos (S i))).
  inversion Hov as [? ? Hs|? ? ? ? Hlen|]; subst; cbn.
  - destruct v; try discriminate Hs; done.
  - done.
  - destruct (mergedCast_from (S n) vs) as [ms| |]; cbn; [|by rewrite Hargs|done].
    destruct Hargs as (objs & -> & -> & ->). by eexists (Some l :: objs).
Qed.

(** The new map, with the arguments merged into it one after the other. *)
Lemma merge_objects_owned fuel deep objs ms h X :
  owned h X (OSlice (OMap <$> objs)) (VSlice (VMap <$> ms)) →
  (∀ m, m ∈ ms → vsize (VMap m) ≤ fuel) →
  ∃ h' X' o, merge_objects fuel objs deep h = (Ok o, h')
    ∧ owned h' X' o (VMap (merged_all deep ms))
    ∧ (∀ l, l ∈ X' → l ∈ X ∨ h !! l = None)
    ∧ ∀ l, l ∉ X → is_Some (h !! l) → h' !! l = h !! l.
Proof.
  intros Ho%owned_dom Hn. set (r := fresh (dom h)). assert (Hr : r ∉ dom h) by apply is_fresh.
  inversion Ho as [|? Xs ? ? Hl Hos Hs Hd|]; subst. rewrite !length_fmap in Hl.
  destruct (each_owned fuel deep (Some r) objs ms (<[r := ∅]> h) {[r]} Xs ∅)
    as (h' & X' & He & Ho' & Hx & Hf).
  - apply owned_map_iff. exists r, (λ _, ∅), ∅. split_and!; [done|by rewrite lookup_insert_eq|done| |set_solver|set_solver].
    split; [|done]. intros k. apply not_elem_of_empty.
  - done.
  - intros i o m Hi Hm. eapply owned_frame.
    + apply (Hos i); rewrite list_lookup_fmap; [by rewrite Hi|by rewrite Hm].
    + intros l Hli. rewrite lookup_insert_ne; [done|]. intros <-. apply (Hs i) in Hli. set_solver.
  - intros i l Hl1%elem_of_singleton Hl2. subst l. specialize (Hs i _ Hl2). set_solver.
  - done.
  - done.
  - exists h', X', (OMap (Some r)). split_and!.
    + unfold merge_objects. rewrite effect_bind_run. unfold new. cbn [fst snd]. fold r.
      by rewrite effect_bind_run, He.
    + done.
    + intros l [->%elem_of_singleton|[i Hi%Hs]]%Hx; [right; by apply not_elem_of_dom|left; set_solver].
    + intros l Hlx Hlh. apply elem_of_dom in Hlh. rewrite Hf, lookup_insert_ne; [done|by intros <-|set_solver|].
      intros i Hi%Hs. set_solver.
Qed.

(** What a call returns is what the function of values returns: an object of the cells of
    the arguments and of new ones, which nobody else holds, or the same error.  No other
    cell is written. *)
Definition as_value (spec : result value) (h : memory) (X : gset loc) (m : call invoker) : Prop :=
  ∃ h', (∀ l, l ∉ X → is_Some (h !! l) → h' !! l = h !! l)
    ∧ match spec with
      | Ok v => ∃ o X', (i ← m; i) h = (Ok o, h') ∧ owned h' X' o v
                        ∧ ∀ l, l ∈ X' → l ∈ X ∨ h !! l = None
      | Err e => (i ← m; i) h = (Err e, h')
      | Panic _ => False
      end.

Lemma invoke_as_value fuel deep (wrap : error → error) args vs h X :
  owned h X (OSlice args) (VSlice vs) → vsize (VSlice vs) ≤ fuel →
  as_value (ms ← map_err wrap (mergedCast vs); Ok (VMap (merged_all deep ms))) h X
    (mret (objs ← lift (map_err wrap (mergeCast args)); merge_objects fuel objs deep)).
Proof.
  intros Ho Hn. apply mergeCast_owned in Ho as Hc.
  destruct (mergedCast vs) as [ms|e|]; [|by exists h; rewrite Hc|done].
  destruct Hc as (objs & Hc & -> & ->).
  destruct (merge_objects_owned fuel deep objs ms h X Ho) as (h' & X' & o & Hr & Ho' & Hx & Hf).
  - intros m Hm. apply (list_elem_of_fmap_2 VMap), vsize_slice in Hm. lia.
  - exists h'. split; [done|]. cbn. exists o, X'. split_and!; [|done..].
    by rewrite !effect_bind_run, Hc.
Qed.

(** The positional form agrees with [Fn.mergedDescriptor] on arguments that nobody else
    holds. *)
Theorem merge_unshared fuel args vs h X :
  owned h X (OSlice args) (VSlice vs) → vsize (VSlice vs) ≤ fuel →
  as_value (i ← PositionalInvoker mergedDescriptor vs; i tt) h X
    (PositionalInvokerFunc (mergeDescriptor fuel) args).
Proof.
  intros Ho Hn. assert (Hl : length args = length vs) by by inversion Ho.
  unfold PositionalInvoker. cbn. rewrite Hl. case_decide as Hz.
  - set (r := fresh (dom h)). assert (Hr : h !! r = None) by apply not_elem_of_dom, is_fresh.
    exists (<[r := ∅]> h). split.
    + intros l _ [m Hm]. rewrite lookup_insert_ne; congruence.
    + exists (OMap (Some r)), {[r]}. split_and!; [done| |intros l ->%elem_of_singleton; by right].
      apply owned_map_iff. exists r, (λ _, ∅), ∅.
      split_and!; [done|by rewrite lookup_insert_eq|done| |set_solver|set_solver].
      split; [|done]. intros k. apply not_elem_of_empty.
  - by apply invoke_as_value.
Qed.

(** The keyword form does, with a mode that is a string. *)
Theorem merge_unshared_keywords fuel args vs h Xs l mode :
  entries h Xs args vs → vs !! "objects" = Some (VSlice l) → vsize (VSlice l) ≤ fuel →
  default (VString "deep") (vs !! "mode") = VString mode →
  mode = "deep" ∨ mode = "shallow" →
  as_value (i ← KeywordInvoker mergedDescriptor vs; i tt) h (Xs "objects")
    (KeywordInvokerFunc (mergeDescriptor fuel) args).
Proof.
  intros He Ho Hn Hmode Hm. destruct (entries_Some _ _ _ _ _ _ He Ho) as (oi & Hoi & Hov).
  assert (∃ os, oi = OSlice os) as [os ->] by (inversion Hov; eauto; done).
  assert (Hom : default (OScalar (VString "deep")) (args !! "mode") = OScalar (VString mode)).
  { specialize (He "mode"). destruct (args !! "mode") as [o|], (vs !! "mode") as [v|]; try done.
    - cbn in Hmode |- *. subst. by inversion He.
    - cbn in Hmode |- *. by injection Hmode as <-. }
  unfold KeywordInvoker. cbn. rewrite Ho, Hoi, Hom. cbn. rewrite Hmode.
  destruct Hm as [-> | ->]; cbn.
  - by apply (invoke_as_value fuel true (keyword "objects")).
  - by apply (invoke_as_value fuel false (keyword "objects")).
Qed.
End owned.

(** ** Objects that others hold as well *)

(** A parameter [{"a": {"c": 2}}], at 1, and an argument [{"a": {"b": 1}}], at 3: calling
    merge on the two adds an entry to the parameter's map. *)
Definition shared_memory : memory :=
  list_to_map [(1%positive, {["a" := OMap (Some 2%positive)]});
    (2%positive, {["c" := OScalar (VInt 2)]});
    (3%positive, {["a" := OMap (Some 4%positive)]});
    (4%positive, {["b" := OScalar (VInt 1)]})].
Definition at_loc (l : loc) : obj := OMap (Some l).
Definition call_merge (fuel : nat) (args : list obj) : call obj :=
  i ← PositionalInvokerFunc (@mergeDescriptor forward_runtime fuel) args; i.

Lemma merge_changes_argument :
  let h' := (call_merge 5 [at_loc 1; at_loc 3] shared_memory).2 in
  printed 5 (at_loc 1) shared_memory = (Ok (VMap {["a" := VMap {["c" := VInt 2]}]}), shared_memory)
  ∧ printed 5 (at_loc 1) h'
    = (Ok (VMap {["a" := VMap {["b" := VInt 1; "c" := VInt 2]}]}), h').
Proof. split; vm_compute; reflexivity. Qed.

(** With [{"a": {}}], at 1, and [{"a": {"x": (the former)}}], at 3, it makes the former
    contain itself; merging that with itself does not end. *)
Definition cyclic_memory : memory :=
  list_to_map [(1%positive, {["a" := at_loc 2]}); (2%positive, ∅);
    (3%positive, {["a" := at_loc 4]}); (4%positive, {["x" := at_loc 1]})].

Lemma each_effect_one {E W A} (f : A → effect E W unit) x w : each_effect f [x] w = f x w.
Proof. cbn. rewrite effect_bind_run. by destruct (f x w) as [[[]| |] ?]. Qed.

Lemma merge_one_entry `{GoRuntimeLaws} fuel dst s deep k o h :
  h !! s = Some {[k := o]} →
  merge (S fuel) dst (Some s) deep h =
  match deep, default ∅ (dst ≫= λ d, h !! d) !! k, o with
  | true, Some (OMap dm), OMap sm => merge fuel dm sm deep
  | _, _, _ => store dst k o
  end h.
Proof.
  intros Hs. cbn [merge]. rewrite effect_bind_run. unfold load at 1. cbn. rewrite Hs. cbn.
  assert (Hr : range_map ({[k := o]} : gmap string obj) = [(k, o)]).
  { apply Permutation_singleton_r. by rewrite range_map_perm, map_to_list_singleton. }
  rewrite Hr. cbn [fmap list_fmap fst]. rewrite each_effect_one. unfold merge_entry, load.
  rewrite effect_bind_run. cbn. rewrite Hs. cbn. by rewrite lookup_singleton_eq, effect_bind_run.
Qed.

Lemma cycle_overflows `{GoRuntimeLaws} fuel h :
  h !! 1%positive = Some {["a" := at_loc 2]} → h !! 2%positive = Some {["x" := at_loc 1]} →
  merge fuel (Some 1%positive) (Some 1%positive) true h = (Panic "stack overflow", h)
  ∧ merge fuel (Some 2%positive) (Some 2%positive) true h = (Panic "stack overflow", h).
Proof.
  intros H1 H2. induction fuel as [|fuel [IH1 IH2]]; [done|].
  rewrite (merge_one_entry _ _ _ _ _ _ _ H1), (merge_one_entry _ _ _ _ _ _ _ H2). cbn.
  by rewrite H1, H2.
Qed.

Lemma call_overflows fuel h :
  h !! 1%positive = Some {["a" := at_loc 2]} → h !! 2%positive = Some {["x" := at_loc 1]} →
  (call_merge (S (S fuel)) [at_loc 1; at_loc 1] h).1 = Panic "stack overflow".
Proof.
  intros H1 H2. unfold call_merge, PositionalInvokerFunc, mergeDescriptor. cbn [length].
  rewrite decide_False by done. rewrite !effect_bind_run. cbn [lift mret effect_ret mergeCast mergeCast_from map_err].
  unfold merge_objects, new. rewrite effect_bind_run. cbn -[fresh merge].
  assert (Hf : h !! fresh (dom h) = None) by apply not_elem_of_dom, is_fresh.
  set (r := fresh (dom h)) in *. assert (r ≠ 1%positive ∧ r ≠ 2%positive) as [Hr1 Hr2] by (split; congruence).
  assert (H1' : <[r := ∅]> h !! 1%positive = Some {["a" := at_loc 2]}) by by rewrite lookup_insert_ne.
  rewrite effect_bind_run. fold r. rewrite !effect_bind_run, (merge_one_entry _ _ _ _ _ _ _ H1').
  cbn -[merge]. rewrite lookup_insert_eq. cbn -[merge]. rewrite lookup_empty. unfold store.
  rewrite lookup_insert_eq. cbn -[merge]. rewrite insert_insert_eq, effect_bind_run.
  rewrite (merge_one_entry _ _ 1%positive _ "a" (at_loc 2)) by by rewrite lookup_insert_ne.
  cbn -[merge]. rewrite lookup_insert_eq. cbn -[merge]. rewrite lookup_insert_eq. cbn -[merge].
  set (h2 := <[r := _]> h).
  destruct (@cycle_overflows forward_runtime _ (S fuel) h2) as [_ Hc]; [by unfold h2; rewrite lookup_insert_ne..|]. by rewrite Hc.
Qed.

Lemma merge_of_itself :
  ∃ h' : memory, (call_merge 5 [at_loc 1; at_loc 3] cyclic_memory).2 = h'
    ∧ h' !! 1%positive = Some {["a" := at_loc 2]} ∧ h' !! 2%positive = Some {["x" := at_loc 1]}
    ∧ ∀ fuel, (call_merge (S (S fuel)) [at_loc 1; at_loc 1] h').1 = Panic "stack overflow".
Proof.
  eexists. split; [vm_compute; reflexivity|]. split; [reflexivity|]. split; [reflexivity|].
  intros fuel. by apply call_overflows.
Qed.
