(* ===== verification/Yaml.v ===== *)
(** * YAML trees and their tags (pkg/expr/parse/yaml.go, parse.go)

    YAML nodes live in a store and are rewritten in place: an alias and the node it
    points to are one object, and a transformer's [*node = yaml.Node{...}] is seen
    through every pointer.  [yaml.v3]'s own [ShortTag] and [Decode] are parameters. *)
From S2P Require Import Prelude GoStd GoStrings Values Errors Transfer.

(** ** Nodes and the store *)
Inductive Kind : Type := NoKind | DocumentNode | SequenceNode | MappingNode | ScalarNode | AliasNode.

#[export] Instance Kind_eq_dec : EqDecision Kind.
Proof. solve_decision. Defined.

(** Pointers are options of addresses; [None] is nil. *)
Record node := MkNode {
  Kind_ : Kind;
  Style : Z;
  Tag : string;
  NodeValue : string;
  Content : list (option nat);
  Alias : option nat;
}.

Record store := MkStore { next : nat; cells : gmap nat node }.

Definition alloc (h : store) (n : node) : nat * store :=
  (next h, MkStore (S (next h)) (<[next h := n]> (cells h))).

Definition write (h : store) (a : nat) (n : node) : store := MkStore (next h) (<[a := n]> (cells h)).

(** Following a pointer; a nil (or dangling) pointer is a run-time panic. *)
Definition deref (h : store) (p : option nat) : result node :=
  match p ≫= λ a, cells h !! a with
  | Some n => Ok n
  | None => Panic "invalid memory address or nil pointer dereference"
  end.

Definition scalar (v : string) : node := MkNode ScalarNode 0 "" v [] None.

(** [&yaml.Node{Kind: yaml.ScalarNode, Value: v}] *)
Definition new_scalar (h : store) (v : string) : option nat * store :=
  let '(a, h) := alloc h (scalar v) in (Some a, h).

Definition mapping (content : list (option nat)) : node :=
  MkNode MappingNode 0 "" "" content None.

(** The content of a node literal: new scalars and pointers at hand. *)
Fixpoint build (h : store) (items : list (string + option nat)) : list (option nat) * store :=
  match items with
  | [] => ([], h)
  | inl v :: rest =>
      let '(p, h) := new_scalar h v in
      let '(ps, h) := build h rest in (p :: ps, h)
  | inr p :: rest => let '(ps, h) := build h rest in (p :: ps, h)
  end.

(** [*node = yaml.Node{Kind: yaml.MappingNode, Content: items}] *)
Definition replace (h : store) (a : nat) (items : list (string + option nat)) : store :=
  let '(content, h) := build h items in write h a (mapping content).

(** [ShortTag] is only asked of nodes that are not aliases. *)
Class YAML := {
  ShortTag : node → string;
  Decode : store → option nat → result value;
}.

Section yaml.
Context `{YAML} `{GoFmt}.

(** A transformer: the new store, and whether the node was transformed. *)
Definition YAMLTransformer : Type := store → nat → node → result (store * bool).

(** The body shared by !Data, !Secret and !Parameter, once the tag matches. *)
Definition transform_single (ty key : string) (h : store) (a : nat) (n : node)
    : result (store * bool) :=
  '(value, h) ←
    match Kind_ n with
    | MappingNode =>
        let bad := Err (EText ("expected mapping-style !" +:+ ty +:+ " to have exactly one key, "
                                 +:+ dquote key)) in
        match Content n with
        | [p0; p1] =>
            k ← deref h p0;
            if String.eqb (NodeValue k) key then Ok (p1, h) else bad
        | _ => bad
        end
    | SequenceNode =>
        match Content n with
        | [p0] => Ok (p0, h)
        | _ => Err (EText ("expected sequence-style !" +:+ ty +:+ " to have exactly one item"))
        end
    | ScalarNode => Ok (new_scalar h (NodeValue n))
    | _ => Ok (None, h)
    end;
  Ok (replace h a [inl "$type"; inl ty; inl key; inr value], true).

(** The loop over the keys of the mapping style: later keys overwrite earlier ones. *)
Fixpoint pair_fields (h : store) (key1 key2 : string) (bad : error) (content : list (option nat))
    (values : option nat * option nat) : result (option nat * option nat) :=
  match content with
  | pk :: pv :: rest =>
      k ← deref h pk;
      if String.eqb (NodeValue k) key1 then pair_fields h key1 key2 bad rest (pv, values.2)
      else if String.eqb (NodeValue k) key2 then pair_fields h key1 key2 bad rest (values.1, pv)
      else Err bad
  | _ => Ok values
  end.

(** The body shared by !Connection, !Output and !Answer, once the tag matches. *)
Definition transform_pair (ty key1 key2 : string) (h : store) (a : nat) (n : node)
    : result (store * bool) :=
  values ←
    match Kind_ n with
    | MappingNode =>
        let bad := EText ("expected mapping-style !" +:+ ty +:+ " to have exactly two keys, "
                            +:+ dquote key1 +:+ " and " +:+ dquote key2) in
        if decide (length (Content n) = 4)
        then pair_fields h key1 key2 bad (Content n) (None, None)
        else Err bad
    | SequenceNode =>
        match Content n with
        | [p0; p1] => Ok (p0, p1)
        | _ => Err (EText ("expected mapping-style !" +:+ ty +:+ " to have exactly two items"))
        end
    | _ => Err (EText ("unexpected scalar value for !" +:+ ty
                         +:+ ", must be a mapping or sequence"))
    end;
  Ok (replace h a [inl "$type"; inl ty; inl key1; inr values.1; inl key2; inr values.2], true).

Definition YAMLDataTransformer : YAMLTransformer := λ h a n,
  if String.eqb (Tag n) "!Data" then transform_single "Data" "query" h a n else Ok (h, false).

Definition YAMLSecretTransformer : YAMLTransformer := λ h a n,
  if String.eqb (Tag n) "!Secret" then transform_single "Secret" "name" h a n else Ok (h, false).

Definition YAMLConnectionTransformer : YAMLTransformer := λ h a n,
  if String.eqb (ShortTag n) "!Connection" then transform_pair "Connection" "type" "name" h a n
  else Ok (h, false).

Definition YAMLOutputTransformer : YAMLTransformer := λ h a n,
  if String.eqb (ShortTag n) "!Output" then transform_pair "Output" "from" "name" h a n
  else Ok (h, false).

Definition YAMLParameterTransformer : YAMLTransformer := λ h a n,
  if String.eqb (ShortTag n) "!Parameter" then transform_single "Parameter" "name" h a n
  else Ok (h, false).

Definition YAMLAnswerTransformer : YAMLTransformer := λ h a n,
  if String.eqb (ShortTag n) "!Answer" then transform_pair "Answer" "askRef" "name" h a n
  else Ok (h, false).

Definition YAMLInvocationTransformer : YAMLTransformer := λ h a n,
  let tag := ShortTag n in
  let prefix := "!Fn." in
  if negb (has_prefix prefix tag) then Ok (h, false)
  else
    let name := drop_string (String.length prefix) tag in
    if String.eqb name "" then
      Err (EText "expected function name to have the syntax !Fn.<name>")
    else
      let '(args, h) :=
        match Kind_ n with
        | MappingNode | SequenceNode =>
            let '(b, h) := alloc h (MkNode (Kind_ n) 0 "" "" (Content n) None) in (Some b, h)
        | ScalarNode =>
            let '(p, h) := new_scalar h (NodeValue n) in
            let '(b, h) := alloc h (MkNode SequenceNode 0 "" "" [p] None) in (Some b, h)
        | _ => (None, h)
        end in
      Ok (replace h a [inl ("$fn." +:+ name); inr args], true).

Definition YAMLBinaryToEncodingTransformer : YAMLTransformer := λ h a n,
  if String.eqb (ShortTag n) "!!binary" && bool_decide (Kind_ n = ScalarNode) then
    Ok (replace h a [inl "$encoding"; inl "base64"; inl "data"; inl (NodeValue n)], true)
  else Ok (h, false).

Definition YAMLUnknownTagTransformer : YAMLTransformer := λ h a n,
  let tag := ShortTag n in
  if negb (String.eqb tag "") && negb (has_prefix "!!" tag)
  then Err (EText ("unknown tag " +:+ quote tag)) else Ok (h, false).

Definition YAMLTransformers : list YAMLTransformer := [
  YAMLDataTransformer; YAMLSecretTransformer; YAMLConnectionTransformer; YAMLOutputTransformer;
  YAMLParameterTransformer; YAMLAnswerTransformer; YAMLInvocationTransformer;
  YAMLBinaryToEncodingTransformer; YAMLUnknownTagTransformer].

(** The inner loop of ParseYAMLNode: the first transformer that applies ends it. *)
Fixpoint transform_node (ts : list YAMLTransformer) (h : store) (a : nat) : result store :=
  match ts with
  | [] => Ok h
  | t :: ts' =>
      n ← deref h (Some a);
      '(h, ok) ← t h a n;
      if (ok : bool) then Ok h else transform_node ts' h a
  end.

Definition out_of_fuel {A} : result A := Panic "out of fuel".

(** [for node.Kind == yaml.AliasNode { node = node.Alias }] *)
Fixpoint follow_alias (fuel : nat) (h : store) (p : option nat) : result nat :=
  match fuel with
  | O => out_of_fuel
  | S fuel' =>
      n ← deref h p;
      match Kind_ n, p with
      | AliasNode, _ => follow_alias fuel' h (Alias n)
      | _, Some a => Ok a
      | _, None => Panic "unreachable"
      end
  end.

(** The work list of ParseYAMLNode; fuel bounds its length over time. *)
Fixpoint transform_all (fuel : nat) (h : store) (stack : list (option nat)) : result store :=
  match stack with
  | [] => Ok h
  | p :: rest =>
      match fuel with
      | O => out_of_fuel
      | S fuel' =>
          a ← follow_alias (S fuel') h p;
          h ← transform_node YAMLTransformers h a;
          n ← deref h (Some a);
          transform_all fuel' h (rest ++ Content n)
      end
  end.

Definition ParseYAMLNode (fuel : nat) (h : store) (p : option nat) : result value :=
  h ← transform_all fuel h [p]; Decode h p.
End yaml.

(** ** ParseFile

    The extension is compared without its dot, which [filepath.Ext] includes. *)
Inductive format : Type := AsYAML | AsJSON.

Definition lower_ascii (c : ascii) : ascii :=
  let n := N_of_ascii c in
  if (65 <=? n)%N && (n <=? 90)%N then ascii_of_N (n + 32) else c.

Fixpoint to_lower (s : string) : string :=
  match s with EmptyString => "" | String c s' => String (lower_ascii c) (to_lower s') end.

(** [filepath.Ext]: the suffix from the last dot of the last path element. *)
Fixpoint filepath_ext (s : string) : string :=
  match s with
  | EmptyString => ""
  | String c s' =>
      let e := filepath_ext s' in
      if Ascii.eqb c "."%char && String.eqb e "" && negb (string_elem "/"%char s')
      then s else e
  end.

Definition parse_format (name : string) : format :=
  let ext := to_lower (filepath_ext name) in
  if String.eqb ext "yaml" || String.eqb ext "yml" then AsYAML else AsJSON.
