(* ===== verification/YamlTheory.v ===== *)
(** * The YAML rewriting: what one transformer does, and termination *)
From S2P Require Import Prelude GoStd GoStrings Values Errors Transfer Yaml.

(** What the code relies on of [ShortTag]: a custom tag is its own short tag, and an
    untagged node made by the code has a core-schema tag, which for a plain scalar is
    never the binary one. *)
Class YAMLLaws `{YAML} : Prop := {
  ShortTag_custom n : Tag n = "!Data" ∨ Tag n = "!Secret" → ShortTag n = Tag n;
  ShortTag_built n :
    Tag n = "" → Style n = 0%Z → (Kind_ n = MappingNode ∨ Kind_ n = SequenceNode ∨ Kind_ n = ScalarNode) →
    has_prefix "!!" (ShortTag n) = true ∧ ShortTag n ≠ "!!binary";
}.

(** A node that no transformer touches. *)
Definition clean `{YAML} (n : node) : bool :=
  (String.eqb (ShortTag n) "" || has_prefix "!!" (ShortTag n))
  && negb (String.eqb (ShortTag n) "!!binary" && bool_decide (Kind_ n = ScalarNode)).

Section store.

Definition fresh_above (h : store) : Prop := ∀ a, next h ≤ a → cells h !! a = None.

Lemma alloc_spec h n a h' :
  alloc h n = (a, h') → fresh_above h →
  a = next h ∧ fresh_above h' ∧ cells h' = <[a := n]> (cells h) ∧ cells h !! a = None.
Proof.
  intros [= <- <-] Hf. split_and!; [done| |done|by apply Hf].
  intros b Hb. cbn in *. rewrite lookup_insert_ne by lia. apply Hf. lia.
Qed.

(** [h'] extends [h] with new nodes only. *)
Definition grows (h h' : store) (fresh_ok : node → Prop) : Prop :=
  fresh_above h' ∧ cells h ⊆ cells h'
  ∧ ∀ b m, cells h !! b = None → cells h' !! b = Some m → fresh_ok m.

Lemma grows_refl h P : fresh_above h → grows h h P.
Proof. intros Hf. split_and!; [done|done|]. congruence. Qed.

Lemma grows_trans h1 h2 h3 P : grows h1 h2 P → grows h2 h3 P → grows h1 h3 P.
Proof.
  intros (_ & S1 & F1) (H3 & S2 & F2). split_and!; [done|by etrans|].
  intros b m H1 Hm. destruct (cells h2 !! b) as [m'|] eqn:E; [|by eapply F2].
  assert (cells h3 !! b = Some m') by (by eapply lookup_weaken). replace m with m' by congruence.
  by eapply F1.
Qed.

Lemma grows_alloc h n a h' P :
  alloc h n = (a, h') → fresh_above h → P n → grows h h' P ∧ cells h' !! a = Some n.
Proof.
  intros Ha Hf Hn. destruct (alloc_spec _ _ _ _ Ha Hf) as (-> & Hf' & E & Hnone).
  split; [|by rewrite E, lookup_insert_eq]. split_and!; [done| |].
  - rewrite E. by apply insert_subseteq.
  - intros b m Hb Hm. rewrite E in Hm. apply lookup_insert_Some in Hm as [[_ <-]|[_ Hm]]; [done|].
    congruence.
Qed.

Lemma grows_scalar h v p h' (P : node → Prop) :
  new_scalar h v = (p, h') → fresh_above h → P (scalar v) →
  grows h h' P ∧ ∃ a, p = Some a ∧ cells h' !! a = Some (scalar v).
Proof.
  unfold new_scalar. destruct (alloc h (scalar v)) as [a h1] eqn:E. intros [= <- <-] Hf HP.
  destruct (grows_alloc _ _ _ _ P E Hf HP). split; [done|]. by exists a.
Qed.

Lemma grows_lookup h h' P a n : grows h h' P → cells h !! a = Some n → cells h' !! a = Some n.
Proof. intros (_ & Hs & _) Ha. by eapply lookup_weaken. Qed.
End store.

Section theory.
Context `{YL : YAMLLaws} `{GoFmt}.

Lemma clean_built n :
  Tag n = "" → Style n = 0%Z → (Kind_ n = MappingNode ∨ Kind_ n = SequenceNode ∨ Kind_ n = ScalarNode) → clean n = true.
Proof.
  intros Ht Hs Hk. destruct (ShortTag_built n Ht Hs Hk) as [Hp Hb]. unfold clean. rewrite Hp, orb_true_r.
  destruct (String.eqb_spec (ShortTag n) "!!binary"); [done|]. done.
Qed.

Lemma clean_scalar v : clean (scalar v) = true.
Proof. apply clean_built; [done|done|]. cbn. tauto. Qed.
Lemma clean_mapping c : clean (mapping c) = true.
Proof. apply clean_built; [done|done|]. cbn. tauto. Qed.

(** A bound on the number of steps a pointer costs: one per visit, more for a node
    that will be rewritten and so gets new children. *)
Definition cost (n : node) : nat := if clean n then 1 else 8.

Inductive sized (h : store) : option nat → nat → Prop :=
| sized_nil k : 1 ≤ k → sized h None k
| sized_alias a n k :
    cells h !! a = Some n → Kind_ n = AliasNode → sized h (Alias n) k → sized h (Some a) (S k)
| sized_node a n sizes k :
    cells h !! a = Some n → Kind_ n ≠ AliasNode → length sizes = length (Content n) →
    (∀ i p s, Content n !! i = Some p → sizes !! i = Some s → sized h p s) →
    cost n + sum_list sizes ≤ k → sized h (Some a) k.

Lemma cost_pos n : 1 ≤ cost n.
Proof. unfold cost. destruct (clean n); lia. Qed.

Lemma sized_pos h p k : sized h p k → 1 ≤ k.
Proof. induction 1; try lia. pose proof (cost_pos n). lia. Qed.

Lemma sized_mono h p k k' : sized h p k → k ≤ k' → sized h p k'.
Proof.
  intros Hs. revert k'. induction Hs as [k Hk|a n k Ha Hn Hs IH|a n sizes k Ha Hn Hl Hc _ Hsum];
    intros k' Hk'.
  - apply sized_nil. lia.
  - destruct k' as [|k']; [lia|]. eapply sized_alias; [done..|]. apply IH. lia.
  - eapply sized_node; [done..|]. lia.
Qed.

Lemma elem_le_sum_list (l : list nat) i s : l !! i = Some s → s ≤ sum_list l.
Proof.
  revert i. induction l as [|x l IH]; intros i Hi; [done|]. destruct i as [|i]; cbn in *.
  - injection Hi as ->. lia.
  - apply IH in Hi. lia.
Qed.

(** [h'] rewrites the node at [a] of [h] into an equivalent of bounded size. *)
Record rewrites (h h' : store) (a : nat) (n : node) : Prop := {
  rw_fresh : fresh_above h';
  rw_node : ∃ content, cells h' !! a = Some (mapping content)
    ∧ ∀ sizes, length sizes = length (Content n) →
        (∀ i p s, Content n !! i = Some p → sizes !! i = Some s → sized h' p s) →
        ∃ sizes', length sizes' = length content
          ∧ (∀ i p s, content !! i = Some p → sizes' !! i = Some s → sized h' p s)
          ∧ sum_list sizes' ≤ 7 + sum_list sizes;
  rw_others b m : b ≠ a → cells h !! b = Some m → cells h' !! b = Some m;
  rw_new b m : cells h !! b = None → cells h' !! b = Some m → clean m = true;
}.

(** Rewriting a node that was not clean does not increase any size. *)
Lemma rewrites_sized h h' a n p k :
  rewrites h h' a n → cells h !! a = Some n → Kind_ n ≠ AliasNode → clean n = false →
  sized h p k → sized h' p k.
Proof.
  intros Hr Ha Hk Hc Hs.
  induction Hs as [k Hk1|b m k Hb Hm Hs IH|b m sizes k Hb Hm Hl Hsz IH Hsum].
  - by apply sized_nil.
  - assert (b ≠ a) by congruence. eapply sized_alias; [by eapply rw_others|done|done].
  - destruct (decide (b = a)) as [->|Hne].
    + replace m with n in * by congruence. destruct (rw_node _ _ _ _ Hr) as (c & Hc' & Hbound).
      destruct (Hbound sizes Hl IH) as (sizes' & Hl' & Hsz' & Hle).
      eapply sized_node; [exact Hc'|done|exact Hl'|exact Hsz'|].
      unfold cost in *. rewrite clean_mapping. rewrite Hc in Hsum. lia.
    + eapply sized_node; [by eapply rw_others|done|exact Hl|exact IH|done].
Qed.

(** *** Building nodes *)
Definition built (h h' : store) (item : string + option nat) (p : option nat) : Prop :=
  match item with
  | inl v => ∃ b, p = Some b ∧ cells h !! b = None ∧ cells h' !! b = Some (scalar v)
  | inr q => p = q
  end.

Notation grows_clean h h' := (grows h h' (λ m, clean m = true)).

Lemma build_spec items h ps h' :
  build h items = (ps, h') → fresh_above h → grows_clean h h' ∧ Forall2 (built h h') items ps.
Proof.
  revert h ps h'. induction items as [|[v|q] items IH]; intros h ps h' Hb Hf; cbn [build] in Hb.
  - injection Hb as <- <-. split; [by apply grows_refl|constructor].
  - destruct (new_scalar h v) as [p h1] eqn:E1. destruct (build h1 items) as [ps1 h2] eqn:E2.
    injection Hb as <- <-.
    destruct (grows_scalar _ _ _ _ (λ m, clean m = true) E1 Hf (clean_scalar v)) as [G1 (b & -> & Hv)].
    destruct (IH _ _ _ E2) as [G2 Hps]; [by apply G1|].
    assert (cells h !! b = None).
    { unfold new_scalar in E1. destruct (alloc h (scalar v)) as [b' h1'] eqn:E. injection E1 as -> ->.
      by destruct (alloc_spec _ _ _ _ E Hf) as (-> & _ & _ & ?). }
    split; [by eapply grows_trans|]. constructor.
    + exists b. split_and!; [done|done|]. by eapply grows_lookup.
    + eapply Forall2_impl; [exact Hps|]. intros [v'|q] p; cbn; [|done].
      intros (b' & -> & Hnone & ?). exists b'. split_and!; [done| |done].
      destruct (cells h !! b') eqn:Eb; [|done].
      erewrite grows_lookup in Hnone; [done|exact G1|exact Eb].
  - destruct (build h items) as [ps1 h2] eqn:E2. injection Hb as <- <-.
    destruct (IH _ _ _ E2 Hf) as [G2 Hps]. split; [done|]. by constructor.
Qed.

Lemma sized_scalar h b v : cells h !! b = Some (scalar v) → sized h (Some b) 1.
Proof.
  intros Hb. eapply (sized_node _ _ _ []); [exact Hb|done|done|by intros|].
  unfold cost. by rewrite clean_scalar.
Qed.

Definition pointers (items : list (string + option nat)) : list (option nat) :=
  omap (λ it, match it with inl _ => None | inr p => Some p end) items.

(** Sizes for a list of pointers. *)
Definition sized_list (h : store) (ps : list (option nat)) (sizes : list nat) : Prop :=
  Forall2 (sized h) ps sizes.

Lemma sized_list_lookup h ps sizes :
  sized_list h ps sizes ↔
  length sizes = length ps
  ∧ ∀ i p s, ps !! i = Some p → sizes !! i = Some s → sized h p s.
Proof.
  unfold sized_list. rewrite Forall2_same_length_lookup. apply and_iff_compat_r. split; congruence.
Qed.

Lemma built_sized h h' items ps ss :
  Forall2 (built h h') items ps →
  (∀ b v, cells h !! b = None → cells h' !! b = Some (scalar v) → sized h' (Some b) 1) →
  sized_list h' (pointers items) ss →
  ∃ sizes, sized_list h' ps sizes ∧ sum_list sizes + length (pointers items) = sum_list ss + length items.
Proof.
  intros Hps Hsc. revert ss. induction Hps as [|it p items ps Hit _ IH]; intros ss Hss.
  - inversion Hss; subst. exists []. split; [constructor|done].
  - destruct it as [v|q]; cbn in *.
    + destruct (IH ss Hss) as (sizes & Hsz & Hsum). destruct Hit as (b & -> & Hn & Hb).
      exists (1 :: sizes). split; [constructor; eauto|]. cbn. unfold pointers in *. lia.
    + inversion Hss as [|? s ? ss' Hs Hss']; subst. destruct (IH ss' Hss') as (sizes & Hsz & Hsum).
      exists (s :: sizes). split; [by constructor|]. cbn. unfold pointers in *. lia.
Qed.

Lemma rewrites_replace h0 h1 a n items :
  cells h0 !! a = Some n → grows_clean h0 h1 →
  length items ≤ 4 + length (pointers items) →
  (∀ sizes, sized_list (replace h1 a items) (Content n) sizes →
     ∃ ss, sized_list (replace h1 a items) (pointers items) ss
           ∧ sum_list ss ≤ 3 + sum_list sizes) →
  rewrites h0 (replace h1 a items) a n.
Proof.
  intros Ha G1 Hlen Hss. assert (Ha1 := grows_lookup _ _ _ _ _ G1 Ha).
  unfold replace in *. destruct (build h1 items) as [ps h2] eqn:E.
  destruct (build_spec _ _ _ _ E (proj1 G1)) as [G2 Hps].
  assert (G := grows_trans _ _ _ _ G1 G2). assert (Ha2 := grows_lookup _ _ _ _ _ G2 Ha1).
  set (h' := write h2 a (mapping ps)) in *.
  assert (Hother : ∀ b, b ≠ a → cells h' !! b = cells h2 !! b).
  { intros b Hb. unfold h'. cbn. by rewrite lookup_insert_ne. }
  split.
  - intros b Hb. destruct (decide (b = a)) as [->|Hne].
    + rewrite (proj1 G2 a) in Ha2; [done|exact Hb].
    + rewrite Hother by done. by apply (proj1 G2).
  - exists ps. split; [unfold h'; cbn; by rewrite lookup_insert_eq|].
    intros sizes Hl Hsz.
    destruct (Hss sizes) as (ss & Hs & Hsum); [by apply sized_list_lookup|].
    destruct (built_sized h1 h' items ps ss) as (sizes' & Hs' & Hsum'); [| |done|].
    + eapply Forall2_impl; [exact Hps|]. intros [v|q] p; cbn -[h']; [|done].
      intros (b & -> & Hn & Hb). exists b. split_and!; [done|done|].
      rewrite Hother; [done|congruence].
    + intros b v _. apply sized_scalar.
    + apply sized_list_lookup in Hs' as [Hl' Hs']. exists sizes'. split_and!; [done|done|].
      unfold pointers in *. lia.
  - intros b m Hb Hm. rewrite Hother by done. by eapply grows_lookup.
  - intros b m Hb Hm. destruct (decide (b = a)) as [->|Hne]; [congruence|].
    rewrite Hother in Hm by done. by eapply (proj2 (proj2 G)).
Qed.

Lemma sized_list_sub h c sizes i p :
  sized_list h c sizes → c !! i = Some p → ∃ s, sizes !! i = Some s ∧ sized h p s ∧ s ≤ sum_list sizes.
Proof.
  intros Hs Hi. destruct (Forall2_lookup_l _ _ _ _ _ Hs Hi) as (s & Hsi & ?).
  exists s. split_and!; [done|done|by eapply elem_le_sum_list].
Qed.

Lemma grows_write_scalar h0 h1 h' a n b v items :
  cells h0 !! a = Some n → cells h0 !! b = None → grows_clean h0 h1 →
  cells h1 !! b = Some (scalar v) → fresh_above h1 → h' = replace h1 a items →
  cells h' !! b = Some (scalar v).
Proof.
  intros Ha Hb G1 Hv Hf ->. unfold replace. destruct (build h1 items) as [ps h2] eqn:E.
  destruct (build_spec _ _ _ _ E Hf) as [G2 _]. cbn. rewrite lookup_insert_ne by congruence.
  by eapply grows_lookup.
Qed.

Lemma transform_single_rewrites ty key h a n h' ok :
  fresh_above h → cells h !! a = Some n → transform_single ty key h a n = Ok (h', ok) →
  ok = true ∧ rewrites h h' a n.
Proof.
  intros Hf Ha Ht. unfold transform_single in Ht. inv_ok. destruct a0 as [value h1].
  injection Ht as <- <-. split; [done|].
  assert (Hv : grows_clean h h1 ∧ (value = None ∨ (∃ i, Content n !! i = Some value)
             ∨ ∃ b v, value = Some b ∧ cells h !! b = None ∧ cells h1 !! b = Some (scalar v))).
  { destruct (Kind_ n).
    1, 2, 6: injection Ht0 as <- <-; split; [by apply grows_refl|by left].
    - destruct (Content n) as [|p0 [|]]; inv_ok. split; [by apply grows_refl|].
      right; left. by exists 0.
    - destruct (Content n) as [|p0 [|p1 [|]]]; inv_ok. destruct (String.eqb _ _); inv_ok.
      split; [by apply grows_refl|]. right; left. by exists 1.
    - assert (E : new_scalar h (NodeValue n) = (value, h1)) by congruence.
      destruct (build_spec [inl (NodeValue n)] h [value] h1) as [G Hb];
        [cbn [build]; by rewrite E|done|]. split; [done|].
      right; right. apply Forall2_cons_1 in Hb as [Hb _]. cbn in Hb.
      destruct Hb as (b & -> & ? & ?). by exists b, (NodeValue n). }
  destruct Hv as [G Hv]. apply rewrites_replace with (h0 := h); [done|done|cbn; lia|].
  intros sizes Hs. cbn [pointers omap list_omap].
  destruct Hv as [->|[(i & Hi)|(b & v & -> & Hn & Hb)]].
  - exists [1]. split; [|cbn; lia]. repeat constructor.
  - destruct (sized_list_sub _ _ _ _ _ Hs Hi) as (s & _ & ? & ?). exists [s].
    split; [by repeat constructor|]. cbn. lia.
  - exists [1]. split; [|cbn; lia]. constructor; [|constructor].
    eapply sized_scalar, grows_write_scalar; [exact Ha|exact Hn|exact G|exact Hb|apply G|done].
Qed.

Lemma pair_fields_cases h key1 key2 bad content v v' :
  length content = 4 → pair_fields h key1 key2 bad content v = Ok v' → v = (None, None) →
  (∃ p, content !! 3 = Some p ∧ (v' = (p, None) ∨ v' = (None, p)))
  ∨ (∃ p q, content !! 1 = Some p ∧ content !! 3 = Some q ∧ (v' = (p, q) ∨ v' = (q, p))).
Proof.
  intros Hl Hp ->. destruct content as [|p0 [|p1 [|p2 [|p3 [|]]]]]; try discriminate Hl.
  cbn [pair_fields] in Hp. inv_ok.
  repeat (case_match; inv_ok; cbn [fst snd] in *); try done; naive_solver.
Qed.

Lemma transform_pair_rewrites ty key1 key2 h a n h' ok :
  fresh_above h → cells h !! a = Some n → transform_pair ty key1 key2 h a n = Ok (h', ok) →
  ok = true ∧ rewrites h h' a n.
Proof.
  intros Hf Ha Ht. unfold transform_pair in Ht. inv_ok. destruct a0 as [v1 v2].
  cbn [fst snd]. split; [done|].
  assert (Hv : (∃ p i, Content n !! i = Some p ∧ ((v1, v2) = (p, None) ∨ (v1, v2) = (None, p)))
    ∨ (∃ p q i j, i < j ∧ Content n !! i = Some p ∧ Content n !! j = Some q
                  ∧ ((v1, v2) = (p, q) ∨ (v1, v2) = (q, p)))).
  { destruct (Kind_ n); try discriminate Ht0.
    - destruct (Content n) as [|p0 [|p1 [|]]]; inv_ok. right.
      eexists _, _, 0, 1. split_and!; [lia|done|done|by left].
    - case_decide as Hl; [|done]. apply pair_fields_cases in Ht0 as [(p & ? & ?)|(p & q & ? & ? & ?)];
        [left; eauto|right; exists p, q, 1, 3; split_and!; [lia|done..]|done|done]. }
  apply rewrites_replace with (h0 := h); [done|by apply grows_refl|cbn; lia|].
  intros sizes Hs. cbn [pointers omap list_omap fst snd].
  destruct Hv as [(p & i & Hi & Hv)|(p & q & i & j & Hij & Hi & Hj & Hv)].
  - destruct (sized_list_sub _ _ _ _ _ Hs Hi) as (s & _ & Hp & ?).
    destruct Hv as [[= -> ->]|[= -> ->]]; [exists [s; 1]|exists [1; s]];
      (split; [repeat constructor; done|cbn; lia]).
  - destruct (sized_list_sub _ _ _ _ _ Hs Hi) as (s & Hsi & Hp & _).
    destruct (sized_list_sub _ _ _ _ _ Hs Hj) as (t & Htj & Hq & _).
    assert (s + t ≤ sum_list sizes).
    { clear -Hij Hsi Htj. revert i j Hij Hsi Htj. induction sizes as [|x l IH]; intros i j Hij Hi Hj;
        [done|]. destruct j as [|j]; [lia|]. destruct i as [|i]; cbn in *.
      - injection Hi as ->. apply elem_le_sum_list in Hj. lia.
      - specialize (IH i j ltac:(lia) Hi Hj). lia. }
    destruct Hv as [[= -> ->]|[= -> ->]]; [exists [s; t]|exists [t; s]];
      (split; [repeat constructor; done|cbn; lia]).
Qed.

(** What one transformer does: nothing, or a rewriting of the node. *)
Definition transformer_ok (t : YAMLTransformer) : Prop :=
  ∀ h a n h' ok, fresh_above h → cells h !! a = Some n → t h a n = Ok (h', ok) →
    if ok : bool then rewrites h h' a n else h' = h.

Ltac leaves Ht := injection Ht as <- <-; done.

Lemma single_transformer_ok ty key tag (f : node → string) :
  transformer_ok (λ h a n, if String.eqb (f n) tag then transform_single ty key h a n else Ok (h, false)).
Proof.
  intros h a n h' ok Hf Ha Ht. destruct (String.eqb (f n) tag); [|leaves Ht].
  by destruct (transform_single_rewrites _ _ _ _ _ _ _ Hf Ha Ht) as [-> ?].
Qed.

Lemma pair_transformer_ok ty key1 key2 tag :
  transformer_ok (λ h a n, if String.eqb (ShortTag n) tag then transform_pair ty key1 key2 h a n
                           else Ok (h, false)).
Proof.
  intros h a n h' ok Hf Ha Ht. destruct (String.eqb (ShortTag n) tag); [|leaves Ht].
  by destruct (transform_pair_rewrites _ _ _ _ _ _ _ _ Hf Ha Ht) as [-> ?].
Qed.

Lemma sized_built h b k c sizes :
  cells h !! b = Some (MkNode k 0 "" "" c None) → (k = MappingNode ∨ k = SequenceNode) →
  sized_list h c sizes → sized h (Some b) (1 + sum_list sizes).
Proof.
  intros Hb Hk Hs. apply sized_list_lookup in Hs as [Hl Hs].
  eapply (sized_node _ _ _ sizes); [exact Hb| |done|exact Hs|].
  - cbn. by destruct Hk as [->| ->].
  - unfold cost. rewrite clean_built; [lia|done|done|]. cbn. set_solver.
Qed.

Lemma invocation_transformer_ok : transformer_ok YAMLInvocationTransformer.
Proof.
  intros h a n h' ok Hf Ha Ht. unfold YAMLInvocationTransformer in Ht.
  destruct (negb _); [leaves Ht|]. destruct (String.eqb _ ""); [done|].
  set (name := drop_string _ _) in Ht. clearbody name.
  destruct (match Kind_ n with MappingNode | SequenceNode => _ | _ => _ end) as [args h1] eqn:E.
  injection Ht as <- <-.
  assert (Hargs : grows_clean h h1 ∧ (args = None
    ∨ ∃ b k c, args = Some b ∧ b ≠ a ∧ cells h1 !! b = Some (MkNode k 0 "" "" c None)
        ∧ (k = MappingNode ∨ k = SequenceNode)
        ∧ (c = Content n ∨ ∃ b' v, c = [Some b'] ∧ b' ≠ a ∧ cells h1 !! b' = Some (scalar v)))).
  { assert (Hcont : ∀ k, (k = MappingNode ∨ k = SequenceNode) →
      (let '(b, h) := alloc h (MkNode k 0 "" "" (Content n) None) in (Some b, h)) = (args, h1) →
      grows_clean h h1 ∧ ∃ b c, args = Some b ∧ b ≠ a
        ∧ cells h1 !! b = Some (MkNode k 0 "" "" c None) ∧ c = Content n).
    { clear E. intros k Hk Ek. destruct (alloc _ _) as [b h2] eqn:Eb. injection Ek as <- <-.
      destruct (alloc_spec _ _ _ _ Eb Hf) as (_ & _ & _ & Hnone).
      destruct (grows_alloc _ _ _ _ (λ m, clean m = true) Eb Hf) as [G Hb].
      { apply clean_built; [done|done|]. cbn. tauto. }
      split; [done|]. eexists b, _. split_and!; [done|congruence|exact Hb|done]. }
    destruct (Kind_ n).
    1, 2, 6: injection E as <- <-; split; [by apply grows_refl|by left].
    - destruct (Hcont SequenceNode ltac:(tauto) E) as (G & b & c & ? & ? & ? & ?).
      split; [done|]. right. exists b, SequenceNode, c. split_and!; [done..|tauto|by left].
    - destruct (Hcont MappingNode ltac:(tauto) E) as (G & b & c & ? & ? & ? & ?).
      split; [done|]. right. exists b, MappingNode, c. split_and!; [done..|tauto|by left].
    - destruct (new_scalar h (NodeValue n)) as [p h2] eqn:E1.
      destruct (alloc h2 _) as [b h3] eqn:E2. injection E as <- <-.
      destruct (build_spec [inl (NodeValue n)] h [p] h2) as [G1 Hp];
        [cbn [build]; by rewrite E1|done|]. apply Forall2_cons_1 in Hp as [Hp _]. cbn in Hp.
      destruct Hp as (b' & -> & Hn & Hb').
      destruct (alloc_spec _ _ _ _ E2 (proj1 G1)) as (_ & _ & _ & Hnone).
      destruct (grows_alloc _ _ _ _ (λ m, clean m = true) E2 (proj1 G1)) as [G2 Hb].
      { apply clean_built; [done|done|]. cbn. tauto. }
      split; [by eapply grows_trans|]. right. exists b, SequenceNode, [Some b'].
      assert (cells h2 !! a = Some n) by (by eapply grows_lookup).
      split_and!; [done|congruence|done|tauto|]. right. exists b', (NodeValue n).
      split_and!; [done|congruence|by eapply grows_lookup]. }
  destruct Hargs as [G Hargs]. apply rewrites_replace with (h0 := h); [done|done|cbn; lia|].
  intros sizes Hs. cbn [pointers omap list_omap].
  destruct Hargs as [->|(b & k & c & -> & Hne & Hb & Hk & Hc)].
  { exists [1]. split; [|cbn; lia]. repeat constructor. }
  assert (Ha1 : cells h1 !! a = Some n) by (by eapply grows_lookup).
  set (items := [inl ("$fn." +:+ name); inr (Some b)]).
  assert (Hkeep : ∀ b m, b ≠ a → cells h1 !! b = Some m → cells (replace h1 a items) !! b = Some m).
  { intros b' m Hb' Hm. unfold replace. destruct (build h1 items) as [ps h2] eqn:Eb.
    destruct (build_spec _ _ _ _ Eb (proj1 G)) as [G2 _]. cbn. rewrite lookup_insert_ne by done.
    by eapply grows_lookup. }
  assert (Hsz : ∃ ss, sized_list (replace h1 a items) c ss ∧ sum_list ss ≤ 1 + sum_list sizes).
  { destruct Hc as [->|(b' & v & -> & Hne' & Hb')]; [exists sizes; split; [done|lia]|].
    exists [1]. split; [|cbn; lia]. constructor; [|constructor]. by eapply sized_scalar, Hkeep. }
  destruct Hsz as (ss & Hss & Hsum). exists [1 + sum_list ss]. split; [|cbn; lia].
  constructor; [|constructor]. eapply sized_built; [by apply Hkeep|done|done].
Qed.

Lemma binary_transformer_ok : transformer_ok YAMLBinaryToEncodingTransformer.
Proof.
  intros h a n h' ok Hf Ha Ht. unfold YAMLBinaryToEncodingTransformer in Ht.
  destruct (_ && _); [|leaves Ht]. injection Ht as <- <-.
  apply rewrites_replace with (h0 := h); [done|by apply grows_refl|cbn; lia|].
  intros sizes _. exists []. split; [constructor|cbn; lia].
Qed.

Lemma unknown_transformer_ok : transformer_ok YAMLUnknownTagTransformer.
Proof.
  intros h a n h' ok Hf Ha Ht. unfold YAMLUnknownTagTransformer in Ht.
  destruct (_ && _); [done|leaves Ht].
Qed.

Lemma YAMLTransformers_ok : Forall transformer_ok YAMLTransformers.
Proof.
  unfold YAMLTransformers. repeat apply Forall_cons_2; [..|apply Forall_nil_2].
  - apply single_transformer_ok.
  - apply single_transformer_ok.
  - apply pair_transformer_ok.
  - apply pair_transformer_ok.
  - apply (single_transformer_ok _ _ _ ShortTag).
  - apply pair_transformer_ok.
  - apply invocation_transformer_ok.
  - apply binary_transformer_ok.
  - apply unknown_transformer_ok.
Qed.

(** A clean node goes through all the transformers unchanged. *)
Lemma transform_node_skip ts h a n :
  cells h !! a = Some n → Forall (λ t : YAMLTransformer, t h a n = Ok (h, false)) ts →
  transform_node ts h a = Ok h.
Proof.
  intros Ha. induction 1 as [|t ts Ht _ IH]; [done|]. cbn [transform_node].
  unfold deref. cbn. rewrite Ha. cbn. by rewrite Ht.
Qed.

Lemma clean_tag n :
  clean n = true → ShortTag n = "" ∨ ∃ r, ShortTag n = String "!" (String "!" r).
Proof.
  intros [Ht _]%andb_true_iff. apply orb_true_iff in Ht as [Ht%String.eqb_eq|Ht]; [by left|].
  right. apply has_prefix_spec in Ht as [r ->]. by exists r.
Qed.

Lemma transform_node_clean h a n :
  cells h !! a = Some n → clean n = true → transform_node YAMLTransformers h a = Ok h.
Proof.
  intros Ha Hc. eapply transform_node_skip; [done|].
  assert (Htag : Tag n ≠ "!Data" ∧ Tag n ≠ "!Secret").
  { split; intros E; assert (E' := ShortTag_custom n); rewrite E in E';
      destruct (clean_tag n Hc) as [Hs|[r Hs]]; rewrite Hs in E';
      by (discriminate E'; tauto) || (specialize (E' ltac:(tauto)); discriminate E'). }
  destruct Htag as [H1 H2].
  assert (Hb : String.eqb (ShortTag n) "!!binary" && bool_decide (Kind_ n = ScalarNode) = false).
  { apply andb_true_iff in Hc as [_ Hc]. by apply negb_true_iff in Hc. }
  unfold YAMLTransformers. repeat apply Forall_cons_2; [..|apply Forall_nil_2].
  - unfold YAMLDataTransformer. by rewrite (proj2 (String.eqb_neq _ _) H1).
  - unfold YAMLSecretTransformer. by rewrite (proj2 (String.eqb_neq _ _) H2).
  - unfold YAMLConnectionTransformer. by destruct (clean_tag n Hc) as [->|[r ->]].
  - unfold YAMLOutputTransformer. by destruct (clean_tag n Hc) as [->|[r ->]].
  - unfold YAMLParameterTransformer. by destruct (clean_tag n Hc) as [->|[r ->]].
  - unfold YAMLAnswerTransformer. by destruct (clean_tag n Hc) as [->|[r ->]].
  - unfold YAMLInvocationTransformer. by destruct (clean_tag n Hc) as [->|[r ->]].
  - unfold YAMLBinaryToEncodingTransformer. by rewrite Hb.
  - unfold YAMLUnknownTagTransformer. destruct (clean_tag n Hc) as [->|[r ->]]; [done|].
    by rewrite (proj2 (has_prefix_spec "!!" _)) by (by exists r).
Qed.

(** A node that is not clean is rewritten, or refused. *)
Lemma transform_node_dirty h a n h' :
  fresh_above h → cells h !! a = Some n → clean n = false →
  transform_node YAMLTransformers h a = Ok h' → rewrites h h' a n.
Proof.
  intros Hf Ha Hc.
  assert (Hgen : ∀ ts, Forall transformer_ok ts → transform_node ts h a = Ok h' →
    rewrites h h' a n ∨ (h' = h ∧ Forall (λ t : YAMLTransformer, t h a n = Ok (h, false)) ts)).
  { induction 1 as [|t ts Ht Hts IH]; intros Ho.
    - injection Ho as <-. right. split; [done|constructor].
    - cbn [transform_node] in Ho. unfold deref in Ho. cbn in Ho. rewrite Ha in Ho. cbn in Ho.
      inv_ok. destruct a0 as [h1 ok]. specialize (Ht _ _ _ _ _ Hf Ha Ho0). destruct ok.
      + injection Ho as <-. by left.
      + subst h1. destruct (IH Ho) as [?|[-> ?]]; [by left|]. right. split; [done|by constructor]. }
  intros Ho. destruct (Hgen _ YAMLTransformers_ok Ho) as [?|[_ Hall]]; [done|]. exfalso.
  unfold YAMLTransformers in Hall.
  repeat match goal with H : Forall _ (_ :: _) |- _ => apply Forall_cons in H as [? H] end.
  unfold YAMLBinaryToEncodingTransformer, YAMLUnknownTagTransformer, clean in *.
  destruct (String.eqb (ShortTag n) "!!binary" && bool_decide (Kind_ n = ScalarNode)) eqn:Eb;
    [discriminate|]. rewrite andb_true_r in Hc. apply orb_false_iff in Hc as [E1 E2].
  by rewrite E1, E2 in *.
Qed.

(** ** The work list ends *)
Definition fueled {A} (o : result A) : Prop := o ≠ out_of_fuel.

Lemma fueled_bind {A B} (o : result A) (f : A → result B) :
  fueled o → (∀ x, o = Ok x → fueled (f x)) → fueled (o ≫= f).
Proof. unfold fueled. destruct o; cbn; intros H1 H2; [by apply H2|done|].
  intros Hw. apply H1. by injection Hw as ->. Qed.

Lemma fueled_deref h p : fueled (deref h p).
Proof. unfold deref. by destruct (p ≫= _). Qed.

Ltac fueled :=
  repeat first [ done | apply fueled_deref | apply fueled_bind; [|intros ? _] | case_match ].

Lemma fueled_transformers : Forall (λ t : YAMLTransformer, ∀ h a n, fueled (t h a n)) YAMLTransformers.
Proof.
  assert (Hpf : ∀ h key1 key2 bad k content v, length content ≤ k →
    fueled (pair_fields h key1 key2 bad content v)).
  { intros h key1 key2 bad k. induction k as [|k IH]; intros content v Hl;
      (destruct content as [|pk [|pv rest]]; [done|done|]); cbn in Hl; [lia|].
    cbn [pair_fields]. apply fueled_bind; [apply fueled_deref|]. intros n _.
    repeat case_match; try done; apply IH; lia. }
  unfold YAMLTransformers. repeat apply Forall_cons_2; [..|apply Forall_nil_2]; intros h a n;
    unfold YAMLDataTransformer, YAMLSecretTransformer, YAMLConnectionTransformer,
      YAMLOutputTransformer, YAMLParameterTransformer, YAMLAnswerTransformer,
      YAMLInvocationTransformer, YAMLBinaryToEncodingTransformer, YAMLUnknownTagTransformer,
      transform_single, transform_pair;
    repeat first [ done | by eapply Hpf | apply fueled_deref
                 | apply fueled_bind; [|intros ? _] | case_match ].
Qed.

Lemma fueled_transform_node h a : fueled (transform_node YAMLTransformers h a).
Proof.
  generalize fueled_transformers. generalize YAMLTransformers as ts. intros ts Hts. revert h.
  induction Hts as [|t ts Ht _ IH]; intros h; [done|]. cbn [transform_node].
  apply fueled_bind; [apply fueled_deref|]. intros n _. apply fueled_bind; [apply Ht|].
  intros [h' []] _; [done|apply IH].
Qed.

Lemma follow_alias_sized h p k fuel :
  sized h p k → k ≤ fuel →
  fueled (follow_alias fuel h p)
  ∧ ∀ a, follow_alias fuel h p = Ok a →
      ∃ n k', cells h !! a = Some n ∧ Kind_ n ≠ AliasNode ∧ sized h (Some a) k' ∧ k' ≤ k.
Proof.
  intros Hs. revert fuel. induction Hs as [k Hk|a n k Ha Hn Hs IH|a n sizes k Ha Hn Hl Hc _ Hsum];
    intros fuel Hf.
  - destruct fuel as [|fuel]; [lia|]. cbn. split; done.
  - destruct fuel as [|fuel]; [lia|]. cbn [follow_alias]. unfold deref. cbn. rewrite Ha. cbn.
    rewrite Hn. destruct (IH fuel ltac:(lia)) as [H1 H2]. split; [done|]. intros b Hb.
    destruct (H2 b Hb) as (m & k' & ? & ? & ? & ?). exists m, k'. split_and!; [done..|lia].
  - pose proof (cost_pos n). destruct fuel as [|fuel]; [lia|].
    cbn [follow_alias]. unfold deref. cbn. rewrite Ha. cbn. split; [by destruct (Kind_ n)|].
    intros b Hb. assert (b = a) as -> by (by destruct (Kind_ n); try done; injection Hb).
    exists n, k. split_and!; [done|done| |lia]. by eapply sized_node.
Qed.

(** One step of the work list at a node that is not an alias. *)
Lemma transform_step h a n h' k :
  fresh_above h → cells h !! a = Some n → Kind_ n ≠ AliasNode → sized h (Some a) k →
  transform_node YAMLTransformers h a = Ok h' →
  fresh_above h'
  ∧ (∀ p s, sized h p s → sized h' p s)
  ∧ ∃ n' sizes, cells h' !! a = Some n' ∧ clean n' = true ∧ Kind_ n' ≠ AliasNode
      ∧ sized_list h' (Content n') sizes ∧ S (sum_list sizes) ≤ k.
Proof.
  intros Hf Ha Hk Hs Ho. destruct (clean n) eqn:Hc.
  - rewrite (transform_node_clean _ _ _ Ha Hc) in Ho. injection Ho as <-.
    split_and!; [done|done|].
    inversion Hs as [|? m ? Hm Hal|? m sizes ? Hm _ Hl Hsz Hsum]; subst;
      replace m with n in * by congruence; [done|].
    exists n, sizes. split_and!; [done|done|done|by apply sized_list_lookup|].
    pose proof (cost_pos n). lia.
  - assert (Hr := transform_node_dirty _ _ _ _ Hf Ha Hc Ho).
    assert (Hkeep : ∀ p s, sized h p s → sized h' p s)
      by (intros; by eapply (rewrites_sized h h' a n)).
    split_and!; [by eapply rw_fresh|done|].
    destruct (rw_node _ _ _ _ Hr) as (c & Hc' & Hb). exists (mapping c).
    inversion Hs as [|? m ? Hm Hal|? m sizes ? Hm _ Hl Hsz Hsum]; subst;
      replace m with n in * by congruence; [done|].
    destruct (Hb sizes Hl) as (sizes' & Hl' & Hsz' & Hle); [by eauto|]. exists sizes'.
    split_and!; [done|apply clean_mapping|done|by apply sized_list_lookup|].
    unfold cost in Hsum. rewrite Hc in Hsum. lia.
Qed.

Lemma transform_all_terminates fuel h stack sizes :
  fresh_above h → sized_list h stack sizes → sum_list sizes ≤ fuel →
  fueled (transform_all fuel h stack).
Proof.
  revert h stack sizes. induction fuel as [|fuel IH]; intros h [|p stack] sizes Hf Hs Hsum;
    [done| |done|].
  - inversion Hs as [|? s ? ss Hp]; subst. apply sized_pos in Hp. cbn in Hsum. lia.
  - inversion Hs as [|? s ? ss Hp Hss]; subst. cbn in Hsum. cbn [transform_all].
    destruct (follow_alias_sized h p s (S fuel) Hp ltac:(lia)) as [Hfol Hok].
    apply fueled_bind; [done|]. intros a Ha. destruct (Hok a Ha) as (n & k & Hn & Hk & Hsa & Hle).
    apply fueled_bind; [apply fueled_transform_node|]. intros h' Hh'.
    destruct (transform_step _ _ _ _ _ Hf Hn Hk Hsa Hh') as (Hf' & Hkeep & n' & sz & Hn' & _ & _ & Hsz & Hsum').
    unfold deref. cbn. rewrite Hn'. cbn.
    apply (IH h' (stack ++ Content n') (ss ++ sz)).
    + done.
    + apply Forall2_app; [|done]. eapply Forall2_impl; [exact Hss|]. eauto.
    + rewrite sum_list_with_app. unfold sum_list in *. lia.
Qed.

(** ** Everything reachable has been visited *)
Inductive resolves (h : store) : option nat → nat → Prop :=
| res_node a n : cells h !! a = Some n → Kind_ n ≠ AliasNode → resolves h (Some a) a
| res_alias a n b :
    cells h !! a = Some n → Kind_ n = AliasNode → resolves h (Alias n) b → resolves h (Some a) b.

Inductive reachable (h : store) : option nat → nat → Prop :=
| reach_here p a : resolves h p a → reachable h p a
| reach_child p a n q b :
    resolves h p a → cells h !! a = Some n → q ∈ Content n → reachable h q b → reachable h p b.

Lemma resolves_unique h p a b : resolves h p a → resolves h p b → a = b.
Proof.
  intros Ha. revert b. induction Ha as [a n Hn Hk|a n b Hn Hk Hb IH]; intros c Hc;
    inversion Hc as [? m Hm|? m ? Hm]; subst; replace m with n in * by congruence; try done.
  by apply IH.
Qed.

Lemma follow_alias_resolves fuel h p a : follow_alias fuel h p = Ok a → resolves h p a.
Proof.
  revert p. induction fuel as [|fuel IH]; intros p; [done|]. cbn [follow_alias].
  intros Ho. inv_ok. unfold deref in Ho0. destruct p as [b|]; [|done]. cbn in Ho0.
  destruct (cells h !! b) as [n|] eqn:Hn; [|done]. injection Ho0 as <-.
  destruct (Kind_ n) eqn:Hk; try (injection Ho as <-; eapply res_node; [done|congruence]).
  eapply res_alias; [done..|by apply IH].
Qed.

Lemma rewrites_resolves h h' a n q b :
  rewrites h h' a n → cells h !! a = Some n → Kind_ n ≠ AliasNode →
  resolves h q b → resolves h' q b.
Proof.
  intros Hr Ha Hk Hq. induction Hq as [c m Hm Hkm|c m d Hm Hkm _ IH].
  - destruct (decide (c = a)) as [->|Hne].
    + destruct (rw_node _ _ _ _ Hr) as (cs & Hc & _). by eapply res_node.
    + eapply res_node; [by eapply rw_others|done].
  - assert (c ≠ a) by congruence. eapply res_alias; [by eapply rw_others|done..].
Qed.

(** [V] has been visited; what its nodes point to is visited or on the stack. *)
Definition covered (h : store) (V : nat → Prop) (stack : list (option nat)) (q : option nat) : Prop :=
  q ∈ stack ∨ ∃ b, V b ∧ resolves h q b.

Definition visited_ok (h : store) (V : nat → Prop) (stack : list (option nat)) : Prop :=
  ∀ a, V a → ∃ n, cells h !! a = Some n ∧ Kind_ n ≠ AliasNode ∧ clean n = true
                  ∧ ∀ q, q ∈ Content n → covered h V stack q.

Lemma transform_node_visit h a n h' :
  fresh_above h → cells h !! a = Some n → Kind_ n ≠ AliasNode →
  transform_node YAMLTransformers h a = Ok h' →
  fresh_above h' ∧ (∀ q b, resolves h q b → resolves h' q b)
  ∧ (∃ n', cells h' !! a = Some n' ∧ clean n' = true ∧ Kind_ n' ≠ AliasNode)
  ∧ ∀ b m, clean m = true → cells h !! b = Some m → cells h' !! b = Some m.
Proof.
  intros Hf Ha Hk Ho. destruct (clean n) eqn:Hc.
  - rewrite (transform_node_clean _ _ _ Ha Hc) in Ho. injection Ho as <-.
    split_and!; [done|done|by exists n|done].
  - assert (Hr := transform_node_dirty _ _ _ _ Hf Ha Hc Ho). split_and!.
    + by eapply rw_fresh.
    + intros q b. by eapply rewrites_resolves.
    + destruct (rw_node _ _ _ _ Hr) as (c & Hc' & _). exists (mapping c).
      split_and!; [done|apply clean_mapping|done].
    + intros b m Hm Hb. eapply rw_others; [done| |done]. congruence.
Qed.

Lemma transform_all_visits fuel h stack h' V :
  fresh_above h → visited_ok h V stack → transform_all fuel h stack = Ok h' →
  ∃ V', visited_ok h' V' [] ∧ ∀ q, covered h V stack q → ∃ b, V' b ∧ resolves h' q b.
Proof.
  revert h stack V. induction fuel as [|fuel IH]; intros h [|p stack] V Hf HV Ho; try done.
  1, 2: injection Ho as <-; exists V; split; [exact HV|]; intros q [Hq|Hq];
    [by apply not_elem_of_nil in Hq|exact Hq].
  cbn [transform_all] in Ho. inv_ok. unfold deref in Ho2. cbn in Ho2.
  apply follow_alias_resolves in Ho0 as Hp.
  assert (∃ n, cells h !! a = Some n ∧ Kind_ n ≠ AliasNode) as (n & Ha & Hk).
  { clear -Hp. induction Hp; eauto. }
  destruct (transform_node_visit _ _ _ _ Hf Ha Hk Ho1) as (Hf' & Hres & (n' & Ha' & Hc' & Hk') & Hkeep).
  rewrite Ha' in Ho2. injection Ho2 as <-.
  destruct (IH a0 (stack ++ Content n') (λ b, b = a ∨ V b)) as (V' & HV' & Hcov); [done| |done|].
  - intros b [->|Hb].
    + exists n'. split_and!; [done|done|done|]. intros q Hq. left. apply elem_of_app. by right.
    + destruct (HV b Hb) as (m & Hm & Hmk & Hmc & Hq). exists m.
      split_and!; [by apply Hkeep|done|done|]. intros q Hin.
      destruct (Hq q Hin) as [[->|Hs]%elem_of_cons|(c & Hc & Hr)].
      * right. exists a. split; [by left|by apply Hres].
      * left. apply elem_of_app. by left.
      * right. exists c. split; [by right|by apply Hres].
  - exists V'. split; [done|]. intros q [[->|Hs]%elem_of_cons|(c & Hc & Hr)]; apply Hcov.
    + right. exists a. split; [by left|by apply Hres].
    + left. apply elem_of_app. by left.
    + right. exists c. split; [by right|by apply Hres].
Qed.

Lemma transform_all_clean fuel h p h' :
  fresh_above h → transform_all fuel h [p] = Ok h' →
  ∀ b, reachable h' p b → ∃ n, cells h' !! b = Some n ∧ clean n = true.
Proof.
  intros Hf Ho b Hb.
  destruct (transform_all_visits fuel h [p] h' (λ _, False) Hf) as (V & HV & Hcov); [by intros ? []|exact Ho|].
  destruct (Hcov p) as (r & Hr & Hpr); [left; left|]. clear Ho Hcov.
  revert r Hr Hpr. induction Hb as [q a Ha|q a n q' b Ha Hn Hq _ IH]; intros r Hr Hpr;
    assert (r = a) as -> by (by eapply resolves_unique).
  - destruct (HV a Hr) as (n & ? & _ & ? & _). by exists n.
  - destruct (HV a Hr) as (m & Hm & _ & _ & Hcov). replace m with n in * by congruence.
    destruct (Hcov q' Hq) as [Hbad|(c & Hc & Hrc)]; [by apply not_elem_of_nil in Hbad|].
    by eapply IH.
Qed.
End theory.
