(* ===== verification/YamlProperties.v ===== *)
(** * Properties of the YAML rewriting *)
From S2P Require Import Prelude GoStd GoStrings Values Errors Transfer Yaml YamlTheory Samples.
From S2P Require Import Unresolvable Fn Resolve Evaluate.

(** ** A concrete YAML library

    [ShortTag] shortens nothing and types plain scalars as strings; [Decode] reads
    mappings with scalar keys, to a fixed depth. *)
Definition sample_short_tag (n : node) : string :=
  if String.eqb (Tag n) "" then
    match Kind_ n with
    | MappingNode => "!!map" | SequenceNode => "!!seq" | ScalarNode => "!!str" | _ => ""
    end
  else Tag n.

Fixpoint sample_decode (fuel : nat) (h : store) (p : option nat) : result value :=
  match fuel with
  | O => Err (EText "too deep")
  | S fuel' =>
      n ← deref h p;
      match Kind_ n with
      | ScalarNode => Ok (VString (NodeValue n))
      | SequenceNode => l ← mapM (sample_decode fuel' h) (Content n); Ok (VSlice l)
      | MappingNode =>
          (fix pairs (l : list (option nat)) (m : gmap string value) : result value :=
             match l with
             | pk :: pv :: rest =>
                 k ← deref h pk; v ← sample_decode fuel' h pv;
                 pairs rest (<[NodeValue k := v]> m)
             | _ => Ok (VMap m)
             end) (Content n) ∅
      | AliasNode => sample_decode fuel' h (Alias n)
      | _ => Ok VNil
      end
  end.

Definition sample_yaml : YAML := {| ShortTag := sample_short_tag; Decode := sample_decode 20 |}.

#[export] Instance sample_yaml_laws : @YAMLLaws sample_yaml.
Proof.
  split; intros n; cbn; unfold sample_short_tag.
  - by intros [-> | ->].
  - intros -> _. by intros [-> | [-> | ->]].
Qed.

Definition store_of (l : list node) : store :=
  MkStore (length l) (list_to_map (zip (seq 0 (length l)) l)).

(** [[!Secret {name: key}, *x]], where [x] is the first item. *)
Definition secret_store : store := store_of [
  MkNode SequenceNode 0 "" "" [Some 1; Some 4] None;
  MkNode MappingNode 0 "!Secret" "" [Some 2; Some 3] None;
  scalar "name"; scalar "key";
  MkNode AliasNode 0 "" "" [] (Some 1)].

Lemma secret_store_fresh : fresh_above secret_store.
Proof.
  intros a Ha. cbn in Ha. apply not_elem_of_list_to_map_1. cbn.
  rewrite !not_elem_of_cons. split_and!; try lia. apply not_elem_of_nil.
Qed.

(** C28: When the work list of [ParseYAMLNode] ends without error, no node that can be
    reached from the document, through contents and aliases, has a custom tag or a
    binary scalar left: the tree handed to the decoder is core-schema YAML. *)
Theorem yaml_no_custom_tags `{YAMLLaws} `{GoFmt} fuel h p h' b :
  fresh_above h → transform_all fuel h [p] = Ok h' → reachable h' p b →
  ∃ n, cells h' !! b = Some n ∧ clean n = true.
Proof. intros Hf Ho Hb. by eapply transform_all_clean. Qed.

Definition secret_store_after : store :=
  match @transform_all sample_yaml sample_fmt 20 secret_store [Some 0] with
  | Ok h => h
  | _ => secret_store
  end.

Lemma yaml_no_custom_tags_witness :
  ∃ n, cells secret_store_after !! 1 = Some n ∧ @clean sample_yaml n = true.
Proof.
  apply (@yaml_no_custom_tags sample_yaml _ sample_fmt 20 secret_store (Some 0)).
  - apply secret_store_fresh.
  - vm_compute. reflexivity.
  - eapply reach_child.
    + eapply res_node; [vm_compute; reflexivity|discriminate].
    + vm_compute; reflexivity.
    + left.
    + apply reach_here. eapply res_node; [vm_compute; reflexivity|discriminate].
Defined.

(** C31: The work list ends on every acyclic document: where the graph unfolds to a tree
    of weight [k] (aliases included, 8 for each node that is to be rewritten), [k]
    steps are enough, however the rewriting changes the graph on the way. *)
Theorem yaml_terminates `{YAMLLaws} `{GoFmt} h p k fuel :
  fresh_above h → sized h p k → k ≤ fuel → transform_all fuel h [p] ≠ out_of_fuel.
Proof.
  intros Hf Hs Hk. apply (transform_all_terminates fuel h [p] [k]); [done| |cbn; lia].
  by constructor.
Qed.

Lemma yaml_terminates_witness :
  @transform_all sample_yaml sample_fmt 22 secret_store [Some 0] ≠ out_of_fuel.
Proof.
  assert (H1 : ∀ b v, cells secret_store !! b = Some (scalar v) →
    @sized sample_yaml secret_store (Some b) 1).
  { intros b v Hb. by eapply sized_scalar. }
  assert (H2 : @sized sample_yaml secret_store (Some 1) 10).
  { eapply (@sized_node sample_yaml _ _ _ [1; 1]);
      [vm_compute; reflexivity|discriminate|reflexivity| |vm_compute; lia].
    intros [|[|[]]] p s; cbn; intros [= <-] [= <-]; eapply H1; vm_compute; reflexivity. }
  apply (@yaml_terminates sample_yaml _ sample_fmt _ _ 22); [apply secret_store_fresh| |lia].
  eapply (@sized_node sample_yaml _ _ _ [10; 11]);
    [vm_compute; reflexivity|discriminate|reflexivity| |vm_compute; lia].
  intros [|[|[]]] p s; cbn; intros [= <-] [= <-]; [exact H2|].
  eapply sized_alias; [vm_compute; reflexivity|reflexivity|exact H2].
Defined.

(** ** Spellings *)

(** The node at [a] is a mapping of the scalars [fields]. *)
Definition reads (h : store) (a : nat) (fields : list string) : Prop :=
  ∃ ps, cells h !! a = Some (mapping ps)
    ∧ Forall2 (λ p v, ∃ m, deref h p = Ok m ∧ Kind_ m = ScalarNode ∧ NodeValue m = v) ps fields.

(** [n] spells a reference with the one field [key] as a scalar, a sequence or a mapping. *)
Definition spells (h : store) (n : node) (key v : string) : Prop :=
  let is_scalar p s := ∃ b m, p = Some b ∧ cells h !! b = Some m ∧ Kind_ m = ScalarNode
                              ∧ NodeValue m = s in
  (Kind_ n = ScalarNode ∧ NodeValue n = v)
  ∨ (Kind_ n = SequenceNode ∧ ∃ p, Content n = [p] ∧ is_scalar p v)
  ∨ (Kind_ n = MappingNode ∧ ∃ pk p, Content n = [pk; p] ∧ is_scalar pk key ∧ is_scalar p v).

Lemma replace_reads `{YAMLLaws} h h1 a n ty key value v :
  fresh_above h → cells h !! a = Some n → grows h h1 (λ m, clean m = true) →
  (∃ b m, value = Some b ∧ b ≠ a ∧ cells h1 !! b = Some m ∧ Kind_ m = ScalarNode ∧ NodeValue m = v) →
  reads (replace h1 a [inl "$type"; inl ty; inl key; inr value]) a ["$type"; ty; key; v].
Proof.
  intros Hf Ha G (b & m & -> & Hne & Hb & Hk & Hv). assert (Ha1 := grows_lookup _ _ _ _ _ G Ha).
  unfold replace. destruct (build h1 _) as [ps h2] eqn:E.
  destruct (build_spec _ _ _ _ E (proj1 G)) as [G2 Hps]. exists ps. cbn.
  split; [by rewrite lookup_insert_eq|].
  assert (Hs : ∀ p s, built h1 h2 (inl s) p →
    ∃ m, deref (write h2 a (mapping ps)) p = Ok m ∧ Kind_ m = ScalarNode ∧ NodeValue m = s).
  { intros p s (c & -> & Hc & Hcs). exists (scalar s). unfold deref. cbn.
    rewrite lookup_insert_ne by congruence. by rewrite Hcs. }
  inversion Hps as [|? p1 ? ps1 H1 Hps1]; subst. inversion Hps1 as [|? p2 ? ps2 H2 Hps2]; subst.
  inversion Hps2 as [|? p3 ? ps3 H3 Hps3]; subst. inversion Hps3 as [|? p4 ? ps4 H4 Hps4]; subst.
  inversion Hps4; subst. cbn in H4. subst p4.
  repeat constructor; [by apply Hs..|]. exists m. unfold deref. cbn.
  rewrite lookup_insert_ne by done. by rewrite (grows_lookup _ _ _ _ _ G2 Hb).
Qed.

Lemma single_spelling `{YAMLLaws} `{GoFmt} ty key h a n v :
  fresh_above h → cells h !! a = Some n → spells h n key v →
  ∃ h', transform_single ty key h a n = Ok (h', true) ∧ reads h' a ["$type"; ty; key; v].
Proof.
  intros Hf Ha [[Hk Hv]|[(Hk & p & Hc & b & m & -> & Hb & Hm & Hmv)
    |(Hk & pk & p & Hc & (bk & mk & -> & Hbk & _ & Hkey) & b & m & -> & Hb & Hm & Hmv)]];
    unfold transform_single; rewrite Hk; cbn [mbind outcome_bind].
  - destruct (new_scalar h (NodeValue n)) as [p h1] eqn:E. cbn. eexists. split; [done|].
    destruct (build_spec [inl (NodeValue n)] h [p] h1) as [G Hp]; [cbn [build]; by rewrite E|done|].
    apply Forall2_cons_1 in Hp as [Hp _]. cbn in Hp. destruct Hp as (b & -> & Hn & Hb).
    eapply replace_reads; [done..|]. exists b, (scalar (NodeValue n)).
    split_and!; [done|congruence|done|done|done].
  - rewrite Hc. cbn. eexists. split; [done|].
    eapply (replace_reads h); [done|done|by apply grows_refl|]. exists b, m.
    split_and!; [done|congruence|done..].
  - rewrite Hc. unfold deref. cbn [mbind option_bind outcome_bind]. rewrite Hbk. cbn.
    rewrite Hkey, String.eqb_refl. cbn. eexists. split; [done|].
    eapply (replace_reads h); [done|done|by apply grows_refl|]. exists b, m.
    split_and!; [done|congruence|done..].
Qed.

(** The three spellings of a reference with one field agree: as a scalar, as a
    list of one item and as a mapping, [!Secret], [!Parameter] and [!Data] become the
    same mapping [{$type: ..., name: ...}] in place. *)
Theorem yaml_spellings_agree `{YAMLLaws} `{GoFmt} h a n v :
  fresh_above h → cells h !! a = Some n →
  (Tag n = "!Secret" → spells h n "name" v →
   ∃ h', YAMLSecretTransformer h a n = Ok (h', true) ∧ reads h' a ["$type"; "Secret"; "name"; v])
  ∧ (ShortTag n = "!Parameter" → spells h n "name" v →
     ∃ h', YAMLParameterTransformer h a n = Ok (h', true)
           ∧ reads h' a ["$type"; "Parameter"; "name"; v])
  ∧ (Tag n = "!Data" → spells h n "query" v →
     ∃ h', YAMLDataTransformer h a n = Ok (h', true) ∧ reads h' a ["$type"; "Data"; "query"; v]).
Proof.
  intros Hf Ha. unfold YAMLSecretTransformer, YAMLParameterTransformer, YAMLDataTransformer.
  split_and!; intros -> Hs; cbn [String.eqb Ascii.eqb Bool.eqb]; by apply single_spelling.
Qed.

Lemma yaml_spellings_agree_witness :
  ∃ h', @YAMLSecretTransformer secret_store 1
          (MkNode MappingNode 0 "!Secret" "" [Some 2; Some 3] None) = Ok (h', true)
        ∧ reads h' 1 ["$type"; "Secret"; "name"; "key"].
Proof.
  apply (@yaml_spellings_agree sample_yaml _ sample_fmt).
  - apply secret_store_fresh.
  - vm_compute. reflexivity.
  - reflexivity.
  - right; right. split; [reflexivity|]. exists (Some 2), (Some 3). split; [reflexivity|].
    split; [exists 2, (scalar "name")|exists 3, (scalar "key")]; split_and!; vm_compute; reflexivity.
Defined.

(** ** Where the rewriting fails *)

(** [!Connection {type: a, type: b}]: the [name] pointer stays nil. *)
Definition duplicate_store : store := store_of [
  MkNode MappingNode 0 "!Connection" "" [Some 1; Some 2; Some 3; Some 4] None;
  scalar "type"; scalar "a"; scalar "type"; scalar "b"].

(** [&a [*a]]: a sequence that contains itself through an alias. *)
Definition cyclic_store : store := store_of [
  MkNode SequenceNode 0 "" "" [Some 1] None;
  MkNode AliasNode 0 "" "" [] (Some 0)].

Lemma cyclic_loop `{GoFmt} fuel :
  @transform_all sample_yaml _ fuel cyclic_store [Some 0] = out_of_fuel
  ∧ @transform_all sample_yaml _ fuel cyclic_store [Some 1] = out_of_fuel.
Proof.
  induction fuel as [|fuel [IH0 IH1]]; [done|]. split.
  - change (@transform_all sample_yaml _ (S fuel) cyclic_store [Some 0])
      with (@transform_all sample_yaml _ fuel cyclic_store [Some 1]). done.
  - destruct fuel as [|fuel]; [done|].
    change (@transform_all sample_yaml _ (S (S fuel)) cyclic_store [Some 1])
      with (@transform_all sample_yaml _ (S fuel) cyclic_store [Some 1]). done.
Qed.

(** Two documents on which [ParseYAMLNode] does not return an error but fails: a
    pair reference with a repeated key dereferences a nil pointer, and a sequence that
    contains itself through an alias is never done. *)
Theorem yaml_nil_and_cycles `{GoFmt} :
  (∃ w, @transform_all sample_yaml _ 20 duplicate_store [Some 0] = Panic w
        ∧ w ≠ "out of fuel")
  ∧ (∀ fuel, @transform_all sample_yaml _ fuel cyclic_store [Some 0] = out_of_fuel).
Proof.
  split; [|intros fuel; apply cyclic_loop].
  eexists. split; [vm_compute; reflexivity|done].
Qed.

(** [ParseFile] never parses YAML: [filepath.Ext] returns the extension with its
    dot, the switch compares it without one, and every file goes to the JSON parser. *)
Theorem parse_file_never_yaml name : parse_format name = AsJSON.
Proof.
  assert (H : filepath_ext name = "" ∨ ∃ r, filepath_ext name = String "." r).
  { induction name as [|c s IH]; [by left|]. cbn.
    destruct (Ascii.eqb c "."%char && String.eqb (filepath_ext s) "" && negb (string_elem "/" s)) eqn:E.
    - right. apply andb_true_iff in E as [[E _]%andb_true_iff _]. apply Ascii.eqb_eq in E as ->. eauto.
    - done. }
  unfold parse_format. by destruct H as [->|[r ->]].
Qed.
