(* ===== verification/Model.v ===== *)
(** * Actions, their hashes and the objects of the managers (pkg/model)

    [Action] is the code's interface with its two implementations; [Hash] is the
    SHA-1 of the action's path.  The manager interfaces are records of operations
    with effects on a world [W] (the store behind them). *)
From S2P Require Import Prelude GoStrings Values Errors.

(** ** Actions *)
Record ActionType := MkActionType { Singular : string; Plural : string }.
Definition ActionTypeStep : ActionType := MkActionType "step" "steps".
Definition ActionTypeTrigger : ActionType := MkActionType "trigger" "triggers".

Record Run := MkRun { Run_ID : string }.
Record Step := MkStep { Step_Run : Run; Step_Name : string }.
Record Trigger := MkTrigger { Trigger_Name : string }.

Inductive Action : Type :=
| AStep (s : Step)
| ATrigger (t : Trigger).

#[export] Instance Run_eq_dec : EqDecision Run.
Proof. solve_decision. Defined.
#[export] Instance Step_eq_dec : EqDecision Step.
Proof. solve_decision. Defined.
#[export] Instance Trigger_eq_dec : EqDecision Trigger.
Proof. solve_decision. Defined.
#[export] Instance Action_eq_dec : EqDecision Action.
Proof. solve_decision. Defined.

(** [IfStep], [IfTrigger]: the callback runs on the action of that kind. *)
Definition IfStep {S} (action : Action) (fn : Step → S → S) (s : S) : S :=
  match action with AStep st => fn st s | ATrigger _ => s end.
Definition IfTrigger {S} (action : Action) (fn : Trigger → S → S) (s : S) : S :=
  match action with ATrigger t => fn t s | AStep _ => s end.

(** ** Hashes: 20 bytes *)
Definition Hash : Type := string.

(** [hashutil.Sum.HexEncoding], [Hash.HexEncoding]. *)
Definition HexEncoding (h : Hash) : string := hex_encode h.

Definition action_type (a : Action) : ActionType :=
  match a with AStep _ => ActionTypeStep | ATrigger _ => ActionTypeTrigger end.

Definition step_path (s : Step) : string :=
  path_join ["runs"; Run_ID (Step_Run s); Plural (action_type (AStep s)); Step_Name s].
Definition trigger_path (t : Trigger) : string :=
  path_join [Plural (action_type (ATrigger t)); Trigger_Name t].
Definition action_path (a : Action) : string :=
  match a with AStep s => step_path s | ATrigger t => trigger_path t end.

Definition step_hash (s : Step) : Hash := Sha1.sum (step_path s).
Definition trigger_hash (t : Trigger) : Hash := Sha1.sum (trigger_path t).
Definition action_hash (a : Action) : Hash :=
  match a with AStep s => step_hash s | ATrigger t => trigger_hash t end.

(** ** Scripts *)
Definition Shebang : string := "#!".
Definition DefaultInterpreter : string := Shebang +:+ "/bin/sh".

Definition ScriptForInput (input : list string) : string :=
  let script := join newline input in
  if has_prefix Shebang script then script
  else DefaultInterpreter +:+ newline +:+ script.

(** ** Objects *)
Record Condition := MkCondition { condition_tree : value }.
Record Connection := MkConnection {
  connection_type : string; connection_name : string;
  connection_attributes : gmap string value }.
Record Environment := MkEnvironment { environment_value : gmap string value }.
Record Event := MkEvent { event_data : gmap string value; event_key : string }.
Record ParameterObject := MkParameter { parameter_name : string; parameter_value : value }.
Record Secret := MkSecret { secret_name : string; secret_value : string }.
Record Spec := MkSpec { spec_tree : value }.
Record State := MkState { state_name : string; state_value : value }.
Record StepOutput := MkStepOutput {
  stepOutput_step : Step; stepOutput_name : string; stepOutput_value : value }.

(** ** Manager interfaces *)
Record ConditionManager (W : Type) := {
  Condition_Get : io W Condition;
  Condition_Set : value → io W Condition }.
Record ConnectionManager (W : Type) := {
  Connection_Get : string → string → io W Connection }.
Record EnvironmentManager (W : Type) := {
  Environment_Get : io W Environment;
  Environment_Set : gmap string value → io W Environment }.
Record EventManager (W : Type) := {
  Event_Emit : gmap string value → string → io W Event }.
Record ParameterManager (W : Type) := {
  Parameter_Get : string → io W ParameterObject;
  Parameter_Set : string → value → io W ParameterObject }.
Record SecretManager (W : Type) := {
  Secret_Get : string → io W Secret }.
Record SpecManager (W : Type) := {
  Spec_Get : io W Spec;
  Spec_Set : gmap string value → io W Spec }.
Record StateManager (W : Type) := {
  State_Get : string → io W State;
  State_Set : string → value → io W State }.
Record StepOutputManager (W : Type) := {
  StepOutput_Get : string → string → io W StepOutput;
  StepOutput_Set : string → value → io W StepOutput }.
Arguments Condition_Get {W}. Arguments Condition_Set {W}.
Arguments Connection_Get {W}.
Arguments Environment_Get {W}. Arguments Environment_Set {W}.
Arguments Event_Emit {W}.
Arguments Parameter_Get {W}. Arguments Parameter_Set {W}.
Arguments Secret_Get {W}.
Arguments Spec_Get {W}. Arguments Spec_Set {W}.
Arguments State_Get {W}. Arguments State_Set {W}.
Arguments StepOutput_Get {W}. Arguments StepOutput_Set {W}.

(** ** Copying maps

    The loops managers fill a map with; [parse.Tree(ev)] is the value itself. *)
(** [for k, v := range src { dst[k] = v }] *)
Definition copy_into {A} (src dst : gmap string A) : gmap string A :=
  map_fold (λ k v m, <[k := v]> m) dst src.

Definition environment_trees (value : gmap string value) : gmap string Values.value :=
  copy_into value ∅.

Lemma copy_into_union {A} (src dst : gmap string A) : copy_into src dst = src ∪ dst.
Proof.
  unfold copy_into. induction src as [|k x src Hk IH] using map_ind.
  - by rewrite map_fold_empty, (left_id_L ∅ (∪)).
  - rewrite map_fold_insert_L; [|intros; by apply insert_insert_ne|done].
    by rewrite IH, insert_union_l.
Qed.

Lemma environment_trees_eq v : environment_trees v = v.
Proof. unfold environment_trees. by rewrite copy_into_union, (right_id_L ∅ (∪)). Qed.

(** ** Paths identify actions

    [path.Join] cleans its arguments, so only names without separators and dots
    are told apart. *)
Definition clean_action (a : Action) : bool :=
  match a with
  | AStep s => clean_element (Run_ID (Step_Run s)) && clean_element (Step_Name s)
  | ATrigger t => clean_element (Trigger_Name t)
  end.

Lemma action_path_inj a b :
  clean_action a = true → clean_action b = true → action_path a = action_path b → a = b.
Proof.
  intros Ha Hb. destruct a as [[[i] n]|[n]], b as [[[j] k]|[k]]; cbn -[path_join] in *;
    unfold step_path, trigger_path; cbn -[path_join]; rewrite ?andb_true_iff in *;
    intros E; apply path_join_inj in E; try done;
    repeat (apply Forall_cons; split); naive_solver.
Qed.

Lemma hex_digit_inj a b :
  hex_digit (N_of_ascii a / 16) = hex_digit (N_of_ascii b / 16) →
  hex_digit (N_of_ascii a mod 16) = hex_digit (N_of_ascii b mod 16) → a = b.
Proof.
  set (code (a : ascii) := String.index 0 (String a "") "0123456789abcdef").
  assert (Hc : ∀ a, (16 * default 0 (code (hex_digit (N_of_ascii a / 16)))
      + default 0 (code (hex_digit (N_of_ascii a mod 16))))%nat = nat_of_ascii a).
  { intros c. apply Nat.eqb_eq. revert c. apply (ascii_forall (λ a, _ =? _)).
    by vm_compute. }
  intros E1 E2. rewrite <- (ascii_nat_embedding a), <- (ascii_nat_embedding b).
  by rewrite <- Hc, E1, E2, Hc.
Qed.

Lemma hex_encode_inj s t : hex_encode s = hex_encode t → s = t.
Proof.
  revert t. induction s as [|a s IH]; intros [|b t] E; try done.
  cbn -[hex_digit N.div N.modulo] in E. injection E as E1 E2 E3.
  f_equal; [by apply hex_digit_inj|by apply IH].
Qed.
