(* ===== verification/ManagersMemory.v ===== *)
(** * What a manager promises (the contract of pkg/model's manager interfaces)

    [ValueStore] states the contract a getter/setter pair of a manager keeps: a
    read returns what was last written under the same key, or [model.ErrNotFound],
    and a write leaves every other key alone.  The in-memory and the ConfigMap
    managers are instances.  [calls_refine] is the consequence for clients: a
    sequence of calls answers as it would on an abstract map. *)
From S2P Require Import Prelude GoStrings Values Errors Model.

Definition read_result {V A} (obj : V → A) (r : option V) : result A :=
  match r with Some v => Ok (obj v) | None => Err (EModel ErrNotFound) end.

Inductive call (K V : Type) : Type :=
| CallGet (k : K)
| CallSet (k : K) (v : V).
Arguments CallGet {K V} k.
Arguments CallSet {K V} k v.

Section contract.
Context {W K V A I : Type} `{EqDecision I}.
Context (slot : K → I) (obj : K → V → A) (get : K → io W A) (set : K → V → io W A).
Context (storable : K → V → Prop) (usable : W → Prop) (stored : W → K → option V).

(** Keys are told apart by [slot]; [obj] builds the object a call returns;
    [storable] values can be written, [usable] are the states the calls expect;
    [stored] reads a state. *)
Class ValueStore : Prop := {
  store_get k w : usable w → get k w = (read_result (obj k) (stored w k), w);
  store_set k v w : usable w → storable k v →
    ∃ w', set k v w = (Ok (obj k v), w') ∧ usable w'
      ∧ ∀ k', stored w' k' = if decide (slot k' = slot k) then Some v else stored w k';
}.

(** The calls of a client against the backend and against an abstract map. *)
Definition run_call (c : call K V) (w : W) : result A * W :=
  match c with CallGet k => get k w | CallSet k v => set k v w end.

Fixpoint run_calls (cs : list (call K V)) (w : W) : list (result A) * W :=
  match cs with
  | [] => ([], w)
  | c :: cs' => let '(r, w1) := run_call c w in
                let '(rs, w2) := run_calls cs' w1 in (r :: rs, w2)
  end.

Fixpoint spec_calls (cs : list (call K V)) (m : I → option V) : list (result A) :=
  match cs with
  | [] => []
  | CallGet k :: cs' => read_result (obj k) (m (slot k)) :: spec_calls cs' m
  | CallSet k v :: cs' =>
      Ok (obj k v) :: spec_calls cs' (λ i, if decide (i = slot k) then Some v else m i)
  end.

Definition writes (c : call K V) : Prop :=
  match c with CallGet _ => True | CallSet k v => storable k v end.

Lemma calls_refine `{!ValueStore} cs w m :
  usable w → Forall writes cs → (∀ k, stored w k = m (slot k)) →
  (run_calls cs w).1 = spec_calls cs m ∧ usable (run_calls cs w).2.
Proof.
  revert w m. induction cs as [|[k|k v] cs IH]; intros w m Hw Hc Hm;
    apply Forall_cons in Hc as [Hv Hc] || clear Hc; [done|..]; cbn [run_calls run_call].
  - rewrite store_get by done. destruct (IH w m Hw Hc Hm) as [E Hu].
    destruct (run_calls cs w) as [rs w2]. cbn in *. by rewrite Hm, E.
  - destruct (store_set k v w Hw Hv) as (w' & -> & Hw' & Hk).
    destruct (IH w' (λ i, if decide (i = slot k) then Some v else m i) Hw' Hc) as [E Hu].
    { intros k'. rewrite Hk. by destruct (decide _). }
    destruct (run_calls cs w') as [rs w2]. cbn in *. by rewrite E.
Qed.

Lemma get_after_set `{!ValueStore} k v w :
  usable w → storable k v → ∃ w', set k v w = (Ok (obj k v), w') ∧ usable w'
    ∧ get k w' = (Ok (obj k v), w').
Proof.
  intros Hw Hv. destruct (store_set k v w Hw Hv) as (w' & E & Hw' & Hk).
  exists w'. split_and!; [done..|]. rewrite store_get, Hk by done. by rewrite decide_True.
Qed.
End contract.
Arguments ValueStore {W K V A I _} slot obj get set storable usable stored.

(** * In-memory managers (pkg/manager/memory)

    Each method holds the manager's lock throughout, so it is one atomic step from
    state to state; the state is the field the lock protects. *)
Definition not_found : error := EModel ErrNotFound.

(** ** Conditions *)
Definition ConditionState : Type := option Condition.
Definition condition_get : io ConditionState Condition := λ val,
  match val with None => (Err not_found, val) | Some c => (Ok c, val) end.
Definition condition_set (value : value) : io ConditionState Condition := λ _,
  let c := MkCondition value in (Ok c, Some c).
Definition ConditionManagerOption : Type := ConditionState → ConditionState.
Definition ConditionManagerWithInitialCondition (value : value) : ConditionManagerOption :=
  λ _, Some (MkCondition value).
Definition NewConditionManager (opts : list ConditionManagerOption) : ConditionState :=
  foldl (λ cm opt, opt cm) None opts.
Definition conditions : ConditionManager ConditionState :=
  {| Condition_Get := condition_get; Condition_Set := condition_set |}.

(** ** Connections *)
Definition ConnectionState : Type := gmap (string * string) (gmap string value).
Definition connection_get (typ name : string) : io ConnectionState Connection := λ m,
  match m !! (typ, name) with
  | None => (Err not_found, m)
  | Some attrs => (Ok (MkConnection typ name attrs), m)
  end.
Definition connections : ConnectionManager ConnectionState :=
  {| Connection_Get := connection_get |}.
Definition NewConnectionManager (m : gmap (string * string) (gmap string value))
    : ConnectionState := m.

(** ** Environments *)
Definition EnvironmentState : Type := option Environment.
Definition environment_get : io EnvironmentState Environment := λ val,
  match val with None => (Err not_found, val) | Some e => (Ok e, val) end.
Definition environment_set (value : gmap string value) : io EnvironmentState Environment := λ _,
  let e := MkEnvironment (environment_trees value) in (Ok e, Some e).
Definition EnvironmentManagerOption : Type := EnvironmentState → EnvironmentState.
Definition EnvironmentManagerWithInitialEnvironment (value : gmap string value)
    : EnvironmentManagerOption := λ _, Some (MkEnvironment (environment_trees value)).
Definition NewEnvironmentManager (opts : list EnvironmentManagerOption) : EnvironmentState :=
  foldl (λ em opt, opt em) None opts.
Definition environments : EnvironmentManager EnvironmentState :=
  {| Environment_Get := environment_get; Environment_Set := environment_set |}.

(** ** Parameters *)
Definition ParameterState : Type := gmap string value.
Definition parameter_get (name : string) : io ParameterState ParameterObject := λ params,
  match params !! name with
  | None => (Err not_found, params)
  | Some v => (Ok (MkParameter name v), params)
  end.
Definition parameter_set (name : string) (v : value) : io ParameterState ParameterObject :=
  λ params, (Ok (MkParameter name v), <[name := v]> params).
Definition ParameterManagerOption : Type := ParameterState → ParameterState.
Definition ParameterManagerWithInitialParameters (params : gmap string value)
    : ParameterManagerOption := copy_into params.
Definition NewParameterManager (opts : list ParameterManagerOption) : ParameterState :=
  foldl (λ pm opt, opt pm) ∅ opts.
Definition parameters : ParameterManager ParameterState :=
  {| Parameter_Get := parameter_get; Parameter_Set := parameter_set |}.

(** ** Secrets *)
Definition SecretState : Type := gmap string string.
Definition secret_get (name : string) : io SecretState Secret := λ m,
  match m !! name with
  | None => (Err not_found, m)
  | Some v => (Ok (MkSecret name v), m)
  end.
Definition secrets : SecretManager SecretState := {| Secret_Get := secret_get |}.
Definition NewSecretManager (secrets : gmap string string) : SecretState :=
  copy_into secrets ∅.

(** ** Specs *)
Definition SpecState : Type := option Spec.
Definition spec_get : io SpecState Spec := λ val,
  match val with None => (Err not_found, val) | Some s => (Ok s, val) end.
Definition spec_set (value : gmap string value) : io SpecState Spec := λ _,
  let s := MkSpec (VMap value) in (Ok s, Some s).
Definition SpecManagerOption : Type := SpecState → SpecState.
Definition SpecManagerWithInitialSpec (value : gmap string value) : SpecManagerOption :=
  λ _, Some (MkSpec (VMap value)).
Definition NewSpecManager (opts : list SpecManagerOption) : SpecState :=
  foldl (λ sm opt, opt sm) None opts.
Definition specs : SpecManager SpecState := {| Spec_Get := spec_get; Spec_Set := spec_set |}.

(** ** State *)
Definition StateState : Type := gmap string value.
Definition state_get (name : string) : io StateState State := λ state,
  match state !! name with
  | None => (Err not_found, state)
  | Some v => (Ok (MkState name v), state)
  end.
Definition state_set (name : string) (v : value) : io StateState State := λ state,
  (Ok (MkState name v), <[name := v]> state).
Definition StateManagerOption : Type := StateState → StateState.
Definition StateManagerWithInitialState (state : gmap string value) : StateManagerOption :=
  copy_into state.
Definition NewStateManager (opts : list StateManagerOption) : StateState :=
  foldl (λ sm opt, opt sm) ∅ opts.
Definition states : StateManager StateState := {| State_Get := state_get; State_Set := state_set |}.

(** ** Step outputs

    One map, shared by the managers of all steps. *)
Definition StepOutputMap : Type := gmap Hash (gmap string value).
Definition NewStepOutputMap : StepOutputMap := ∅.
Definition output_map_get (step : Step) (name : string) (m : StepOutputMap) : option value :=
  match m !! step_hash step with
  | None => None
  | Some outputs => outputs !! name
  end.
Definition output_map_set (step : Step) (name : string) (v : value) (m : StepOutputMap)
    : StepOutputMap :=
  let h := step_hash step in
  match m !! h with
  | None => <[h := <[name := v]> ∅]> m
  | Some outputs => <[h := <[name := v]> outputs]> m
  end.
Definition output_get (me : Step) (stepName name : string) : io StepOutputMap StepOutput := λ m,
  let step := MkStep (Step_Run me) stepName in
  match output_map_get step name m with
  | None => (Err not_found, m)
  | Some v => (Ok (MkStepOutput step name v), m)
  end.
Definition output_set (me : Step) (name : string) (v : value) : io StepOutputMap StepOutput :=
  λ m, (Ok (MkStepOutput me name v), output_map_set me name v m).
Definition NewStepOutputManager (me : Step) : StepOutputManager StepOutputMap :=
  {| StepOutput_Get := output_get me; StepOutput_Set := output_set me |}.

(** ** Lemmas *)
Lemma output_map_get_new step n : output_map_get step n NewStepOutputMap = None.
Proof.
  unfold output_map_get, NewStepOutputMap, StepOutputMap, Hash. generalize (step_hash step).
  intros h. unfold Hash in h. by rewrite lookup_empty.
Qed.

Lemma output_map_get_set step step' n n' v m :
  output_map_get step' n' (output_map_set step n v m)
  = if decide ((step_hash step', n') = (step_hash step, n)) then Some v
    else output_map_get step' n' m.
Proof.
  unfold output_map_get, output_map_set, StepOutputMap, Hash in *. cbv zeta.
  generalize (step_hash step) as h, (step_hash step') as h'. unfold Hash. intros h h'.
  destruct (decide (h' = h)) as [->|Hh].
  - destruct (m !! h) eqn:E; rewrite lookup_insert_eq;
      (destruct (decide (n' = n)) as [->|Hn];
        [by rewrite lookup_insert_eq, decide_True
        |rewrite lookup_insert_ne, decide_False by congruence; done]).
  - rewrite decide_False by congruence. destruct (m !! h); by rewrite lookup_insert_ne by done.
Qed.

(** ** The managers keep the contract *)
Definition any {A} (_ : A) : Prop := True.
Definition any2 {A B} (_ : A) (_ : B) : Prop := True.

Lemma lookup_insert_slot {A} (m : gmap string A) k k' v :
  <[k := v]> m !! k' = if decide (id k' = id k) then Some v else m !! k'.
Proof.
  unfold id. destruct (decide (k' = k)) as [->|]; [by rewrite lookup_insert_eq|].
  by rewrite lookup_insert_ne.
Qed.

#[export] Instance parameter_store :
  ValueStore id MkParameter parameter_get parameter_set any2 any (λ w n, w !! n).
Proof.
  split.
  - intros k w _. unfold parameter_get. by destruct (w !! k).
  - intros k v w _ _. eexists. split_and!; [done..|]. intros k'. apply lookup_insert_slot.
Qed.

#[export] Instance state_store :
  ValueStore id MkState state_get state_set any2 any (λ w n, w !! n).
Proof.
  split.
  - intros k w _. unfold state_get. by destruct (w !! k).
  - intros k v w _ _. eexists. split_and!; [done..|]. intros k'. apply lookup_insert_slot.
Qed.

#[export] Instance condition_store :
  ValueStore id (λ _ : unit, MkCondition) (λ _, condition_get) (λ _, condition_set) any2 any
    (λ w _, condition_tree <$> w).
Proof.
  split; [by intros k [[]|] _|]. intros [] v w _ _. eexists. split_and!; [done..|]. by intros [].
Qed.

#[export] Instance spec_store :
  ValueStore id (λ (_ : unit) v, MkSpec (VMap v)) (λ _, spec_get) (λ _, spec_set) any2
    (λ w, match w with Some (MkSpec (VMap _)) | None => True | _ => False end)
    (λ w _, w ≫= λ s, as_map (spec_tree s)).
Proof.
  split; [by intros k [[[]]|] Hw|]. intros [] v w _ _. eexists. split_and!; [done..|]. by intros [].
Qed.

#[export] Instance environment_store :
  ValueStore id (λ (_ : unit) v, MkEnvironment v) (λ _, environment_get) (λ _, environment_set)
    any2 any (λ w _, environment_value <$> w).
Proof.
  split; [by intros k [[]|] _|]. intros [] v w _ _. eexists. unfold environment_set.
  rewrite environment_trees_eq. split_and!; [done..|]. by intros [].
Qed.

(** The managers of the steps of a run share the output map: any step of the run
    reads what the step of that name wrote. *)
#[export] Instance output_store reader :
  ValueStore (λ k : Step * string, (step_hash k.1, k.2)) (λ k, MkStepOutput k.1 k.2)
    (λ k, StepOutput_Get (NewStepOutputManager (MkStep (Step_Run k.1) reader))
            (Step_Name k.1) k.2)
    (λ k, StepOutput_Set (NewStepOutputManager k.1) k.2) any2 any
    (λ w k, output_map_get k.1 k.2 w).
Proof.
  split.
  - intros [[r s] n] w _. cbn. unfold output_get. cbn. by destruct (output_map_get _ _ _).
  - intros [s n] v w _ _. eexists. split_and!; [done..|]. intros [s' n'].
    apply output_map_get_set.
Qed.
