(* ===== verification/ConfigMaps.v ===== *)
(** * ConfigMap-backed managers (pkg/manager/configmap)

    A manager encodes each value as one entry of a ConfigMap.  The three backends
    (a typed client, a controller-runtime client, a local object) implement the
    interface [ConfigMap]; [MutateConfigMap] writes through it, and starts over
    when the API server refuses the write because the object changed. *)
From S2P Require Import Prelude GoStrings Values Errors Transfer Model.

(** The fields of [corev1.ConfigMap] the code uses.  [None] is a nil map. *)
Record CoreConfigMap := MkCoreConfigMap {
  Cm_Namespace : string; Cm_Name : string;
  Cm_UID : string; Cm_ResourceVersion : string;
  Cm_Data : option (gmap string string);
}.

Definition empty_config_map : CoreConfigMap := MkCoreConfigMap "" "" "" "" None.
Definition with_data (d : gmap string string) (cm : CoreConfigMap) : CoreConfigMap :=
  MkCoreConfigMap (Cm_Namespace cm) (Cm_Name cm) (Cm_UID cm) (Cm_ResourceVersion cm) (Some d).
Definition with_name (ns name : string) (cm : CoreConfigMap) : CoreConfigMap :=
  MkCoreConfigMap ns name (Cm_UID cm) (Cm_ResourceVersion cm) (Cm_Data cm).

(** [errors.IsNotFound], [errors.IsConflict] *)
Definition is_not_found (e : error) : bool :=
  match e with EAPI ReasonNotFound _ => true | _ => false end.
Definition is_conflict (e : error) : bool :=
  match e with EAPI ReasonConflict _ => true | _ => false end.

(** ** Backends *)
Record ConfigMap (W : Type) := MkConfigMap {
  cm_Get : io W CoreConfigMap;
  cm_CreateOrUpdate : CoreConfigMap → io W CoreConfigMap;
}.
Arguments cm_Get {W}. Arguments cm_CreateOrUpdate {W}.

(** The Kubernetes client calls the code makes. *)
Record Client (W : Type) := MkClient {
  client_Get : string → string → io W CoreConfigMap;
  client_Create : CoreConfigMap → io W CoreConfigMap;
  client_Update : CoreConfigMap → io W CoreConfigMap;
}.
Arguments client_Get {W}. Arguments client_Create {W}. Arguments client_Update {W}.

Definition NewClientConfigMap {W} (client : Client W) (namespace name : string) : ConfigMap W := {|
  cm_Get := client_Get client namespace name;
  cm_CreateOrUpdate := λ cm,
    let cm := with_name namespace name cm in
    if String.eqb (Cm_UID cm) "" then client_Create client cm
    else client_Update client cm;
|}.

(** The key of the controller-runtime client is a pair (namespace, name). *)
Definition NewControllerRuntimeConfigMap {W} (cl : Client W) (key : string * string)
    : ConfigMap W := {|
  cm_Get := cm ← client_Get cl key.1 key.2; mret cm;
  cm_CreateOrUpdate := λ cm,
    let cm := with_name key.1 key.2 cm in
    if String.eqb (Cm_UID cm) "" then cm ← client_Create cl cm; mret cm
    else cm ← client_Update cl cm; mret cm;
|}.

(** The object itself; deep copies keep the caller's object apart from it. *)
Definition LocalConfigMap : ConfigMap CoreConfigMap := {|
  cm_Get := λ delegate, (Ok delegate, delegate);
  cm_CreateOrUpdate := λ cm _, (Ok cm, cm);
|}.

(** ** Mutation

    [fuel] bounds the number of rounds; without it the loop has no result. *)
Definition out_of_fuel : string := "MutateConfigMap: no result".

Definition ensure_data (obj : CoreConfigMap) : CoreConfigMap :=
  match Cm_Data obj with None => with_data ∅ obj | Some _ => obj end.

Section mutate.
Context {W : Type}.

Fixpoint MutateConfigMap (fuel : nat) (cm : ConfigMap W)
    (fn : CoreConfigMap → result CoreConfigMap) : io W CoreConfigMap := λ w,
  match fuel with
  | O => (Panic out_of_fuel, w)
  | S fuel' =>
      let '(got, w1) := cm_Get cm w in
      let found := match got with
                   | Err e => if is_not_found e then Ok empty_config_map else Err e
                   | r => r
                   end in
      match (obj ← found; fn (ensure_data obj)) with
      | Ok obj =>
          let '(put, w2) := cm_CreateOrUpdate cm obj w1 in
          match put with
          | Err e => if is_conflict e || is_not_found e then MutateConfigMap fuel' cm fn w2
                     else (Err e, w2)
          | r => (r, w2)
          end
      | r => (r, w1)
      end
  end.
End mutate.

(** ** Key-value access *)
Section managers.
Context {W : Type} `{JSONText} (fuel : nat).

Definition kv_decode (encoded : string) : result value :=
  match json_parse encoded with
  | None => Err EJSONSyntax
  | Some j => ji_unmarshal j
  end.

Definition kv_encode (v : value) : result string :=
  j ← ji_marshal v; Ok (json_print j).

(** [cm.Data[key] = encoded], which a nil map does not survive. *)
Definition set_entry (key encoded : string) (cm : CoreConfigMap) : result CoreConfigMap :=
  match Cm_Data cm with
  | None => Panic "assignment to entry in nil map"
  | Some d => Ok (with_data (<[key := encoded]> d) cm)
  end.

Definition KV_Get (cm : ConfigMap W) (key : string) : io W value := λ w,
  let '(got, w1) := cm_Get cm w in
  match got with
  | Err e => (Err (if is_not_found e then EModel ErrNotFound else e), w1)
  | Panic s => (Panic s, w1)
  | Ok obj =>
      match Cm_Data obj ≫= (.!! key) with
      | None => (Err (EModel ErrNotFound), w1)
      | Some encoded => (kv_decode encoded, w1)
      end
  end.

Definition KV_Set (cm : ConfigMap W) (key : string) (v : value) : io W unit :=
  encoded ← lift (kv_encode v);
  _ ← MutateConfigMap fuel cm (set_entry key encoded);
  mret tt.

(** ** Keys *)
Definition action_key (action : Action) (rest : string) : string :=
  Plural (action_type action) +:+ "." +:+ HexEncoding (action_hash action) +:+ "." +:+ rest.
Definition parameterKey (name : string) : string := "parameters." +:+ name.
Definition conditionKey (action : Action) : string := action_key action "condition".
Definition environmentKey (action : Action) : string := action_key action "environment".
Definition specKey (action : Action) : string := action_key action "spec".
Definition stateKey (action : Action) (name : string) : string :=
  action_key action ("state." +:+ name).
Definition stepOutputKey (step : Step) (name : string) : string :=
  action_key (AStep step) ("output." +:+ name).

(** ** Managers *)
Definition NewParameterManager (cm : ConfigMap W) : ParameterManager W := {|
  Parameter_Get := λ name, v ← KV_Get cm (parameterKey name); mret (MkParameter name v);
  Parameter_Set := λ name v, _ ← KV_Set cm (parameterKey name) v; mret (MkParameter name v);
|}.

Definition NewConditionManager (me : Action) (cm : ConfigMap W) : ConditionManager W := {|
  Condition_Get := v ← KV_Get cm (conditionKey me); mret (MkCondition v);
  Condition_Set := λ v, _ ← KV_Set cm (conditionKey me) v; mret (MkCondition v);
|}.

(** [Get] asserts that the stored value is a map. *)
Definition NewEnvironmentManager (me : Action) (cm : ConfigMap W) : EnvironmentManager W := {|
  Environment_Get :=
    v ← KV_Get cm (environmentKey me);
    evs ← lift (match as_map v with
                | None => Panic "interface conversion: not a map"
                | Some m => Ok m
                end);
    mret (MkEnvironment (environment_trees evs));
  Environment_Set := λ v, _ ← KV_Set cm (environmentKey me) (VMap v);
    mret (MkEnvironment (environment_trees v));
|}.

Definition NewSpecManager (me : Action) (cm : ConfigMap W) : SpecManager W := {|
  Spec_Get := v ← KV_Get cm (specKey me); mret (MkSpec v);
  Spec_Set := λ v, _ ← KV_Set cm (specKey me) (VMap v); mret (MkSpec (VMap v));
|}.

Definition NewStateManager (me : Action) (cm : ConfigMap W) : StateManager W := {|
  State_Get := λ name, v ← KV_Get cm (stateKey me name); mret (MkState name v);
  State_Set := λ name v, _ ← KV_Set cm (stateKey me name) v; mret (MkState name v);
|}.

Definition NewStepOutputManager (me : Step) (cm : ConfigMap W) : StepOutputManager W := {|
  StepOutput_Get := λ stepName name,
    let step := MkStep (Step_Run me) stepName in
    v ← KV_Get cm (stepOutputKey step name); mret (MkStepOutput step name v);
  StepOutput_Set := λ name v,
    _ ← KV_Set cm (stepOutputKey me name) v; mret (MkStepOutput me name v);
|}.
End managers.
