(* ===== verification/ConfigMapTheory.v ===== *)
(** * Theory of the ConfigMap-backed managers: keys, entries, the local backend *)
From S2P Require Import Prelude GoStrings Values Errors Transfer Model ManagersMemory.
From S2P Require Import ConfigMaps.

(** ** Keys

    A slot is one entry of the store; [slot_id] is what identifies it. *)
Inductive Slot : Type :=
| SParameter (name : string)
| SCondition (a : Action)
| SEnvironment (a : Action)
| SSpec (a : Action)
| SState (a : Action) (name : string)
| SOutput (s : Step) (name : string).

Definition slot_key (s : Slot) : string :=
  match s with
  | SParameter n => parameterKey n
  | SCondition a => conditionKey a
  | SEnvironment a => environmentKey a
  | SSpec a => specKey a
  | SState a n => stateKey a n
  | SOutput st n => stepOutputKey st n
  end.

Inductive slot_kind := KParameter | KCondition | KEnvironment | KSpec | KState | KOutput.
#[export] Instance slot_kind_eq_dec : EqDecision slot_kind.
Proof. solve_decision. Defined.

Definition slot_id (s : Slot) : slot_kind * (string * Hash) * string :=
  let owner a := (Plural (action_type a), action_hash a) in
  match s with
  | SParameter n => (KParameter, ("", ""), n)
  | SCondition a => (KCondition, owner a, "")
  | SEnvironment a => (KEnvironment, owner a, "")
  | SSpec a => (KSpec, owner a, "")
  | SState a n => (KState, owner a, n)
  | SOutput st n => (KOutput, owner (AStep st), n)
  end.

Definition dot : ascii := "."%char.

Lemma plural_no_dot a : string_elem dot (Plural (action_type a)) = false.
Proof. by destruct a. Qed.

Lemma action_key_inj a b r r' :
  action_key a r = action_key b r' ↔
  Plural (action_type a) = Plural (action_type b) ∧ action_hash a = action_hash b ∧ r = r'.
Proof.
  split; [|unfold action_key; by intros (-> & -> & ->)]. unfold action_key, HexEncoding. intros E.
  apply (sep_inj dot) in E as [? E]; [|apply plural_no_dot..].
  apply (sep_inj dot) in E as [E ?]; [|by apply hex_encode_elem..].
  apply hex_encode_inj in E. done.
Qed.

Lemma parameterKey_action n a r : parameterKey n ≠ action_key a r.
Proof.
  unfold parameterKey, action_key. intros E.
  change ("parameters." +:+ n) with ("parameters" +:+ String dot n) in E.
  apply (sep_inj dot) in E as [E _]; [|done|apply plural_no_dot]. by destruct a.
Qed.

Lemma id_components (k : slot_kind) (p p' : string) (h h' : Hash) (r r' n n' : string) :
  (r = r' ↔ n = n') → p = p' ∧ h = h' ∧ r = r' ↔ (k, (p, h), n) = (k, (p', h'), n').
Proof. intros ->. split; [by intros (-> & -> & ->)|by intros [= -> -> ->]]. Qed.

(** Entries of different slots have different keys. *)
Lemma slot_key_id s t : slot_key s = slot_key t ↔ slot_id s = slot_id t.
Proof.
  destruct s, t; cbn [slot_key slot_id]; unfold conditionKey, environmentKey, specKey, stateKey,
    stepOutputKey; try rewrite action_key_inj;
    try (split; [intros E; exfalso; by first [apply parameterKey_action in E
                   |symmetry in E; apply parameterKey_action in E]|done]);
    try (split; [intros (_ & _ & E); str_simpl; discriminate E|done]).
  { unfold parameterKey. split; [intros E%app_string_inj_l; congruence|intros [=]; congruence]. }
  all: apply id_components; split; [try apply app_string_inj_l; done|congruence].
Qed.

Lemma output_id s s' k k' :
  slot_id (SOutput s' k') = slot_id (SOutput s k) ↔ (step_hash s', k') = (step_hash s, k).
Proof.
  cbn [slot_id action_hash]. generalize (step_hash s) as h, (step_hash s') as h'.
  intros h h'. split; by intros [= -> ->].
Qed.

(** ** Entries *)
Section entries.
Context `{JSONTextLaws}.

Lemma kv_roundtrip v :
  json_faithful v = true → ∃ text, kv_encode v = Ok text ∧ kv_decode text = Ok v.
Proof.
  intros Hv. destruct (ji_roundtrip v Hv) as (j & Hj & Hu & Hr). exists (json_print j).
  unfold kv_encode, kv_decode. rewrite Hj. split; [done|]. by rewrite json_parse_print.
Qed.

Definition read (w : CoreConfigMap) (key : string) : option value :=
  match Cm_Data w ≫= (.!! key) with
  | None => None
  | Some text => match kv_decode text with Ok v => Some v | _ => None end
  end.

(** The entries of the slots decode, those of environments to maps. *)
Definition slot_value_ok (s : Slot) (v : value) : Prop :=
  match s with
  | SEnvironment _ | SSpec _ => ∃ m, v = VMap m
  | _ => True
  end.

Definition usable (w : CoreConfigMap) : Prop :=
  ∀ s text, Cm_Data w ≫= (.!! slot_key s) = Some text →
    ∃ v, kv_decode text = Ok v ∧ slot_value_ok s v.

Definition storable (s : Slot) (v : value) : Prop := json_faithful v = true ∧ slot_value_ok s v.

Lemma slot_value_ok_id s t v : slot_id s = slot_id t → slot_value_ok s v → slot_value_ok t v.
Proof. by destruct s, t. Qed.

Lemma local_KV_Get w s :
  usable w →
  KV_Get LocalConfigMap (slot_key s) w
    = (match read w (slot_key s) with Some v => Ok v | None => Err (EModel ErrNotFound) end, w)
  ∧ ∀ v, read w (slot_key s) = Some v → slot_value_ok s v.
Proof.
  intros Hw. unfold KV_Get, read. cbn. destruct (Cm_Data w ≫= _) as [text|] eqn:E; [|done].
  destruct (Hw s text E) as (v & -> & Hv). split; [done|]. by intros ? [= <-].
Qed.

Lemma local_KV_Set n w s v :
  usable w → storable s v →
  ∃ w', KV_Set (S n) LocalConfigMap (slot_key s) v w = (Ok tt, w') ∧ usable w'
    ∧ ∀ t, read w' (slot_key t)
           = if decide (slot_id t = slot_id s) then Some v else read w (slot_key t).
Proof.
  intros Hw [Hf Hv]. destruct (kv_roundtrip v Hf) as (text & He & Hd).
  unfold KV_Set, mbind, effect_bind, lift. rewrite He.
  cbn [MutateConfigMap cm_Get cm_CreateOrUpdate LocalConfigMap mbind outcome_bind].
  set (d := default ∅ (Cm_Data w)).
  assert (Hs : set_entry (slot_key s) text (ensure_data w)
               = Ok (with_data (<[slot_key s := text]> d) w)).
  { unfold set_entry, ensure_data, d. by destruct w as [? ? ? ? [|]]. }
  rewrite Hs. eexists. split_and!; [done|..].
  - intros t text'. cbn. destruct (decide (slot_id t = slot_id s)) as [Et|Et].
    + apply slot_key_id in Et as Ek. rewrite Ek, lookup_insert_eq. intros [= <-].
      exists v. split; [done|]. by apply (slot_value_ok_id s).
    + rewrite lookup_insert_ne by (intros ?%eq_sym%slot_key_id; done).
      intros Ht. apply Hw. unfold d in Ht. by destruct (Cm_Data w).
  - intros t. unfold read. cbn. destruct (decide (slot_id t = slot_id s)) as [Et|Et].
    + apply slot_key_id in Et as ->. by rewrite lookup_insert_eq, Hd.
    + rewrite lookup_insert_ne by (intros ?%eq_sym%slot_key_id; done).
      unfold d. by destruct (Cm_Data w).
Qed.
End entries.

(** ** The managers of a ConfigMap, slot by slot *)
Inductive Object : Type :=
| OParameter (p : ParameterObject)
| OCondition (c : Condition)
| OEnvironment (e : Environment)
| OSpec (s : Spec)
| OState (s : State)
| OOutput (o : StepOutput).

Definition slot_object (s : Slot) (v : value) : Object :=
  match s with
  | SParameter n => OParameter (MkParameter n v)
  | SCondition _ => OCondition (MkCondition v)
  | SEnvironment _ => OEnvironment (MkEnvironment (default ∅ (as_map v)))
  | SSpec _ => OSpec (MkSpec v)
  | SState _ n => OState (MkState n v)
  | SOutput st n => OOutput (MkStepOutput st n v)
  end.

Section slots.
Context {W : Type} `{JSONText} (fuel : nat) (cm : ConfigMap W).

(** The step outputs of a step are read through the manager of a step of its run. *)
Definition slot_get (s : Slot) : io W Object :=
  match s with
  | SParameter n => o ← Parameter_Get (NewParameterManager fuel cm) n; mret (OParameter o)
  | SCondition a => o ← Condition_Get (NewConditionManager fuel a cm); mret (OCondition o)
  | SEnvironment a => o ← Environment_Get (NewEnvironmentManager fuel a cm); mret (OEnvironment o)
  | SSpec a => o ← Spec_Get (NewSpecManager fuel a cm); mret (OSpec o)
  | SState a n => o ← State_Get (NewStateManager fuel a cm) n; mret (OState o)
  | SOutput st n =>
      o ← StepOutput_Get (NewStepOutputManager fuel (MkStep (Step_Run st) "other") cm)
            (Step_Name st) n; mret (OOutput o)
  end.

(** Specs and environments are written as maps only. *)
Definition slot_set (s : Slot) (v : value) : io W Object :=
  match s, as_map v with
  | SParameter n, _ => o ← Parameter_Set (NewParameterManager fuel cm) n v; mret (OParameter o)
  | SCondition a, _ => o ← Condition_Set (NewConditionManager fuel a cm) v; mret (OCondition o)
  | SEnvironment a, Some m =>
      o ← Environment_Set (NewEnvironmentManager fuel a cm) m; mret (OEnvironment o)
  | SSpec a, Some m => o ← Spec_Set (NewSpecManager fuel a cm) m; mret (OSpec o)
  | SState a n, _ => o ← State_Set (NewStateManager fuel a cm) n v; mret (OState o)
  | SOutput st n, _ =>
      o ← StepOutput_Set (NewStepOutputManager fuel st cm) n v; mret (OOutput o)
  | _, None => lift (Panic "not a map")
  end.
End slots.

(** Opens the records of operations, leaving the key-value calls. *)
Ltac open_managers :=
  cbn [Parameter_Get Condition_Get Environment_Get Spec_Get State_Get StepOutput_Get
       Parameter_Set Condition_Set Environment_Set Spec_Set State_Set StepOutput_Set
       NewParameterManager NewConditionManager NewEnvironmentManager NewSpecManager
       NewStateManager NewStepOutputManager Step_Run Step_Name].

Section local.
Context `{JSONTextLaws}.

(** Each operation is the key-value operation on the slot's key. *)
Lemma slot_get_local n s w :
  usable w →
  slot_get (S n) LocalConfigMap s w = (read_result (slot_object s) (read w (slot_key s)), w).
Proof.
  intros Hw. destruct (local_KV_Get w s Hw) as [E Hv]. revert E Hv.
  destruct s as [k|a|a|a|a k|[r k] k']; cbn [slot_get slot_key slot_value_ok];
    open_managers; intros E Hv; rewrite !effect_bind_run, E;
    destruct (read w _) as [v|]; try done.
  destruct (Hv v eq_refl) as [m ->]. rewrite effect_bind_run. cbn [as_map lift mret effect_ret]. by rewrite environment_trees_eq.
Qed.

Lemma slot_set_local n s v w :
  usable w → storable s v →
  ∃ w', slot_set (S n) LocalConfigMap s v w = (Ok (slot_object s v), w') ∧ usable w'
    ∧ ∀ t, read w' (slot_key t)
           = if decide (slot_id t = slot_id s) then Some v else read w (slot_key t).
Proof.
  intros Hw Hv. destruct (local_KV_Set n w s v Hw Hv) as (w' & E & Hw' & Hr).
  exists w'. split; [|done]. clear Hr Hw'. destruct Hv as [_ Hv].
  destruct s as [k|a|a|a|a k|st k]; cbn [slot_set slot_key slot_value_ok] in *;
    try destruct Hv as [m ->]; cbn [as_map]; open_managers; rewrite !effect_bind_run, E;
    rewrite ?effect_bind_run; by rewrite ?environment_trees_eq.
Qed.

#[export] Instance local_store n :
  ValueStore slot_id slot_object (slot_get (S n) LocalConfigMap) (slot_set (S n) LocalConfigMap)
    storable usable (λ w s, read w (slot_key s)).
Proof. split; [intros; by apply slot_get_local|intros; by apply slot_set_local]. Qed.

#[export] Instance local_output_store n reader :
  ValueStore (λ k : Step * string, (step_hash k.1, k.2)) (λ k, MkStepOutput k.1 k.2)
    (λ k, StepOutput_Get (NewStepOutputManager (S n) (MkStep (Step_Run k.1) reader) LocalConfigMap)
            (Step_Name k.1) k.2)
    (λ k, StepOutput_Set (NewStepOutputManager (S n) k.1 LocalConfigMap) k.2)
    (λ _ v, json_faithful v = true) usable (λ w k, read w (stepOutputKey k.1 k.2)).
Proof.
  split.
  - intros [[r s] k] w Hw. open_managers. rewrite effect_bind_run.
    destruct (local_KV_Get w (SOutput (MkStep r s) k) Hw) as [E _]. cbn in E |- *.
    rewrite E. by destruct (read w _).
  - intros [s k] v w Hw Hv.
    destruct (local_KV_Set n w (SOutput s k) v Hw) as (w' & E & Hw' & Hr); [done|].
    exists w'. open_managers. rewrite effect_bind_run. cbn [slot_key] in E. cbn [fst snd].
    rewrite E. split_and!; [done..|]. intros [s' k']. specialize (Hr (SOutput s' k')).
    cbn [slot_key fst snd] in *. rewrite Hr. apply decide_ext, output_id.
Qed.

Lemma usable_empty : usable empty_config_map.
Proof. intros s text Ht. discriminate Ht. Qed.
End local.

(** * Writing a ConfigMap through the API server

    What the code relies on of the Kubernetes API: optimistic concurrency.  A
    create is refused when the object exists, an update when the resource version
    is not the stored one; a version determines the object.  [foreign w w'] says
    that other clients take the server from [w] to [w']. *)
Definition retryable (e : error) : bool := is_conflict e || is_not_found e.

Section server.
Context {W : Type} (client : Client W) (ns name : string).
Context (stored : W → option CoreConfigMap) (foreign : relation W).

(** What an answer of the server says of its state. *)
Definition got (r : result CoreConfigMap) (w' : W) : Prop :=
  match r with
  | Ok cm => stored w' = Some cm ∧ Cm_UID cm ≠ ""
  | Err e => is_not_found e = true → stored w' = None
  | Panic _ => False
  end.

Definition put (accepted : option CoreConfigMap → Prop) (cm : CoreConfigMap)
    (r : result CoreConfigMap) (w w' : W) : Prop :=
  match r with
  | Ok cm' => ∃ w1, foreign w w1 ∧ accepted (stored w1)
                ∧ stored w' = Some cm' ∧ Cm_Data cm' = Cm_Data cm
  | Err e => retryable e = true → foreign w w'
  | Panic _ => False
  end.

Definition absent (s : option CoreConfigMap) : Prop := s = None.
Definition at_version (v : string) (s : option CoreConfigMap) : Prop :=
  ∃ cur, s = Some cur ∧ Cm_ResourceVersion cur = v.

Definition named (cm : CoreConfigMap) : Prop := Cm_Namespace cm = ns ∧ Cm_Name cm = name.

Class APIServer : Prop := {
  foreign_preorder :: PreOrder foreign;
  server_get w r w' :
    client_Get client ns name w = (r, w') → foreign w w' ∧ got r w';
  server_create cm w r w' :
    named cm → client_Create client cm w = (r, w') → put absent cm r w w';
  server_update cm w r w' :
    named cm → client_Update client cm w = (r, w') →
    put (at_version (Cm_ResourceVersion cm)) cm r w w';
  server_versions w w1 a b :
    foreign w w1 → stored w = Some a → stored w1 = Some b →
    Cm_ResourceVersion a = Cm_ResourceVersion b → a = b;
}.

(** A bound on the writes of others still to come: a write that was right when it
    was sent is refused only because of one of them. *)
Class Pressure (pressure : W → nat) : Prop := {
  pressure_get w r w' : client_Get client ns name w = (r, w') → pressure w' ≤ pressure w;
  pressure_create cm w e w' :
    named cm → stored w = None → client_Create client cm w = (Err e, w') →
    retryable e = true → pressure w' < pressure w;
  pressure_update cm w e w' :
    named cm → at_version (Cm_ResourceVersion cm) (stored w) →
    client_Update client cm w = (Err e, w') → retryable e = true → pressure w' < pressure w;
}.

(** The object a mutation starts from. *)
Definition current (s : option CoreConfigMap) : CoreConfigMap :=
  ensure_data (default empty_config_map s).

(** A mutation changes the data only. *)
Definition data_only (fn : CoreConfigMap → result CoreConfigMap) : Prop :=
  ∀ obj, match fn obj with
         | Ok obj' => Cm_UID obj' = Cm_UID obj ∧ Cm_ResourceVersion obj' = Cm_ResourceVersion obj
         | _ => True
         end.

Definition Backend := NewClientConfigMap client ns name.

Lemma ensure_data_id obj :
  Cm_UID (ensure_data obj) = Cm_UID obj
  ∧ Cm_ResourceVersion (ensure_data obj) = Cm_ResourceVersion obj.
Proof. unfold ensure_data. by destruct (Cm_Data obj). Qed.

Context `{!APIServer}.

(** A mutated object is created when nothing was found and updated otherwise. *)
Lemma write_call s fn obj w1 :
  data_only fn → (∀ cur, s = Some cur → Cm_UID cur ≠ "") → fn (current s) = Ok obj →
  match s with
  | Some cur => cm_CreateOrUpdate Backend obj w1 = client_Update client (with_name ns name obj) w1
                ∧ Cm_ResourceVersion (with_name ns name obj) = Cm_ResourceVersion cur
  | None => cm_CreateOrUpdate Backend obj w1 = client_Create client (with_name ns name obj) w1
  end.
Proof.
  intros Hfn Huid Hobj. specialize (Hfn (current s)). rewrite Hobj in Hfn.
  destruct Hfn as [Hu Hv]. unfold current in Hu, Hv.
  destruct (ensure_data_id (default empty_config_map s)) as [Eu Ev].
  rewrite Eu in Hu. rewrite Ev in Hv.
  cbn [cm_CreateOrUpdate Backend NewClientConfigMap]. cbv zeta. cbn [with_name Cm_UID]. rewrite Hu.
  destruct s as [cur|]; [|done]. by rewrite (proj2 (String.eqb_neq _ _)) by (by apply Huid).
Qed.

(** The write that follows a read, seen from the state that was read. *)
Lemma put_after_get s fn obj w1 r w2 :
  data_only fn → stored w1 = s → (∀ cur, s = Some cur → Cm_UID cur ≠ "") →
  fn (current s) = Ok obj → cm_CreateOrUpdate Backend obj w1 = (r, w2) →
  match r with
  | Ok cm' => ∃ w', foreign w1 w' ∧ stored w' = s ∧ stored w2 = Some cm'
                ∧ Cm_Data cm' = Cm_Data obj
  | Err e => retryable e = true → foreign w1 w2
  | Panic _ => False
  end.
Proof.
  intros Hfn Hs Huid Hobj Hput. pose proof (write_call s fn obj w1 Hfn Huid Hobj) as Hw.
  assert (Hn : named (with_name ns name obj)) by done. destruct s as [cur|].
  - destruct Hw as [Ew Ev]. rewrite Ew in Hput. apply server_update in Hput; [|done].
    unfold put in Hput. destruct r as [cm'|e|]; [|done..].
    destruct Hput as (w' & Hf & (cur' & Hc & Hrv) & Hst & Hd). exists w'. split_and!; try done.
    rewrite Hc. f_equal. symmetry. by apply (server_versions w1 w' cur cur'); rewrite ?Hrv.
  - rewrite Hw in Hput. apply server_create in Hput; [|done]. by destruct r.
Qed.

Lemma found_cases r w1 :
  got r w1 →
  (∃ s, stored w1 = s ∧ (∀ cur, s = Some cur → Cm_UID cur ≠ "")
     ∧ (match r with Err e => if is_not_found e then Ok empty_config_map else Err e | r => r end)
       = Ok (default empty_config_map s))
  ∨ ∃ e, r = Err e ∧ is_not_found e = false.
Proof.
  destruct r as [cm|e|]; cbn; [intros [Hs Hu]|intros He|done].
  - left. exists (Some cm). split_and!; [done| |done]. by intros ? [= <-].
  - destruct (is_not_found e) eqn:E; [|by right; exists e]. left. exists None. naive_solver.
Qed.

(** A mutation that succeeds is applied at once to the object stored when it is
    written: everything others wrote before is seen, nothing they wrote is lost. *)
Lemma mutate_atomic fuel fn w cm' w' :
  data_only fn → MutateConfigMap fuel Backend fn w = (Ok cm', w') →
  ∃ w1 obj, foreign w w1 ∧ fn (current (stored w1)) = Ok obj
    ∧ stored w' = Some cm' ∧ Cm_Data cm' = Cm_Data obj.
Proof.
  intros Hfn. revert w. induction fuel as [|fuel IH]; intros w; [done|]. cbn [MutateConfigMap].
  destruct (cm_Get Backend w) as [r w1] eqn:Hget.
  change (cm_Get Backend) with (client_Get client ns name) in Hget.
  apply server_get in Hget as [Hf Hgot].
  destruct (found_cases r w1 Hgot) as [(s & Hs & Hu & ->)|(e & -> & E)]; [|by rewrite E].
  cbn [mbind outcome_bind]. fold (current s). destruct (fn (current s)) as [obj| |] eqn:Hobj; try done.
  destruct (cm_CreateOrUpdate Backend obj w1) as [pr w2] eqn:Hput.
  pose proof (put_after_get s fn obj w1 pr w2 Hfn Hs Hu Hobj Hput) as Hp.
  destruct pr as [cm|e|]; [| |done].
  - intros [= -> ->]. destruct Hp as (w'' & Hf' & Hst & Hst' & Hd).
    exists w'', obj. rewrite Hst. split_and!; try done. by etrans.
  - change (is_conflict e || is_not_found e) with (retryable e).
    destruct (retryable e) eqn:E; [|done]. intros H'.
    destruct (IH w2 H') as (w3 & obj' & Hf3 & H3). exists w3, obj'. split; [|done].
    etrans; [done|]. etrans; [|done]. by apply Hp.
Qed.

(** With as many rounds as there can be foreign writes, the loop has a result. *)
Lemma mutate_terminates `{!Pressure pressure} fuel fn w :
  data_only fn → (∀ obj, no_panic (fn (ensure_data obj))) → pressure w < fuel →
  no_panic (MutateConfigMap fuel Backend fn w).1.
Proof.
  intros Hfn Hnp. revert w. induction fuel as [|fuel IH]; intros w Hw; [lia|].
  cbn [MutateConfigMap]. destruct (cm_Get Backend w) as [r w1] eqn:Hget.
  change (cm_Get Backend) with (client_Get client ns name) in Hget.
  pose proof (pressure_get _ _ _ Hget) as Hle. apply server_get in Hget as [Hf Hgot].
  destruct (found_cases r w1 Hgot) as [(s & Hs & Hu & ->)|(e & -> & E)];
    [|rewrite E; apply Err_no_panic].
  cbn [mbind outcome_bind]. fold (current s). specialize (Hnp (default empty_config_map s)).
  fold (current s) in Hnp. destruct (fn (current s)) as [obj|e|y] eqn:Hobj;
    [|apply Err_no_panic|by destruct (Hnp y)].
  destruct (cm_CreateOrUpdate Backend obj w1) as [pr w2] eqn:Hput.
  pose proof (put_after_get s fn obj w1 pr w2 Hfn Hs Hu Hobj Hput) as Hp.
  destruct pr as [cm|e|]; [apply Ok_no_panic| |done].
  change (is_conflict e || is_not_found e) with (retryable e).
  destruct (retryable e) eqn:E; [|apply Err_no_panic]. apply IH.
  cut (pressure w2 < pressure w1); [lia|].
  pose proof (write_call s fn obj w1 Hfn Hu Hobj) as Hw'.
  assert (Hn : named (with_name ns name obj)) by done. destruct s as [cur|].
  - destruct Hw' as [Ew Ev]. rewrite Ew in Hput.
    apply (pressure_update _ _ _ _ Hn) in Hput; [done| |done]. by exists cur.
  - rewrite Hw' in Hput. by apply (pressure_create _ _ _ _ Hn) in Hput.
Qed.
End server.

Lemma set_entry_data_only key text : data_only (set_entry key text).
Proof. intros obj. unfold set_entry. by destruct (Cm_Data obj). Qed.

Lemma set_entry_no_panic key text obj : no_panic (set_entry key text (ensure_data obj)).
Proof. unfold set_entry, ensure_data. by destruct obj as [? ? ? ? []]. Qed.
