(* ===== verification/Metadata.v ===== *)
(** * The managers of the metadata service
    (pkg/manager/reject, builder, resolve, api, log)

    The builder starts from managers that reject every call; the resolvers of the
    expression language are adapters of the managers it collects. *)
From stdpp Require Import pretty.
From S2P Require Import Prelude GoStrings Values Errors Transfer Model Resolve.

Section managers.
Context {W : Type}.

(** ** Rejecting managers *)
Definition rejected {A} : io W A := lift (Err (EModel ErrRejected)).

Definition reject_ConditionManager : ConditionManager W :=
  {| Condition_Get := rejected; Condition_Set _ := rejected |}.
Definition reject_ConnectionManager : ConnectionManager W := {| Connection_Get _ _ := rejected |}.
Definition reject_EnvironmentManager : EnvironmentManager W :=
  {| Environment_Get := rejected; Environment_Set _ := rejected |}.
Definition reject_EventManager : EventManager W := {| Event_Emit _ _ := rejected |}.
Definition reject_ParameterManager : ParameterManager W :=
  {| Parameter_Get _ := rejected; Parameter_Set _ _ := rejected |}.
Definition reject_SecretManager : SecretManager W := {| Secret_Get _ := rejected |}.
Definition reject_SpecManager : SpecManager W :=
  {| Spec_Get := rejected; Spec_Set _ := rejected |}.
Definition reject_StateManager : StateManager W :=
  {| State_Get _ := rejected; State_Set _ _ := rejected |}.
Definition reject_StepOutputManager : StepOutputManager W :=
  {| StepOutput_Get _ _ := rejected; StepOutput_Set _ _ := rejected |}.

(** ** The builder *)
Record MetadataManagers := MkMetadataManagers {
  Connections : ConnectionManager W;
  Conditions : ConditionManager W;
  Events : EventManager W;
  Environments : EnvironmentManager W;
  Parameters : ParameterManager W;
  Secrets : SecretManager W;
  SpecOf : SpecManager W;
  StateOf : StateManager W;
  StepOutputs : StepOutputManager W;
}.

(** The builder has the same fields. *)
Definition MetadataBuilder : Type := MetadataManagers.

Definition NewMetadataBuilder : MetadataBuilder := {|
  Connections := reject_ConnectionManager; Conditions := reject_ConditionManager;
  Events := reject_EventManager; Environments := reject_EnvironmentManager;
  Parameters := reject_ParameterManager; Secrets := reject_SecretManager;
  SpecOf := reject_SpecManager; StateOf := reject_StateManager;
  StepOutputs := reject_StepOutputManager |}.

Definition SetConnections (m : ConnectionManager W) (mb : MetadataBuilder) : MetadataBuilder :=
  MkMetadataManagers m (Conditions mb) (Events mb) (Environments mb) (Parameters mb)
    (Secrets mb) (SpecOf mb) (StateOf mb) (StepOutputs mb).
Definition SetConditions (m : ConditionManager W) (mb : MetadataBuilder) : MetadataBuilder :=
  MkMetadataManagers (Connections mb) m (Events mb) (Environments mb) (Parameters mb)
    (Secrets mb) (SpecOf mb) (StateOf mb) (StepOutputs mb).
Definition SetEvents (m : EventManager W) (mb : MetadataBuilder) : MetadataBuilder :=
  MkMetadataManagers (Connections mb) (Conditions mb) m (Environments mb) (Parameters mb)
    (Secrets mb) (SpecOf mb) (StateOf mb) (StepOutputs mb).
Definition SetEnvironment (m : EnvironmentManager W) (mb : MetadataBuilder) : MetadataBuilder :=
  MkMetadataManagers (Connections mb) (Conditions mb) (Events mb) m (Parameters mb)
    (Secrets mb) (SpecOf mb) (StateOf mb) (StepOutputs mb).
Definition SetParameters (m : ParameterManager W) (mb : MetadataBuilder) : MetadataBuilder :=
  MkMetadataManagers (Connections mb) (Conditions mb) (Events mb) (Environments mb) m
    (Secrets mb) (SpecOf mb) (StateOf mb) (StepOutputs mb).
Definition SetSecrets (m : SecretManager W) (mb : MetadataBuilder) : MetadataBuilder :=
  MkMetadataManagers (Connections mb) (Conditions mb) (Events mb) (Environments mb)
    (Parameters mb) m (SpecOf mb) (StateOf mb) (StepOutputs mb).
Definition SetSpec (m : SpecManager W) (mb : MetadataBuilder) : MetadataBuilder :=
  MkMetadataManagers (Connections mb) (Conditions mb) (Events mb) (Environments mb)
    (Parameters mb) (Secrets mb) m (StateOf mb) (StepOutputs mb).
Definition SetState (m : StateManager W) (mb : MetadataBuilder) : MetadataBuilder :=
  MkMetadataManagers (Connections mb) (Conditions mb) (Events mb) (Environments mb)
    (Parameters mb) (Secrets mb) (SpecOf mb) m (StepOutputs mb).
Definition SetStepOutputs (m : StepOutputManager W) (mb : MetadataBuilder) : MetadataBuilder :=
  MkMetadataManagers (Connections mb) (Conditions mb) (Events mb) (Environments mb)
    (Parameters mb) (Secrets mb) (SpecOf mb) (StateOf mb) m.

Definition Build (mb : MetadataBuilder) : MetadataManagers := mb.

(** ** Resolvers over managers *)

(** [if err == model.ErrNotFound { return nil, notFound } else if err != nil ...] *)
Definition found_or {A} (missing : resolve_error) (m : io W A) : io W A := λ w,
  match m w with
  | (Err (EModel ErrNotFound), w') => (Err (EResolve missing), w')
  | r => r
  end.

Definition ResolveSecret (m : SecretManager W) (name : string) : io W string :=
  so ← found_or (SecretNotFoundError name) (Secret_Get m name); mret (secret_value so).

Definition ResolveConnection (m : ConnectionManager W) (typ name : string) : io W value :=
  so ← found_or (ConnectionNotFoundError typ name) (Connection_Get m typ name);
  mret (VMap (connection_attributes so)).

Definition ResolveOutput (m : StepOutputManager W) (from name : string) : io W value :=
  so ← found_or (OutputNotFoundError from name) (StepOutput_Get m from name);
  mret (stepOutput_value so).

Definition ResolveParameter (m : ParameterManager W) (name : string) : io W value :=
  p ← found_or (ParameterNotFoundError name) (Parameter_Get m name); mret (parameter_value p).

(** The state manager is asked for the name alone. *)
Definition ResolveAnswer (m : StateManager W) (askRef name : string) : io W value :=
  s ← found_or (AnswerNotFoundError askRef name) (State_Get m name); mret (state_value s).

(** A resolver at one state of the managers. *)
Definition at_state {A} (m : io W A) (w : W) : result A := (m w).1.

(** ** Events *)

(** The HTTP client: the request's body, its URL and its authorization, answered with
    a status. *)
Context `{JSONText} (http_do : string → string → string → io W Z).
Definition EUnexpectedResponse (status : Z) : error :=
  EAPI (ReasonOther "HTTP") ("received HTTP " +:+ pretty status +:+ " from API").

(** [json.Marshal(env)]: the data goes through [transfer.JSONInterface]. *)
Definition event_envelope (trigger : string) (data : gmap string value) (key : string)
    : result json :=
  encoded ← sequence_map (ji_marshal <$> data);
  Ok (JObject (list_to_map
    ([("source", JObject (list_to_map
         [("type", JString "trigger");
          ("trigger", JObject {["name" := JString trigger]})]));
      ("data", JObject encoded)]
     ++ (if String.eqb key "" then [] else [("key", JString key)])))).

Definition Emit (me : Action) (url token : string) (data : gmap string value) (key : string)
    : io W Event :=
  match me with
  | ATrigger at_ =>
      env ← lift (event_envelope (Trigger_Name at_) data key);
      status ← http_do url ("Bearer " +:+ token) (json_print env);
      if (status <? 200)%Z || (300 <=? status)%Z then lift (Err (EUnexpectedResponse status))
      else mret (MkEvent data key)
  | AStep _ => rejected
  end.

Definition NewEventManager (me : Action) (url token : string) : EventManager W :=
  {| Event_Emit := Emit me url token |}.

(** The log is not part of the state. *)
Definition log_EventManager : EventManager W := {| Event_Emit data key := mret (MkEvent data key) |}.
End managers.
Arguments MetadataManagers : clear implicits.
Arguments MetadataBuilder : clear implicits.

(** * Vault-backed managers (pkg/manager/vault)

    The logical API of the Vault client is a parameter: a read gives no secret or
    the secret's data, a list no secret or its data.  Values carry their transfer
    encoding. *)
(** [client.Logical().Read], [client.Logical().List]: the data of the secret. *)
Record Logical (W : Type) := MkLogical {
  logical_Read : string → io W (option (gmap string value));
  logical_List : string → io W (option (gmap string value));
}.
Arguments logical_Read {W}. Arguments logical_List {W}.

Record KVV2Client (W : Type) := MkKVV2Client {
  kv_client : Logical W; kv_enginePath : string; kv_path : string }.
Arguments MkKVV2Client {W}. Arguments kv_client {W}.
Arguments kv_enginePath {W}. Arguments kv_path {W}.

Definition vault_not_found : error := EModel ErrNotFound.

Section vault.
Context {W : Type}.

Definition NewKVV2Client (delegate : Logical W) (enginePath : string) : KVV2Client W :=
  MkKVV2Client delegate enginePath "".

Definition In (c : KVV2Client W) (sub : list string) : KVV2Client W :=
  MkKVV2Client (kv_client c) (kv_enginePath c) (path_join [kv_path c; path_join sub]).

Definition dataPath (c : KVV2Client W) : string :=
  path_join [kv_enginePath c; "data"; kv_path c].
Definition metadataPath (c : KVV2Client W) : string :=
  path_join [kv_enginePath c; "metadata"; kv_path c].

Definition or_not_found {A} (o : option A) : result A :=
  match o with Some a => Ok a | None => Err vault_not_found end.

(** The field [data] of the secret is a map that holds [value]. *)
Definition vault_value (sec : gmap string value) : option value :=
  data ← sec !! "data" ≫= as_map; data !! "value".

Definition Read (c : KVV2Client W) : io W value :=
  sec ← logical_Read (kv_client c) (dataPath c);
  lift (s ← or_not_found sec; or_not_found (vault_value s)).

Definition ReadString (c : KVV2Client W) : io W string :=
  raw ← Read c;
  lift (encoded ← or_not_found (as_string raw); DecodeFromTransfer encoded).

(** Every key of the list is a string. *)
Definition secret_keys (ls : gmap string value) : option (list string) :=
  ki ← ls !! "keys" ≫= as_slice; mapM as_string ki.

Definition List (c : KVV2Client W) : io W (list string) :=
  ls ← logical_List (kv_client c) (metadataPath c);
  lift (s ← or_not_found ls; or_not_found (secret_keys s)).

Definition NewSecretManager (client : KVV2Client W) : SecretManager W := {|
  Secret_Get := λ name, v ← ReadString (In client [name]); mret (MkSecret name v);
|}.

(** The attributes of a connection, key by key; a key that is gone is skipped. *)
Fixpoint read_attributes (client : KVV2Client W) (id : string) (keys : list string)
    (attrs : gmap string value) : io W (gmap string value) :=
  match keys with
  | [] => mret attrs
  | key :: keys' =>
      v ← attempt (ReadString (In client [id; key]));
      match v with
      | Ok s => read_attributes client id keys' (<[key := VString s]> attrs)
      | Err (EModel ErrNotFound) => read_attributes client id keys' attrs
      | Err e => lift (Err e)
      | Panic s => lift (Panic s)
      end
  end.

Definition NewConnectionManager (client : KVV2Client W) : ConnectionManager W := {|
  Connection_Get := λ typ name,
    connectionID ← ReadString (In client [typ; name]);
    keys ← List (In client [connectionID]);
    attrs ← read_attributes client connectionID keys ∅;
    mret (MkConnection typ name attrs);
|}.

(** ** What reading returns *)

(** A vault that does not change while it is read. *)
Definition quiet (l : Logical W) : Prop :=
  (∀ p w, (logical_Read l p w).2 = w) ∧ (∀ p w, (logical_List l p w).2 = w).

Lemma quiet_read c w : quiet (kv_client c) → (ReadString c w).2 = w.
Proof.
  intros [Hr _]. unfold ReadString, Read. rewrite !effect_bind_run.
  destruct (logical_Read _ _ w) as [r w'] eqn:E. specialize (Hr (dataPath c) w).
  rewrite E in Hr. cbn in Hr. subst w'. destruct r as [o| |]; [|done..].
  unfold lift. destruct (s ← or_not_found o; or_not_found (vault_value s)); done.
Qed.

(** The value read under a key, if there is one. *)
Definition readable (c : KVV2Client W) (id : string) (w : W) (key : string) : option value :=
  match (ReadString (In c [id; key]) w).1 with Ok s => Some (VString s) | _ => None end.

Definition readable_or_gone (c : KVV2Client W) (id : string) (w : W) (key : string) : Prop :=
  (∃ s, (ReadString (In c [id; key]) w).1 = Ok s)
  ∨ (ReadString (In c [id; key]) w).1 = Err vault_not_found.

Lemma read_attributes_spec c id w keys attrs :
  quiet (kv_client c) → Forall (readable_or_gone c id w) keys →
  ∃ attrs', read_attributes c id keys attrs w = (Ok attrs', w)
    ∧ ∀ k, attrs' !! k = if decide (k ∈ keys ∧ is_Some (readable c id w k))
                         then readable c id w k else attrs !! k.
Proof.
  intros Hq. revert attrs. induction keys as [|key keys IH]; intros attrs Hk.
  { exists attrs. split; [done|]. intros k. rewrite decide_False; [done|].
    intros [Hin _]. by apply elem_of_nil in Hin. }
  apply Forall_cons in Hk as [H1 Hk]. cbn [read_attributes]. rewrite effect_bind_run.
  unfold attempt. pose proof (quiet_read (In c [id; key]) w Hq) as Hw.
  unfold readable_or_gone in H1. destruct (ReadString (In c [id; key]) w) as [r w'] eqn:E.
  cbn in Hw, H1. subst w'.
  assert (Hkey : readable c id w key = match r with Ok s => Some (VString s) | _ => None end)
    by (unfold readable; by rewrite E).
  destruct H1 as [[s ->]| ->].
  - destruct (IH (<[key := VString s]> attrs) Hk) as (attrs' & E' & Ha). exists attrs'.
    split; [done|]. intros k. rewrite Ha. destruct (decide (k = key)) as [->|Hne].
    + rewrite Hkey, lookup_insert_eq. rewrite (decide_True (P := key ∈ key :: keys ∧ _)).
      2: { split; [left|by eexists]. } by destruct (decide _).
    + rewrite lookup_insert_ne by done. apply decide_ext. rewrite elem_of_cons. naive_solver.
  - destruct (IH attrs Hk) as (attrs' & E' & Ha). exists attrs'. split; [done|]. intros k.
    rewrite Ha. apply decide_ext. rewrite elem_of_cons. split; [naive_solver|].
    intros [[->|] Hs]; [|done]. rewrite Hkey in Hs. by destruct Hs.
Qed.
End vault.
