(* ===== verification/ManagerSamples.v ===== *)
(** * A concrete API server, to instantiate the properties of the managers

    It holds one ConfigMap, numbers its writes, and runs one scheduled foreign write
    before each write it receives. *)
From stdpp Require Import pretty.
From S2P Require Import Prelude GoStrings Values Errors Transfer Model ConfigMaps.
From S2P Require Import ConfigMapTheory Samples.

Record Server := MkServer {
  srv_data : option (option (gmap string string));   (* None: no object *)
  srv_version : nat;
  srv_schedule : list (option (option (gmap string string)));
}.

Definition srv_stored (w : Server) : option CoreConfigMap :=
  d ← srv_data w; Some (MkCoreConfigMap "ns" "cm" "uid" (pretty (srv_version w)) d).

Definition srv_write (d : option (option (gmap string string))) (w : Server) : Server :=
  MkServer d (S (srv_version w)) (srv_schedule w).

Definition srv_step (w : Server) : Server :=
  match srv_schedule w with
  | [] => w
  | d :: s => MkServer d (S (srv_version w)) s
  end.

Definition srv_answer (w : Server) : result CoreConfigMap :=
  match srv_stored w with
  | Some cm => Ok cm
  | None => Err (EAPI ReasonNotFound "not found")
  end.

Definition srv_put (d : option (gmap string string)) (w : Server) : result CoreConfigMap * Server :=
  let w' := srv_write (Some d) w in (srv_answer w', w').

Definition server : Client Server := {|
  client_Get _ _ w := (srv_answer w, w);
  client_Create cm w :=
    let w := srv_step w in
    match srv_stored w with
    | Some _ => (Err (EAPI ReasonAlreadyExists "already exists"), w)
    | None => srv_put (Cm_Data cm) w
    end;
  client_Update cm w :=
    let w := srv_step w in
    match srv_stored w with
    | None => (Err (EAPI ReasonNotFound "not found"), w)
    | Some cur =>
        if String.eqb (Cm_ResourceVersion cm) (Cm_ResourceVersion cur)
        then srv_put (Cm_Data cm) w
        else (Err (EAPI ReasonConflict "conflict"), w)
    end;
|}.

(** A foreign write is one of the schedule. *)
Definition srv_foreign : relation Server :=
  rtc (λ w w', srv_schedule w ≠ [] ∧ w' = srv_step w).

Definition srv_pressure (w : Server) : nat := length (srv_schedule w).

(* the name of the one object it holds is not looked at *)
Lemma srv_step_foreign w : srv_foreign w (srv_step w).
Proof.
  destruct (srv_schedule w) as [|d s] eqn:E.
  - unfold srv_step. rewrite E. done.
  - apply rtc_once. by rewrite E.
Qed.

Lemma srv_foreign_version w w' :
  srv_foreign w w' → w' = w ∨ srv_version w < srv_version w'.
Proof.
  induction 1 as [|w w1 w' [Hs ->] _ IH]; [by left|]. right.
  assert (srv_version (srv_step w) = S (srv_version w)) as E.
  { unfold srv_step. by destruct (srv_schedule w). }
  destruct IH as [->|IH]; lia.
Qed.

Lemma srv_step_pressure w :
  srv_step w = w ∨ srv_pressure (srv_step w) < srv_pressure w.
Proof. unfold srv_step, srv_pressure. destruct (srv_schedule w); [by left|right; cbn; lia]. Qed.

Lemma srv_put_law (P : option CoreConfigMap → Prop) cm w w1 r w' :
  srv_foreign w w1 → P (srv_stored w1) → srv_put (Cm_Data cm) w1 = (r, w') →
  put srv_stored srv_foreign P cm r w w'.
Proof. intros Hf HP [= <- <-]. cbn. exists w1. done. Qed.

#[export] Instance srv_laws : APIServer server "ns" "cm" srv_stored srv_foreign.
Proof.
  split.
  - unfold srv_foreign. apply _.
  - intros w r w' [= <- <-]. split; [apply rtc_refl|]. unfold srv_answer, got, srv_stored.
    by destruct (srv_data w).
  - intros cm w r w' _ H. cbn in H. pose proof (srv_step_foreign w) as Hf.
    destruct (srv_stored (srv_step w)) eqn:E; [injection H as <- <-; done|].
    by eapply srv_put_law.
  - intros cm w r w' _ H. cbn in H. pose proof (srv_step_foreign w) as Hf.
    destruct (srv_stored (srv_step w)) as [cur|] eqn:E; [|injection H as <- <-; by intros _].
    destruct (String.eqb _ _) eqn:Ev; [|injection H as <- <-; by intros _].
    apply String.eqb_eq in Ev. eapply srv_put_law; [done| |done]. by exists cur.
  - intros w w1 a b Hf Ha Hb Hv. apply srv_foreign_version in Hf as [->|Hf]; [congruence|].
    unfold srv_stored in Ha, Hb. destruct (srv_data w), (srv_data w1); try discriminate.
    injection Ha as <-. injection Hb as <-. cbn in Hv. apply (inj pretty) in Hv. lia.
Qed.

#[export] Instance srv_pressure_laws : Pressure server "ns" "cm" srv_stored srv_pressure.
Proof.
  split.
  - by intros w r w' [= <- <-].
  - intros cm w e w' _ Hs H Hr. cbn in H.
    destruct (srv_stored (srv_step w)) eqn:E; [by injection H as <- <-|].
    injection H as H _. by unfold srv_answer in H.
  - intros cm w e w' _ (cur & Hc & Hv) H Hr. cbn in H.
    destruct (srv_step_pressure w) as [Hw|Hw].
    + rewrite Hw, Hc, Hv, String.eqb_refl in H. injection H as H _. by unfold srv_answer in H.
    + destruct (srv_stored (srv_step w)); [destruct (String.eqb _ _)|]; injection H as H <-;
        try done; by unfold srv_answer in H.
Qed.
