(* ===== verification/ManagerProperties.v ===== *)
(** * Properties of actions, scripts and managers *)
From S2P Require Import Prelude GoStd GoStrings Values Errors Transfer Unresolvable Fn.
From S2P Require Import Resolve Evaluate EvaluateTheory Model ManagersMemory.
From S2P Require Import ConfigMaps ConfigMapTheory Metadata.
From S2P Require Import Samples ManagerSamples.

(** ** Actions *)

(** Actions whose run identifiers and names are single clean path elements have
    the same hash only when they are the same action, or their two (different)
    paths collide under SHA-1. *)
Theorem action_identity a b :
  clean_action a = true → clean_action b = true → action_hash a = action_hash b →
  a = b ∨ (action_path a ≠ action_path b
           ∧ Sha1.sum (action_path a) = Sha1.sum (action_path b)).
Proof.
  intros Ha Hb E. destruct (decide (a = b)) as [|Hne]; [by left|]. right.
  split; [intros Ep; by apply Hne, action_path_inj|]. by destruct a, b.
Qed.

Lemma action_identity_witness :
  let a := AStep (MkStep (MkRun "r1") "build") in
  a = a ∨ (action_path a ≠ action_path a ∧ Sha1.sum (action_path a) = Sha1.sum (action_path a)).
Proof. cbv zeta. apply action_identity; reflexivity. Defined.

(** Without clean names the hash does not identify the action: a step can carry the
    hash of a trigger. *)
Lemma action_hash_traversal :
  action_hash (AStep (MkStep (MkRun "r1") "../../../triggers/deploy"))
  = action_hash (ATrigger (MkTrigger "deploy")).
Proof. by vm_compute. Qed.

(** A script made of input lines always names its interpreter, is the input
    itself when the input names one and otherwise the input under the default
    interpreter, and is stable when it is an input again. *)
Theorem script_runnable input :
  let script := ScriptForInput input in
  has_prefix Shebang script = true
  ∧ (has_prefix Shebang (join newline input) = true → script = join newline input)
  ∧ (has_prefix Shebang (join newline input) = false →
     script = "#!/bin/sh" +:+ newline +:+ join newline input)
  ∧ ScriptForInput [script] = script.
Proof.
  cbv zeta.
  assert (Hp : has_prefix Shebang (ScriptForInput input) = true).
  { unfold ScriptForInput. destruct (has_prefix Shebang (join _ _)) eqn:E; [done|].
    apply has_prefix_spec. by eexists. }
  split_and!; [done|..].
  - intros E. unfold ScriptForInput. by rewrite E.
  - intros E. unfold ScriptForInput. by rewrite E.
  - unfold ScriptForInput at 1. cbn [join]. by rewrite Hp.
Qed.

(** ** Stores *)

(** C18: The ConfigMap managers implement an abstract store: on a local ConfigMap any
    sequence of calls to the parameter, condition, environment, spec, state and
    output managers answers exactly as on a map from slots (kind, action hash, name)
    to values, for values that JSON can carry. *)
Theorem configmap_refines_store `{JSONTextLaws} n cs w m :
  usable w → Forall (writes storable) cs →
  (∀ s, read w (slot_key s) = m (slot_id s)) →
  (run_calls (slot_get (S n) LocalConfigMap) (slot_set (S n) LocalConfigMap) cs w).1
  = spec_calls slot_id slot_object cs m.
Proof.
  intros Hw Hc Hm.
  by eapply (calls_refine slot_id slot_object _ _ storable usable (λ w s, read w (slot_key s))).
Qed.

Definition sample_step (name : string) : Step := MkStep (MkRun "r1") name.

Definition sample_calls : list (call Slot value) :=
  [CallSet (SOutput (sample_step "build") "image") (VString "app:1");
   CallGet (SOutput (sample_step "build") "image");
   CallGet (SOutput (sample_step "test") "image")].

Lemma configmap_refines_store_witness :
  Forall (writes storable) sample_calls
  ∧ (run_calls (@slot_get _ tree_json 1 LocalConfigMap) (@slot_set _ tree_json 1 LocalConfigMap)
       sample_calls empty_config_map).1
    = spec_calls slot_id slot_object sample_calls (λ _, None).
Proof.
  assert (Hc : Forall (writes storable) sample_calls).
  { repeat constructor. }
  split; [exact Hc|].
  apply (@configmap_refines_store tree_json _ 0 sample_calls empty_config_map (λ _, None));
    [apply usable_empty|exact Hc|reflexivity].
Defined.

(** The in-memory and the ConfigMap output managers are interchangeable: the same
    calls made through both, starting empty, get the same answers. *)
Theorem output_backends_agree `{JSONTextLaws} n reader cs :
  Forall (writes (λ (_ : Step * string) v, json_faithful v = true)) cs →
  (run_calls
     (λ k : Step * string, StepOutput_Get (ManagersMemory.NewStepOutputManager
                           (MkStep (Step_Run k.1) reader)) (Step_Name k.1) k.2)
     (λ k, StepOutput_Set (ManagersMemory.NewStepOutputManager k.1) k.2)
     cs NewStepOutputMap).1
  = (run_calls
       (λ k : Step * string, StepOutput_Get (NewStepOutputManager (S n)
                             (MkStep (Step_Run k.1) reader) LocalConfigMap) (Step_Name k.1) k.2)
       (λ k, StepOutput_Set (NewStepOutputManager (S n) k.1 LocalConfigMap) k.2)
       cs empty_config_map).1.
Proof.
  intros Hc. trans (spec_calls (λ k : Step * string, (step_hash k.1, k.2))
                      (λ k, MkStepOutput k.1 k.2) cs (λ _, None)).
  - eapply (calls_refine (λ k : Step * string, (step_hash k.1, k.2)) _ _ _ any2 any
      (λ w k, output_map_get k.1 k.2 w)); [by unfold any|..].
    + eapply Forall_impl; [exact Hc|]. by intros [].
    + intros k. apply output_map_get_new.
  - symmetry. by eapply (calls_refine (λ k : Step * string, (step_hash k.1, k.2)) _ _ _
                (λ _ v, json_faithful v = true) usable
                (λ w k, read w (stepOutputKey k.1 k.2))); [apply usable_empty| |].
Qed.

Definition sample_output_calls : list (call (Step * string) value) :=
  [CallGet (sample_step "build", "image");
   CallSet (sample_step "build", "image") (VString "app:1");
   CallGet (sample_step "build", "image")].

Lemma output_backends_agree_witness :
  Forall (writes (λ (_ : Step * string) v, json_faithful v = true)) sample_output_calls
  ∧ (run_calls
       (λ k : Step * string, StepOutput_Get (ManagersMemory.NewStepOutputManager
                             (MkStep (Step_Run k.1) "x")) (Step_Name k.1) k.2)
       (λ k, StepOutput_Set (ManagersMemory.NewStepOutputManager k.1) k.2)
       sample_output_calls NewStepOutputMap).1
    = (run_calls
         (λ k : Step * string, StepOutput_Get (@NewStepOutputManager _ tree_json 1
                               (MkStep (Step_Run k.1) "x") LocalConfigMap) (Step_Name k.1) k.2)
         (λ k, StepOutput_Set (@NewStepOutputManager _ tree_json 1 k.1 LocalConfigMap) k.2)
         sample_output_calls empty_config_map).1.
Proof.
  assert (Hc : Forall (writes (λ (_ : Step * string) v, json_faithful v = true))
                 sample_output_calls) by repeat constructor.
  split; [exact Hc|]. exact (@output_backends_agree tree_json _ 0 "x" sample_output_calls Hc).
Defined.

(** ** Concurrent writers *)

(** C21: Writing a value through the API server loses no update.  When [Set] succeeds
    there is a state [w1], reached by other clients' writes alone, such that the
    stored data is the data of [w1] with just this entry replaced by the encoded
    value; all the other entries, whoever wrote them, are kept. *)
Theorem configmap_set_atomic `{JSONText} {W} (client : Client W) ns name stored foreign
    `{!APIServer client ns name stored foreign} fuel key v w w' :
  KV_Set fuel (NewClientConfigMap client ns name) key v w = (Ok tt, w') →
  ∃ w1 encoded cm, foreign w w1 ∧ kv_encode v = Ok encoded ∧ stored w' = Some cm
    ∧ Cm_Data cm = Some (<[key := encoded]> (default ∅ (stored w1 ≫= Cm_Data))).
Proof.
  unfold KV_Set. rewrite effect_bind_run. unfold lift.
  destruct (kv_encode v) as [encoded| |]; [|done..]. rewrite effect_bind_run.
  destruct (MutateConfigMap _ _ _ w) as [[cm'| |] w2] eqn:E; [|done..].
  rewrite effect_ret_run. intros [= <-].
  apply (mutate_atomic client ns name stored foreign) in E as (w1 & obj & Hf & Hobj & Hs & Hd);
    [|apply set_entry_data_only].
  exists w1, encoded, cm'. split_and!; try done. rewrite Hd.
  unfold set_entry, current, ensure_data in Hobj.
  destruct (stored w1) as [[? ? ? ? [d|]]|]; cbn in Hobj; by injection Hobj as <-.
Qed.

(** A server another client writes to just before our update is received. *)
Definition busy_server : Server :=
  MkServer (Some (Some {["a" := "1"]})) 0 [Some (Some {["a" := "2"; "b" := "3"]})].

Lemma configmap_set_atomic_witness :
  ∃ w', @KV_Set _ tree_json 3 (NewClientConfigMap server "ns" "cm") "k" VNil busy_server
          = (Ok tt, w')
    ∧ ∃ w1 encoded cm, srv_foreign busy_server w1 ∧ @kv_encode tree_json VNil = Ok encoded
      ∧ srv_stored w' = Some cm
      ∧ Cm_Data cm = Some (<["k" := encoded]> (default ∅ (srv_stored w1 ≫= Cm_Data))).
Proof.
  eexists. split; [vm_compute; reflexivity|].
  eapply (@configmap_set_atomic tree_json Server server "ns" "cm" srv_stored srv_foreign _ 3).
  vm_compute. reflexivity.
Defined.

(** C22: Writing terminates: when refusals are caused by other clients' writes and at
    most [pressure w] of those are to come, [pressure w + 1] rounds give [Set] a
    result, which is never a panic (the nil map of a new object is replaced before
    it is written to). *)
Theorem configmap_set_terminates `{JSONText} {W} (client : Client W) ns name stored foreign
    pressure `{!APIServer client ns name stored foreign} `{!Pressure client ns name stored pressure}
    fuel key v w :
  pressure w < fuel → no_panic (kv_encode v) →
  no_panic (KV_Set fuel (NewClientConfigMap client ns name) key v w).1.
Proof.
  intros Hp He. unfold KV_Set. rewrite effect_bind_run. unfold lift.
  destruct (kv_encode v) as [encoded| |x]; [|apply Err_no_panic|by destruct (He x)].
  rewrite effect_bind_run.
  pose proof (mutate_terminates client ns name stored foreign fuel (set_entry key encoded) w
                (set_entry_data_only _ _) (set_entry_no_panic _ _) Hp) as Hm.
  destruct (MutateConfigMap _ _ _ w) as [[cm'| |x] w2]; [apply Ok_no_panic|apply Err_no_panic|].
  by destruct (Hm x).
Qed.

Lemma configmap_set_terminates_witness :
  srv_pressure busy_server < 2
  ∧ no_panic (@KV_Set _ tree_json 2 (NewClientConfigMap server "ns" "cm") "k" VNil busy_server).1.
Proof.
  split; [vm_compute; reflexivity|].
  apply (@configmap_set_terminates tree_json Server server "ns" "cm" srv_stored srv_foreign
           srv_pressure _ _ 2); [vm_compute; reflexivity|].
  intros x. vm_compute. discriminate.
Defined.

(** Two clients that create the object at once: the second one's write fails, since
    a refused create is not a conflict. *)
Lemma create_race_fails :
  (@KV_Set _ tree_json 5 (NewClientConfigMap server "ns" "cm") "k" VNil
     (MkServer None 0 [Some (Some ∅)])).1
  = Err (EAPI ReasonAlreadyExists "already exists").
Proof. by vm_compute. Qed.

(** ** Reading a connection from Vault *)

(** A connection read from an undisturbed Vault is found by its pointer: its
    attributes are the decoded values of the listed keys, a key that is gone is left
    out, and the vault is not changed. *)
Theorem vault_connection_attributes {W} (c : KVV2Client W) typ name id keys w :
  quiet (kv_client c) →
  (ReadString (In c [typ; name]) w).1 = Ok id →
  Metadata.List (In c [id]) w = (Ok keys, w) →
  Forall (readable_or_gone c id w) keys →
  ∃ attrs, Connection_Get (NewConnectionManager c) typ name w
             = (Ok (MkConnection typ name attrs), w)
    ∧ ∀ k, attrs !! k = if decide (k ∈ keys) then readable c id w k else None.
Proof.
  intros Hq Hid Hkeys Hk. cbn [Connection_Get NewConnectionManager]. rewrite effect_bind_run.
  pose proof (quiet_read (In c [typ; name]) w Hq) as Hw.
  destruct (ReadString (In c [typ; name]) w) as [r w'] eqn:E. cbn in Hid, Hw. subst.
  rewrite effect_bind_run, Hkeys, effect_bind_run.
  destruct (read_attributes_spec c id w keys ∅ Hq Hk) as (attrs & -> & Ha).
  exists attrs. split; [done|]. intros k. rewrite Ha, lookup_empty.
  destruct (readable c id w k) eqn:Er.
  - apply decide_ext. split; [naive_solver|]. intros Hin. split; [done|by eexists].
  - rewrite decide_False by (intros [_ [? ?]]; done). by destruct (decide _).
Qed.

Definition vault_string (s : string) : option (gmap string value) :=
  Some {["data" := VMap {["value" := VString s]}]}.

(** One connection with a text attribute, a binary one and one that is gone. *)
Definition sample_vault : Logical unit := {|
  logical_Read p w :=
    (Ok (if String.eqb p "kv/data/ws/aws/prod" then vault_string "id1"
         else if String.eqb p "kv/data/ws/id1/user" then vault_string "me"
         else if String.eqb p "kv/data/ws/id1/key" then vault_string "base64:/w=="
         else None), w);
  logical_List p w :=
    (Ok (if String.eqb p "kv/metadata/ws/id1"
         then Some {["keys" := VSlice [VString "user"; VString "key"; VString "gone"]]}
         else None), w);
|}.

Definition sample_kv : KVV2Client unit := In (NewKVV2Client sample_vault "kv") ["ws"].

Lemma vault_connection_attributes_witness :
  ∃ attrs, Connection_Get (NewConnectionManager sample_kv) "aws" "prod" tt
             = (Ok (MkConnection "aws" "prod" attrs), tt)
    ∧ ∀ k, attrs !! k = if decide (k ∈ ["user"; "key"; "gone"])
                        then readable sample_kv "id1" tt k else None.
Proof.
  apply (vault_connection_attributes sample_kv "aws" "prod" "id1" ["user"; "key"; "gone"] tt).
  - split; reflexivity.
  - vm_compute. reflexivity.
  - vm_compute. reflexivity.
  - apply Forall_cons; split; [left; eexists; vm_compute; reflexivity|].
    apply Forall_cons; split; [left; eexists; vm_compute; reflexivity|].
    apply Forall_cons; split; [right; vm_compute; reflexivity|constructor].
Defined.

(** ** From managers to expressions *)

(** An output written by a step is what the expressions of every step of its run
    read: for any implementation of the step output managers that keeps the store
    contract, evaluating a reference to the output after the write gives the value
    written. *)
Theorem step_output_flow `{GoRuntime, GoFmt} {W} (mgr : Step → StepOutputManager W) reader
    storable usable stored
    `{!ValueStore (λ k : Step * string, (step_hash k.1, k.2)) (λ k, MkStepOutput k.1 k.2)
        (λ k, StepOutput_Get (mgr (MkStep (Step_Run k.1) reader)) (Step_Name k.1) k.2)
        (λ k, StepOutput_Set (mgr k.1) k.2) storable usable stored}
    (e : Evaluator) run from name v w d :
  usable w → storable (MkStep run from, name) v → supported v = true → d ≠ 0%Z →
  ∃ w', StepOutput_Set (mgr (MkStep run from)) name v w
          = (Ok (MkStepOutput (MkStep run from) name v), w')
    ∧ evaluate (Copy e [WithOutputTypeResolver
          (λ from name, at_state (ResolveOutput (mgr (MkStep run reader)) from name) w')])
        (VMap (<["$type" := VString "Output"]> (<["from" := VString from]>
           {["name" := VString name]}))) d
      = Ok (complete_result v).
Proof.
  intros Hw Hv Hs Hd.
  destruct (get_after_set _ _ _ _ storable usable stored (MkStep run from, name) v w Hw Hv)
    as (w' & E & _ & Hget).
  exists w'. split; [exact E|]. cbn [fst snd Step_Run Step_Name] in Hget.
  set (tm := <["$type" := VString "Output"]> _).
  unfold evaluate. cbn [evaluate_fuel]. unfold evaluateUnchecked.
  rewrite (proj2 (Z.eqb_neq d 0)), decide_True by done.
  assert (evaluateType (Copy e [WithOutputTypeResolver (λ from name, at_state
            (ResolveOutput (mgr (MkStep run reader)) from name) w')]) tm
          = Ok (complete_result v)) as ->.
  { change (evaluateType _ tm) with
      (type_result "Output" tm unresolved_output
         (at_state (ResolveOutput (mgr (MkStep run reader)) from name) w')).
    unfold at_state, ResolveOutput. rewrite effect_bind_run. unfold found_or. by rewrite Hget. }
  cbn. unfold check_supported. cbn. by rewrite Hs.
Qed.

Lemma step_output_flow_witness :
  ∃ w', StepOutput_Set (@NewStepOutputManager _ tree_json 1 (sample_step "build") LocalConfigMap)
          "image" (VString "app:1") empty_config_map
        = (Ok (MkStepOutput (sample_step "build") "image" (VString "app:1")), w')
    ∧ @evaluate forward_runtime sample_fmt
        (Copy (sample_evaluator ∅ ∅) [WithOutputTypeResolver (λ from name, at_state
           (ResolveOutput (@NewStepOutputManager _ tree_json 1 (sample_step "deploy")
              LocalConfigMap) from name) w')])
        (VMap (<["$type" := VString "Output"]> (<["from" := VString "build"]>
           {["name" := VString "image"]}))) 5
      = Ok (complete_result (VString "app:1")).
Proof.
  exact (@step_output_flow forward_runtime sample_fmt CoreConfigMap
           (λ s, @NewStepOutputManager _ tree_json 1 s LocalConfigMap) "deploy"
           _ _ _ (@local_output_store tree_json _ 0 "deploy") (sample_evaluator ∅ ∅)
           (MkRun "r1") "build" "image" (VString "app:1") empty_config_map 5
           usable_empty eq_refl eq_refl ltac:(discriminate)).
Defined.

(** Over the in-memory managers the resolvers of secrets, parameters and
    connections are the expression language's own in-memory resolvers, and a manager
    that was never set on the builder rejects every call: its error is not a
    not-found, so that an evaluation that needs it fails instead of reporting an
    unresolved reference. *)
Theorem manager_resolvers_agree (s : gmap string string) (p : gmap string value)
    (c : gmap (string * string) (gmap string value)) {W} (w : W) :
  (∀ name, at_state (ResolveSecret ManagersMemory.secrets name)
             (ManagersMemory.NewSecretManager s) = MemorySecretTypeResolver s name)
  ∧ (∀ name, at_state (ResolveParameter ManagersMemory.parameters name) p
             = MemoryParameterTypeResolver p name)
  ∧ (∀ ty name, at_state (ResolveConnection ManagersMemory.connections ty name)
                  (ManagersMemory.NewConnectionManager c)
                = MemoryConnectionTypeResolver (VMap <$> c) ty name)
  ∧ (let mb := Build NewMetadataBuilder in
     ∀ name from ty,
     at_state (ResolveSecret (Secrets mb) name) w = Err (EModel ErrRejected)
     ∧ at_state (ResolveParameter (Parameters mb) name) w = Err (EModel ErrRejected)
     ∧ at_state (ResolveConnection (Connections mb) ty name) w = Err (EModel ErrRejected)
     ∧ at_state (ResolveOutput (StepOutputs mb) from name) w = Err (EModel ErrRejected)
     ∧ at_state (ResolveAnswer (StateOf mb) from name) w = Err (EModel ErrRejected)).
Proof.
  split_and!; [..|by intros mb name from ty; split_and!].
  - intros name. unfold ManagersMemory.NewSecretManager. rewrite copy_into_union, (right_id_L ∅ (∪)).
    unfold at_state, ResolveSecret, found_or. rewrite effect_bind_run. cbn.
    unfold ManagersMemory.secret_get, MemorySecretTypeResolver, SecretState.
    by destruct (s !! name).
  - intros name. unfold at_state, ResolveParameter, found_or. rewrite effect_bind_run. cbn.
    unfold parameter_get, MemoryParameterTypeResolver, ParameterState.
    by destruct (p !! name).
  - intros ty name. unfold at_state, ResolveConnection, found_or. rewrite effect_bind_run. cbn.
    unfold connection_get, MemoryConnectionTypeResolver, ManagersMemory.NewConnectionManager.
    unfold ConnectionState. rewrite lookup_fmap. by destruct (c !! (ty, name)).
Qed.
