(* ===== verification/Authenticate.v ===== *)
(** * Authentication of metadata requests (pkg/authenticate)

    An intermediary finds a raw token, a resolver turns it into claims; both may add
    validators and injectors to the [Authentication] state.  [W] is the world the
    calls act on. *)
From stdpp Require Import pretty.
From S2P Require Import Prelude GoStrings Values Errors Transfer Model.

(** ** Errors *)
Inductive auth_error : Type :=
| NotFoundError (reason : string) (causes : list auth_error)
| ErrMalformed
| AuthError (e : error).

Definition is_not_found_error (e : auth_error) : bool :=
  match e with NotFoundError _ _ => true | _ => false end.

(** The message; how the other errors print is a parameter. *)
Fixpoint auth_message (show : error → string) (e : auth_error) : string :=
  match e with
  | NotFoundError reason causes =>
      "authenticate: " +:+ (if String.eqb reason "" then "not found" else reason)
      +:+ match causes with
          | [] => ""
          | [c] => ": " +:+ auth_message show c
          | _ => ":" +:+ foldr (λ c s, newline +:+ "* " +:+ auth_message show c +:+ s) "" causes
          end
  | ErrMalformed => "authenticate: malformed token"
  | AuthError e => show e
  end.

(** ** Claims *)
Record RegisteredClaims := MkRegistered {
  Issuer : string; Subject : string; Audience : list string;
  Expiry : option Z; NotBefore : option Z; IssuedAt : option Z; JWT_ID : string;
}.

(** The registered claims are an embedded pointer, nil when a token has none. *)
Record Claims := MkClaims {
  registered : option RegisteredClaims;
  KubernetesNamespaceName : string;
  KubernetesNamespaceUID : string;
  KubernetesServiceAccountToken : string;
  RelayDomainID : string;
  RelayTenantID : string;
  RelayRunID : string;
  RelayName : string;
  RelayKubernetesImmutableConfigMapName : string;
  RelayKubernetesMutableConfigMapName : string;
  RelayVaultEnginePath : string;
  RelayVaultSecretPath : string;
  RelayVaultConnectionPath : string;
  RelayEventAPIURL : option string;
  RelayEventAPIToken : string;
}.

Definition nil_claims : string := "invalid memory address or nil pointer dereference".

Definition claims_subject (c : Claims) : outcome auth_error string :=
  match registered c with None => Panic nil_claims | Some r => Ok (Subject r) end.

(** The action the claims describe, before its hash is compared. *)
Definition claimed_action (c : Claims) (kind : string) : option Action :=
  if String.eqb kind (Plural ActionTypeStep) then
    if String.eqb (RelayRunID c) "" || String.eqb (RelayName c) "" then None
    else Some (AStep (MkStep (MkRun (RelayRunID c)) (RelayName c)))
  else if String.eqb kind (Plural ActionTypeTrigger) then
    if String.eqb (RelayName c) "" then None
    else Some (ATrigger (MkTrigger (RelayName c)))
  else None.

(** [Claims.Action] *)
Definition claims_action (c : Claims) : outcome auth_error (option Action) :=
  subject ← claims_subject c;
  match cut slash subject with
  | None => Ok None
  | Some (kind, hash) =>
      match claimed_action c kind with
      | None => Ok None
      | Some action =>
          if String.eqb (HexEncoding (action_hash action)) hash then Ok (Some action)
          else Ok None
      end
  end.

Section authenticate.
Context {W : Type}.

Definition Validator : Type := Claims → effect auth_error W bool.
Definition Injector : Type := Claims → effect auth_error W unit.

(** ** The authentication state *)
Record Authentication := MkAuthentication {
  validators : list Validator; injectors : list Injector }.

Definition NewAuthentication : Authentication := MkAuthentication [] [].

(** Calls that may change the authentication state. *)
Notation auth := (effect auth_error (Authentication * W)).

Definition AddValidator (v : Validator) : auth unit := λ '(st, w),
  (Ok tt, (MkAuthentication (validators st ++ [v]) (injectors st), w)).
Definition AddInjector (i : Injector) : auth unit := λ '(st, w),
  (Ok tt, (MkAuthentication (validators st) (injectors st ++ [i]), w)).

Definition in_world {A} (m : effect auth_error W A) : auth A := λ '(st, w),
  let '(r, w') := m w in (r, (st, w')).

Definition Raw : Type := string.
Definition Intermediary : Type := auth Raw.
Definition Resolver : Type := Raw → auth Claims.

(** ** Intermediaries *)
Definition Raw_Next (r : Raw) : Intermediary := mret r.

Definition ChainIntermediaryFunc : Type := Raw → effect auth_error W Intermediary.

Fixpoint chain_next (fns : list ChainIntermediaryFunc) (raw : Raw) : auth Raw :=
  match fns with
  | [] => mret raw
  | fn :: fns' => next ← in_world (fn raw); raw' ← next; chain_next fns' raw'
  end.

Definition ChainIntermediary (initial : Intermediary) (fns : list ChainIntermediaryFunc)
    : Intermediary := raw ← initial; chain_next fns raw.

(** ** Resolvers *)
Fixpoint any_resolve (available : nat) (delegates : list Resolver) (causes : list auth_error)
    (raw : Raw) : auth Claims := λ '(st, w),
  match delegates with
  | [] =>
      (Err (NotFoundError ("none of the " +:+ pretty available
              +:+ " available resolvers authenticated this token") causes), (st, w))
  | delegate :: rest =>
      let '(r, (ts, w')) := delegate raw (NewAuthentication, w) in
      match r with
      | Err err => if is_not_found_error err
                   then any_resolve available rest (causes ++ [err]) raw (st, w')
                   else (Err err, (st, w'))
      | Panic s => (Panic s, (st, w'))
      | Ok claims => (Ok claims, (MkAuthentication (validators st ++ validators ts)
                                    (injectors st ++ injectors ts), w'))
      end
  end.

Definition AnyResolver (delegates : list Resolver) : Resolver := λ raw,
  match delegates with
  | [delegate] => delegate raw
  | _ => any_resolve (length delegates) delegates [] raw
  end.

(** ** The authenticator *)
Record Authenticator := MkAuthenticator {
  intermediary : Intermediary; resolver : Resolver;
  own_validators : list Validator; own_injectors : list Injector }.

Definition AuthenticatorOption : Type := Authenticator → Authenticator.
Definition AuthenticatorWithValidator (v : Validator) : AuthenticatorOption := λ a,
  MkAuthenticator (intermediary a) (resolver a) (own_validators a ++ [v]) (own_injectors a).
Definition AuthenticatorWithInjector (i : Injector) : AuthenticatorOption := λ a,
  MkAuthenticator (intermediary a) (resolver a) (own_validators a) (own_injectors a ++ [i]).
Definition NewAuthenticator (i : Intermediary) (r : Resolver) (opts : list AuthenticatorOption)
    : Authenticator := foldl (λ a opt, opt a) (MkAuthenticator i r [] []) opts.

Fixpoint validate_all (vs : list Validator) (c : Claims) : effect auth_error W bool :=
  match vs with
  | [] => mret true
  | v :: vs' => ok ← v c; if (ok : bool) then validate_all vs' c else mret false
  end.

Definition inject_all (injs : list Injector) (c : Claims) : effect auth_error W unit :=
  each_effect (λ i, i c) injs.

(** A not-found error of a lookup is an authentication failure, not an error. *)
Definition Authenticate (a : Authenticator) : effect auth_error W bool := λ w,
  match intermediary a (MkAuthentication (own_validators a) (own_injectors a), w) with
  | (Err err, (_, w1)) => (if is_not_found_error err then Ok false else Err err, w1)
  | (Panic s, (_, w1)) => (Panic s, w1)
  | (Ok raw, (st1, w1)) =>
      match resolver a raw (st1, w1) with
      | (Err err, (_, w2)) => (if is_not_found_error err then Ok false else Err err, w2)
      | (Panic s, (_, w2)) => (Panic s, w2)
      | (Ok claims, (st2, w2)) =>
          match claims_action claims with
          | Ok None => (Ok false, w2)
          | Ok (Some _) =>
              (ok ← validate_all (validators st2) claims;
               if (ok : bool) then _ ← inject_all (injectors st2) claims; mret true
               else mret false) w2
          | Err e => (Err e, w2)
          | Panic s => (Panic s, w2)
          end
      end
  end.

(** ** Issuers and wrappers *)
Definition Issuer_ : Type := Claims → effect auth_error W Raw.
Definition Wrapper : Type := Raw → effect auth_error W Raw.

Fixpoint ChainWrapper (delegates : list Wrapper) : Wrapper := λ raw,
  match delegates with
  | [] => mret raw
  | d :: rest => raw' ← d raw; ChainWrapper rest raw'
  end.

Definition WrappedIssuer (delegate : Issuer_) (wrapper : Wrapper) : Issuer_ := λ c,
  raw ← delegate c; wrapper raw.
End authenticate.
Arguments Authentication : clear implicits.
Notation auth W := (effect auth_error (Authentication W * W)).
Arguments Authenticator : clear implicits.
Arguments Intermediary : clear implicits.
Arguments Resolver : clear implicits.
Arguments Validator : clear implicits.
Arguments Injector : clear implicits.
Arguments Wrapper : clear implicits.
Arguments Issuer_ : clear implicits.

(** ** HTTP requests

    The value of the authorization header; empty when there is none. *)
Definition lower (c : ascii) : ascii :=
  let n := N_of_ascii c in
  if (65 <=? n)%N && (n <=? 90)%N then ascii_of_N (n + 32) else c.

Fixpoint equal_fold (s t : string) : bool :=
  match s, t with
  | EmptyString, EmptyString => true
  | String a s', String b t' => Ascii.eqb (lower a) (lower b) && equal_fold s' t'
  | _, _ => false
  end.

(** The rest of the header after a scheme prefix, compared without case. *)
Definition after_scheme (prefix auth : string) : option string :=
  let n := String.length prefix in
  if (String.length auth <? n) || negb (equal_fold (String.substring 0 n auth) prefix) then None
  else Some (drop_string n auth).

Definition parseBearerAuth (auth : string) : option string := after_scheme "Bearer " auth.

(** [Request.BasicAuth] *)
Definition basic_auth (auth : string) : option (string * string) :=
  enc ← after_scheme "Basic " auth;
  match Base64.decode enc with Ok c => cut ":"%char c | _ => None end.

Definition HTTPAuthorizationHeaderIntermediary {W} (authorization : string) : Intermediary W := λ st,
  match basic_auth authorization with
  | Some (username, password) =>
      if negb (String.eqb username "")
      then (Err (NotFoundError "http: username not empty" []), st)
      else (Ok password, st)
  | None =>
      match parseBearerAuth authorization with
      | Some token => (Ok token, st)
      | None => (Err (NotFoundError
                        "http: neither Basic nor Bearer authentication present" []), st)
      end
  end.

(** ** Lemmas *)

(** What an accepted subject says: it is the plural of the action's type and the
    hash of the action the other claims name. *)
Lemma claims_action_Some c a :
  claims_action c = Ok (Some a) →
  claims_subject c = Ok (Plural (action_type a) +:+ "/" +:+ HexEncoding (action_hash a))
  ∧ RelayName c = match a with AStep s => Step_Name s | ATrigger t => Trigger_Name t end
  ∧ RelayName c ≠ ""
  ∧ ∀ s, a = AStep s → RelayRunID c = Run_ID (Step_Run s) ∧ RelayRunID c ≠ "".
Proof.
  unfold claims_action. destruct (claims_subject c) as [subj| |]; cbn [mbind outcome_bind]; [|done..].
  destruct (cut slash subj) as [[kind hash]|] eqn:Hc; [|done].
  destruct (claimed_action c kind) as [action|] eqn:Ha; [|done].
  destruct (String.eqb_spec (HexEncoding (action_hash action)) hash) as [<-|]; [|done].
  intros [= <-]. apply cut_Some in Hc. unfold claimed_action in Ha.
  destruct (String.eqb_spec kind (Plural ActionTypeStep)) as [->|_].
  - destruct (String.eqb_spec (RelayRunID c) ""), (String.eqb_spec (RelayName c) "");
      try discriminate Ha. injection Ha as <-. split_and!; [by rewrite Hc|done..|].
    by intros s [= <-].
  - destruct (String.eqb_spec kind (Plural ActionTypeTrigger)) as [->|]; [|done].
    destruct (String.eqb_spec (RelayName c) ""); [done|]. injection Ha as <-.
    split_and!; [by rewrite Hc|done..].
Qed.
