(* ===== verification/AuthKubernetes.v ===== *)
(** * Tokens of pods, keys and Vault (pkg/authenticate/kubernetes.go, key.go, vault.go)

    The Kubernetes, Vault and JWT libraries are parameters: the calls the code makes
    of them, on a world [W]. *)
From S2P Require Import Prelude GoStrings Values Errors Transfer Model Authenticate.

Definition KubernetesTokenAnnotation : string := "relay.sh/token".
Definition KubernetesSubjectAnnotation : string := "relay.sh/subject".

Record Pod := MkPod {
  Pod_Namespace : string;
  Pod_Annotations : gmap string string;
  Pod_Labels : gmap string string;
}.

(** The calls of the Kubernetes client: running pods by IP (its two field selectors),
    the UID of a namespace, the annotations of a Tekton condition. *)
Record KubernetesInterface (W : Type) := MkKubernetes {
  list_pods : string → string → effect auth_error W (list Pod);
  namespace_uid : string → effect auth_error W string;
  condition_annotations : string → string → effect auth_error W (gmap string string);
}.
Arguments list_pods {W}. Arguments namespace_uid {W}. Arguments condition_annotations {W}.

(** [Logical().Write]: no secret, or its data. *)
Definition VaultWrite (W : Type) : Type :=
  string → gmap string value → effect auth_error W (option (gmap string value)).

(** ** Addresses: [net.IP] is a slice of bytes *)
Definition net_ip : Type := string.

Definition zero_bytes (s : string) : bool :=
  forallb (λ c, Ascii.eqb c zero) (String.list_ascii_of_string s).
Definition v4_in_v6_prefix : string :=
  String.string_of_list_ascii (repeat zero 10 ++ ["255"%char; "255"%char]).

(** Equal to 0.0.0.0 (also when mapped to IPv6) or to ::. *)
Definition IsUnspecified (ip : net_ip) : bool :=
  (String.length ip =? 4) && zero_bytes ip
  || (String.length ip =? 16)
     && (zero_bytes ip
         || has_prefix v4_in_v6_prefix ip && zero_bytes (drop_string 12 ip)).

Definition is_api_not_found (e : auth_error) : bool :=
  match e with AuthError (EAPI ReasonNotFound _) => true | _ => false end.

Section kubernetes.
Context {W : Type} (client : KubernetesInterface W) (ip_text : net_ip → string).

(** ** The intermediary of pods *)
Record KubernetesIntermediaryMetadata := MkMetadata { NamespaceUID : string }.

Definition not_found {A} (reason : string) : effect auth_error W A :=
  lift (Err (NotFoundError reason [])).

(** A lookup whose API not-found error becomes an authentication failure. *)
Definition lookup_or {A} (reason : string) (m : effect auth_error W A) : effect auth_error W A :=
  r ← attempt m;
  match r with
  | Err e => if is_api_not_found e then not_found reason else lift (Err e)
  | r => lift r
  end.

Definition namespace_validator (md : KubernetesIntermediaryMetadata) : Validator W := λ claims,
  if String.eqb (KubernetesNamespaceUID claims) "" then mret false
  else mret (String.eqb (NamespaceUID md) (KubernetesNamespaceUID claims)).

Definition subject_validator (subject : string) : Validator W := λ claims,
  s ← lift (claims_subject claims);
  if String.eqb s "" then mret false else mret (String.eqb subject s).

Definition annotation (k : string) (m : gmap string string) : string := default "" (m !! k).

(** The subject and the token of a pod, from its own annotations or from those of its
    Tekton condition. *)
Definition pod_token (pod : Pod) : effect auth_error W (string * string) :=
  let tok := annotation KubernetesTokenAnnotation (Pod_Annotations pod) in
  if negb (String.eqb tok "") then
    mret (annotation KubernetesSubjectAnnotation (Pod_Annotations pod), tok)
  else
    tr ← lookup_or "kubernetes: Tekton condition of requesting pod does not exist"
           (condition_annotations client (Pod_Namespace pod)
              (annotation "tekton.dev/pipelineTask" (Pod_Labels pod)));
    let tok := annotation KubernetesTokenAnnotation tr in
    if String.eqb tok "" then
      not_found "kubernetes: subject and token annotation not present on pod or Tekton condition"
    else mret (annotation KubernetesSubjectAnnotation tr, tok).

(** The lookups of [KubernetesIntermediary.next], before it adds its validators. *)
Definition kubernetes_lookup (ip : net_ip)
    : effect auth_error W (Raw * string * KubernetesIntermediaryMetadata) :=
  if String.eqb ip "" || IsUnspecified ip then
    not_found "kubernetes: no IP address to look up"
  else
    pods ← list_pods client (ip_text ip) "Running";
    match pods with
    | [] => not_found ("kubernetes: no pod found with IP " +:+ ip_text ip)
    | [pod] =>
        uid ← lookup_or "kubernetes: namespace of requesting pod no longer exists"
                (namespace_uid client (Pod_Namespace pod));
        st ← pod_token pod;
        mret (st.2, st.1, MkMetadata uid)
    | _ => not_found ("kubernetes: multiple pods found with IP " +:+ ip_text ip +:+ " (bug?)")
    end.

Definition kubernetes_next (ip : net_ip) : auth W (Raw * KubernetesIntermediaryMetadata) :=
  found ← in_world (kubernetes_lookup ip);
  let '(tok, subject, md) := found in
  _ ← AddValidator (namespace_validator md);
  _ ← AddValidator (subject_validator subject);
  mret (tok, md).

Definition KubernetesIntermediary_Next (ip : net_ip) : Intermediary W :=
  r ← kubernetes_next ip; mret r.1.

Definition KubernetesChainIntermediaryFunc : Type :=
  Raw → KubernetesIntermediaryMetadata → effect auth_error W (Intermediary W).

Definition KubernetesIntermediary_Chain (ip : net_ip) (fn : KubernetesChainIntermediaryFunc)
    : Intermediary W :=
  r ← kubernetes_next ip;
  next ← in_world (fn r.1 r.2);
  next.
End kubernetes.

(** ** Vault transit *)
Definition VaultTransitNamespaceContext (namespace : string) : string :=
  "k8s.io/namespaces/" +:+ namespace.
Definition vaultTransitDecryptPath (root key : string) : string := path_join [root; "decrypt"; key].
Definition vaultTransitEncryptPath (root key : string) : string := path_join [root; "encrypt"; key].

Section vault.
Context {W : Type} (write : VaultWrite W).

(** The request: the field [field], and the context when there is one. *)
Definition transit_data (field data context : string) : gmap string value :=
  let m : gmap string value := {[field := VString data]} in
  if String.eqb context "" then m
  else <["context" := VString (Base64.encode context)]> m.

Definition VaultTransitIntermediary (path key context ciphertext : string) : Intermediary W :=
  in_world (
    secret ← write (vaultTransitDecryptPath path key)
               (transit_data "ciphertext" ciphertext context);
    match secret with
    | None => not_found "vault: transit: no secret data in response (bug?)"
    | Some data =>
        match data !! "plaintext" ≫= as_string with
        | None => not_found "vault: transit: plaintext missing from secret data (bug?)"
        | Some encoded => lift (map_err AuthError (Base64.decode encoded))
        end
    end).

Definition ChainVaultTransitIntermediary (path key context : string) : ChainIntermediaryFunc (W := W) :=
  λ raw, mret (VaultTransitIntermediary path key context raw).

Definition no_key_material : auth_error :=
  AuthError (EText "authenticate: Vault failed to return key material").

Definition VaultTransitWrapper (path key context : string) : Wrapper W := λ raw,
  secret ← write (vaultTransitEncryptPath path key)
             (transit_data "plaintext" (Base64.encode raw) context);
  match secret with
  | None => lift (Err no_key_material)
  | Some data =>
      match data !! "ciphertext" ≫= as_string with
      | None => lift (Err no_key_material)
      | Some ciphertext => mret ciphertext
      end
  end.
End vault.

(** ** JWT *)
Class JWT := {
  Token : Type; Key : Type;
  ParseSigned : string → result Token;
  token_Claims : Token → Key → result Claims;       (* verifies the signature *)
  token_UnsafeClaims : Token → result Claims;       (* does not *)
  token_sign : Key → Claims → result string;
}.

(** [jwt.Expected] and [jwt.Claims.Validate] with its leeway of a minute: a field
    that is not set is not checked.  Times are in seconds. *)
Record Expected := MkExpected {
  expected_Issuer : string; expected_Subject : string; expected_Audience : list string;
  expected_ID : string; expected_Time : option Z;
}.
Definition no_expectation : Expected := MkExpected "" "" [] "" None.

Definition leeway : Z := 60.

Definition validate_time (c : RegisteredClaims) (now : Z) : option error :=
  let before o t := match o with Some x => Z.ltb t x | None => false end in
  if before (NotBefore c) (now + leeway)%Z then Some (EText "token not valid yet (nbf)")
  else if match Expiry c with Some x => Z.ltb x (now - leeway)%Z | None => false end
  then Some (EText "token is expired (exp)")
  else if before (IssuedAt c) (now + leeway)%Z then Some (EText "issued in the future (iat)")
  else None.

Definition Validate (c : RegisteredClaims) (e : Expected) : option error :=
  if negb (String.eqb (expected_Issuer e) "") && negb (String.eqb (expected_Issuer e) (Issuer c))
  then Some (EText "invalid issuer claim (iss)")
  else if negb (String.eqb (expected_Subject e) "")
          && negb (String.eqb (expected_Subject e) (Subject c))
  then Some (EText "invalid subject claim (sub)")
  else if negb (String.eqb (expected_ID e) "") && negb (String.eqb (expected_ID e) (JWT_ID c))
  then Some (EText "invalid ID claim (jti)")
  else if negb (forallb (λ v, existsb (String.eqb v) (Audience c)) (expected_Audience e))
  then Some (EText "invalid audience claim (aud)")
  else match expected_Time e with None => None | Some now => validate_time c now end.

Section jwt.
Context `{JWT} {W : Type}.

Definition KeyResolver (key : Key) (expectation : Expected) : Resolver W := λ raw st,
  (match ParseSigned raw with
   | Err e => Err (NotFoundError "key: JWT parse error" [AuthError e])
   | Panic s => Panic s
   | Ok tok =>
       match token_Claims tok key with
       | Err e => Err (NotFoundError "key: could not validate JWT signature" [AuthError e])
       | Panic s => Panic s
       | Ok claims =>
           match registered claims with
           | None => Panic nil_claims
           | Some c =>
               match Validate c expectation with
               | Some e => Err (NotFoundError "key: could not validate JWT claims" [AuthError e])
               | None => Ok claims
               end
           end
       end
   end, st).

Definition KeyResolverOption : Type := Expected → Expected.
Definition KeyResolverWithExpectation (e : Expected) : KeyResolverOption := λ _, e.
Definition NewKeyResolver (key : Key) (opts : list KeyResolverOption) : Resolver W :=
  KeyResolver key (foldl (λ e opt, opt e) no_expectation opts).

Definition KeySignerIssuer (key : Key) : Issuer_ W := λ claims,
  lift (map_err AuthError (token_sign key claims)).

(** ** Vault logins

    The client a login yields; [login] gives no authentication, or its token. *)
Context (VaultClient : Type)
  (login : string → string → gmap string value → effect auth_error W (option VaultClient)).

Definition VaultResolverInjector : Type := Claims → VaultClient → effect auth_error W unit.

Definition VaultResolver (addr path role : string) (injectors : list VaultResolverInjector)
    : Resolver W := λ raw,
  let data : gmap string value := {["jwt" := VString raw]} in
  let data := if String.eqb role "" then data else <["role" := VString role]> data in
  auth_ ← in_world (login addr (path_join [path; "login"]) data);
  match auth_ with
  | None => in_world (not_found "vault: resolver: no authentication information in response")
  | Some md =>
      tok ← in_world (lift (map_err AuthError (ParseSigned raw)));
      claims ← in_world (lift (map_err AuthError (token_UnsafeClaims tok)));
      _ ← each_effect (λ injector : VaultResolverInjector,
                         AddInjector (λ claims, injector claims md)) injectors;
      mret claims
  end.
End jwt.
