(* ===== verification/AuthService.v ===== *)
(** * The authenticator of the metadata service
    (pkg/metadataapi/server/middleware/auth.go)

    It assembles the intermediary and the resolvers of pkg/authenticate, and fills a
    manager builder from the claims of an authenticated request. *)
From S2P Require Import Prelude GoStrings Values Errors Transfer Model ConfigMaps.
From S2P Require Import Metadata Authenticate AuthKubernetes.

Definition Tag : Type := string * string.

(** The world of an authentication: the outside, the builder, the tags. *)
Record Service (W : Type) := MkService {
  outside : W; mgrs : MetadataBuilder W; tags : list Tag }.
Arguments MkService {W}. Arguments outside {W}. Arguments mgrs {W}. Arguments tags {W}.

Record Credential (W : Type) := MkCredential {
  Credential_Managers : MetadataManagers W; Credential_Tags : list Tag }.
Arguments MkCredential {W}. Arguments Credential_Managers {W}. Arguments Credential_Tags {W}.

(** A request: its remote address, parsed, and its authorization header. *)
Record Request := MkRequest { RemoteIP : net_ip; Authorization : string }.

Section service.
Context {W : Type} `{JSONText, JWT} (fuel : nat).
Context (http_do : string → string → string → io W Z) (ip_text : net_ip → string).
Context (VaultClient : Type) (logical : VaultClient → Logical W).
Context (login : string → string → gmap string value → effect auth_error W (option VaultClient)).

(** Calls on the outside leave the builder and the tags alone. *)
Definition on_outside {A} (m : effect auth_error W A) : effect auth_error (Service W) A := λ s,
  let '(r, w') := m (outside s) in (r, MkService w' (mgrs s) (tags s)).

Definition kubernetes_on_outside (k : KubernetesInterface W) : KubernetesInterface (Service W) := {|
  list_pods ip phase := on_outside (list_pods k ip phase);
  namespace_uid n := on_outside (namespace_uid k n);
  condition_annotations ns n := on_outside (condition_annotations k ns n);
|}.

(** The effect of a builder setter. *)
Definition set_managers (f : MetadataBuilder W → MetadataBuilder W)
    : effect auth_error (Service W) unit := λ s,
  (Ok tt, MkService (outside s) (f (mgrs s)) (tags s)).

Record KubernetesAuthenticator := MkKubernetesAuthenticator {
  factory : string → effect auth_error W (Client W);
  kubernetesClient : option (KubernetesInterface W);
  vaultClient : option (VaultWrite W);
  vaultTransitPath : string; vaultTransitKey : string;
  vaultJWTAuthAddr : string; vaultJWTAuthPath : string; vaultJWTAuthRole : string;
  keys : list Key;
}.

(** ** Options *)
Definition KubernetesAuthenticatorOption : Type :=
  KubernetesAuthenticator → KubernetesAuthenticator.

Definition KubernetesAuthenticatorWithKubernetesIntermediary (client : KubernetesInterface W)
    : KubernetesAuthenticatorOption := λ ka,
  MkKubernetesAuthenticator (factory ka) (Some client) (vaultClient ka) (vaultTransitPath ka)
    (vaultTransitKey ka) (vaultJWTAuthAddr ka) (vaultJWTAuthPath ka) (vaultJWTAuthRole ka) (keys ka).
Definition KubernetesAuthenticatorWithChainToVaultTransitIntermediary (client : VaultWrite W)
    (path key : string) : KubernetesAuthenticatorOption := λ ka,
  MkKubernetesAuthenticator (factory ka) (kubernetesClient ka) (Some client) path key
    (vaultJWTAuthAddr ka) (vaultJWTAuthPath ka) (vaultJWTAuthRole ka) (keys ka).
Definition KubernetesAuthenticatorWithVaultResolver (addr path role : string)
    : KubernetesAuthenticatorOption := λ ka,
  MkKubernetesAuthenticator (factory ka) (kubernetesClient ka) (vaultClient ka)
    (vaultTransitPath ka) (vaultTransitKey ka) addr path role (keys ka).
Definition KubernetesAuthenticatorWithKeyResolver (key : Key) : KubernetesAuthenticatorOption := λ ka,
  MkKubernetesAuthenticator (factory ka) (kubernetesClient ka) (vaultClient ka)
    (vaultTransitPath ka) (vaultTransitKey ka) (vaultJWTAuthAddr ka) (vaultJWTAuthPath ka)
    (vaultJWTAuthRole ka) (keys ka ++ [key]).
Definition NewKubernetesAuthenticator (f : string → effect auth_error W (Client W))
    (opts : list KubernetesAuthenticatorOption) : KubernetesAuthenticator :=
  foldl (λ ka opt, opt ka) (MkKubernetesAuthenticator f None None "" "" "" "" "" []) opts.

(** ** Its parts *)
Definition service_intermediary (ka : KubernetesAuthenticator) (r : Request)
    : Intermediary (Service W) :=
  match kubernetesClient ka with
  | None => HTTPAuthorizationHeaderIntermediary (Authorization r)
  | Some k =>
      match vaultClient ka with
      | None => KubernetesIntermediary_Next (kubernetes_on_outside k) ip_text (RemoteIP r)
      | Some write =>
          KubernetesIntermediary_Chain (kubernetes_on_outside k) ip_text (RemoteIP r) (λ raw md,
            mret (VaultTransitIntermediary (λ p d, on_outside (write p d)) (vaultTransitPath ka)
                    (vaultTransitKey ka) (VaultTransitNamespaceContext (NamespaceUID md)) raw))
      end
  end.

(** The injector of the Vault resolver: connections and secrets below the paths of the
    claims. *)
Definition vault_injector (claims : Claims) (md : VaultClient)
    : effect auth_error (Service W) unit :=
  if String.eqb (RelayVaultEnginePath claims) "" then mret tt
  else
    let base := NewKVV2Client (logical md) (RelayVaultEnginePath claims) in
    _ ← (if String.eqb (RelayVaultConnectionPath claims) "" then mret tt
         else set_managers (SetConnections (Metadata.NewConnectionManager
                (In base [RelayVaultConnectionPath claims]))));
    if String.eqb (RelayVaultSecretPath claims) "" then mret tt
    else set_managers (SetSecrets (Metadata.NewSecretManager
           (In base [RelayVaultSecretPath claims]))).

Definition vault_resolvers (ka : KubernetesAuthenticator) : list (Resolver (Service W)) :=
  if String.eqb (vaultJWTAuthAddr ka) "" then []
  else [VaultResolver VaultClient (λ a p d, on_outside (login a p d)) (vaultJWTAuthAddr ka)
          (vaultJWTAuthPath ka) (vaultJWTAuthRole ka) [vault_injector]].

Definition service_resolver (ka : KubernetesAuthenticator) : Resolver (Service W) :=
  AnyResolver (vault_resolvers ka ++ ((λ key, NewKeyResolver key []) <$> keys ka)).

Definition claim_tags (claims : Claims) (action : Action) : list Tag :=
  List.filter (λ t, negb (String.eqb t.2 ""))
    [("relay.domain.id", RelayDomainID claims);
     ("relay.tenant.id", RelayTenantID claims);
     ("relay.run.id", RelayRunID claims);
     ("relay.action.type", Singular (action_type action));
     ("relay.action.name", RelayName claims)].

(** The managers of an action over its two ConfigMaps. *)
Definition action_managers (client : Client W) (claims : Claims) (action : Action)
    (mb : MetadataBuilder W) : MetadataBuilder W :=
  let immutableMap := NewClientConfigMap client (KubernetesNamespaceName claims)
                        (RelayKubernetesImmutableConfigMapName claims) in
  let mutableMap := NewClientConfigMap client (KubernetesNamespaceName claims)
                      (RelayKubernetesMutableConfigMapName claims) in
  let mb := IfStep action (λ step mb,
              SetStepOutputs (ConfigMaps.NewStepOutputManager fuel step mutableMap)
                (SetParameters (ConfigMaps.NewParameterManager fuel immutableMap) mb)) mb in
  let mb := match RelayEventAPIURL claims with
            | None => mb
            | Some url => SetEvents (NewEventManager http_do action url
                                       (RelayEventAPIToken claims)) mb
            end in
  SetState (ConfigMaps.NewStateManager fuel action mutableMap)
    (SetSpec (ConfigMaps.NewSpecManager fuel action immutableMap)
       (SetEnvironment (ConfigMaps.NewEnvironmentManager fuel action immutableMap)
          (SetConditions (ConfigMaps.NewConditionManager fuel action immutableMap) mb))).

Definition add_tags (ts : list Tag) : effect auth_error (Service W) unit := λ s,
  (Ok tt, MkService (outside s) (mgrs s) (tags s ++ ts)).

(** The action was validated; a nil one would be dereferenced here. *)
Definition service_injector (ka : KubernetesAuthenticator) : Injector (Service W) := λ claims,
  client ← on_outside (factory ka (KubernetesServiceAccountToken claims));
  action ← lift (claims_action claims);
  match action with
  | None => lift (Panic nil_claims)
  | Some action =>
      _ ← set_managers (action_managers client claims action);
      add_tags (claim_tags claims action)
  end.

Definition service_authenticator (ka : KubernetesAuthenticator) (r : Request)
    : Authenticator (Service W) :=
  NewAuthenticator (service_intermediary ka r) (service_resolver ka)
    [AuthenticatorWithInjector (service_injector ka)].

Definition KubernetesAuthenticator_Authenticate (ka : KubernetesAuthenticator) (r : Request)
    : effect auth_error W (option (Credential W)) := λ w,
  let '(ok, s) := Authenticate (service_authenticator ka r)
                    (MkService w NewMetadataBuilder []) in
  (match ok with
   | Err e => Err e
   | Panic x => Panic x
   | Ok false => Ok None
   | Ok true => Ok (Some (MkCredential (Build (mgrs s)) (tags s)))
   end, outside s).

(** ** The middleware: the request is answered here or passed on with its managers. *)
Inductive Answer : Type :=
| AnswerError                                     (* 500 *)
| AnswerUnauthorized                              (* 401 *)
| AnswerNext (cred : Credential W).

Definition WithAuthentication (ka : KubernetesAuthenticator) (r : Request)
    : effect auth_error W Answer := λ w,
  match KubernetesAuthenticator_Authenticate ka r w with
  | (Err _, w') => (Ok AnswerError, w')
  | (Panic x, w') => (Panic x, w')
  | (Ok None, w') => (Ok AnswerUnauthorized, w')
  | (Ok (Some cred), w') => (Ok (AnswerNext cred), w')
  end.
End service.
