(* ===== verification/AuthTheory.v ===== *)
(** * Theory of authentication: what each part adds to the state and where claims come from *)
From S2P Require Import Prelude GoStrings Values Errors Transfer Model ConfigMaps.
From S2P Require Import Metadata Authenticate AuthKubernetes AuthService.

(** ** Sequences over the authentication state *)
Section parts.
Context {W : Type}.
Implicit Types (st : Authentication W) (w : W).

Definition append st ts : Authentication W :=
  MkAuthentication (validators st ++ validators ts) (injectors st ++ injectors ts).

Lemma append_new_r st : append st NewAuthentication = st.
Proof. destruct st. unfold append. cbn. by rewrite !app_nil_r. Qed.

(** A call that only adds to the state it is given. *)
Definition appending {A} (m : auth W A) : Prop := ∀ st w,
  m (st, w) = let '(r, (ts, w')) := m (NewAuthentication, w) in (r, (append st ts, w')).

Lemma append_assoc a b c : append a (append b c) = append (append a b) c.
Proof. unfold append. cbn. by rewrite !(assoc_L (++)). Qed.

Lemma appending_ret {A} (a : A) : appending (mret a : auth W A).
Proof. intros st w. unfold mret, effect_ret. by rewrite append_new_r. Qed.

Lemma appending_bind {A B} (m : auth W A) (f : A → auth W B) :
  appending m → (∀ a, appending (f a)) → appending (m ≫= f).
Proof.
  intros Hm Hf st w. rewrite !effect_bind_run. rewrite (Hm st w).
  destruct (m (NewAuthentication, w)) as [[a|e|s] [ts w']]; try done.
  rewrite (Hf a (append st ts) w'), (Hf a ts w').
  destruct (f a (NewAuthentication, w')) as [r [us w'']]. by rewrite append_assoc.
Qed.

Lemma appending_in_world {A} (m : effect auth_error W A) : appending (in_world m).
Proof.
  intros st w. unfold in_world. destruct (m w) as [r w']. by rewrite append_new_r.
Qed.

Lemma appending_AddInjector (i : Injector W) : appending (AddInjector i).
Proof. intros [vs is_] w. unfold append. cbn. by rewrite app_nil_r. Qed.

Lemma appending_AddValidator (v : Validator W) : appending (AddValidator v).
Proof. intros [vs is_] w. unfold append. cbn. by rewrite app_nil_r. Qed.

Lemma appending_each {A} (f : A → auth W unit) l :
  (∀ a, appending (f a)) → appending (each_effect f l).
Proof.
  intros Hf. induction l as [|x l IH]; [apply appending_ret|].
  apply appending_bind; [apply Hf|intros _; apply IH].
Qed.

(** Results of a call, read off the fresh state. *)
Lemma appending_Ok {A} (m : auth W A) st w a st' w' :
  appending m → m (st, w) = (Ok a, (st', w')) →
  ∃ ts, m (NewAuthentication, w) = (Ok a, (ts, w')) ∧ st' = append st ts.
Proof.
  intros Hm. rewrite (Hm st w). destruct (m (NewAuthentication, w)) as [r [ts w'']].
  intros [= -> <- <-]. by exists ts.
Qed.

(** The delegates of [AnyResolver] that were passed over left nothing behind.  [P] is
    what every delegate keeps of the world. *)
Definition keeps {A} (P : W → Prop) (m : auth W A) : Prop :=
  ∀ st w, P w → P (m (st, w)).2.2.

Lemma any_resolve_Ok P n ds causes raw st w claims st' w' :
  Forall (λ d, keeps P (d raw)) ds → P w →
  any_resolve n ds causes raw (st, w) = (Ok claims, (st', w')) →
  ∃ d w1 ts, d ∈ ds ∧ P w1 ∧ d raw (NewAuthentication, w1) = (Ok claims, (ts, w'))
    ∧ st' = append st ts.
Proof.
  intros Hds. revert causes w. induction Hds as [|d ds Hd _ IH]; intros causes w Hw H; [done|].
  cbn [any_resolve] in H. specialize (Hd NewAuthentication w Hw).
  destruct (d raw (NewAuthentication, w)) as [r [ts w1]] eqn:E. cbn in Hd.
  destruct r as [c|e|]; [| |done].
  - injection H as <- <- <-. exists d, w, ts. split_and!; [left|done..].
  - destruct (is_not_found_error e); [|done].
    destruct (IH _ _ Hd H) as (d' & w2 & ts' & Hin & Hw2 & Hd' & ->). exists d', w2, ts'.
    split_and!; [by right|done..].
Qed.

Lemma AnyResolver_Ok P ds raw st w claims st' w' :
  Forall (λ d, appending (d raw) ∧ keeps P (d raw)) ds → P w →
  AnyResolver ds raw (st, w) = (Ok claims, (st', w')) →
  ∃ d w1 ts, d ∈ ds ∧ P w1 ∧ d raw (NewAuthentication, w1) = (Ok claims, (ts, w'))
    ∧ st' = append st ts.
Proof.
  intros Hds Hw. assert (Hk : Forall (λ d, keeps P (d raw)) ds).
  { eapply Forall_impl; [exact Hds|]. by intros d []. }
  destruct ds as [|d [|d' ds]]; [by apply any_resolve_Ok| |by apply any_resolve_Ok].
  intros H. apply Forall_cons in Hds as [[Hd _] _]. apply appending_Ok in H as (ts & H & ->); [|done].
  exists d, w, ts. split_and!; [left|done..].
Qed.

Lemma keeps_in_world {A} P (m : effect auth_error W A) :
  (∀ w, P w → P (m w).2) → keeps P (in_world m).
Proof. intros Hm st w Hw. specialize (Hm w Hw). unfold in_world. by destruct (m w). Qed.

Lemma keeps_bind {A B} P (m : auth W A) (f : A → auth W B) :
  keeps P m → (∀ a, keeps P (f a)) → keeps P (m ≫= f).
Proof.
  intros Hm Hf st w Hw. rewrite effect_bind_run. specialize (Hm st w Hw).
  destruct (m (st, w)) as [[a|e|s] [st1 w1]]; try done. by apply Hf.
Qed.

Lemma keeps_ret {A} P (a : A) : keeps P (mret a : auth W A).
Proof. by intros st w. Qed.

(** The same for calls without authentication state. *)
Definition world_keeps {A} (P : W → Prop) (m : effect auth_error W A) : Prop :=
  ∀ w, P w → P (m w).2.

Lemma world_keeps_bind {A B} P (m : effect auth_error W A) (f : A → effect auth_error W B) :
  world_keeps P m → (∀ a, world_keeps P (f a)) → world_keeps P (m ≫= f).
Proof.
  intros Hm Hf w Hw. rewrite effect_bind_run. specialize (Hm w Hw).
  destruct (m w) as [[a|e|s] w1]; try done. by apply Hf.
Qed.

Lemma world_keeps_lift {A} P (r : outcome auth_error A) : world_keeps P (lift r).
Proof. by intros w. Qed.

Lemma world_keeps_attempt {A} P (m : effect auth_error W A) :
  world_keeps P m → world_keeps P (attempt m).
Proof. intros Hm w Hw. specialize (Hm w Hw). unfold attempt. by destruct (m w) as [[]]. Qed.

(** A list of injectors is added in order. *)
Lemma add_injectors {A} (f : A → Injector W) is_ st w :
  each_effect (λ i, AddInjector (f i)) is_ (st, w)
  = (Ok tt, (append st (MkAuthentication [] (f <$> is_)), w)).
Proof.
  revert st. induction is_ as [|i is_ IH]; intros st; [by rewrite append_new_r|].
  cbn [each_effect]. rewrite effect_bind_run. cbn [AddInjector]. rewrite IH.
  unfold append. cbn. by rewrite <- (assoc_L (++)), app_nil_r.
Qed.

(** ** Validation *)
Lemma validate_all_app vs1 vs2 c w w' :
  validate_all (vs1 ++ vs2) c w = (Ok true, w') →
  ∃ w1, validate_all vs1 c w = (Ok true, w1) ∧ validate_all vs2 c w1 = (Ok true, w').
Proof.
  revert w. induction vs1 as [|v vs1 IH]; intros w H; [by exists w|].
  cbn [app validate_all] in H |- *. rewrite effect_bind_run in H |- *.
  destruct (v c w) as [[[]| |] w1]; try done. by apply IH.
Qed.
End parts.

(** The steps of a successful authentication. *)
Lemma Authenticate_true {W} (a : Authenticator W) w w' :
  Authenticate a w = (Ok true, w') →
  ∃ raw st1 w1 claims st2 w2 action w3,
    intermediary a (MkAuthentication (own_validators a) (own_injectors a), w) = (Ok raw, (st1, w1))
    ∧ resolver a raw (st1, w1) = (Ok claims, (st2, w2))
    ∧ claims_action claims = Ok (Some action)
    ∧ validate_all (validators st2) claims w2 = (Ok true, w3)
    ∧ inject_all (injectors st2) claims w3 = (Ok tt, w').
Proof.
  unfold Authenticate.
  destruct (intermediary a _) as [[raw|e|] [st1 w1]] eqn:Ei;
    [|by destruct (is_not_found_error e)|done].
  destruct (resolver a raw (st1, w1)) as [[claims|e|] [st2 w2]] eqn:Er;
    [|by destruct (is_not_found_error e)|done].
  destruct (claims_action claims) as [[action|]| |] eqn:Ea; [|done..].
  rewrite effect_bind_run.
  destruct (validate_all _ claims w2) as [[[]| |] w3] eqn:Ev; [|done..].
  rewrite effect_bind_run. destruct (inject_all _ claims w3) as [[[]| |] w4] eqn:Ej; [|done..].
  rewrite effect_ret_run. intros [= <-].
  by exists raw, st1, w1, claims, st2, w2, action, w3.
Qed.

(** ** The intermediary of pods *)
Section pods.
Context {W : Type} (client : KubernetesInterface W) (ip_text : net_ip → string).

Lemma lookup_or_Ok {A} reason (m : effect auth_error W A) w a w' :
  lookup_or reason m w = (Ok a, w') → m w = (Ok a, w').
Proof.
  unfold lookup_or. rewrite effect_bind_run. unfold attempt.
  destruct (m w) as [[x|e|s] w1]; [done| |done].
  by destruct (is_api_not_found e).
Qed.

(** What a successful lookup found: the one running pod of the address, its namespace,
    its token and the subject that goes with it. *)
Record pod_identity (ip : net_ip) (tok subject uid : string) : Prop := {
  pod_address : ip ≠ "" ∧ IsUnspecified ip = false;
  pod_found : ∃ pod w1 w2, list_pods client (ip_text ip) "Running" w1 = (Ok [pod], w2)
    ∧ (∃ w3 w4, namespace_uid client (Pod_Namespace pod) w3 = (Ok uid, w4))
    ∧ (∃ anns, (anns = Pod_Annotations pod
          ∨ ∃ w5 w6, condition_annotations client (Pod_Namespace pod)
              (annotation "tekton.dev/pipelineTask" (Pod_Labels pod)) w5 = (Ok anns, w6))
        ∧ tok = annotation KubernetesTokenAnnotation anns
        ∧ subject = annotation KubernetesSubjectAnnotation anns);
  pod_has_token : tok ≠ "";
}.

Lemma pod_token_Ok pod w subject tok w' :
  pod_token client pod w = (Ok (subject, tok), w') →
  tok ≠ "" ∧ ∃ anns, (anns = Pod_Annotations pod
          ∨ ∃ w5 w6, condition_annotations client (Pod_Namespace pod)
              (annotation "tekton.dev/pipelineTask" (Pod_Labels pod)) w5 = (Ok anns, w6))
        ∧ tok = annotation KubernetesTokenAnnotation anns
        ∧ subject = annotation KubernetesSubjectAnnotation anns.
Proof.
  unfold pod_token. destruct (String.eqb_spec (annotation KubernetesTokenAnnotation
    (Pod_Annotations pod)) "") as [E|E]; cbn [negb].
  - rewrite effect_bind_run.
    destruct (lookup_or _ _ w) as [[tr| |] w1] eqn:Hl; [|done..]. apply lookup_or_Ok in Hl.
    destruct (String.eqb_spec (annotation KubernetesTokenAnnotation tr) "") as [|Hne]; [done|].
    rewrite effect_ret_run. intros [= <- <- <-]. split; [done|]. exists tr. eauto 10.
  - rewrite effect_ret_run. intros [= <- <- <-]. split; [done|].
    exists (Pod_Annotations pod). eauto.
Qed.

Lemma kubernetes_lookup_Ok ip w tok subject md w' :
  kubernetes_lookup client ip_text ip w = (Ok (tok, subject, md), w') →
  pod_identity ip tok subject (NamespaceUID md).
Proof.
  unfold kubernetes_lookup. destruct (String.eqb_spec ip "") as [|Hip]; [done|]. cbn [orb].
  destruct (IsUnspecified ip) eqn:Hu; [done|]. rewrite effect_bind_run.
  destruct (list_pods client (ip_text ip) "Running" w) as [[pods| |] w1] eqn:Hp; [|done..].
  destruct pods as [|pod [|]]; [done| |done]. rewrite effect_bind_run.
  destruct (lookup_or _ (namespace_uid _ _) w1) as [[uid| |] w2] eqn:Hn; [|done..].
  apply lookup_or_Ok in Hn. rewrite effect_bind_run.
  destruct (pod_token client pod w2) as [[[sub t]| |] w3] eqn:Ht; [|done..].
  rewrite effect_ret_run. intros [= <- <- <- <-].
  apply pod_token_Ok in Ht as [Hne Hann]. split; [done| |done].
  exists pod, w, w1. split; [done|]. split; [by exists w1, w2|done].
Qed.

Lemma kubernetes_next_Ok ip st w tok md st' w' :
  kubernetes_next client ip_text ip (st, w) = (Ok (tok, md), (st', w')) →
  ∃ subject, pod_identity ip tok subject (NamespaceUID md)
    ∧ st' = append st (MkAuthentication [namespace_validator md; subject_validator subject] []).
Proof.
  unfold kubernetes_next. rewrite effect_bind_run. unfold in_world.
  destruct (kubernetes_lookup client ip_text ip w) as [[[[t sub] md']| |] w1] eqn:E; [|done..].
  rewrite !effect_bind_run. cbn. unfold mret, effect_ret. intros [= <- <- <- <-].
  exists sub. split; [by eapply kubernetes_lookup_Ok|]. unfold append. cbn.
  by rewrite <- app_assoc, app_nil_r.
Qed.

Lemma lookup_or_keeps {A} P reason (m : effect auth_error W A) :
  world_keeps P m → world_keeps P (lookup_or reason m).
Proof.
  intros Hm. apply world_keeps_bind; [by apply world_keeps_attempt|].
  intros [a|e|x]; try apply world_keeps_lift.
  destruct (is_api_not_found e); apply world_keeps_lift.
Qed.

Lemma kubernetes_next_keeps P ip :
  (∀ i p, world_keeps P (list_pods client i p)) → (∀ n, world_keeps P (namespace_uid client n)) →
  (∀ ns n, world_keeps P (condition_annotations client ns n)) →
  keeps P (kubernetes_next client ip_text ip).
Proof.
  intros Hp Hn Hc. unfold kubernetes_next. apply keeps_bind.
  2: { intros [[tok sub] md]. by intros [] w Hw. }
  apply keeps_in_world. unfold kubernetes_lookup.
  destruct (_ || _); [apply world_keeps_lift|]. apply world_keeps_bind; [apply Hp|].
  intros [|pod [|]]; try apply world_keeps_lift.
  apply world_keeps_bind; [by apply lookup_or_keeps|]. intros uid.
  apply world_keeps_bind; [|intros []; apply world_keeps_lift].
  unfold pod_token. destruct (negb _); [apply world_keeps_lift|].
  apply world_keeps_bind; [by apply lookup_or_keeps|]. intros tr. cbv zeta.
  destruct (String.eqb _ _); apply world_keeps_lift.
Qed.

(** Its two validators tie the claims to the pod. *)
Lemma pod_validators md subject c (w w' : W) :
  validate_all [namespace_validator md; subject_validator subject] c w = (Ok true, w') →
  w' = w ∧ KubernetesNamespaceUID c = NamespaceUID md ∧ KubernetesNamespaceUID c ≠ ""
  ∧ claims_subject c = Ok subject ∧ subject ≠ "".
Proof.
  cbn [validate_all]. rewrite effect_bind_run. unfold namespace_validator at 1.
  destruct (String.eqb_spec (KubernetesNamespaceUID c) ""); [done|].
  rewrite effect_ret_run. destruct (String.eqb_spec (NamespaceUID md) (KubernetesNamespaceUID c));
    [|done].
  rewrite effect_bind_run. unfold subject_validator. rewrite effect_bind_run. unfold lift.
  destruct (claims_subject c) as [s| |]; [|done..].
  destruct (String.eqb_spec s ""); [done|]. rewrite effect_ret_run.
  destruct (String.eqb_spec subject s) as [->|]; [|done]. rewrite effect_ret_run.
  by intros [= <-].
Qed.
End pods.

(** * Theory of the metadata service's authenticator *)
(** ** Resolvers *)
Section resolvers.
Context `{JWT} {W : Type} (VaultClient : Type).
Context (login : string → string → gmap string value → effect auth_error W (option VaultClient)).

Lemma KeyResolver_appending key e raw : appending (KeyResolver (W := W) key e raw).
Proof. intros st w. unfold KeyResolver. by rewrite append_new_r. Qed.

Lemma KeyResolver_keeps P key e raw : keeps P (KeyResolver (W := W) key e raw).
Proof. by intros st w. Qed.

Lemma KeyResolver_Ok key e raw st w claims st' w' :
  KeyResolver (W := W) key e raw (st, w) = (Ok claims, (st', w')) →
  st' = st ∧ w' = w ∧ ∃ tok, ParseSigned raw = Ok tok ∧ token_Claims tok key = Ok claims
    ∧ ∃ c, registered claims = Some c ∧ Validate c e = None.
Proof.
  unfold KeyResolver. intros [= Hc <- <-]. do 2 (split; [done|]).
  destruct (ParseSigned raw) as [tok| |]; [|done..]. exists tok. split; [done|].
  destruct (token_Claims tok key) as [cl| |]; [|done..].
  destruct (registered cl) as [c|] eqn:Er; [|done]. destruct (Validate c e) eqn:Ev; [done|].
  injection Hc as <-. split; [done|]. by exists c.
Qed.

Lemma VaultResolver_appending addr path role is_ raw :
  appending (VaultResolver VaultClient login addr path role is_ raw).
Proof.
  unfold VaultResolver. apply appending_bind; [apply appending_in_world|].
  intros [md|]; [|apply appending_in_world].
  apply appending_bind; [apply appending_in_world|]. intros tok.
  apply appending_bind; [apply appending_in_world|]. intros claims.
  apply appending_bind; [|intros; apply appending_ret].
  apply appending_each. intros i. apply appending_AddInjector.
Qed.

Lemma VaultResolver_keeps (P : W → Prop) addr path role is_ raw :
  (∀ a p d w, P w → P (login a p d w).2) →
  keeps P (VaultResolver VaultClient login addr path role is_ raw).
Proof.
  intros Hl. unfold VaultResolver. apply keeps_bind; [by apply keeps_in_world; intros; apply Hl|].
  intros [md|]; [|by apply keeps_in_world].
  apply keeps_bind; [by apply keeps_in_world|]. intros tok.
  apply keeps_bind; [by apply keeps_in_world|]. intros claims.
  intros st w Hw. rewrite effect_bind_run, add_injectors. done.
Qed.

Lemma VaultResolver_Ok addr path role is_ raw st w claims st' w' :
  VaultResolver VaultClient login addr path role is_ raw (st, w) = (Ok claims, (st', w')) →
  ∃ md data tok, login addr (path_join [path; "login"]) data w = (Ok (Some md), w')
    ∧ data !! "jwt" = Some (VString raw)
    ∧ ParseSigned raw = Ok tok ∧ token_UnsafeClaims tok = Ok claims
    ∧ st' = append st (MkAuthentication [] ((λ i claims, i claims md) <$> is_)).
Proof.
  unfold VaultResolver. cbv zeta. set (data := if String.eqb role "" then _ else _).
  rewrite effect_bind_run. unfold in_world at 1.
  destruct (login _ _ data w) as [[[md|]| |] w1] eqn:El; [|done..].
  rewrite effect_bind_run. unfold in_world at 1, lift at 1.
  destruct (ParseSigned raw) as [tok| |] eqn:Et; cbn [map_err]; [|done..].
  rewrite effect_bind_run. unfold in_world at 1, lift at 1.
  destruct (token_UnsafeClaims tok) as [cl| |] eqn:Ec; cbn [map_err]; [|done..].
  rewrite effect_bind_run, add_injectors, effect_ret_run.
  intros [= <- <- <-]. exists md, data, tok. split_and!; try done.
  unfold data. destruct (String.eqb role ""); [by rewrite lookup_singleton_eq|].
  by rewrite lookup_insert_ne, lookup_singleton_eq.
Qed.
End resolvers.

(** ** The service *)
Section service.
Context {W : Type} `{JSONText, JWT} (fuel : nat).
Context (http_do : string → string → string → io W Z) (ip_text : net_ip → string).
Context (VaultClient : Type) (logical : VaultClient → Logical W).
Context (login : string → string → gmap string value → effect auth_error W (option VaultClient)).
Implicit Types (ka : KubernetesAuthenticator (W := W)) (s : Service W).

(** Calls on the outside, and so all lookups, keep the builder and the tags. *)
Definition untouched s0 s : Prop := mgrs s = mgrs s0 ∧ tags s = tags s0.

Lemma on_outside_keeps {A} s0 (m : effect auth_error W A) s :
  untouched s0 s → untouched s0 (on_outside m s).2.
Proof. unfold on_outside. by destruct (m (outside s)). Qed.

Lemma on_outside_Ok {A} (m : effect auth_error W A) s a s' :
  on_outside m s = (Ok a, s') → m (outside s) = (Ok a, outside s').
Proof. unfold on_outside. destruct (m (outside s)) as [r w']. by intros [= -> <-]. Qed.

Lemma on_outside_runs {A} (m : effect auth_error W A) s r s' :
  on_outside m s = (r, s') → untouched s s'.
Proof. unfold on_outside. destruct (m (outside s)) as [r' w']. by intros [= _ <-]. Qed.

(** What the Vault injector does to the builder. *)
Definition vault_managers (claims : Claims) (md : VaultClient) (mb : MetadataBuilder W)
    : MetadataBuilder W :=
  if String.eqb (RelayVaultEnginePath claims) "" then mb
  else
    let base := NewKVV2Client (logical md) (RelayVaultEnginePath claims) in
    let mb := if String.eqb (RelayVaultConnectionPath claims) "" then mb
              else SetConnections (Metadata.NewConnectionManager
                     (In base [RelayVaultConnectionPath claims])) mb in
    if String.eqb (RelayVaultSecretPath claims) "" then mb
    else SetSecrets (Metadata.NewSecretManager (In base [RelayVaultSecretPath claims])) mb.

Lemma vault_injector_run claims md s :
  vault_injector VaultClient logical claims md s
  = (Ok tt, MkService (outside s) (vault_managers claims md (mgrs s)) (tags s)).
Proof.
  unfold vault_injector, vault_managers. destruct s as [o mb ts]. cbn.
  destruct (String.eqb (RelayVaultEnginePath claims) ""); [done|].
  rewrite effect_bind_run.
  by destruct (String.eqb (RelayVaultConnectionPath claims) ""),
    (String.eqb (RelayVaultSecretPath claims) "").
Qed.

(** Where accepted claims come from: a static key's signature, or a Vault login. *)
Definition verified_by_key ka (raw : string) (claims : Claims) : Prop :=
  ∃ key tok, key ∈ keys ka ∧ ParseSigned raw = Ok tok ∧ token_Claims tok key = Ok claims.

Definition verified_by_vault ka (raw : string) (claims : Claims) (md : VaultClient) : Prop :=
  vaultJWTAuthAddr ka ≠ "" ∧
  ∃ data w w' tok, login (vaultJWTAuthAddr ka) (path_join [vaultJWTAuthPath ka; "login"]) data w
                     = (Ok (Some md), w')
    ∧ data !! "jwt" = Some (VString raw)
    ∧ ParseSigned raw = Ok tok ∧ token_UnsafeClaims tok = Ok claims.

Notation vault_inject := (vault_injector VaultClient logical).

Lemma service_resolver_Ok ka raw st s claims st' s' :
  service_resolver VaultClient logical login ka raw (st, s) = (Ok claims, (st', s')) →
  untouched s s' ∧
  ((verified_by_key ka raw claims ∧ st' = st)
   ∨ ∃ md, verified_by_vault ka raw claims md
       ∧ st' = append st (MkAuthentication [] [λ c, vault_inject c md])).
Proof.
  intros Hr.
  assert (Hp : ∀ s0 a p d s, untouched s0 s → untouched s0 (on_outside (login a p d) s).2)
    by (intros; by apply on_outside_keeps).
  apply (AnyResolver_Ok (untouched s)) in Hr as (d & s1 & ts & Hd & Hs1 & Hr & ->); [| |done].
  - rewrite elem_of_app in Hd. destruct Hd as [Hd|Hd].
    + unfold vault_resolvers in Hd. destruct (String.eqb_spec (vaultJWTAuthAddr ka) "") as [|Ha];
        [by apply elem_of_nil in Hd|]. apply list_elem_of_singleton in Hd as ->.
      apply VaultResolver_Ok in Hr as (md & data & tok & Hl & Hjwt & Ht & Hc & ->).
      destruct (on_outside_runs _ _ _ _ Hl) as [Em Et]. destruct Hs1 as [Em1 Et1].
      split; [split; congruence|]. right. exists md. apply on_outside_Ok in Hl.
      split; [|done]. split; [done|]. by exists data, (outside s1), (outside s'), tok.
    + apply list_elem_of_fmap in Hd as (key & -> & Hk). unfold NewKeyResolver in Hr.
      apply KeyResolver_Ok in Hr as (-> & -> & tok & Ht & Hc & _). split; [done|]. left.
      rewrite append_new_r. split; [|done]. by exists key, tok.
  - apply Forall_app. split.
    + unfold vault_resolvers. destruct (String.eqb _ _); [constructor|]. apply Forall_singleton.
      split; [apply VaultResolver_appending|]. apply VaultResolver_keeps. intros. by apply Hp.
    + apply Forall_fmap, Forall_forall. intros key _.
      split; [apply KeyResolver_appending|apply KeyResolver_keeps].
Qed.

(** ** Pods *)
Lemma pod_identity_outside (k : KubernetesInterface W) ip tok subject uid :
  pod_identity (kubernetes_on_outside k) ip_text ip tok subject uid →
  pod_identity k ip_text ip tok subject uid.
Proof.
  intros [Ha (pod & w1 & w2 & Hp & (w3 & w4 & Hn) & anns & Hann & Ht & Hs) Hne].
  apply on_outside_Ok in Hp, Hn. split; [done| |done].
  exists pod, (outside w1), (outside w2). split; [done|]. split; [by eauto|].
  exists anns. split; [|done]. destruct Hann as [|(w5 & w6 & Hc)]; [by left|].
  right. apply on_outside_Ok in Hc. eauto.
Qed.

(** The raw token is the pod's token, or what Vault decrypts it to in the context of
    the pod's namespace. *)
Definition token_of ka (uid tok raw : string) : Prop :=
  match vaultClient ka with
  | None => raw = tok
  | Some write =>
      ∃ data enc w w', write (vaultTransitDecryptPath (vaultTransitPath ka) (vaultTransitKey ka))
          (transit_data "ciphertext" tok (VaultTransitNamespaceContext uid)) w
          = (Ok (Some data), w')
        ∧ data !! "plaintext" = Some (VString enc) ∧ Base64.decode enc = Ok raw
  end.

Lemma transit_Ok (write : VaultWrite W) path key context tok st s raw st' s' :
  VaultTransitIntermediary (λ p d, on_outside (write p d)) path key context tok (st, s)
    = (Ok raw, (st', s')) →
  st' = st ∧ untouched s s' ∧
  ∃ data enc w w', write (vaultTransitDecryptPath path key)
      (transit_data "ciphertext" tok context) w = (Ok (Some data), w')
    ∧ data !! "plaintext" = Some (VString enc) ∧ Base64.decode enc = Ok raw.
Proof.
  unfold VaultTransitIntermediary, in_world. rewrite effect_bind_run.
  destruct (on_outside _ s) as [[[data|]| |] s1] eqn:Ew; [|done..].
  pose proof (on_outside_runs _ _ _ _ Ew) as Hu. apply on_outside_Ok in Ew.
  destruct (data !! "plaintext") as [v|] eqn:Ep; [|done]. cbn [mbind option_bind].
  destruct (as_string v) as [enc|] eqn:Es; [|done]. unfold lift.
  destruct (Base64.decode enc) as [p| |] eqn:Ed; [|done..]. intros [= <- <- <-].
  split_and!; [done..|]. destruct v; try discriminate Es. injection Es as ->.
  by exists data, enc, (outside s), (outside s1).
Qed.

Lemma service_intermediary_untouched ka r st s raw st' s' :
  service_intermediary ip_text ka r (st, s) = (Ok raw, (st', s')) →
  untouched s s' ∧ injectors st' = injectors st
  ∧ (kubernetesClient ka = None → st' = st)
  ∧ ∀ k, kubernetesClient ka = Some k →
    ∃ tok subject md, pod_identity k ip_text (RemoteIP r) tok subject (NamespaceUID md)
      ∧ token_of ka (NamespaceUID md) tok raw
      ∧ st' = append st (MkAuthentication [namespace_validator md; subject_validator subject] []).
Proof.
  unfold service_intermediary, token_of. destruct (kubernetesClient ka) as [k|] eqn:Ek.
  2: { unfold HTTPAuthorizationHeaderIntermediary.
       destruct (basic_auth _) as [[u p]|]; [destruct (negb _)|destruct (parseBearerAuth _)];
         intros [= <- <- <-]; done. }
  assert (Hkeep : keeps (untouched s) (kubernetes_next (kubernetes_on_outside k) ip_text (RemoteIP r))).
  { apply kubernetes_next_keeps; intros; intros ? ?; by apply on_outside_keeps. }
  intros H'.
  assert (∃ tok subject md s1, untouched s s1
    ∧ pod_identity k ip_text (RemoteIP r) tok subject (NamespaceUID md)
    ∧ match vaultClient ka with
      | None => raw = tok ∧ s' = s1 ∧ st' = append st
          (MkAuthentication [namespace_validator md; subject_validator subject] [])
      | Some write => VaultTransitIntermediary (λ p d, on_outside (write p d))
          (vaultTransitPath ka) (vaultTransitKey ka)
          (VaultTransitNamespaceContext (NamespaceUID md)) tok
          (append st (MkAuthentication [namespace_validator md; subject_validator subject] []), s1)
          = (Ok raw, (st', s'))
      end) as (tok & subject & md & s1 & Hu & Hid & Hr).
  { destruct (vaultClient ka) as [write|]; revert H';
      [unfold KubernetesIntermediary_Chain|unfold KubernetesIntermediary_Next];
      rewrite effect_bind_run; specialize (Hkeep st s (conj eq_refl eq_refl));
      (destruct (kubernetes_next _ ip_text _ (st, s)) as [[[tok md]| |] [st1 s1]] eqn:En; [|done..]);
      apply kubernetes_next_Ok in En as (subject & Hid & ->); intros H';
      exists tok, subject, md, s1; (split; [done|]; split; [by apply pod_identity_outside|]);
      [done|revert H'; rewrite effect_ret_run; by intros [= <- <- <-]]. }
  destruct (vaultClient ka) as [write|].
  - apply transit_Ok in Hr as (-> & Hu' & Hd). destruct Hu as [E1 E2], Hu' as [E3 E4].
    split; [split; congruence|]. split; [by cbn; rewrite app_nil_r|]. split; [done|].
    intros k' [= <-]. by exists tok, subject, md.
  - destruct Hr as (-> & -> & ->). split; [done|]. split; [by cbn; rewrite app_nil_r|].
    split; [done|].
    intros k' [= <-]. by exists tok, subject, md.
Qed.

(** Validation does not touch the builder. *)
Lemma service_validate_untouched ka r st s raw st' s' claims s1 s2 b :
  service_intermediary ip_text ka r (st, s) = (Ok raw, (st', s')) → validators st = [] →
  validate_all (validators st') claims s1 = (Ok b, s2) → untouched s1 s2.
Proof.
  intros Hi Hst Hv. apply service_intermediary_untouched in Hi as (_ & _ & Hn & Hk).
  destruct (kubernetesClient ka) as [k|].
  - destruct (Hk k eq_refl) as (tok & subject & md & _ & _ & ->). cbn in Hv. rewrite Hst in Hv.
    cbn [app validate_all] in Hv. unfold namespace_validator in Hv.
    rewrite effect_bind_run in Hv.
    destruct (String.eqb (KubernetesNamespaceUID claims) ""); [by injection Hv as _ <-|].
    rewrite effect_ret_run in Hv. destruct (String.eqb _ _); [|by injection Hv as _ <-].
    rewrite effect_bind_run in Hv. unfold subject_validator in Hv. rewrite effect_bind_run in Hv.
    unfold lift in Hv. destruct (claims_subject claims) as [x| |]; [|done..].
    destruct (String.eqb x ""); [by injection Hv as _ <-|]. rewrite effect_ret_run in Hv.
    by destruct (String.eqb subject x); injection Hv as _ <-.
  - rewrite (Hn eq_refl), Hst in Hv. cbn in Hv. by injection Hv as _ <-.
Qed.

Lemma service_injector_run ka claims action s s' :
  claims_action claims = Ok (Some action) →
  service_injector fuel http_do ka claims s = (Ok tt, s') →
  ∃ client, mgrs s' = action_managers fuel http_do client claims action (mgrs s)
    ∧ tags s' = tags s ++ claim_tags claims action
    ∧ ∃ w w', factory ka (KubernetesServiceAccountToken claims) w = (Ok client, w').
Proof.
  intros Ha. unfold service_injector. rewrite effect_bind_run.
  destruct (on_outside _ s) as [[client| |] s1] eqn:E; [|done..].
  pose proof (on_outside_runs _ _ _ _ E) as [Em Et]. apply on_outside_Ok in E.
  rewrite effect_bind_run. unfold lift. rewrite Ha, effect_bind_run. cbn. intros [= <-]. cbn.
  exists client. rewrite Em, Et. eauto.
Qed.

Lemma service_inject_all ka claims action extra s s' :
  claims_action claims = Ok (Some action) →
  inject_all (service_injector fuel http_do ka :: extra) claims s = (Ok tt, s') →
  ∃ client sa, mgrs sa = action_managers fuel http_do client claims action (mgrs s)
    ∧ tags sa = tags s ++ claim_tags claims action
    ∧ inject_all extra claims sa = (Ok tt, s').
Proof.
  intros Ha. unfold inject_all. cbn [each_effect]. rewrite effect_bind_run.
  destruct (service_injector fuel http_do ka claims s) as [[[]| |] sa] eqn:E; [|done..].
  eapply service_injector_run in E as (client & E1 & E2 & _); [|done]. by exists client, sa.
Qed.
End service.
