(* ===== verification/ObjUtil.v ===== *)
(** * Metadata of Kubernetes objects (pkg/obj/util.go, finalizer.go, status.go)

    Annotations, labels, finalizers and owner references of an object, as the
    controllers change them. *)
From S2P Require Import Prelude GoStrings Values Errors Model.

(** [metav1.OwnerReference]; the two flags are pointers. *)
Record OwnerReference := MkOwnerReference {
  Ref_APIVersion : string; Ref_Kind : string; Ref_Name : string; Ref_UID : string;
  Ref_Controller : option bool; Ref_BlockOwnerDeletion : option bool;
}.

#[export] Instance OwnerReference_eq_dec : EqDecision OwnerReference.
Proof. solve_decision. Defined.

(** [metav1.ObjectMeta]; [None] is a nil map. *)
Record ObjectMeta := MkObjectMeta {
  Meta_Namespace : string; Meta_Name : string; Meta_UID : string;
  Annotations : option (gmap string string);
  Labels : option (gmap string string);
  Finalizers : list string;
  OwnerReferences : list OwnerReference;
  DeletionTimestamp : option Z;
}.

Definition with_Annotations (m : option (gmap string string)) (o : ObjectMeta) : ObjectMeta :=
  MkObjectMeta (Meta_Namespace o) (Meta_Name o) (Meta_UID o) m (Labels o) (Finalizers o)
    (OwnerReferences o) (DeletionTimestamp o).
Definition with_Labels (m : option (gmap string string)) (o : ObjectMeta) : ObjectMeta :=
  MkObjectMeta (Meta_Namespace o) (Meta_Name o) (Meta_UID o) (Annotations o) m (Finalizers o)
    (OwnerReferences o) (DeletionTimestamp o).
Definition with_Finalizers (l : list string) (o : ObjectMeta) : ObjectMeta :=
  MkObjectMeta (Meta_Namespace o) (Meta_Name o) (Meta_UID o) (Annotations o) (Labels o) l
    (OwnerReferences o) (DeletionTimestamp o).
Definition with_OwnerReferences (l : list OwnerReference) (o : ObjectMeta) : ObjectMeta :=
  MkObjectMeta (Meta_Namespace o) (Meta_Name o) (Meta_UID o) (Annotations o) (Labels o)
    (Finalizers o) l (DeletionTimestamp o).

(** ** Annotations and labels: whether the object changed, and the object. *)
Definition set_key (m : option (gmap string string)) (name value : string)
    : bool * option (gmap string string) :=
  match m with
  | None => (true, Some {[name := value]})
  | Some m =>
      if decide (m !! name = Some value) then (false, Some m)
      else (true, Some (<[name := value]> m))
  end.

Definition Annotate (target : ObjectMeta) (name value : string) : bool * ObjectMeta :=
  let '(changed, m) := set_key (Annotations target) name value in
  (changed, with_Annotations m target).

Definition Label (target : ObjectMeta) (name value : string) : bool * ObjectMeta :=
  let '(changed, m) := set_key (Labels target) name value in
  (changed, with_Labels m target).

(** The two loops over the source's maps. *)
Definition CopyLabelsAndAnnotations (target src : ObjectMeta) : ObjectMeta :=
  let target := map_fold (λ name value t, (Annotate t name value).2) target
                  (default ∅ (Annotations src)) in
  map_fold (λ name value t, (Label t name value).2) target (default ∅ (Labels src)).

(** ** Finalizers *)
Definition AddFinalizer (target : ObjectMeta) (name : string) : bool * ObjectMeta :=
  if existsb (String.eqb name) (Finalizers target) then (false, target)
  else (true, with_Finalizers (Finalizers target ++ [name]) target).

(** The index of the first finalizer of that name. *)
Fixpoint find_index (name : string) (l : list string) : option nat :=
  match l with
  | [] => None
  | f :: l' => if String.eqb f name then Some 0 else S <$> find_index name l'
  end.

(** The last finalizer takes the place of the one removed. *)
Definition RemoveFinalizer (target : ObjectMeta) (name : string) : bool * ObjectMeta :=
  match find_index name (Finalizers target) with
  | None => (false, target)
  | Some cut =>
      let l := Finalizers target in
      let n := length l in
      match l !! (n - 1) with
      | None => (false, target)
      | Some final => (true, with_Finalizers (take (n - 1) (<[cut := final]> l)) target)
      end
  end.

(** ** Owners *)
Definition ManagedByLabelValue : string := "relay.sh".

Record GroupVersionKind := MkGVK { GVK_APIVersion : string; GVK_Kind : string }.
Record Owner := MkOwner { Owner_GVK : GroupVersionKind; Owner_Object : ObjectMeta }.

(** [metav1.NewControllerRef] *)
Definition NewControllerRef (owner : ObjectMeta) (gvk : GroupVersionKind) : OwnerReference :=
  MkOwnerReference (GVK_APIVersion gvk) (GVK_Kind gvk) (Meta_Name owner) (Meta_UID owner)
    (Some true) (Some true).

Definition is_controller (c : OwnerReference) : bool := bool_decide (Ref_Controller c = Some true).

Definition step_down (c : OwnerReference) : OwnerReference :=
  MkOwnerReference (Ref_APIVersion c) (Ref_Kind c) (Ref_Name c) (Ref_UID c) (Some false)
    (Ref_BlockOwnerDeletion c).

(** The loop over the owner references: it stops at an equal one, other controllers
    before it step down.  The slice is the object's own, changed in place. *)
Fixpoint own_loop (ref : OwnerReference) (owners : list OwnerReference)
    : bool * list OwnerReference :=
  match owners with
  | [] => (false, [])
  | c :: rest =>
      if decide (c = ref) then (true, c :: rest)
      else
        let c := if is_controller c then step_down c else c in
        let '(found, rest') := own_loop ref rest in (found, c :: rest')
  end.

Inductive own_error : Type := OwnerInOtherNamespaceError (owner target : string * string).

Definition Own (target : ObjectMeta) (owner : Owner) : outcome own_error ObjectMeta :=
  if negb (String.eqb (Meta_Namespace target) (Meta_Namespace (Owner_Object owner))) then
    Err (OwnerInOtherNamespaceError
           (Meta_Namespace (Owner_Object owner), Meta_Name (Owner_Object owner))
           (Meta_Namespace target, Meta_Name target))
  else
    let labels := <["app.kubernetes.io/managed-by" := ManagedByLabelValue]>
                    (default ∅ (Labels target)) in
    let target := with_Labels (Some labels) target in
    let ref := NewControllerRef (Owner_Object owner) (Owner_GVK owner) in
    let '(found, owners) := own_loop ref (OwnerReferences target) in
    if found then Ok (with_OwnerReferences owners target)
    else Ok (with_OwnerReferences (owners ++ [ref]) target).

(** ** Finalize

    [Finalizable] is the interface of the objects with finalizers; [run] and [persist] act
    on a world, and a persisted object is the one the server answers with. *)
Definition Finalizing (o : ObjectMeta) : bool :=
  match DeletionTimestamp o with None => false | Some _ => true end.

Class Finalizable (O : Type) := {
  finalizing : O → bool;
  add_finalizer : O → string → bool * O;
  remove_finalizer : O → string → bool * O }.

#[export] Instance ObjectMeta_finalizable : Finalizable ObjectMeta :=
  {| finalizing := Finalizing; add_finalizer := AddFinalizer; remove_finalizer := RemoveFinalizer |}.

Section finalize.
Context {E W O : Type} `{Finalizable O} (persist : O → effect E W O).

Definition Finalize (name : string) (obj : O) (run : effect E W unit) : effect E W (bool * O) :=
  if finalizing obj then
    _ ← run;
    obj ← persist (remove_finalizer obj name).2; mret (true, obj)
  else
    let '(added, obj) := add_finalizer obj name in
    if (added : bool) then obj ← persist obj; mret (false, obj)
    else mret (false, obj).
End finalize.

(** ** Keys *)
Definition ModelStepFromName (run_name stepName : string) : Step :=
  MkStep (MkRun run_name) stepName.

(** The specification's name, or the object's own. *)
Definition ModelWebhookTrigger (spec_name key_name : string) : Trigger :=
  MkTrigger (if String.eqb spec_name "" then key_name else spec_name).

Definition SuffixObjectKey (key : string * string) (suffix : string) : string * string :=
  (key.1, key.2 +:+ "-" +:+ suffix).
Definition ModelStepObjectKey (key : string * string) (ms : Step) : string * string :=
  (key.1, HexEncoding (step_hash ms)).

(** ** Status conditions *)
Inductive ConditionStatus : Type :=
| ConditionTrue
| ConditionFalse
| ConditionUnknown
| ConditionOther (s : string).   (* the type is a string; a new condition has an empty one *)

#[export] Instance ConditionStatus_eq_dec : EqDecision ConditionStatus.
Proof. solve_decision. Defined.

Record StatusCondition := MkStatusCondition {
  Cond_Status : ConditionStatus; Cond_Reason : string; Cond_Message : string;
  Cond_LastTransitionTime : option Z }.

(** [now] is the clock; a zero time is [None]. *)
Definition UpdateStatusConditionIfTransitioned (now : Z) (target : option StatusCondition)
    (fn : unit → StatusCondition) : option StatusCondition :=
  match target with
  | None => None
  | Some t =>
      let nc := fn tt in
      if decide (Cond_Status nc = Cond_Status t) then
        if String.eqb (Cond_Reason nc) (Cond_Reason t)
           && String.eqb (Cond_Message nc) (Cond_Message t) then Some t
        else Some (MkStatusCondition (Cond_Status nc) (Cond_Reason nc) (Cond_Message nc)
                     (Some (default now (Cond_LastTransitionTime nc))))
      else Some (MkStatusCondition (Cond_Status nc) (Cond_Reason nc) (Cond_Message nc)
                   (Some (default now (Cond_LastTransitionTime nc))))
  end.

Fixpoint aggregate_from (all : ConditionStatus) (conds : list StatusCondition) : ConditionStatus :=
  match conds with
  | [] => all
  | c :: conds' =>
      match Cond_Status c with
      | ConditionTrue | ConditionOther _ => aggregate_from all conds'
      | ConditionFalse => ConditionFalse
      | ConditionUnknown => aggregate_from ConditionUnknown conds'
      end
  end.

Definition AggregateStatusConditions (conds : list StatusCondition) : ConditionStatus :=
  match conds with [] => ConditionUnknown | _ => aggregate_from ConditionTrue conds end.
