(* ===== verification/AuthIssue.v ===== *)
(** * Structured hashes (pkg/util/hashutil)

    A structured hash is the hash of the JSON text of named lists of strings. *)
From S2P Require Import Prelude GoStrings Values Errors Transfer Model Authenticate.
From S2P Require Import AuthKubernetes ObjUtil.

(** ** The hash *)
Definition StructuredHash : Type := gmap string (list string).
Definition NewStructuredHash : StructuredHash := ∅.
Definition StructuredHash_Set (sh : StructuredHash) (name : string) (values : list string)
    : StructuredHash := <[name := values]> sh.
(** The keys of a map are sorted when it is written. *)
Definition strings_json (sh : StructuredHash) : json := JObject ((λ l, JArray (JString <$> l)) <$> sh).

Section hash.
Context `{JSONText} (sha256 : string → string).
Definition StructuredHash_Sum (sh : StructuredHash) : string := sha256 (json_print (strings_json sh)).
End hash.

(** Values that are set one after the other. *)
Definition set_all (l : list (string * list string)) : StructuredHash :=
  foldl (λ sh e, StructuredHash_Set sh e.1 e.2) NewStructuredHash l.

Lemma strings_json_inj sh sh' : strings_json sh = strings_json sh' → sh = sh'.
Proof.
  intros [= E]. apply (map_fmap_inj (λ l, JArray (JString <$> l))); [|exact E].
  intros l l' [= E']. revert E'. apply list_fmap_eq_inj. by intros s s' [= ->].
Qed.

(** Claims of valid UTF-8; other bytes are replaced when they are written. *)
Definition hash_utf8 (sh : StructuredHash) : Prop :=
  map_Forall (λ k l, utf8_valid k = true ∧ Forall (λ s, utf8_valid s = true) l) sh.
Lemma strings_json_utf8 sh : hash_utf8 sh → json_utf8 (strings_json sh) = true.
Proof.
  intros Hs. apply json_utf8_map. intros k j (l & <- & Hl)%lookup_fmap_Some.
  destruct (Hs k l Hl) as [Hk Hf]. split; [done|]. cbn. rewrite forallb_forall.
  intros j Hj%list_elem_of_In. apply list_elem_of_fmap in Hj as (s & -> & Hin).
  rewrite Forall_forall in Hf. by apply Hf.
Qed.

Section injective.
Context `{JSONTextLaws} (sha256 : string → string).

Lemma StructuredHash_inj sh sh' :
  hash_utf8 sh → hash_utf8 sh' →
  StructuredHash_Sum sha256 sh = StructuredHash_Sum sha256 sh' →
  sh = sh' ∨ (∃ s s', s ≠ s' ∧ sha256 s = sha256 s').
Proof.
  intros Hu Hu' E. unfold StructuredHash_Sum in E.
  destruct (decide (json_print (strings_json sh) = json_print (strings_json sh'))) as [E'|Hne];
    [|right; by eexists _, _]. left.
  apply strings_json_utf8, json_parse_print in Hu. apply strings_json_utf8, json_parse_print in Hu'.
  rewrite E' in Hu. apply strings_json_inj. congruence.
Qed.
End injective.

(** * Issuing tokens (pkg/obj: AnnotateStepToken, AnnotateTriggerToken)

    The controllers issue a token for every action and put it, with its subject, on
    the pods that run the action. *)
Definition ControllerIssuer : string := "controller.k8s.relay.sh".
Definition MetadataAPIAudienceV1 : string := "k8s.relay.sh/metadata-api/v1".

(** The annotations of pkg/model that claims are read from. *)
Definition RelayDomainIDAnnotation : string := "relay.sh/domain-id".
Definition RelayTenantIDAnnotation : string := "relay.sh/tenant-id".
Definition RelayVaultEngineMountAnnotation : string := "relay.sh/vault-engine-mount".
Definition RelayVaultSecretPathAnnotation : string := "relay.sh/vault-secret-path".
Definition RelayVaultConnectionPathAnnotation : string := "relay.sh/vault-connection-path".
Definition RelayControllerTokenHashAnnotation : string := "controller.relay.sh/token-hash".

Definition action_subject (a : Action) : string :=
  path_join [Plural (action_type a); HexEncoding (action_hash a)].

(** What the dependencies of a run or trigger contribute to the claims. *)
Record ActionDeps := MkActionDeps {
  deps_namespace : string; deps_namespace_uid : string;
  deps_immutable : string; deps_mutable : string;      (* the names of the ConfigMaps *)
  deps_annotations : gmap string string;               (* of the run or trigger *)
  deps_event_sink : option (string * string);          (* the URL and token of a trigger's sink *)
}.

Definition deps_annotation (d : ActionDeps) (k : string) : string :=
  annotation k (deps_annotations d).

(** The claims of an action; [sat] is the service account token. *)
Definition issued_claims (d : ActionDeps) (sat : string) (a : Action) (expiry now : Z) : Claims := {|
  registered := Some (MkRegistered ControllerIssuer (action_subject a) [MetadataAPIAudienceV1]
                        (Some expiry) (Some now) (Some now) "");
  KubernetesNamespaceName := deps_namespace d;
  KubernetesNamespaceUID := deps_namespace_uid d;
  KubernetesServiceAccountToken := sat;
  RelayDomainID := deps_annotation d RelayDomainIDAnnotation;
  RelayTenantID := deps_annotation d RelayTenantIDAnnotation;
  RelayRunID := match a with AStep s => Run_ID (Step_Run s) | ATrigger _ => "" end;
  RelayName := match a with AStep s => Step_Name s | ATrigger t => Trigger_Name t end;
  RelayKubernetesImmutableConfigMapName := deps_immutable d;
  RelayKubernetesMutableConfigMapName := deps_mutable d;
  RelayVaultEnginePath := deps_annotation d RelayVaultEngineMountAnnotation;
  RelayVaultSecretPath := deps_annotation d RelayVaultSecretPathAnnotation;
  RelayVaultConnectionPath := deps_annotation d RelayVaultConnectionPathAnnotation;
  RelayEventAPIURL := match a with AStep _ => None | ATrigger _ => fst <$> deps_event_sink d end;
  RelayEventAPIToken := match a with
                        | AStep _ => ""
                        | ATrigger _ => default "" (snd <$> deps_event_sink d)
                        end;
|}.

Section issue.
Context {W : Type} (issuer : Issuer_ W).
(** The service account's token secret, and SHA-256. *)
Context (sat : effect auth_error W string) (sha256 : string → string).

Definition step_lifetime : Z := 3900.   (* one hour and five minutes *)

Definition put_token (target : ObjectMeta) (tok subject : string) : ObjectMeta :=
  let target := (Annotate target KubernetesTokenAnnotation tok).2 in
  (Annotate target KubernetesSubjectAnnotation subject).2.

(** A target that has a token keeps it. *)
Definition AnnotateStepToken (d : ActionDeps) (ms : Step) (now : Z) (target : ObjectMeta)
    : effect auth_error W ObjectMeta :=
  match default ∅ (Annotations target) !! KubernetesTokenAnnotation with
  | Some _ => mret target
  | None =>
      token ← sat;
      let claims := issued_claims d token (AStep ms) (now + step_lifetime) now in
      tok ← issuer claims;
      mret (put_token target tok (action_subject (AStep ms)))
  end.

(** The fields hashed to tell whether a trigger's token is still good. *)
Definition token_identity (c : Claims) (subject : string) : list (string * list string) :=
  [("subject", [subject]);
   ("parents", [RelayDomainID c; RelayTenantID c]);
   ("vault", [RelayVaultEnginePath c; RelayVaultSecretPath c; RelayVaultConnectionPath c])]
  ++ match RelayEventAPIURL c with
     | None => []
     | Some u => [("event", [u; RelayEventAPIToken c])]
     end.

Definition AnnotateTriggerToken `{JSONText} (d : ActionDeps) (mt : Trigger) (max_time now : Z)
    (target : ObjectMeta) : effect auth_error W ObjectMeta :=
  token ← sat;
  let claims := issued_claims d token (ATrigger mt) max_time now in
  let subject := action_subject (ATrigger mt) in
  let enc := hex_encode (StructuredHash_Sum sha256 (set_all (token_identity claims subject))) in
  if String.eqb enc (annotation RelayControllerTokenHashAnnotation (default ∅ (Annotations target)))
  then mret target
  else
    tok ← issuer claims;
    let target := (Annotate target RelayControllerTokenHashAnnotation enc).2 in
    mret (put_token target tok subject).
End issue.

(** ** Issued subjects are accepted *)
Lemma hex_encode_clean s : s ≠ "" → clean_element (hex_encode s) = true.
Proof.
  intros Hs. assert (He : ∀ c, is_hex c = false → string_elem c (hex_encode s) = false)
    by (intros c; apply hex_encode_elem).
  assert (Hn : hex_encode s ≠ "").
  { intros E. assert (Hl := f_equal String.length E). rewrite length_hex_encode in Hl.
      destruct s; [done|]. cbn in Hl. lia. }
  apply clean_element_spec. split_and!; [done|..|by apply He];
    intros E; specialize (He "."%char eq_refl); by rewrite E in He.
Qed.

Lemma action_hash_not_empty a : action_hash a ≠ "".
Proof. 
  intros E. assert (Hl := Sha1.length_sum (action_path a)).
  destruct a; cbn [action_hash action_path] in *; unfold step_hash, trigger_hash in E;
    by rewrite E in Hl.
 Qed.

Lemma action_subject_eq a :
  action_subject a = Plural (action_type a) +:+ "/" +:+ HexEncoding (action_hash a).
Proof.
  unfold action_subject. rewrite path_join_clean; [by cbn|done|].
  apply Forall_cons. split; [by destruct a|]. apply Forall_singleton.
  apply hex_encode_clean, action_hash_not_empty.
Qed.

(** Claims with the subject of an action and its names are read as that action. *)
Definition action_named (a : Action) : Prop :=
  match a with
  | AStep s => Run_ID (Step_Run s) ≠ "" ∧ Step_Name s ≠ ""
  | ATrigger t => Trigger_Name t ≠ ""
  end.
Lemma claims_action_subject c a :
  action_named a → claims_subject c = Ok (action_subject a) →
  RelayRunID c = match a with AStep s => Run_ID (Step_Run s) | ATrigger _ => "" end →
  RelayName c = match a with AStep s => Step_Name s | ATrigger t => Trigger_Name t end →
  claims_action c = Ok (Some a).
Proof.
  intros Ha Hs Hr Hn. unfold claims_action. rewrite Hs. cbn [mbind outcome_bind].
  rewrite action_subject_eq.
  change (Plural (action_type a) +:+ "/" +:+ HexEncoding (action_hash a))
    with (Plural (action_type a) +:+ String slash (HexEncoding (action_hash a))).
  rewrite cut_app by by destruct a.
  assert (claimed_action c (Plural (action_type a)) = Some a) as ->; [|by rewrite String.eqb_refl].
  unfold claimed_action. rewrite Hr, Hn. destruct a as [[[i] n]|[n]]; cbn in Ha |- *.
  - destruct Ha. by rewrite !(proj2 (String.eqb_neq _ _)).
  - by rewrite (proj2 (String.eqb_neq _ _)).
Qed.
