(* ===== verification/AuthProperties.v ===== *)
(** * Properties of authentication *)
From S2P Require Import Prelude GoStrings Values Errors Transfer Model ConfigMaps.
From S2P Require Import Metadata Authenticate AuthKubernetes AuthService.
From S2P Require Import AuthTheory ObjUtil AuthIssue Samples ManagerSamples.

(** ** Claims and actions *)

(** The claims the controllers issue for an action are read back as that action,
    and claims that are read as an action carry exactly the subject issued for it:
    the plural of its type and its hash. *)
Theorem claims_action_roundtrip d sat a expiry now c b :
  match a with
  | AStep s => Run_ID (Step_Run s) ≠ "" ∧ Step_Name s ≠ ""
  | ATrigger t => Trigger_Name t ≠ ""
  end →
  claims_action (issued_claims d sat a expiry now) = Ok (Some a)
  ∧ (claims_action c = Ok (Some b) → claims_subject c = Ok (action_subject b)).
Proof.
  intros Ha. split.
  - by apply claims_action_subject.
  - intros Hc. apply claims_action_Some in Hc as [Hs _]. by rewrite Hs, action_subject_eq.
Qed.

Definition sample_deps : ActionDeps := MkActionDeps "ns" "uid-1" "imm" "mut" ∅ None.
Definition sample_action : Action := AStep (MkStep (MkRun "r1") "build").
Definition sample_claims : Claims := issued_claims sample_deps "sat" sample_action 3900 0.

Lemma claims_action_roundtrip_witness :
  claims_action sample_claims = Ok (Some sample_action)
  ∧ (claims_action sample_claims = Ok (Some sample_action) →
     claims_subject sample_claims = Ok (action_subject sample_action)).
Proof.
  apply (claims_action_roundtrip sample_deps "sat" sample_action 3900 0 sample_claims sample_action).
  split; discriminate.
Defined.

(** ** Tokens through Vault *)

(** A token encrypted for a pod is recovered when the pod presents it: with a
    transit engine that decrypts what it encrypted under the same key and context,
    the intermediary returns the raw token the wrapper was given. *)
Theorem transit_roundtrip {W} (write : VaultWrite W) path key context raw st w ct w1 :
  (∀ p c w w1 data ciphertext,
     write (vaultTransitEncryptPath path key) (transit_data "plaintext" p c) w = (Ok (Some data), w1) →
     data !! "ciphertext" = Some (VString ciphertext) →
     ∃ w2, write (vaultTransitDecryptPath path key) (transit_data "ciphertext" ciphertext c) w1
           = (Ok (Some {["plaintext" := VString p]}), w2)) →
  VaultTransitWrapper write path key context raw w = (Ok ct, w1) →
  ∃ w2, VaultTransitIntermediary write path key context ct (st, w1) = (Ok raw, (st, w2)).
Proof.
  intros Hlaw. unfold VaultTransitWrapper, VaultTransitIntermediary, in_world.
  rewrite !effect_bind_run.
  destruct (write _ _ w) as [[[data|]| |] w'] eqn:Ew; [|done..].
  destruct (data !! "ciphertext") as [v|] eqn:Ed; [|done]. cbn [mbind option_bind].
  destruct (as_string v) as [c|] eqn:Ec; [|done]. rewrite effect_ret_run. intros [= <- <-].
  destruct v; try discriminate Ec. injection Ec as ->.
  destruct (Hlaw _ _ _ _ _ _ Ew Ed) as (w2 & Hd). exists w2. rewrite Hd.
  rewrite lookup_singleton_eq. cbn. unfold lift. by rewrite Base64.decode_encode.
Qed.

Lemma transit_data_field field v c :
  field ≠ "context" → transit_data field v c !! field = Some (VString v).
Proof.
  intros Hf. unfold transit_data. cbv zeta.
  destruct (String.eqb c ""); [by rewrite lookup_singleton_eq|].
  by rewrite lookup_insert_ne, lookup_singleton_eq by done.
Qed.

(** A transit engine that stores the plaintext. *)
Definition sample_transit : VaultWrite unit := λ p d w,
  (Ok (if String.eqb p "transit/encrypt/k"
       then Some {["ciphertext" := default VNil (d !! "plaintext")]}
       else Some {["plaintext" := default VNil (d !! "ciphertext")]}), w).

Lemma transit_roundtrip_witness :
  ∃ w2, VaultTransitIntermediary sample_transit "transit" "k" "ctx" "dG9rZW4="
          (NewAuthentication, tt) = (Ok "token", (NewAuthentication, w2)).
Proof.
  apply (transit_roundtrip sample_transit "transit" "k" "ctx" "token" NewAuthentication tt
           "dG9rZW4=" tt).
  - intros p c w w1 data ct H Hct. exists w1. unfold sample_transit in H |- *.
    rewrite transit_data_field in H |- * by discriminate.
    change (String.eqb (vaultTransitEncryptPath "transit" "k") "transit/encrypt/k") with true in H.
    change (String.eqb (vaultTransitDecryptPath "transit" "k") "transit/encrypt/k") with false.
    injection H as <-. cbn [default] in Hct |- *. rewrite lookup_singleton_eq in Hct.
    injection Hct as <-. reflexivity.
  - vm_compute. reflexivity.
Defined.

(** ** Resolvers *)

(** The special case of one delegate in [AnyResolver] is only an optimisation: for
    a delegate that just adds to the state, it accepts the same tokens with the same
    claims and state as the general loop, and fails in the same cases with the same
    kind of error. *)
Theorem any_resolver_fast_case {W} (d : Resolver W) raw st w :
  appending (d raw) →
  match AnyResolver [d] raw (st, w), any_resolve 1 [d] [] raw (st, w) with
  | (Ok c, s), (Ok c', s') => c = c' ∧ s = s'
  | (Err e, (_, w1)), (Err e', (_, w2)) =>
      w1 = w2 ∧ is_not_found_error e = is_not_found_error e'
      ∧ (is_not_found_error e = false → e = e')
  | (Panic x, (_, w1)), (Panic x', (_, w2)) => x = x' ∧ w1 = w2
  | _, _ => False
  end.
Proof.
  intros Hd. cbn [AnyResolver any_resolve]. rewrite (Hd st w).
  destruct (d raw (NewAuthentication, w)) as [[c|e|x] [ts w1]]; [done| |done].
  destruct (is_not_found_error e) eqn:E; cbn [any_resolve].
  - by split_and!.
  - by rewrite E.
Qed.

(** Tokens that are their own keys. *)
Definition sample_jwt : JWT := {|
  Token := string; Key := string;
  ParseSigned s := Ok s;
  token_Claims tok key := if String.eqb tok key then Ok sample_claims else Err (EText "signature");
  token_UnsafeClaims _ := Ok sample_claims;
  token_sign key _ := Ok key;
|}.

Lemma any_resolver_fast_case_witness :
  match AnyResolver [@NewKeyResolver sample_jwt unit "k" []] "k" (NewAuthentication, tt),
        any_resolve 1 [@NewKeyResolver sample_jwt unit "k" []] [] "k" (NewAuthentication, tt) with
  | (Ok c, s), (Ok c', s') => c = c' ∧ s = s'
  | (Err e, (_, w1)), (Err e', (_, w2)) =>
      w1 = w2 ∧ is_not_found_error e = is_not_found_error e'
      ∧ (is_not_found_error e = false → e = e')
  | (Panic x, (_, w1)), (Panic x', (_, w2)) => x = x' ∧ w1 = w2
  | _, _ => False
  end.
Proof.
  exact (any_resolver_fast_case (@NewKeyResolver sample_jwt unit "k" []) "k" NewAuthentication tt
           (@KeyResolver_appending sample_jwt unit "k" no_expectation "k")).
Defined.

(** ** The service *)
Section service.
Context {W : Type} `{JSONText, JWT} (fuel : nat).
Context (http_do : string → string → string → io W Z) (ip_text : net_ip → string).
Context (VaultClient : Type) (logical : VaultClient → Logical W).
Context (login : string → string → gmap string value → effect auth_error W (option VaultClient)).

Notation service_run := (KubernetesAuthenticator_Authenticate fuel http_do ip_text
                           VaultClient logical login).

(** The facts of a successful request, in the order they are established. *)
Lemma service_run_Some ka r w cred w' :
  service_run ka r w = (Ok (Some cred), w') →
  ∃ raw st1 s1 claims st2 s2 action s3 s',
    service_intermediary ip_text ka r
      (MkAuthentication [] [service_injector fuel http_do ka], MkService w NewMetadataBuilder [])
      = (Ok raw, (st1, s1))
    ∧ service_resolver VaultClient logical login ka raw (st1, s1) = (Ok claims, (st2, s2))
    ∧ claims_action claims = Ok (Some action)
    ∧ validate_all (validators st2) claims s2 = (Ok true, s3)
    ∧ inject_all (injectors st2) claims s3 = (Ok tt, s')
    ∧ cred = MkCredential (mgrs s') (tags s').
Proof.
  unfold KubernetesAuthenticator_Authenticate.
  destruct (Authenticate _ _) as [[[]| |] s'] eqn:E; [|done..]. intros [= <- <-].
  apply Authenticate_true in E
    as (raw & st1 & s1 & claims & st2 & s2 & action & s3 & Hi & Hr & Ha & Hv & Hj).
  exists raw, st1, s1, claims, st2, s2, action, s3, s'. done.
Qed.

(** C9: With pod authentication, a request is only authenticated as the action its pod
    was annotated with: the address is that of exactly one running pod, the token is
    the pod's (decrypted by Vault when configured), the claims in it are vouched for
    by a static key or by Vault, they name the pod's namespace by UID, and their
    subject, which is the pod's subject annotation, is the type and hash of the
    action the request acts for. *)
Theorem pod_request_authenticated ka k r w cred w' :
  kubernetesClient ka = Some k →
  service_run ka r w = (Ok (Some cred), w') →
  ∃ tok subject uid raw claims action,
    pod_identity k ip_text (RemoteIP r) tok subject uid
    ∧ token_of ka uid tok raw
    ∧ (verified_by_key ka raw claims
       ∨ ∃ md, verified_by_vault VaultClient login ka raw claims md)
    ∧ KubernetesNamespaceUID claims = uid ∧ uid ≠ ""
    ∧ claims_action claims = Ok (Some action)
    ∧ subject = action_subject action.
Proof.
  intros Hk Hrun. apply service_run_Some in Hrun
    as (raw & st1 & s1 & claims & st2 & s2 & action & s3 & s' & Hi & Hr & Ha & Hv & Hj & ->).
  apply service_intermediary_untouched in Hi as (Hu & _ & _ & Hpod).
  destruct (Hpod k Hk) as (tok & subject & md & Hid & Htok & Est).
  apply service_resolver_Ok in Hr as (Hu' & Hr).
  assert (validators st2 = validators st1) as Ev.
  { destruct Hr as [[_ ->]|(cl & _ & ->)]; [done|]. cbn. by rewrite app_nil_r. }
  rewrite Ev, Est in Hv. cbn [append validators] in Hv.
  apply pod_validators in Hv as (-> & Huid & Hne & Hsub & _).
  exists tok, subject, (NamespaceUID md), raw, claims, action. split_and!; try done.
  - destruct Hr as [[Hkey _]|(cl & Hcl & _)]; [by left|right; by exists cl].
  - by rewrite <- Huid.
  - apply claims_action_Some in Ha as [Ha _]. rewrite Hsub in Ha. injection Ha as ->.
    by rewrite action_subject_eq.
Qed.

(** C35: The managers of an authenticated request are exactly those its claims name.
    Conditions, environment and spec are read from the immutable ConfigMap and state
    from the mutable one, for the action of the claims; only a step gets parameters
    and outputs, a trigger's are rejected; secrets and connections are rejected
    unless Vault vouched for the token, and then lie under the paths of the claims. *)
Theorem credential_managers ka r w cred w' :
  service_run ka r w = (Ok (Some cred), w') →
  ∃ claims action client,
    claims_action claims = Ok (Some action) ∧
    let m := Credential_Managers cred in
    let imm := NewClientConfigMap client (KubernetesNamespaceName claims)
                 (RelayKubernetesImmutableConfigMapName claims) in
    let mut := NewClientConfigMap client (KubernetesNamespaceName claims)
                 (RelayKubernetesMutableConfigMapName claims) in
    Conditions m = ConfigMaps.NewConditionManager fuel action imm
    ∧ Environments m = ConfigMaps.NewEnvironmentManager fuel action imm
    ∧ SpecOf m = ConfigMaps.NewSpecManager fuel action imm
    ∧ StateOf m = ConfigMaps.NewStateManager fuel action mut
    ∧ Parameters m = match action with
                     | AStep _ => ConfigMaps.NewParameterManager fuel imm
                     | ATrigger _ => reject_ParameterManager
                     end
    ∧ StepOutputs m = match action with
                      | AStep s => ConfigMaps.NewStepOutputManager fuel s mut
                      | ATrigger _ => reject_StepOutputManager
                      end
    ∧ ((Secrets m = reject_SecretManager ∧ Connections m = reject_ConnectionManager)
       ∨ ∃ raw md, verified_by_vault VaultClient login ka raw claims md
           ∧ Secrets m = Secrets (vault_managers VaultClient logical claims md NewMetadataBuilder)
           ∧ Connections m
             = Connections (vault_managers VaultClient logical claims md NewMetadataBuilder))
    ∧ Credential_Tags cred = claim_tags claims action.
Proof.
  intros Hrun. apply service_run_Some in Hrun
    as (raw & st1 & s1 & claims & st2 & s2 & action & s3 & s' & Hi & Hr & Ha & Hv & Hj & ->).
  assert (Hi' := Hi). apply service_intermediary_untouched in Hi' as ([Em Et] & Einj & _).
  apply service_resolver_Ok in Hr as ([Em2 Et2] & Hr).
  assert (validators st2 = validators st1) as Ev.
  { destruct Hr as [[_ ->]|(cl & _ & ->)]; [done|]. cbn. by rewrite app_nil_r. }
  rewrite Ev in Hv. eapply service_validate_untouched in Hv as [Em3 Et3]; [|exact Hi|done].
  cbn in Em, Et, Einj. rewrite Em2, Em in Em3. rewrite Et2, Et in Et3.
  assert (∃ extra, injectors st2 = service_injector fuel http_do ka :: extra
    ∧ (extra = [] ∨ ∃ md, verified_by_vault VaultClient login ka raw claims md
         ∧ extra = [λ c, vault_injector VaultClient logical c md])) as (extra & Ex & Hx).
  { destruct Hr as [[_ ->]|(md & Hmd & ->)]; cbn; rewrite Einj; eexists; split; [done|by left|done|].
    right. by exists md. }
  rewrite Ex in Hj. eapply service_inject_all in Hj as (client & sa & Esa & Tsa & Hj); [|done].
  rewrite Em3 in Esa. rewrite Et3 in Tsa.
  assert ((mgrs s' = mgrs sa ∧ tags s' = tags sa)
    ∨ ∃ md, verified_by_vault VaultClient login ka raw claims md
        ∧ mgrs s' = vault_managers VaultClient logical claims md (mgrs sa) ∧ tags s' = tags sa)
    as Hs'.
  { destruct Hx as [->|(md & Hmd & ->)]; [left; by injection Hj as <-|]. right. exists md.
    unfold inject_all in Hj. cbn [each_effect] in Hj.
    rewrite effect_bind_run, vault_injector_run in Hj. by injection Hj as <-. }
  exists claims, action, client. split; [done|]. cbv zeta. cbn [Credential_Managers Credential_Tags].
  destruct Hs' as [[-> ->]|(md & Hmd & -> & ->)]; rewrite Esa, Tsa.
  - destruct action, (RelayEventAPIURL claims) eqn:Eu; unfold action_managers; rewrite Eu;
      split_and!; try done; by left.
  - unfold vault_managers. destruct action, (RelayEventAPIURL claims) eqn:Eu;
      unfold action_managers; rewrite Eu;
      destruct (String.eqb (RelayVaultEnginePath claims) ""),
        (String.eqb (RelayVaultConnectionPath claims) ""), (String.eqb (RelayVaultSecretPath claims) "");
      split_and!; try done; right; exists raw, md; done.
Qed.
End service.

(** *** A pod with its token and one static key *)
Definition sample_pod : Pod := MkPod "ns"
  (<[KubernetesSubjectAnnotation := action_subject sample_action]>
     {[KubernetesTokenAnnotation := "k"]}) ∅.

Definition sample_kubernetes : KubernetesInterface unit := {|
  list_pods ip phase w := (Ok (if String.eqb ip "1234" then [sample_pod] else []), w);
  namespace_uid n w := (Ok "uid-1", w);
  condition_annotations ns n w := (Err (AuthError (EAPI ReasonNotFound "")), w);
|}.

Definition no_client : Client unit := {|
  client_Get _ _ w := (Err (EAPI ReasonNotFound ""), w);
  client_Create cm w := (Ok cm, w);
  client_Update cm w := (Ok cm, w);
|}.

Definition no_vault : Logical unit := {|
  logical_Read _ w := (Ok None, w);
  logical_List _ w := (Ok None, w);
|}.

Definition sample_authenticator : @KubernetesAuthenticator unit sample_jwt :=
  NewKubernetesAuthenticator (λ _ w, (Ok no_client, w))
    [KubernetesAuthenticatorWithKubernetesIntermediary sample_kubernetes;
     @KubernetesAuthenticatorWithKeyResolver unit sample_jwt "k"].

Definition sample_run : outcome auth_error (option (Credential unit)) * unit :=
  @KubernetesAuthenticator_Authenticate unit tree_json sample_jwt 5 (λ _ _ _ w, (Ok 200%Z, w))
    (λ ip, ip) unit (λ _, no_vault)
    (λ _ _ _ w, (Ok None, w)) sample_authenticator (MkRequest "1234" "") tt.

(** The credential of a run that succeeds. *)
Definition credential_of (r : outcome auth_error (option (Credential unit)) * unit)
    : option (Credential unit) :=
  match r with (Ok (Some cred), _) => Some cred | _ => None end.

Lemma sample_run_succeeds : ∃ cred, sample_run = (Ok (Some cred), tt).
Proof.
  assert (H : match credential_of sample_run with Some _ => true | None => false end = true)
    by (vm_compute; reflexivity).
  destruct sample_run as [[[cred|]| |] []]; try discriminate H. by exists cred.
Qed.

Lemma pod_request_authenticated_witness :
  ∃ tok subject uid raw claims action,
    pod_identity sample_kubernetes (λ ip, ip) "1234" tok subject uid
    ∧ @token_of unit sample_jwt sample_authenticator uid tok raw
    ∧ (@verified_by_key unit sample_jwt sample_authenticator raw claims
       ∨ ∃ md : unit, @verified_by_vault unit sample_jwt unit (λ _ _ _ w, (Ok None, w))
                        sample_authenticator raw claims md)
    ∧ KubernetesNamespaceUID claims = uid ∧ uid ≠ ""
    ∧ claims_action claims = Ok (Some action)
    ∧ subject = action_subject action.
Proof.
  destruct sample_run_succeeds as [cred H]. unfold sample_run in H.
  exact (@pod_request_authenticated unit tree_json sample_jwt 5 _ _ _ _ _
           sample_authenticator sample_kubernetes (MkRequest "1234" "") tt cred tt eq_refl H).
Defined.

Lemma credential_managers_witness :
  ∃ cred claims action client,
    sample_run = (Ok (Some cred), tt)
    ∧ claims_action claims = Ok (Some action)
    ∧ SpecOf (Credential_Managers cred)
      = @ConfigMaps.NewSpecManager unit tree_json 5 action
          (NewClientConfigMap client (KubernetesNamespaceName claims)
             (RelayKubernetesImmutableConfigMapName claims)).
Proof.
  destruct sample_run_succeeds as [cred H].
  destruct (@credential_managers unit tree_json sample_jwt 5 _ _ _ _ _
              sample_authenticator (MkRequest "1234" "") tt cred tt H)
    as (claims & action & client & Ha & _ & _ & Hs & _).
  exists cred, claims, action, client. split; [exact H|]. split; [exact Ha|exact Hs].
Defined.
