(* ===== verification/MetadataApi.v ===== *)
(** * The handlers of the metadata service (pkg/metadataapi/server/api)

    A handler reads and writes through the managers of its request.  What it writes to
    the client is a list of responses: a handler that goes on after an error writes
    more than one.  An evaluation reads the managers in one state. *)
From S2P Require Import Prelude GoStd GoStrings Values Errors Transfer Unresolvable Fn.
From S2P Require Import Resolve Evaluate ResultMapper Model Metadata Samples.
From S2P Require Import ManagersMemory Query.

(** ** Responses *)
Inductive api_error : Type :=
| ModelNotFoundError
| ModelAuthorizationError
| ModelReadFailure (cause : error)
| ModelWriteFailure (cause : error)
| ExpressionEvaluationError (message : string)
| ConditionEvaluationBug (message : string)   (* an evaluation error, marked as a bug *)
| ExpressionUnresolvableError (causes : list string)
| ExpressionUnsupportedLanguageError (lang : string)
| ConditionTypeError (type : string)
| APIMalformedRequestError
| APIUnknownRequestMediaTypeError (content_type : string).

Inductive body : Type :=
| BConditions (success : bool) (message : string)
| BResult (env : JSONResultEnvelope)
| BEnvironment (evs : gmap string value) (complete : bool)
| BRawResult (r : Result)
| BOutput (task_name key : string) (v : value)
| BSecret (key : string) (v : value)
| BState (key : string) (v : value).

Inductive response : Type :=
| RespOK (b : body)
| RespError (e : api_error)
| RespCreated
| RespAccepted.

Definition ModelReadError (err : error) : api_error :=
  match err with
  | EModel ErrNotFound => ModelNotFoundError
  | EModel ErrRejected => ModelAuthorizationError
  | _ => ModelReadFailure err
  end.

Definition ModelWriteError (err : error) : api_error :=
  match err with
  | EModel ErrNotFound => ModelNotFoundError
  | EModel ErrRejected => ModelAuthorizationError
  | _ => ModelWriteFailure err
  end.

(** [fmt.Sprintf("%T", v)] *)
Definition type_name `{GoFmt} (v : value) : string :=
  match type_of v with None => "<nil>" | t => type_string t end.

Section handlers.
Context {W : Type} `{GoRuntime, GoFmt, JSONText, Markdown}.

Definition handler : Type := effect error W (list response).

(** Reads with a manager, or answers with its error. *)
Definition reading {A} (m : io W A) (f : A → handler) : handler :=
  r ← attempt m;
  match r with
  | Ok a => f a
  | Err e => mret [RespError (ModelReadError e)]
  | Panic s => lift (Panic s)
  end.

(** A result of pure code, whose panics are the handler's. *)
Definition evaluated_or (fail : string → api_error) (r : result Result) (f : Result → handler)
    : handler :=
  match r with
  | Ok rv => f rv
  | Err e => mret [RespError (fail (Error e))]
  | Panic s => lift (Panic s)
  end.
Definition evaluated : result Result → (Result → handler) → handler :=
  evaluated_or ExpressionEvaluationError.

(** The resolvers over the managers, at a state. *)
Section resolvers.
Context (m : MetadataManagers W) (w : W).
Definition parameter_option : Option :=
  WithParameterTypeResolver (λ n, at_state (ResolveParameter (Parameters m) n) w).
Definition secret_option : Option :=
  WithSecretTypeResolver (λ n, at_state (ResolveSecret (Secrets m) n) w).
Definition output_option : Option :=
  WithOutputTypeResolver (λ from n, at_state (ResolveOutput (StepOutputs m) from n) w).
Definition answer_option : Option :=
  WithAnswerTypeResolver (λ ask n, at_state (ResolveAnswer (StateOf m) ask n) w).
Definition connection_option : Option :=
  WithConnectionTypeResolver (λ ty n, at_state (ResolveConnection (Connections m) ty n) w).
End resolvers.

(** ** Conditions *)

(** The type switch on the value: the outcome of the check, or the type at fault. *)
Inductive verdict : Type :=
| Passed
| Failed
| WrongType (v : value).

Fixpoint check_list (complete : bool) (l : list value) : verdict :=
  match l with
  | [] => Passed
  | VBool true :: l' => check_list complete l'
  | VBool false :: _ => Failed
  | v :: l' => if complete then WrongType v else check_list complete l'
  end.

Definition check_value (complete : bool) (v : value) : verdict :=
  match v with
  | VBool b => if b then Passed else Failed
  | VSlice l => check_list complete l
  | v => WrongType v
  end.

Definition condition_response (rv : Result) : list response :=
  match check_value (Complete rv) (Value rv) with
  | WrongType v => [RespError (ConditionTypeError (type_name v))]
  | Failed => [RespOK (BConditions false "one or more conditions failed")]
  | Passed =>
      if Complete rv then [RespOK (BConditions true "all checks passed")]
      else
        [RespError (ExpressionUnresolvableError
           match AsError (Unresolvables rv) with
           | Some (EEvaluate (UnresolvableError causes)) => Error <$> causes
           | _ => []
           end)]
  end.

Definition condition_evaluator (m : MetadataManagers W) (w : W) : Evaluator :=
  NewEvaluator [parameter_option m w; secret_option m w; output_option m w; answer_option m w].

Definition GetConditions (m : MetadataManagers W) : handler :=
  reading (Condition_Get (Conditions m)) (λ cond w,
    evaluated_or ConditionEvaluationBug (EvaluateAll (condition_evaluator m w) (condition_tree cond))
      (λ rv, mret (condition_response rv)) w).

(** ** Environment *)
Definition environment_evaluator (m : MetadataManagers W) (w : W) : Evaluator :=
  NewEvaluator [parameter_option m w; output_option m w; secret_option m w].

(** The result is written as it is, not in an envelope. *)
Definition GetEnvironmentVariable (m : MetadataManagers W) (name : string) : handler :=
  reading (Environment_Get (Environments m)) (λ env w,
    match environment_value env !! name with
    | None => (Ok [RespError ModelNotFoundError], w)
    | Some v =>
        evaluated (Scoped_EvaluateAll (ScopeTo (environment_evaluator m w) v))
          (λ rv, mret [RespOK (BRawResult rv)]) w
    end).

(** The loop over the variables, in the order they are visited. *)
Fixpoint evaluate_environment (e : Evaluator) (vars : list (string * value)) (complete : bool)
    (evs : gmap string value) : result (bool * gmap string value) :=
  match vars with
  | [] => Ok (complete, evs)
  | (name, v) :: vars' =>
      rv ← Scoped_EvaluateAll (ScopeTo e v);
      evaluate_environment e vars' (complete && Complete rv) (<[name := Value rv]> evs)
  end.

Definition GetEnvironment (m : MetadataManagers W) : handler :=
  reading (Environment_Get (Environments m)) (λ env w,
    match evaluate_environment (environment_evaluator m w) (range_map (environment_value env))
            true ∅ with
    | Ok (complete, evs) => (Ok [RespOK (BEnvironment evs complete)], w)
    | Err e => (Ok [RespError (ExpressionEvaluationError (Error e))], w)
    | Panic s => (Panic s, w)
    end).

(** ** Specs

    An unknown language is reported and the handler goes on.  The parsers of
    queries are parameters. *)
Definition spec_language (lang : string) : Language * list response :=
  if String.eqb lang "jsonpath-template" then (LanguageJSONPathTemplate, [])
  else if String.eqb lang "jsonpath" then (LanguageJSONPath, [])
  else if String.eqb lang "" || String.eqb lang "path" then (LanguagePath, [])
  else (LanguagePath, [RespError (ExpressionUnsupportedLanguageError lang)]).

Definition spec_evaluator (m : MetadataManagers W) (w : W) (lang : Language) : Evaluator :=
  NewEvaluator [WithLanguage lang; connection_option m w; parameter_option m w;
                output_option m w; secret_option m w].

Context `{ValueText, QueryLanguages}.

Definition GetSpec (m : MetadataManagers W) (lang q : string) : handler :=
  reading (Spec_Get (SpecOf m)) (λ spec w,
    let '(l, written) := spec_language lang in
    let ev := ScopeTo (spec_evaluator m w l) (spec_tree spec) in
    let rv := if String.eqb q "" then Scoped_EvaluateAll ev else Scoped_EvaluateQuery ev q in
    (rest ← evaluated rv (λ rv, mret [RespOK (BResult (NewJSONResultEnvelope rv))]);
     mret (written ++ rest)) w).

(** ** Secrets, state, outputs, events *)
Definition GetSecret (m : MetadataManagers W) (name : string) : handler :=
  reading (Secret_Get (Secrets m) name)
    (λ sec, mret [RespOK (BSecret (secret_name sec) (EncodeJSON (secret_value sec)))]).

Definition GetState (m : MetadataManagers W) (name : string) : handler :=
  reading (State_Get (StateOf m) name)
    (λ st, mret [RespOK (BState (state_name st) (state_value st))]).

Definition GetOutput (m : MetadataManagers W) (stepName name : string) : handler :=
  reading (StepOutput_Get (StepOutputs m) stepName name) (λ o,
    mret [RespOK (BOutput (Step_Name (stepOutput_step o)) (stepOutput_name o)
                    (stepOutput_value o))]).

(** The first JSON value of a request body. *)
Context (decode_body : string → option json).

Definition put_value (content_type request_body : string) : value + api_error :=
  if String.eqb content_type "application/json" then
    match decode_body request_body with
    | None => inr APIMalformedRequestError
    | Some j => inl (json_unmarshal j)
    end
  else if String.eqb content_type "text/plain" || String.eqb content_type "application/octet-stream"
          || String.eqb content_type "" then inl (VString request_body)
  else inr (APIUnknownRequestMediaTypeError content_type).

(** Writes with a manager, or answers with its error. *)
Definition writing {A} (m : io W A) (done : response) : handler :=
  r ← attempt m;
  match r with
  | Ok _ => mret [done]
  | Err e => mret [RespError (ModelWriteError e)]
  | Panic s => lift (Panic s)
  end.

Definition PutOutput (m : MetadataManagers W) (name content_type request_body : string) : handler :=
  match put_value content_type request_body with
  | inr e => mret [RespError e]
  | inl v => writing (StepOutput_Set (StepOutputs m) name v) RespCreated
  end.

(** The envelope of an event: [data] is an object of encoded values.  (Field names are
    matched exactly; Go also accepts other capitalisations.) *)
Definition event_data (j : json) : option (gmap string value * string) :=
  match j with
  | JObject m =>
      let key := match m !! "key" with
                 | Some (JString k) => Some k
                 | None | Some JNull => Some ""
                 | _ => None
                 end in
      let data := match m !! "data" with
                  | Some (JObject d) =>
                      match sequence_map (ji_unmarshal <$> d) with Ok d' => Some d' | _ => None end
                  | None | Some JNull => Some ∅
                  | _ => None
                  end in
      d ← data; k ← key; Some (d, k)
  | JNull => Some (∅, "")
  | _ => None
  end.

Definition PostEvent (m : MetadataManagers W) (request_body : string) : handler :=
  match decode_body request_body ≫= event_data with
  | None => mret [RespError APIMalformedRequestError]
  | Some (data, key) => writing (Event_Emit (Events m) data key) RespAccepted
  end.
End handlers.

(** * Properties of the metadata service's handlers *)
Definition passes (v : value) : Prop :=
  v = VBool true ∨ ∃ l, v = VSlice l ∧ Forall (λ x, x = VBool true) l.

(** A false condition, before which all others are true or, in an incomplete result,
    not known to be false. *)
Definition fails (complete : bool) (v : value) : Prop :=
  v = VBool false ∨ ∃ l1 l2, v = VSlice (l1 ++ VBool false :: l2)
    ∧ Forall (λ x, if complete then x = VBool true else x ≠ VBool false) l1.

Lemma check_list_Passed l : check_list true l = Passed ↔ Forall (λ x, x = VBool true) l.
Proof.
  induction l as [|v l IH]; [by split|]. rewrite Forall_cons.
  destruct v as [|[]| | | | | | | | | | | |]; cbn; rewrite ?IH; naive_solver.
Qed.

Lemma check_list_Failed c l :
  check_list c l = Failed ↔ ∃ l1 l2, l = l1 ++ VBool false :: l2
    ∧ Forall (λ x, if c then x = VBool true else x ≠ VBool false) l1.
Proof.
  induction l as [|v l IH].
  - split; [done|]. by intros ([|] & ? & ? & _).
  - assert (Hskip : v ≠ VBool false → (if c then v = VBool true else v ≠ VBool false) →
      check_list c (v :: l) = Failed ↔ check_list c l = Failed).
    { intros H1 H2. by destruct v as [|[]| | | | | | | | | | | |], c. }
    assert (Hcases : v = VBool false ∨ (c = true ∧ v ≠ VBool true ∧ v ≠ VBool false)
        ∨ (v ≠ VBool false ∧ if c then v = VBool true else v ≠ VBool false)).
    { destruct v as [|[]| | | | | | | | | | | |], c; naive_solver. }
    destruct Hcases as [->|[(-> & Hv & Hv')|[Hv Hc]]].
    + split; [intros _; by exists [], l|done].
    + split.
      * intros H. by destruct v as [|[]| | | | | | | | | | | |].
      * intros ([|x l1] & l2 & [= -> ->] & Hl); [done|]. by apply Forall_cons in Hl as [-> _].
    + rewrite Hskip, IH by done. split.
      * intros (l1 & l2 & -> & Hl). exists (v :: l1), l2. split; [done|]. by constructor.
      * intros ([|x l1] & l2 & [= -> ->] & Hl); [naive_solver|].
        apply Forall_cons in Hl as [_ Hl]. by exists l1, l2.
Qed.

Section conditions.
Context {W : Type} `{GoRuntime, GoFmt, JSONText, Markdown}.

Lemma conditions_answered (m : MetadataManagers W) w w' b msg :
  GetConditions m w = (Ok [RespOK (BConditions b msg)], w') ↔
  ∃ cond rv, Condition_Get (Conditions m) w = (Ok cond, w')
    ∧ EvaluateAll (condition_evaluator m w') (condition_tree cond) = Ok rv
    ∧ condition_response rv = [RespOK (BConditions b msg)].
Proof.
  unfold GetConditions, reading, attempt. rewrite effect_bind_run.
  destruct (Condition_Get (Conditions m) w) as [[cond|e|x] w1]; cbn -[EvaluateAll condition_evaluator];
    [|unfold mret, effect_ret, lift; split; [intros Hx; discriminate Hx|intros (? & ? & [=] & _)]..].
  unfold evaluated_or, mret, effect_ret, lift.
  destruct (EvaluateAll (condition_evaluator m w1) (condition_tree cond)) as [rv|e|x] eqn:Ev.
  - split; [intros [= Hc ->]; by exists cond, rv|].
    intros (c' & rv' & [= <- <-] & He & Hc). rewrite Ev in He. injection He as <-.
    by rewrite Hc.
  - split; [intros Hx; discriminate Hx|intros (? & ? & [= <- <-] & ? & _); congruence].
  - split; [intros Hx; discriminate Hx|intros (? & ? & [= <- <-] & ? & _); congruence].
Qed.

Lemma response_passed rv :
  condition_response rv = [RespOK (BConditions true "all checks passed")] ↔
  Complete rv = true ∧ passes (Value rv).
Proof.
  unfold condition_response. split.
  - destruct (check_value _ _) eqn:Ev; [|done..].
    destruct (Complete rv); [|done]. intros _. split; [done|]. unfold passes.
    destruct (Value rv) as [|[]| | | | | | | |l| | | |]; try done; [by left|].
    right. exists l. split; [done|]. by apply check_list_Passed.
  - intros [-> [->|(l & -> & Hl)]]; [done|]. cbn. by rewrite (proj2 (check_list_Passed l) Hl).
Qed.

Lemma response_failed rv :
  condition_response rv = [RespOK (BConditions false "one or more conditions failed")] ↔
  fails (Complete rv) (Value rv).
Proof.
  unfold condition_response. split.
  - destruct (check_value _ _) eqn:Ev; [by destruct (Complete rv)| |done]. intros _. unfold fails.
    destruct (Value rv) as [|[]| | | | | | | |l| | | |]; try done; [by left|].
    right. apply check_list_Failed in Ev as (l1 & l2 & -> & Hl). by exists l1, l2.
  - intros [->|(l1 & l2 & -> & Hl)]; [done|]. cbn.
    rewrite (proj2 (check_list_Failed _ _)); [done|]. by exists l1, l2.
Qed.

(** The conditions of a step are answered "passed" exactly when the condition read
    from its manager evaluates completely to true or to a list of trues, and "failed"
    exactly when it evaluates to false or to a list in which a false comes before
    anything that cannot be decided: while references are unresolved, undecided
    members are passed over, so a condition known to be false is not masked by the
    others. *)
Theorem conditions_decide (m : MetadataManagers W) w w' :
  let evaluates cond rv := EvaluateAll (condition_evaluator m w') (condition_tree cond) = Ok rv in
  (GetConditions m w = (Ok [RespOK (BConditions true "all checks passed")], w') ↔
   ∃ cond rv, Condition_Get (Conditions m) w = (Ok cond, w') ∧ evaluates cond rv
     ∧ Complete rv = true ∧ passes (Value rv))
  ∧ (GetConditions m w = (Ok [RespOK (BConditions false "one or more conditions failed")], w') ↔
     ∃ cond rv, Condition_Get (Conditions m) w = (Ok cond, w') ∧ evaluates cond rv
       ∧ fails (Complete rv) (Value rv)).
Proof.
  cbv zeta. rewrite !conditions_answered. setoid_rewrite response_passed.
  setoid_rewrite response_failed. done.
Qed.
End conditions.
