(* ===== verification/MetadataServer.v ===== *)
(** * The HTTP side of the metadata service
    (pkg/metadataapi/server: server.go, health.go, api/server.go, middleware)

    From a request to the handler that answers it: the address behind trusted proxies, the
    routes (the matching of the vendored gorilla/mux), the authentication, the variables of
    a path.  A route of the service has its variables as whole segments of its path.  What
    a response writer was given is an [Exchange]; the rendering of values and errors, the
    logs and the trackers are not modelled.  net/url and net are those of Go 1.13, which
    builds the service; parsing and printing an address are parameters. *)
From stdpp Require Import pretty.
From S2P Require Import Prelude GoStd GoStrings Values Errors Transfer Unresolvable Fn.
From S2P Require Import Resolve Evaluate Model Metadata Authenticate AuthKubernetes.
From S2P Require Import AuthService Samples Query MetadataApi.

(** ** net/url *)
Inductive encoding : Type := encodePath | encodeQueryComponent.
#[export] Instance encoding_eq_dec : EqDecision encoding.
Proof. solve_decision. Defined.

Definition between (lo hi : ascii) (c : ascii) : bool :=
  ((N_of_ascii lo <=? N_of_ascii c) && (N_of_ascii c <=? N_of_ascii hi))%N.

Definition unhex (c : ascii) : option N :=
  if between "0" "9" c then Some (N_of_ascii c - N_of_ascii "0")%N
  else if between "a" "f" c then Some (N_of_ascii c - N_of_ascii "a" + 10)%N
  else if between "A" "F" c then Some (N_of_ascii c - N_of_ascii "A" + 10)%N
  else None.

Definition upper_hex (n : N) : ascii :=
  ascii_of_N (if n <? 10 then N_of_ascii "0" + n else N_of_ascii "A" + (n - 10))%N.

(** The errors are those of malformed escapes, which no caller looks into. *)
Fixpoint unescape (mode : encoding) (s : string) : option string :=
  match s with
  | EmptyString => Some ""
  | String c s' =>
      if Ascii.eqb c "%" then
        match s' with
        | String a (String b s'') =>
            hi ← unhex a; lo ← unhex b; r ← unescape mode s'';
            Some (String (ascii_of_N (16 * hi + lo)) r)
        | _ => None
        end
      else
        r ← unescape mode s';
        Some (String (if bool_decide (mode = encodeQueryComponent) && Ascii.eqb c "+"
                      then " "%char else c) r)
  end.

Definition unreserved (c : ascii) : bool :=
  between "a" "z" c || between "A" "Z" c || between "0" "9" c || string_elem c "-_.~".

Definition shouldEscape (c : ascii) (mode : encoding) : bool :=
  if unreserved c then false
  else if string_elem c "$&+,/:;=?@" then
    match mode with encodePath => Ascii.eqb c "?" | encodeQueryComponent => true end
  else true.

Definition escape_char (mode : encoding) (c : ascii) : string :=
  if shouldEscape c mode then
    if bool_decide (mode = encodeQueryComponent) && Ascii.eqb c " " then "+"
    else String "%" (String (upper_hex (N_of_ascii c / 16)) (String (upper_hex (N_of_ascii c mod 16)) ""))
  else String c "".

Fixpoint escape (mode : encoding) (s : string) : string :=
  match s with
  | EmptyString => ""
  | String c s' => escape_char mode c +:+ escape mode s'
  end.

Definition QueryEscape : string → string := escape encodeQueryComponent.
Definition QueryUnescape : string → option string := unescape encodeQueryComponent.

Definition valid_encoded_char (c : ascii) : bool :=
  string_elem c "!$&'()*+,;=:@[]%" || negb (shouldEscape c encodePath).
Definition validEncodedPath (s : string) : bool :=
  forallb valid_encoded_char (String.list_ascii_of_string s).

(** What a request has of a URL. *)
Record URL := MkURL { Path : string; RawPath : string; ForceQuery : bool; RawQuery : string }.

Definition setPath (p : string) (force : bool) (q : string) : option URL :=
  path ← unescape encodePath p;
  Some (MkURL path (if String.eqb (escape encodePath path) p then "" else p) force q).

Definition EscapedPath (u : URL) : string :=
  if negb (String.eqb (RawPath u) "") && validEncodedPath (RawPath u)
     && bool_decide (unescape encodePath (RawPath u) = Some (Path u))
  then RawPath u
  else if String.eqb (Path u) "*" then "*" else escape encodePath (Path u).

Definition control (c : ascii) : bool := (N_of_ascii c <? 32)%N || (N_of_ascii c =? 127)%N.

(** [url.ParseRequestURI], of a request line with a path. *)
Definition ParseRequestURI (uri : string) : option URL :=
  if existsb control (String.list_ascii_of_string uri) then None
  else if negb (has_prefix "/" uri) then None
  else match cut "?" uri with
       | None => setPath uri false ""
       | Some (p, q) => setPath p (String.eqb q "") q
       end.

Definition URL_String (u : URL) : string :=
  EscapedPath u +:+ (if ForceQuery u || negb (String.eqb (RawQuery u) "") then "?" +:+ RawQuery u
                     else "").

(** [url.ParseQuery]: malformed pairs are left out. *)
Definition query_pair (s : string) : option (string * string) :=
  if String.eqb s "" then None
  else let '(k, v) := default (s, "") (cut "=" s) in
       k ← QueryUnescape k; v ← QueryUnescape v; Some (k, v).
Definition Query_Get (u : URL) (key : string) : string :=
  let pairs := omap query_pair (split_on "&" (RawQuery u) ≫= split_on ";") in
  default "" (snd <$> list_find (λ kv, kv.1 = key) pairs ≫= λ x, Some x.2).

(** ** net and strings: [TrimSpace], [SplitHostPort], addresses *)

(** The white space of Unicode, in UTF-8. *)
Definition byte_string (l : list N) : string := String.string_of_list_ascii (ascii_of_N <$> l).
Definition unicode_spaces : list string :=
  byte_string <$>
    ([[9]; [10]; [11]; [12]; [13]; [32]; [0xc2; 0x85]; [0xc2; 0xa0]; [0xe1; 0x9a; 0x80]]
     ++ ((λ n, [0xe2; 0x80; 0x80 + N.of_nat n]) <$> seq 0 11)
     ++ [[0xe2; 0x80; 0xa8]; [0xe2; 0x80; 0xa9]; [0xe2; 0x80; 0xaf]; [0xe2; 0x81; 0x9f];
         [0xe3; 0x80; 0x80]])%N.

Fixpoint trim_left (fuel : nat) (spaces : list string) (s : string) : string :=
  match fuel with
  | O => s
  | S n => match list_find (λ sp, has_prefix sp s = true) spaces with
           | None => s
           | Some (_, sp) => trim_left n spaces (drop_string (String.length sp) s)
           end
  end.
Definition string_rev (s : string) : string :=
  String.string_of_list_ascii (rev (String.list_ascii_of_string s)).
Definition TrimSpace (s : string) : string :=
  let s' := trim_left (String.length s) unicode_spaces s in
  string_rev (trim_left (String.length s') (string_rev <$> unicode_spaces) (string_rev s')).

(** The text before and after the last colon. *)
Fixpoint cut_last (c : ascii) (s : string) : option (string * string) :=
  match s with
  | EmptyString => None
  | String a s' =>
      match cut_last c s' with
      | Some (h, t) => Some (String a h, t)
      | None => if Ascii.eqb a c then Some ("", s') else None
      end
  end.

(** The host of an address with a port; [None] is an error. *)
Definition SplitHostPort (hostport : string) : option (string * string) :=
  hp ← cut_last ":" hostport;
  let '(before, port) := hp in
  if string_elem "[" port || string_elem "]" port then None
  else if has_prefix "[" hostport then
    he ← cut "]" (drop_string 1 hostport);
    let '(host, rest) := he in
    if String.eqb rest (":" +:+ port) && negb (string_elem "[" host) then Some (host, port) else None
  else if string_elem ":" before || string_elem "[" before || string_elem "]" before then None
  else Some (before, port).

(** An address that is not one is nil, which is empty. *)
Class NetIP := { ParseIP : string → net_ip; IP_String : net_ip → string }.

(** Printing an address is parsed again, and has no port. *)
Class NetIPLaws `{NetIP} : Prop := {
  parse_printed s : ParseIP s ≠ "" → ParseIP (IP_String (ParseIP s)) = ParseIP s;
  printed_no_port s : ParseIP s ≠ "" → SplitHostPort (IP_String (ParseIP s)) = None;
}.

(** ** Requests and handlers *)
Inductive content : Type :=
| Moved | NotFound | MethodNotAllowed          (* answered by the router *)
| Unauthorized | InternalError                 (* answered by the authentication *)
| Pong
| Responses (l : list response).

(** What a writer was given: the header fields and what was written. *)
Record Exchange := MkExchange { Header_Set : gmap string string; Content : content }.

Section server.
Context {W : Type} `{GoRuntime, GoFmt, JSONText, Markdown, ValueText, QueryLanguages} `{NetIP}.
Context (decode_body : string → option json).

(** A request, with the values of its context: the variables of its route and the
    managers of its credential. *)
Record HTTPRequest := MkHTTPRequest {
  Method : string; URL_of : URL; Header : gmap string (list string); RemoteAddr : string;
  Body : string; Vars : gmap string string; ContextManagers : option (MetadataManagers W) }.

Definition with_RemoteAddr (a : string) (r : HTTPRequest) : HTTPRequest :=
  MkHTTPRequest (Method r) (URL_of r) (Header r) a (Body r) (Vars r) (ContextManagers r).
Definition setVars (vs : gmap string string) (r : HTTPRequest) : HTTPRequest :=
  MkHTTPRequest (Method r) (URL_of r) (Header r) (RemoteAddr r) (Body r) vs (ContextManagers r).
Definition with_managers (m : MetadataManagers W) (r : HTTPRequest) : HTTPRequest :=
  MkHTTPRequest (Method r) (URL_of r) (Header r) (RemoteAddr r) (Body r) (Vars r) (Some m).

Definition Header_Get (r : HTTPRequest) (key : string) : string :=
  default "" (Header r !! key ≫= head).

(** A handler writes after the header fields that are set already. *)
Definition Handler : Type := gmap string string → HTTPRequest → effect error W Exchange.
Definition Middleware : Type := Handler → Handler.

Definition answer (c : content) : Handler := λ hdr _, mret (MkExchange hdr c).

(** ** Middleware *)

(** The managers of a request; all reject if it was not authenticated. *)
Definition Managers (r : HTTPRequest) : MetadataManagers W :=
  match ContextManagers r with Some m => m | None => Build NewMetadataBuilder end.
Definition WithManagers (m : MetadataManagers W) : Middleware := λ next hdr r,
  next hdr (with_managers m r).

Definition Var (r : HTTPRequest) (name : string) : string * bool :=
  match Vars r !! name with
  | None => ("", false)
  | Some encoded =>
      match QueryUnescape encoded with None => ("", false) | Some v => (v, true) end
  end.

Definition WebSecurity : Middleware := λ next hdr r,
  next (<["Content-Security-Policy" := "default-src 'none'; base-uri 'none'"]>
        (<["X-XSS-Protection" := "0"]>
        (<["Referrer-Policy" := "no-referrer"]>
        (<["X-Permitted-Cross-Domain-Policies" := "none"]>
        (<["X-Content-Type-Options" := "nosniff"]>
        (<["X-Frame-Options" := "deny"]>
        (<["Strict-Transport-Security" := "max-age=31536000"]> hdr))))))) r.

(** The loop over the hops from the last one: [n] is the number still trusted. *)
Fixpoint trust_hops (n : Z) (last_first : list string) (r : HTTPRequest) : HTTPRequest :=
  match last_first with
  | [] => r
  | h :: hops =>
      if (n <=? 0)%Z then r
      else let hop := ParseIP (TrimSpace h) in
           if String.eqb hop "" then r
           else trust_hops (n - 1) hops (with_RemoteAddr (IP_String hop) r)
  end.

Definition forwarded_hops (r : HTTPRequest) : list string :=
  default [] (Header r !! "X-Forwarded-For") ≫= split_on ",".

Definition WithTrustedProxyHops (n : Z) : Middleware := λ next hdr r,
  next hdr (trust_hops n (rev (forwarded_hops r)) r).

(** An [Authenticator]: no credential, or one. *)
Definition HTTPAuthenticator : Type := HTTPRequest → effect auth_error W (option (Credential W)).

Definition HTTP_WithAuthentication (a : HTTPAuthenticator) : Middleware := λ next hdr r w,
  match a r w with
  | (Err _, w') => (Ok (MkExchange hdr InternalError), w')
  | (Panic x, w') => (Panic x, w')
  | (Ok None, w') => (Ok (MkExchange hdr Unauthorized), w')
  | (Ok (Some cred), w') => WithManagers (Credential_Managers cred) next hdr r w'
  end.

(** What the Kubernetes authenticator reads of a request. *)
Definition remote_host (addr : string) : string :=
  match SplitHostPort addr with Some (host, _) => host | None => addr end.
Definition authenticated_part (r : HTTPRequest) : AuthService.Request :=
  AuthService.MkRequest (ParseIP (remote_host (RemoteAddr r))) (Header_Get r "Authorization").

Definition kubernetes_authenticator `{JWT} (fuel : nat) (http_do : string → string → string → io W Z)
    (VaultClient : Type) (logical : VaultClient → Logical W)
    (login : string → string → gmap string value → effect auth_error W (option VaultClient))
    (ka : KubernetesAuthenticator (W:=W)) : HTTPAuthenticator := λ r,
  KubernetesAuthenticator_Authenticate fuel http_do IP_String VaultClient logical login ka
    (authenticated_part r).

(** ** gorilla/mux *)
Inductive segment : Type := Literal (s : string) | Wild (name : string).

Definition segment_of (s : string) : segment :=
  if has_prefix "{" s then Wild (String.substring 1 (String.length s - 2) s) else Literal s.
Definition newRouteRegexp (tpl : string) : list segment := segment_of <$> split_on slash tpl.

(** A variable matches ["[^/]+"]: the values of the variables, if the segments match. *)
Fixpoint match_segments (tpl : list segment) (path : list string) : option (gmap string string) :=
  match tpl, path with
  | [], [] => Some ∅
  | Literal s :: tpl', p :: path' => if String.eqb s p then match_segments tpl' path' else None
  | Wild x :: tpl', p :: path' =>
      if String.eqb p "" then None else insert x p <$> match_segments tpl' path'
  | _, _ => None
  end.

Definition request_path (useEncodedPath : bool) (r : HTTPRequest) : string :=
  if useEncodedPath then EscapedPath (URL_of r) else Path (URL_of r).
Definition path_vars (enc : bool) (tpl : list segment) (r : HTTPRequest) : option (gmap string string) :=
  match_segments tpl (split_on slash (request_path enc r)).

Inductive match_error : Type := ErrMethodMismatch | ErrNoRoute.
#[export] Instance match_error_eq_dec : EqDecision match_error.
Proof. solve_decision. Defined.

Record RouteMatch := MkRouteMatch {
  match_Handler : option Handler; match_Vars : option (gmap string string);
  MatchErr : option match_error }.

Record matcher := MkMatcher {
  methodMatcher : bool; Matches : HTTPRequest → RouteMatch → bool * RouteMatch }.

Record Route := MkRoute {
  route_handler : option Handler; matchers : list matcher;
  route_path : option (list segment); route_useEncodedPath : bool }.

Record Router := MkRouter {
  routes : list Route; middlewares : list Middleware; useEncodedPath : bool }.

Definition path_matcher (enc : bool) (tpl : list segment) : matcher :=
  MkMatcher false (λ r m, (bool_decide (is_Some (path_vars enc tpl r)), m)).
Definition method_matcher (methods : list string) : matcher :=
  MkMatcher true (λ r m, (bool_decide (Method r ∈ methods), m)).

(** [r.HandleFunc(path, h).Methods(methods...)] *)
Definition HandleFunc (enc : bool) (path : string) (h : Handler) (methods : list string) : Route :=
  let tpl := newRouteRegexp path in
  MkRoute (Some h) [path_matcher enc tpl; method_matcher methods] (Some tpl) enc.

(** The loop over the matchers: whether to go on, and with which error. *)
Fixpoint match_all (ms : list matcher) (r : HTTPRequest) (m : RouteMatch) (matchErr : option match_error)
    : bool * option match_error * RouteMatch :=
  match ms with
  | [] => (true, matchErr, m)
  | x :: ms' =>
      let '(matched, m') := Matches x r m in
      if matched then match_all ms' r m' matchErr
      else if methodMatcher x then match_all ms' r m' (Some ErrMethodMismatch)
      else (false, None,
            if bool_decide (MatchErr m' = Some ErrNoRoute)
            then MkRouteMatch (match_Handler m') (match_Vars m') None else m')
  end.

Definition setMatch (r : HTTPRequest) (rt : Route) (vars : gmap string string) : gmap string string :=
  match route_path rt with
  | None => vars
  | Some tpl => match path_vars (route_useEncodedPath rt) tpl r with
                | Some vs => vs ∪ vars
                | None => vars
                end
  end.

Definition Route_Match (rt : Route) (r : HTTPRequest) (m : RouteMatch) : bool * RouteMatch :=
  let '(go, matchErr, m) := match_all (matchers rt) r m None in
  if negb go then (false, m)
  else match matchErr with
       | Some e => (false, MkRouteMatch (match_Handler m) (match_Vars m) (Some e))
       | None =>
           let m := if bool_decide (MatchErr m = Some ErrMethodMismatch)
                    then MkRouteMatch (route_handler rt) (match_Vars m) None else m in
           let h := match match_Handler m with None => route_handler rt | h => h end in
           (true, MkRouteMatch h (Some (setMatch r rt (default ∅ (match_Vars m)))) (MatchErr m))
       end.

Fixpoint match_routes (rts : list Route) (r : HTTPRequest) (m : RouteMatch) : bool * RouteMatch :=
  match rts with
  | [] => (false, m)
  | rt :: rts' => let '(matched, m') := Route_Match rt r m in
                  if matched then (true, m') else match_routes rts' r m'
  end.

Definition Router_Match (rtr : Router) (r : HTTPRequest) (m : RouteMatch) : bool * RouteMatch :=
  let '(matched, m) := match_routes (routes rtr) r m in
  if matched then
    (true, match MatchErr m with
           | None => MkRouteMatch ((λ h, foldr (λ mw h, mw h) h (middlewares rtr)) <$> match_Handler m)
                       (match_Vars m) None
           | Some _ => m
           end)
  else if bool_decide (MatchErr m = Some ErrMethodMismatch) then (false, m)
  else (false, MkRouteMatch (match_Handler m) (match_Vars m) (Some ErrNoRoute)).

Fixpoint ends_with_slash (p : string) : bool :=
  match p with
  | EmptyString => false
  | String c EmptyString => Ascii.eqb c slash
  | String _ p' => ends_with_slash p'
  end.
Definition cleanPath (p : string) : string :=
  if String.eqb p "" then "/"
  else
    let p := if has_prefix "/" p then p else "/" +:+ p in
    let np := path_clean p in
    if ends_with_slash p && negb (String.eqb np "/") then np +:+ "/" else np.

Definition ServeHTTP (rtr : Router) : Handler := λ hdr r,
  let path := request_path (useEncodedPath rtr) r in
  let p := cleanPath path in
  if negb (String.eqb p path) then
    let u := URL_of r in
    let location := URL_String (MkURL p (RawPath u) (ForceQuery u) (RawQuery u)) in
    answer Moved (<["Location" := location]> hdr) r
  else
    let '(matched, m) := Router_Match rtr r (MkRouteMatch None None None) in
    let '(h, r) := if matched then (match_Handler m, setVars (default ∅ (match_Vars m)) r)
                   else (None, r) in
    match h with
    | Some h => h hdr r
    | None => answer (if bool_decide (MatchErr m = Some ErrMethodMismatch) then MethodNotAllowed
                      else NotFound) hdr r
    end.

(** ** The routes of the service *)
Definition api_handler (f : MetadataManagers W → HTTPRequest → handler (W:=W)) : Handler := λ hdr r,
  l ← f (Managers r) r; mret (MkExchange hdr (Responses l)).

Definition content_type (r : HTTPRequest) : string := Header_Get r "Content-Type".

(** What answers a request with the managers of its credential, its path, its methods. *)
Definition api_function : Type := MetadataManagers W → HTTPRequest → handler (W:=W).

Definition api_table : list (string * api_function * list string) :=
  let name r := (Var r "name").1 in
  [("/conditions", λ m _, GetConditions m, ["GET"]);
   ("/events", λ m r, PostEvent decode_body m (Body r), ["POST"]);
   ("/environment", λ m _, GetEnvironment m, ["GET"]);
   ("/environment/{name}", λ m r, GetEnvironmentVariable m (name r), ["GET"]);
   ("/outputs/{name}", λ m r, PutOutput decode_body m (name r) (content_type r) (Body r), ["PUT"]);
   ("/outputs/{stepName}/{name}", λ m r, GetOutput m (Var r "stepName").1 (name r), ["GET"]);
   ("/secrets/{name}", λ m r, GetSecret m (name r), ["GET"]);
   ("/spec", λ m r, GetSpec m (Query_Get (URL_of r) "lang") (Query_Get (URL_of r) "q"), ["GET"]);
   ("/state/{name}", λ m r, GetState m (name r), ["GET"])].

Definition api_routes : list Route :=
  (λ e, HandleFunc true e.1.1 (api_handler e.1.2) e.2) <$> api_table.

(** [api.Server.Route], on a fresh router *)
Definition api_Route (auth : HTTPAuthenticator) : Router :=
  MkRouter api_routes [HTTP_WithAuthentication auth] true.

(** [Server.Route]: the API is a subrouter, whose encoded path its parent does not have. *)
Definition subrouter (rtr : Router) : Route :=
  MkRoute None [MkMatcher false (Router_Match rtr)] None false.
Definition Server_Route (auth : HTTPAuthenticator) : Router :=
  MkRouter [HandleFunc false "/healthz" (answer Pong) ["GET"]; subrouter (api_Route auth)] [] false.

Definition api_NewHandler (auth : HTTPAuthenticator) : Handler := ServeHTTP (api_Route auth).
Definition NewHandler (auth : HTTPAuthenticator) (trustedProxyHops : Z) : Handler :=
  WithTrustedProxyHops trustedProxyHops (WebSecurity (ServeHTTP (Server_Route auth))).
End server.

(** * Escaping *)
Fixpoint map_string (f : ascii → ascii) (s : string) : string :=
  match s with EmptyString => "" | String c s' => String (f c) (map_string f s') end.

(** What is left of a character that is escaped in a mode and unescaped in another: the
    space and the plus sign are confused. *)
Definition recoded (m1 m2 : encoding) (c : ascii) : ascii :=
  match m1, m2 with
  | encodeQueryComponent, encodePath => if Ascii.eqb c " " then "+"%char else c
  | encodePath, encodeQueryComponent => if Ascii.eqb c "+" then " "%char else c
  | _, _ => c
  end.

Definition char_unescapes (m1 m2 : encoding) (c : ascii) : bool :=
  match escape_char m1 c with
  | String a EmptyString =>
      negb (Ascii.eqb a "%")
      && Ascii.eqb (if bool_decide (m2 = encodeQueryComponent) && Ascii.eqb a "+" then " "%char else a)
           (recoded m1 m2 c)
  | String a (String x (String y EmptyString)) =>
      Ascii.eqb a "%"
      && match unhex x, unhex y with
         | Some hi, Some lo => Ascii.eqb (ascii_of_N (16 * hi + lo)) (recoded m1 m2 c)
         | _, _ => false
         end
  | _ => false
  end.

Lemma chars_unescape m1 m2 c : char_unescapes m1 m2 c = true.
Proof. revert c. apply ascii_forall. destruct m1, m2; by vm_compute. Qed.

Lemma unescape_char m1 m2 c s :
  unescape m2 (escape_char m1 c +:+ s) = String (recoded m1 m2 c) <$> unescape m2 s.
Proof.
  assert (Hc := chars_unescape m1 m2 c). unfold char_unescapes in Hc.
  destruct (escape_char m1 c) as [|a [|x [|y [|]]]]; try done.
  - apply andb_true_iff in Hc as [Ha Hr]. apply negb_true_iff in Ha.
    apply Ascii.eqb_eq in Hr as <-. rewrite string_app_cons, string_app_nil. cbn [unescape].
    rewrite Ha. by destruct (unescape m2 s).
  - apply andb_true_iff in Hc as [Ha Hr]. rewrite !string_app_cons, string_app_nil.
    cbn [unescape]. rewrite Ha. destruct (unhex x) as [hi|]; [|done].
    destruct (unhex y) as [lo|]; [|done]. apply Ascii.eqb_eq in Hr as <-. cbn.
    by destruct (unescape m2 s).
Qed.

Lemma unescape_escape m1 m2 s t :
  unescape m2 (escape m1 s +:+ t) = (λ r, map_string (recoded m1 m2) s +:+ r) <$> unescape m2 t.
Proof.
  induction s as [|c s IH]; cbn [escape map_string].
  - change ("" +:+ t) with t. by destruct (unescape m2 t).
  - rewrite app_string_assoc, unescape_char, IH. by destruct (unescape m2 t).
Qed.

Lemma map_string_id s : map_string (λ c, c) s = s.
Proof. induction s as [|c s IH]; cbn; congruence. Qed.

(** A value that is escaped as in a query is unescaped to itself. *)
Lemma query_roundtrip s : QueryUnescape (QueryEscape s) = Some s.
Proof.
  unfold QueryUnescape, QueryEscape. rewrite <- (app_string_nil_r (escape _ s)).
  rewrite unescape_escape. cbn. rewrite app_string_nil_r. f_equal. exact (map_string_id s).
Qed.

Lemma path_roundtrip s : unescape encodePath (escape encodePath s) = Some s.
Proof.
  rewrite <- (app_string_nil_r (escape _ s)), unescape_escape. cbn.
  rewrite app_string_nil_r. f_equal. exact (map_string_id s).
Qed.

Lemma unescape_slash p : unescape encodePath (String slash p) = String slash <$> unescape encodePath p.
Proof. exact (unescape_char encodePath encodePath slash p). Qed.

(** The path of a request is the one of its line, if its characters are those of a path. *)
Lemma EscapedPath_setPath p f q u :
  setPath (String slash p) f q = Some u → validEncodedPath (String slash p) = true →
  EscapedPath u = String slash p.
Proof.
  unfold setPath, EscapedPath. intros Hs Hv. assert (E := unescape_slash p).
  destruct (unescape encodePath (String slash p)) as [path|] eqn:E0; [|done].
  assert (path ≠ "*") by (intros ->; by destruct (unescape encodePath p)).
  apply (inj Some) in Hs as <-. cbn [Path RawPath].
  destruct (String.eqb_spec (escape encodePath path) (String slash p)) as [Heq|Hne]; cbn [String.eqb negb andb].
  - by rewrite (proj2 (String.eqb_neq path "*")).
  - rewrite Hv, bool_decide_true; [done|exact E0].
Qed.

(** What is escaped as in a query can be part of a path. *)
Lemma query_char_fits c :
  forallb (λ a, valid_encoded_char a && negb (Ascii.eqb a slash))
    (String.list_ascii_of_string (escape_char encodeQueryComponent c)) = true.
Proof. revert c. apply ascii_forall. by vm_compute. Qed.

Lemma list_ascii_app s t :
  String.list_ascii_of_string (s +:+ t)
  = String.list_ascii_of_string s ++ String.list_ascii_of_string t.
Proof. induction s as [|c s IH]; [done|]. rewrite string_app_cons. cbn. by rewrite IH. Qed.

Lemma QueryEscape_fits s :
  forallb (λ a, valid_encoded_char a && negb (Ascii.eqb a slash))
    (String.list_ascii_of_string (QueryEscape s)) = true.
Proof.
  unfold QueryEscape. induction s as [|c s IH]; [done|]. cbn [escape].
  by rewrite list_ascii_app, forallb_app, query_char_fits, IH.
Qed.

Lemma QueryEscape_valid s : validEncodedPath (QueryEscape s) = true.
Proof.
  unfold validEncodedPath. apply forallb_forall. intros a Ha.
  assert (H := QueryEscape_fits s). rewrite forallb_forall in H.
  by apply H, andb_true_iff in Ha as [? _].
Qed.

Lemma string_elem_list c s : string_elem c s = existsb (Ascii.eqb c) (String.list_ascii_of_string s).
Proof. induction s as [|a s IH]; [done|]. cbn. rewrite IH. by rewrite (Ascii.eqb_sym a). Qed.

Lemma QueryEscape_no_slash s : string_elem slash (QueryEscape s) = false.
Proof.
  rewrite string_elem_list. apply not_true_iff_false. intros (a & Ha & <-%Ascii.eqb_eq)%existsb_exists.
  assert (H := QueryEscape_fits s). rewrite forallb_forall in H. apply H in Ha. by vm_compute in Ha.
Qed.

Lemma QueryEscape_empty s : String.eqb (QueryEscape s) "" = String.eqb s "".
Proof.
  destruct s as [|c s]; [done|]. unfold QueryEscape. cbn [escape]. unfold escape_char.
  destruct (shouldEscape c _); [|done]. by destruct (_ && _).
Qed.

(** * Paths *)

(** A name none of whose segments is empty, a dot or two dots. *)
Definition plain_name (s : string) : bool := forallb clean_element (split_on slash s).

(** The path that names these elements, escaped. *)
Definition escaped_path (l : list string) : string := "/" +:+ join "/" (QueryEscape <$> l).

Notation as_path := (recoded encodeQueryComponent encodePath).

Lemma as_path_char (c : ascii) : Ascii.eqb (as_path c) slash = Ascii.eqb c slash
  ∧ Ascii.eqb (as_path c) "." = Ascii.eqb c ".".
Proof.
  assert (Hall := ascii_forall (λ c, Bool.eqb (Ascii.eqb (as_path c) slash) (Ascii.eqb c slash)
                            && Bool.eqb (Ascii.eqb (as_path c) ".") (Ascii.eqb c "."))
                    ltac:(by vm_compute) c).
  by apply andb_true_iff in Hall as [->%eqb_prop ->%eqb_prop].
Qed.

Lemma split_map_string s :
  split_on slash (map_string as_path s) = map_string as_path <$> split_on slash s.
Proof.
  induction s as [|c s IH]; [done|]. cbn -[recoded slash]. rewrite (proj1 (as_path_char c)), IH.
  destruct (Ascii.eqb c slash); [done|]. by destruct (split_on slash s).
Qed.

Lemma string_elem_map s : string_elem slash (map_string as_path s) = string_elem slash s.
Proof. induction s as [|c s IH]; [done|]. cbn -[recoded slash]. by rewrite (proj1 (as_path_char c)), IH. Qed.

Lemma clean_element_map s : clean_element (map_string as_path s) = clean_element s.
Proof.
  unfold clean_element. rewrite string_elem_map. f_equal.
  destruct s as [|a [|b [|c s]]]; cbn -[recoded]; rewrite ?(proj2 (as_path_char _)); try done;
    by repeat destruct (Ascii.eqb _ _).
Qed.

Lemma plain_name_segments s :
  plain_name s = true → Forall (λ x, clean_element x = true) (split_on slash (map_string as_path s)).
Proof.
  unfold plain_name. rewrite split_map_string, forallb_forall. intros H. apply Forall_fmap, Forall_forall.
  intros x Hx. cbn. rewrite clean_element_map. by apply H, list_elem_of_In.
Qed.

Lemma plain_name_nonempty s : plain_name s = true → s ≠ "".
Proof. by intros H ->. Qed.

Lemma join_app sep l1 l2 :
  l1 ≠ [] → l2 ≠ [] → join sep (l1 ++ l2) = join sep l1 +:+ sep +:+ join sep l2.
Proof.
  induction l1 as [|x l1 IH]; [done|]. intros _ H2. destruct l1 as [|y l1].
  - cbn. by destruct l2.
  - cbn [app join] in *. by rewrite IH, app_string_assoc, app_string_assoc.
Qed.

Lemma join_split s : join "/" (split_on slash s) = s.
Proof.
  induction s as [|c s IH]; [done|]. cbn [split_on]. destruct (Ascii.eqb_spec c slash) as [->|Hc].
  - destruct (split_on slash s) as [|x l] eqn:E; [by apply split_on_not_nil in E|].
    cbn [join] in *. by rewrite IH.
  - destruct (split_on slash s) as [|x [|y l]] eqn:E; [by apply split_on_not_nil in E|..];
      cbn [join] in *; by rewrite <- IH.
Qed.

Lemma join_segments l : join "/" (l ≫= split_on slash) = join "/" l.
Proof.
  induction l as [|s l IH]; [done|]. cbn [mbind list_bind]. destruct l as [|s' l].
  - cbn. rewrite app_nil_r. apply join_split.
  - rewrite join_app, IH, join_split; [done|apply split_on_not_nil|].
    cbn. intros [H _]%app_eq_nil. by apply split_on_not_nil in H.
Qed.

Lemma ends_with_slash_split p :
  ends_with_slash p = true → ∃ x l, split_on slash p = (x :: l) ++ [""].
Proof.
  induction p as [|c p IH]; [done|]. destruct p as [|c' p].
  - cbn [ends_with_slash split_on]. intros ->. by exists "", [].
  - intros H. destruct (IH H) as (x & l & E). cbn [split_on] in *.
    rewrite E. destruct (Ascii.eqb c slash); [by exists "", (x :: l)|]. by exists (String c x), l.
Qed.

(** A path of plain elements is not redirected. *)
Lemma cleanPath_clean l :
  l ≠ [] → Forall (λ s, clean_element s = true) l →
  cleanPath (String slash (join "/" l)) = String slash (join "/" l).
Proof.
  intros Hne Hl. assert (Es : split_on slash (String slash (join "/" l)) = "" :: l).
  { cbn [split_on]. change (Ascii.eqb slash slash) with true. by rewrite split_join_clean. }
  assert (Hend : ends_with_slash (String slash (join "/" l)) = false).
  { apply not_true_iff_false. intros (x & l' & E)%ends_with_slash_split. rewrite Es in E.
    injection E as _ ->. apply Forall_app in Hl as [_ [Hl _]%Forall_cons]. by vm_compute in Hl. }
  unfold cleanPath. change (has_prefix "/" (String slash (join "/" l)))
    with (has_prefix "" (join "/" l)).
  replace (has_prefix "" (join "/" l)) with true by by destruct (join "/" l).
  change (String.eqb (String slash (join "/" l)) "") with false. cbv beta iota.
  rewrite Hend. cbn [andb]. unfold path_clean. rewrite Es. cbn [foldl].
  change (has_prefix "/" (String slash (join "/" l))) with (has_prefix "" (join "/" l)).
  replace (has_prefix "" (join "/" l)) with true by by destruct (join "/" l).
  change (clean_segment true [] "") with (@nil string).
  rewrite clean_segments_clean, app_nil_r, reverse_involutive by done. done.
Qed.

Lemma unescape_names l :
  unescape encodePath (String slash (join "/" (QueryEscape <$> l)))
  = Some (String slash (join "/" (map_string as_path <$> l))).
Proof.
  rewrite unescape_slash.
  assert (E : unescape encodePath (join "/" (QueryEscape <$> l))
              = Some (join "/" (map_string as_path <$> l))); [|by rewrite E].
  induction l as [|s l IH]; [done|]. destruct l as [|s' l]; cbn [fmap list_fmap join] in *.
  - unfold QueryEscape. rewrite <- (app_string_nil_r (escape _ s)), unescape_escape. cbn.
    by rewrite app_string_nil_r.
  - unfold QueryEscape at 1. rewrite unescape_escape. change ("/" +:+ ?x) with (String slash x).
    rewrite unescape_slash, IH. done.
Qed.

Lemma validEncodedPath_app s t :
  validEncodedPath (s +:+ t) = validEncodedPath s && validEncodedPath t.
Proof. unfold validEncodedPath. by rewrite list_ascii_app, forallb_app. Qed.

Lemma escaped_path_valid l : validEncodedPath (escaped_path l) = true.
Proof.
  unfold escaped_path. rewrite validEncodedPath_app. cbn [andb]. apply andb_true_iff. split; [done|].
  induction l as [|s l IH]; [done|]. destruct l as [|s' l]; cbn [fmap list_fmap join] in *.
  - apply QueryEscape_valid.
  - by rewrite !validEncodedPath_app, QueryEscape_valid, IH.
Qed.

Lemma split_escaped_path l :
  l ≠ [] → split_on slash (escaped_path l) = "" :: (QueryEscape <$> l).
Proof.
  intros Hl. unfold escaped_path. change ("/" +:+ ?x) with (String slash x). cbn [split_on].
  change (Ascii.eqb slash slash) with true. cbv iota. f_equal. apply (split_on_join slash).
  - by destruct l.
  - apply Forall_fmap, Forall_forall. intros s _. apply QueryEscape_no_slash.
Qed.

(** The URL of a path of plain names, which the routers see as it was written. *)
Lemma named_url l f q :
  l ≠ [] → Forall (λ s, plain_name s = true) l →
  ∃ u, setPath (escaped_path l) f q = Some u ∧ EscapedPath u = escaped_path l
    ∧ Path u = String slash (join "/" (map_string as_path <$> l)) ∧ cleanPath (Path u) = Path u.
Proof.
  intros Hl Hn. unfold setPath, escaped_path. change ("/" +:+ ?x) with (String slash x).
  assert (Hc : ∀ x, setPath (escaped_path l) f q = Some x → EscapedPath x = escaped_path l).
  { intros x Hx. by apply (EscapedPath_setPath _ _ _ _ Hx), escaped_path_valid. }
  unfold setPath, escaped_path in Hc. change ("/" +:+ ?x) with (String slash x) in Hc.
  rewrite unescape_names in *. cbn [mbind option_bind] in *.
  eexists. split_and!; [done|by apply Hc|done|]. cbn [Path].
  rewrite <- join_segments. apply cleanPath_clean.
  - destruct l as [|s l]; [done|]. cbn. intros [H _]%app_eq_nil. by apply split_on_not_nil in H.
  - apply Forall_bind, Forall_fmap. eapply Forall_impl; [done|]. intros s. apply plain_name_segments.
Qed.

(** * Routing *)
Section routing.
Context {W : Type} `{GoRuntime, GoFmt, JSONText, Markdown, ValueText, QueryLanguages} `{NetIP}.
Context (decode_body : string → option json).
Implicit Types (r : HTTPRequest (W:=W)) (h : Handler (W:=W)).

(** A match in progress: no route yet, perhaps one with another method. *)
Definition pending (mismatch : bool) : RouteMatch (W:=W) :=
  MkRouteMatch None None (if mismatch then Some ErrMethodMismatch else None).

Lemma HandleFunc_match enc p h methods r b :
  Route_Match (HandleFunc enc p h methods) r (pending b)
  = match path_vars enc (newRouteRegexp p) r with
    | None => (false, pending b)
    | Some vs => if bool_decide (Method r ∈ methods)
                 then (true, MkRouteMatch (Some h) (Some vs) None)
                 else (false, pending true)
    end.
Proof.
  unfold Route_Match, HandleFunc. cbn [matchers match_all Matches path_matcher method_matcher methodMatcher].
  destruct (path_vars enc (newRouteRegexp p) r) as [vs|] eqn:E.
  - rewrite bool_decide_true by done. destruct (bool_decide (Method r ∈ methods)); [|done].
    cbn -[path_vars newRouteRegexp]. unfold setMatch. cbn [route_path route_useEncodedPath].
    rewrite E. destruct b; [rewrite bool_decide_true by done|rewrite bool_decide_false by done];
      cbn -[union]; by rewrite (right_id_L ∅ (∪)).
  - rewrite bool_decide_false by by intros [? ?]. cbn. by destruct b.
Qed.

(** The first route with the path and the method of a request; whether one has the path. *)
Definition table : Type := list (string * Handler (W:=W) * list string).

Fixpoint find_route (enc : bool) (t : table) r : option (Handler (W:=W) * gmap string string) :=
  match t with
  | [] => None
  | (p, h, methods) :: t' =>
      match path_vars enc (newRouteRegexp p) r with
      | Some vs => if bool_decide (Method r ∈ methods) then Some (h, vs) else find_route enc t' r
      | None => find_route enc t' r
      end
  end.
Definition has_path (enc : bool) (t : table) r : bool :=
  existsb (λ e, bool_decide (is_Some (path_vars enc (newRouteRegexp e.1.1) r))) t.

Lemma match_routes_find enc (t : table) r b :
  match_routes ((λ e, HandleFunc enc e.1.1 e.1.2 e.2) <$> t) r (pending b)
  = match find_route enc t r with
    | Some (h, vs) => (true, MkRouteMatch (Some h) (Some vs) None)
    | None => (false, pending (b || has_path enc t r))
    end.
Proof.
  revert b. induction t as [|[[p h] methods] t IH]; intros b; cbn [fmap list_fmap match_routes].
  - by rewrite orb_false_r.
  - rewrite HandleFunc_match. cbn [find_route has_path existsb fst snd].
    destruct (path_vars enc (newRouteRegexp p) r) as [vs|].
    + rewrite (bool_decide_true (is_Some (Some vs))) by done.
      destruct (bool_decide (Method r ∈ methods)); [done|]. rewrite IH. cbn [orb].
      by rewrite orb_true_r.
    + rewrite (bool_decide_false (is_Some None)) by by intros [? ?]. by rewrite IH.
Qed.
(** ** The service as a table *)
Definition health_table : table := [("/healthz", answer Pong, ["GET"])].
Definition handlers_table : table :=
  (λ e, (e.1.1, api_handler e.1.2, e.2)) <$> api_table (W:=W) decode_body.

Lemma api_match auth r b :
  Router_Match (api_Route decode_body auth) r (pending b)
  = match find_route true handlers_table r with
    | Some (h, vs) => (true, MkRouteMatch (Some (HTTP_WithAuthentication auth h)) (Some vs) None)
    | None => (false, if b || has_path true handlers_table r then pending true
                      else MkRouteMatch None None (Some ErrNoRoute))
    end.
Proof.
  unfold Router_Match. cbn [routes api_Route].
  change (api_routes decode_body) with ((λ e, HandleFunc true e.1.1 e.1.2 e.2) <$> handlers_table).
  rewrite match_routes_find. destruct (find_route true handlers_table r) as [[h vs]|]; [done|].
  by destruct (b || has_path true handlers_table r).
Qed.

(** What the service does with a request, as a reader of its routes would say it. *)
Definition serve (auth : HTTPAuthenticator) : Handler := λ hdr r,
  let u := URL_of r in
  if negb (String.eqb (cleanPath (Path u)) (Path u)) then
    let location := URL_String (MkURL (cleanPath (Path u)) (RawPath u) (ForceQuery u) (RawQuery u)) in
    answer Moved (<["Location" := location]> hdr) r
  else
    match find_route false health_table r, find_route true handlers_table r with
    | Some (h, vs), _ => h hdr (setVars vs r)
    | None, Some (h, vs) => HTTP_WithAuthentication auth h hdr (setVars vs r)
    | None, None => answer (if has_path false health_table r || has_path true handlers_table r
                            then MethodNotAllowed else NotFound) hdr r
    end.

Lemma subrouter_match auth r b :
  Route_Match (subrouter (api_Route decode_body auth)) r (pending b)
  = match find_route true handlers_table r with
    | Some (h, vs) => (true, MkRouteMatch (Some (HTTP_WithAuthentication auth h)) (Some vs) None)
    | None => (false, pending (b || has_path true handlers_table r))
    end.
Proof.
  unfold Route_Match, subrouter. cbn [matchers match_all Matches methodMatcher].
  rewrite api_match. destruct (find_route true handlers_table r) as [[h vs]|]; [done|].
  by destruct (b || has_path true handlers_table r).
Qed.

(** The matching of the routers, with its pending errors, is that table. *)
Lemma server_dispatch auth hdr r :
  ServeHTTP (Server_Route decode_body auth) hdr r = serve auth hdr r.
Proof.
  unfold ServeHTTP, serve. cbn [useEncodedPath Server_Route request_path].
  destruct (negb (String.eqb (cleanPath (Path (URL_of r))) (Path (URL_of r)))); [done|].
  unfold Router_Match. cbn [routes].
  change (match_routes _ r _) with
    (let '(matched, m') := Route_Match (HandleFunc false "/healthz" (answer Pong) ["GET"]) r (pending false) in
     if matched then (true, m')
     else let '(matched, m') := Route_Match (subrouter (api_Route decode_body auth)) r m' in
          if matched then (true, m') else (false, m')).
  rewrite HandleFunc_match. cbn [find_route health_table has_path existsb fst snd].
  destruct (path_vars false (newRouteRegexp "/healthz") r) as [vs|].
  - rewrite (bool_decide_true (is_Some (Some vs))) by done.
    destruct (bool_decide (Method r ∈ ["GET"])); [done|]. rewrite subrouter_match.
    by destruct (find_route true handlers_table r) as [[h vs']|].
  - rewrite (bool_decide_false (is_Some None)) by by intros [? ?]. rewrite subrouter_match.
    destruct (find_route true handlers_table r) as [[h vs']|]; [done|].
    cbn [orb]. by destruct (has_path true handlers_table r).
Qed.
Lemma find_route_elem enc t r h vs :
  find_route enc t r = Some (h, vs) → ∃ p methods, (p, h, methods) ∈ t.
Proof.
  induction t as [|[[p h'] methods] t IH]; cbn [find_route]; [done|]. intros Hf.
  destruct (path_vars enc (newRouteRegexp p) r) as [vs'|];
    [destruct (bool_decide (Method r ∈ methods)); [injection Hf as -> _; exists p, methods; by left|]|];
    destruct (IH Hf) as (p' & ms & Hp); exists p', ms; by right.
Qed.

(** The header fields of every answer, and the request that is authenticated. *)
Definition security_fields : gmap string string :=
  list_to_map [("Content-Security-Policy", "default-src 'none'; base-uri 'none'");
    ("X-XSS-Protection", "0"); ("Referrer-Policy", "no-referrer");
    ("X-Permitted-Cross-Domain-Policies", "none"); ("X-Content-Type-Options", "nosniff");
    ("X-Frame-Options", "deny"); ("Strict-Transport-Security", "max-age=31536000")].

Definition behind_proxies (n : Z) r : HTTPRequest := trust_hops n (rev (forwarded_hops r)) r.

Lemma NewHandler_serve auth n hdr r :
  NewHandler decode_body auth n hdr r = serve auth (security_fields ∪ hdr) (behind_proxies n r).
Proof.
  unfold NewHandler, WithTrustedProxyHops, WebSecurity. rewrite server_dispatch. f_equal.
  unfold security_fields. cbn [list_to_map foldr].
  by rewrite <- !insert_union_l, (left_id_L ∅ (∪)).
Qed.

(** C11: Nothing of the metadata service is told to a request that was not authenticated: a
    request is redirected, unknown, of a wrong method, or a health check, and then nothing
    is read or written; or the authenticator was asked about it, at the address behind
    the trusted proxies, and the answer is an error, a refusal, or what one of the
    functions of the API answers with the managers of the credential.  Every answer has
    the header fields for the security of browsers. *)
Theorem requests_authenticated auth n hdr r w x w' :
  NewHandler decode_body auth n hdr r w = (Ok x, w') →
  (∀ k v, security_fields !! k = Some v → Header_Set x !! k = Some v) ∧
  (Content x ∈ [Moved; NotFound; MethodNotAllowed; Pong] ∧ w' = w ∨
   ∃ vs, let r' := setVars vs (behind_proxies n r) in
     (∃ e, auth r' w = (Err e, w') ∧ Content x = InternalError) ∨
     (auth r' w = (Ok None, w') ∧ Content x = Unauthorized) ∨
     ∃ cred w1 p f methods l,
       auth r' w = (Ok (Some cred), w1) ∧ (p, f, methods) ∈ api_table decode_body
       ∧ let m := Credential_Managers cred in
         f m (with_managers m r') w1 = (Ok l, w') ∧ Content x = Responses l).
Proof.
  rewrite NewHandler_serve. unfold serve. set (r0 := behind_proxies n r).
  set (hdr' := security_fields ∪ hdr).
  assert (Hs : ∀ k v, security_fields !! k = Some v → hdr' !! k = Some v)
    by (intros k v Hk; by apply lookup_union_Some_l).
  assert (Hl : security_fields !! "Location" = None) by by vm_compute.
  destruct (negb _).
  { intros [= <- <-]. split; cbn [Header_Set Content].
    - intros k v Hk. rewrite lookup_insert_ne; [by apply Hs|]. intros E. by rewrite <- E, Hl in Hk.
    - left. split; [by left|done]. }
  destruct (find_route false health_table r0) as [[h vs]|] eqn:Eh.
  { apply find_route_elem in Eh as (p & ms & [= _ -> _]%list_elem_of_singleton).
    intros [= <- <-]. split; [done|]. left. split; [|done]. by do 3 right; left. }
  destruct (find_route true handlers_table r0) as [[h vs]|] eqn:Ea; cycle 1.
  { intros [= <- <-]. split; [done|]. left. split; [|done]. cbn.
    destruct (_ || _); [by do 2 right; left|by right; left]. }
  apply find_route_elem in Ea as (p & ms & Hin).
  apply list_elem_of_fmap in Hin as ([[p' f] ms'] & [= -> -> ->] & Hin).
  unfold HTTP_WithAuthentication. destruct (auth (setVars vs r0) w) as [[[cred|]|e|y] w1] eqn:Ea; try done.
  - unfold WithManagers, api_handler. rewrite effect_bind_run. cbn [fst snd].
    change (Managers (with_managers ?m ?q)) with m. set (m := Credential_Managers cred).
    destruct (f m (with_managers m (setVars vs r0)) w1) as [[l| |] w2] eqn:Ef; [|done..].
    intros [= <- <-]. split; [done|]. right. exists vs. right; right.
    exists cred, w1, p', f, ms', l. done.
  - intros [= <- <-]. split; [done|]. right. exists vs. by right; left.
  - intros [= <- <-]. split; [done|]. right. exists vs. left. by exists e.
Qed.
(** ** The address behind proxies *)
Definition is_address (hop : string) : bool := negb (String.eqb (ParseIP (TrimSpace hop)) "").

Fixpoint take_while {A} (f : A → bool) (l : list A) : list A :=
  match l with
  | [] => []
  | x :: l' => if f x then x :: take_while f l' else []
  end.

(** The hops that are trusted, the closest first. *)
Definition trusted_hops (n : Z) r : list string :=
  take_while is_address (take (Z.to_nat n) (rev (forwarded_hops r))).

Lemma trust_hops_spec n hops r :
  RemoteAddr (trust_hops n hops r)
  = match last (take_while is_address (take (Z.to_nat n) hops)) with
    | Some hop => IP_String (ParseIP (TrimSpace hop))
    | None => RemoteAddr r
    end
  ∧ Header (trust_hops n hops r) = Header r.
Proof.
  revert n r. induction hops as [|hop hops IH]; intros n r; cbn [trust_hops].
  - by rewrite take_nil.
  - destruct (Z.leb_spec n 0) as [Hn|Hn].
    + by replace (Z.to_nat n) with 0 by lia.
    + replace (Z.to_nat n) with (S (Z.to_nat (n - 1))) by lia. cbn [take take_while].
      unfold is_address at 1. destruct (String.eqb_spec (ParseIP (TrimSpace hop)) "") as [E|E]; [done|].
      cbn [negb]. destruct (IH (n - 1)%Z (with_RemoteAddr (IP_String (ParseIP (TrimSpace hop))) r))
        as [-> ->]. split; [|done].
    destruct (take_while is_address (take (Z.to_nat (n - 1)) hops)) as [|x l]; [done|].
    change (last (hop :: x :: l)) with (last (x :: l)). destruct (last (x :: l)) eqn:El; [done|].
    by apply last_None in El.
Qed.

(** C23: The address at which a request is authenticated is the one that the farthest trusted
    proxy reports, if the last hops are addresses, and that of the connection if none is
    trusted.  What a client writes before the hops that the proxies add changes nothing. *)
Theorem forwarded_address `{!NetIPLaws} n r forged r' :
  authenticated_part (behind_proxies n r)
  = AuthService.MkRequest
      match last (trusted_hops n r) with
      | Some hop => ParseIP (TrimSpace hop)
      | None => ParseIP (remote_host (RemoteAddr r))
      end (Header_Get r "Authorization")
  ∧ (forwarded_hops r' = forged ++ forwarded_hops r → (n ≤ Z.of_nat (length (forwarded_hops r)))%Z →
     RemoteAddr r' = RemoteAddr r → Header_Get r' "Authorization" = Header_Get r "Authorization" →
     authenticated_part (behind_proxies n r') = authenticated_part (behind_proxies n r)).
Proof.
  assert (Hspec : ∀ q, authenticated_part (behind_proxies n q)
    = AuthService.MkRequest
        match last (trusted_hops n q) with
        | Some hop => ParseIP (TrimSpace hop)
        | None => ParseIP (remote_host (RemoteAddr q))
        end (Header_Get q "Authorization")).
  { intros q. destruct (trust_hops_spec n (rev (forwarded_hops q)) q) as [Ha Hh].
    unfold authenticated_part, behind_proxies, Header_Get. rewrite Ha, Hh.
    unfold trusted_hops. destruct (last _) as [hop|] eqn:E; [|done].
    assert (Hv : ParseIP (TrimSpace hop) ≠ "").
    { apply last_Some_elem_of in E. clear -E. induction (take _ _) as [|x l IH]; cbn in E; [by apply elem_of_nil in E|].
      destruct (is_address x) eqn:Ex; [|by apply elem_of_nil in E].
      apply elem_of_cons in E as [->|E]; [|by apply IH].
      unfold is_address in Ex. by apply negb_true_iff, String.eqb_neq in Ex. }
    unfold remote_host. by rewrite printed_no_port, parse_printed. }
  split; [apply Hspec|]. intros Hops Hn Ha Hh. rewrite !Hspec, Ha, Hh. do 2 f_equal.
  unfold trusted_hops. rewrite Hops, rev_app_distr, take_app_le; [done|]. rewrite length_rev. lia.
Qed.
(** ** Names *)

(** A request line with this path, its elements escaped, and any query. *)
Definition asks r (method : string) (l : list string) : Prop :=
  Method r = method ∧ ∃ force q, setPath (escaped_path l) force q = Some (URL_of r).

(** Once the request is authenticated, what [f] answers is the answer. *)
Definition answered_by auth n hdr r (f : MetadataManagers W → handler (W:=W)) : Prop :=
  ∃ vs, ∀ w cred w1,
    auth (setVars vs (behind_proxies n r)) w = (Ok (Some cred), w1) →
    NewHandler decode_body auth n hdr r w
    = (l ← f (Credential_Managers cred); mret (MkExchange (security_fields ∪ hdr) (Responses l))) w1.

Lemma behind_proxies_rest n r :
  Method (behind_proxies n r) = Method r ∧ URL_of (behind_proxies n r) = URL_of r
  ∧ Body (behind_proxies n r) = Body r ∧ Header (behind_proxies n r) = Header r.
Proof.
  unfold behind_proxies. generalize (rev (forwarded_hops r)) as hops. intros hops. revert n r.
  induction hops as [|hop hops IH]; intros n r; cbn [trust_hops]; [done|].
  destruct (n <=? 0)%Z; [done|]. destruct (String.eqb _ _); [done|].
  by destruct (IH (n - 1)%Z (with_RemoteAddr (IP_String (ParseIP (TrimSpace hop))) r)) as (-> & -> & -> & ->).
Qed.

Lemma find_route_cons enc p h x (t : table) r :
  find_route enc ((p, h, [x]) :: t) r
  = match match_segments (newRouteRegexp p) (split_on slash (request_path enc r)) with
    | Some vs => if String.eqb (Method r) x then Some (h, vs) else find_route enc t r
    | None => find_route enc t r
    end.
Proof.
  cbn [find_route]. unfold path_vars. destruct (match_segments _ _); [|done].
  destruct (String.eqb_spec (Method r) x) as [E|E].
  - rewrite bool_decide_true; [done|]. rewrite E. by left.
  - by rewrite bool_decide_false by by intros ?%list_elem_of_singleton.
Qed.

(** The path of plain names that does not start with [healthz] reaches the API. *)
Lemma asks_api auth n hdr r method s l h vs :
  asks r method (s :: l) → Forall (λ x, plain_name x = true) (s :: l) →
  map_string as_path s = s → string_elem slash s = false → s ≠ "healthz" →
  find_route true handlers_table (behind_proxies n r) = Some (h, vs) →
  NewHandler decode_body auth n hdr r
  = HTTP_WithAuthentication auth h (security_fields ∪ hdr) (setVars vs (behind_proxies n r)).
Proof.
  intros (Hm & force & q & Hu) Hn Hs Hsl Hne Hf.
  destruct (behind_proxies_rest n r) as (_ & Eu & _ & _).
  destruct (named_url (s :: l) force q ltac:(done) Hn) as (u & Hu' & Hesc & Hp & Hclean).
  rewrite Hu in Hu'. injection Hu' as <-.
  rewrite NewHandler_serve. unfold serve. rewrite Eu, Hclean, String.eqb_refl. cbn [negb].
  assert (Hh : find_route false health_table (behind_proxies n r) = None); [|by rewrite Hh, Hf].
  unfold health_table. rewrite find_route_cons. unfold request_path. rewrite Eu, Hp.
  change (newRouteRegexp "/healthz") with [Literal ""; Literal "healthz"].
  assert (E : ∃ rest, split_on slash (String slash (join "/" (map_string as_path <$> s :: l)))
                      = "" :: s :: rest).
  { cbn [split_on fmap list_fmap]. change (Ascii.eqb slash slash) with true. rewrite Hs.
    destruct (map_string as_path <$> l) as [|x l'].
    - exists []. cbn [join]. by rewrite split_on_single.
    - eexists. cbn [join]. change ("/" +:+ ?x) with (String slash x). by rewrite split_on_app. }
  destruct E as [rest ->]. cbn [match_segments]. change (String.eqb "" "") with true.
  by rewrite (proj2 (String.eqb_neq "healthz" s)).
Qed.

Lemma request_segments n r method l :
  asks r method l → l ≠ [] → Forall (λ x, plain_name x = true) l →
  Method (behind_proxies n r) = method
  ∧ split_on slash (request_path true (behind_proxies n r)) = "" :: (QueryEscape <$> l).
Proof.
  intros (Hm & force & q & Hu) Hl Hn.
  destruct (behind_proxies_rest n r) as (Em & Eu & _ & _).
  destruct (named_url l force q Hl Hn) as (u & Hu' & Hesc & _).
  rewrite Hu in Hu'. injection Hu' as <-. split; [congruence|].
  unfold request_path. by rewrite Eu, Hesc, split_escaped_path.
Qed.

Lemma answered auth n hdr r (f : api_function (W:=W)) vs g :
  NewHandler decode_body auth n hdr r
  = HTTP_WithAuthentication auth (api_handler f) (security_fields ∪ hdr) (setVars vs (behind_proxies n r)) →
  (∀ m, f m (with_managers m (setVars vs (behind_proxies n r))) = g m) →
  answered_by auth n hdr r g.
Proof.
  intros E Hg. exists vs. intros w cred w1 Ha. rewrite E. unfold HTTP_WithAuthentication. rewrite Ha.
  unfold WithManagers, api_handler. change (Managers (with_managers ?m ?q)) with m. by rewrite Hg.
Qed.

Lemma Var_escaped r name s : Vars r !! name = Some (QueryEscape s) → Var r name = (s, true).
Proof. unfold Var. intros ->. by rewrite query_roundtrip. Qed.

Lemma plain_escape s : plain_name s = true → String.eqb (QueryEscape s) "" = false.
Proof. intros ?%plain_name_nonempty. by rewrite QueryEscape_empty, String.eqb_neq. Qed.

(** The segments of a path against the routes, one after the other. *)
Ltac route Hseg Hm :=
  unfold handlers_table, api_table; cbn [fmap list_fmap fst snd];
  repeat (rewrite find_route_cons, Hseg, Hm;
          match goal with |- context [newRouteRegexp ?p] =>
            let t := eval vm_compute in (newRouteRegexp p) in change (newRouteRegexp p) with t end;
          cbn [match_segments fmap list_fmap];
          rewrite ?plain_escape by done; cbn [fmap option_fmap option_map];
          repeat match goal with |- context [String.eqb ?a ?b] =>
            let x := eval vm_compute in (String.eqb a b) in
            match x with true => idtac | false => idtac end;
            change (String.eqb a b) with x end;
          cbv beta iota; try reflexivity).

Ltac reaches n r Ha first :=
  match type of Ha with asks _ _ ?l =>
    let Hl := fresh in let Hm := fresh in let Hseg := fresh in
    assert (Hl : Forall (λ x, plain_name x = true) l) by (by repeat constructor);
    destruct (request_segments n r _ _ Ha ltac:(done) Hl) as [Hm Hseg];
    cbn [fmap list_fmap] in Hseg; change (QueryEscape first) with first in Hseg;
    eapply answered; [eapply asks_api; [exact Ha|done..|route Hseg Hm]|]
  end.

(** C24: A name is what a path says it is: a request for a secret, a state, an environment
    variable or an output, whose path has the names escaped as in a query, is answered,
    once it is authenticated, by the function of the API for exactly these names,
    whatever characters are in them, if no segment of a name is empty, a dot or two
    dots. *)
Theorem names_reach_handlers auth n hdr r name step :
  plain_name name = true → plain_name step = true →
  (asks r "GET" ["secrets"; name] → answered_by auth n hdr r (λ m, GetSecret m name)) ∧
  (asks r "GET" ["state"; name] → answered_by auth n hdr r (λ m, GetState m name)) ∧
  (asks r "GET" ["environment"; name] →
   answered_by auth n hdr r (λ m, GetEnvironmentVariable m name)) ∧
  (asks r "GET" ["outputs"; step; name] → answered_by auth n hdr r (λ m, GetOutput m step name)) ∧
  (asks r "PUT" ["outputs"; name] →
   answered_by auth n hdr r (λ m, PutOutput decode_body m name (content_type r) (Body r))).
Proof.
  intros Hn Hst.
  assert (Hrest : ∀ m vs, let q := with_managers m (setVars vs (behind_proxies n r)) in
    content_type q = content_type r ∧ Body q = Body r).
  { intros m vs. destruct (behind_proxies_rest n r) as (_ & _ & Hb & Hh). cbn.
    by rewrite Hb; unfold content_type, Header_Get; cbn; rewrite Hh. }
  split_and!; intros Ha;
    [reaches n r Ha "secrets"|reaches n r Ha "state"|reaches n r Ha "environment"
    |reaches n r Ha "outputs"|reaches n r Ha "outputs"];
    intros m; cbv beta; rewrite ?(proj1 (Hrest _ _)), ?(proj2 (Hrest _ _));
    rewrite !(Var_escaped _ "name" name) by done;
    rewrite ?(Var_escaped _ "stepName" step) by done; reflexivity.
Qed.
End routing.

(** ** Dotted addresses, for samples *)
Definition byte_text (c : ascii) : string := pretty (N_of_ascii c).
Definition parse_byte (s : string) : option ascii :=
  snd <$> list_find (λ c, byte_text c = s) all_ascii.
#[local] Instance dotted : NetIP := {|
  ParseIP s := match mapM parse_byte (split_on "." s) with
               | Some [a; b; c; d] => String.string_of_list_ascii [a; b; c; d]
               | _ => ""
               end;
  IP_String ip := join "." (byte_text <$> String.list_ascii_of_string ip) |}.

Lemma byte_text_parses c : parse_byte (byte_text c) = Some c.
Proof.
  apply (bool_decide_eq_true (parse_byte (byte_text c) = Some c)). revert c.
  apply ascii_forall. by vm_compute.
Qed.

Lemma byte_text_plain c : string_elem "." (byte_text c) = false ∧ string_elem ":" (byte_text c) = false.
Proof.
  rewrite <- !negb_true_iff, <- andb_true_iff. revert c. apply ascii_forall. by vm_compute.
Qed.

Lemma cut_last_None c s : string_elem c s = false → cut_last c s = None.
Proof.
  induction s as [|a s IH]; cbn; [done|]. intros [Ha Hs]%orb_false_elim. by rewrite IH, Ha.
Qed.

#[local] Instance dotted_laws : NetIPLaws.
Proof.
  assert (Hform : ∀ s, ParseIP s ≠ "" → ∃ a b c d, ParseIP s = String.string_of_list_ascii [a; b; c; d]).
  { intros s. cbn [ParseIP dotted]. destruct (mapM _ _) as [[|a [|b [|c [|d [|]]]]]|]; try done.
    intros _. by exists a, b, c, d. }
  split; intros s (a & b & c & d & ->)%Hform.
  - cbn [IP_String dotted]. rewrite String.list_ascii_of_string_of_list_ascii.
    cbn [ParseIP dotted]. rewrite (split_on_join ".").
    + assert (E : mapM parse_byte (byte_text <$> [a; b; c; d]) = Some [a; b; c; d]); [|by rewrite E].
      apply mapM_Some, Forall2_fmap_l, Forall_Forall2_diag. repeat constructor; apply byte_text_parses.
    + done.
    + repeat constructor; apply byte_text_plain.
  - cbn [IP_String dotted]. rewrite String.list_ascii_of_string_of_list_ascii. unfold SplitHostPort.
    rewrite cut_last_None; [done|]. cbn [fmap list_fmap join].
    rewrite !string_elem_app. cbn. by rewrite !(proj2 (byte_text_plain _)).
Qed.

(** ** A sample service, of one pod with one secret *)
#[local] Existing Instances forward_runtime sample_fmt tree_json sample_markdown.
#[local] Existing Instances sample_text sample_languages.

Definition one_secret : SecretManager unit := {| Secret_Get n := λ w, (Ok (MkSecret n "hush"), w) |}.
Definition one_credential : Credential unit :=
  MkCredential (Build (SetSecrets one_secret NewMetadataBuilder)) [].
Definition one_pod : HTTPAuthenticator (W:=unit) := λ r w,
  (Ok (if String.eqb (ParseIP (remote_host (RemoteAddr r))) (ParseIP "10.0.0.7")
       then Some one_credential else None), w).
Definition get (uri : string) (forwarded : list string) : HTTPRequest (W:=unit) :=
  MkHTTPRequest "GET" (default (MkURL "" "" false "") (ParseRequestURI uri))
    {["X-Forwarded-For" := forwarded]} "10.0.0.1:4711" "" ∅ None.
Definition sample_server : Z → gmap string string → HTTPRequest → effect error unit Exchange :=
  NewHandler (λ _, None) one_pod.
Definition escaped_request : HTTPRequest := get "/secrets/a%2Fb+c" ["10.0.0.9, 10.0.0.7"].

Lemma requests_authenticated_witness :
  ∃ x, sample_server 1 ∅ escaped_request () = (Ok x, ())
    ∧ Content x = Responses [RespOK (BSecret "a/b c" (EncodeJSON "hush"))]
    ∧ Header_Set x !! "X-Frame-Options" = Some "deny".
Proof.
  eexists. split; [by vm_compute|]. split; [by vm_compute|].
  eapply (requests_authenticated (λ _, None) one_pod 1 ∅ escaped_request ()); [by vm_compute|].
  by vm_compute.
Defined.

Lemma names_reach_handlers_witness :
  answered_by (λ _, None) one_pod 1 ∅ escaped_request (λ m, GetSecret m "a/b c").
Proof.
  apply (names_reach_handlers (λ _, None) one_pod 1 ∅ escaped_request "a/b c" "s");
    [by vm_compute..|]. split; [done|]. exists false, "". by vm_compute.
Defined.

Lemma forwarded_address_witness :
  authenticated_part (behind_proxies 1 (get "/spec" ["10.0.0.8"; "10.0.0.9, 10.0.0.7"]))
  = AuthService.MkRequest (ParseIP "10.0.0.7") "".
Proof.
  rewrite (proj2 (forwarded_address 1 (get "/spec" ["10.0.0.9, 10.0.0.7"]) ["10.0.0.8"]
                    (get "/spec" ["10.0.0.8"; "10.0.0.9, 10.0.0.7"]))); [|by vm_compute..].
  rewrite (proj1 (forwarded_address 1 (get "/spec" ["10.0.0.9, 10.0.0.7"]) [] escaped_request)).
  by vm_compute.
Defined.

(** The cases of the test of the proxy hops. *)
Definition hops_from (forwarded : string) (n : Z) : string :=
  RemoteAddr (behind_proxies n (with_RemoteAddr "10.20.30.40" (get "/" [forwarded]))).
Example proxy_hops_tested :
  (hops_from "192.168.0.1, 192.168.0.2" <$> [0; 1; 2; 3]%Z)
    = ["10.20.30.40"; "192.168.0.2"; "192.168.0.1"; "192.168.0.1"]
  ∧ hops_from "192.168.0.1, foo" 3 = "10.20.30.40".
Proof. by vm_compute. Qed.

(** The subrouter has the encoded path, but its parent has already cleaned the decoded one:
    a name with an empty segment is redirected to a path without it, which names something
    else, although the router of the API alone answers it. *)
Lemma encoded_slashes_redirected :
  sample_server 1 ∅ (get "/secrets/a%2F%2Fb" ["10.0.0.7"]) ()
  = (Ok (MkExchange (<["Location" := "/secrets/a/b"]> security_fields) Moved), ())
  ∧ api_NewHandler (λ _, None) one_pod ∅
      (with_RemoteAddr "10.0.0.7" (get "/secrets/a%2F%2Fb" [])) ()
    = (Ok (MkExchange ∅ (Responses [RespOK (BSecret "a//b" (EncodeJSON "hush"))])), ()).
Proof. split; by vm_compute. Qed.

(** The variables of a path are unescaped as those of a query: a plus sign, which a path
    does not escape, is read as a space. *)
Lemma path_plus_is_space s :
  QueryUnescape (escape encodePath s)
  = Some (map_string (λ c, if Ascii.eqb c "+" then " "%char else c) s).
Proof.
  unfold QueryUnescape. rewrite <- (app_string_nil_r (escape _ s)), unescape_escape. cbn.
  by rewrite app_string_nil_r.
Qed.
