(* ===== verification/APIErrors.v ===== *)
(** * What the metadata service writes (pkg/metadataapi/errors, errawr, horsehead's HTTP API)

    The errors of the API with their codes and descriptions, what of an error is displayed
    at a sensitivity, and the bytes, status and header fields of a response. *)
From S2P Require Import Prelude GoStd GoStrings Values Errors Transfer Unresolvable Fn.
From S2P Require Import Resolve Evaluate ResultMapper Model Metadata Samples.
From S2P Require Import ManagersMemory Query Authenticate MetadataApi MetadataServer.
From stdpp Require Import pretty.

(** ** Errors that are displayed (errawr)

    The template of an error's description is formatted with its arguments by a library;
    the code and the title of an error of Go are those of its type. *)
Class ErrorText := {
  formatWithArguments : string → gmap string json → string;
  reflect_code : error → string;
  reflect_title : error → string;
}.

Definition ErrorSensitivity : Type := Z.
Definition ErrorSensitivityNone : ErrorSensitivity := 0%Z.
Definition ErrorSensitivityEdge : ErrorSensitivity := 100%Z.
Definition ErrorSensitivityBug : ErrorSensitivity := 200%Z.
Definition ErrorSensitivityAll : ErrorSensitivity := 1000%Z.

Record ErrorDomain := MkErrorDomain { Domain_Key : string; Domain_Title : string }.
Record ErrorSection := MkErrorSection { Section_Key : string; Section_Title : string }.

(** [impl.Error], and [golang.Error], which other errors become when they are a cause. *)
Record ErrorBase := MkErrorBase {
  Error_Domain : ErrorDomain; Error_Section : ErrorSection; Error_Code : string;
  Error_Title : string; Friendly : string; Technical : string;
  Error_Arguments : gmap string json; HTTPStatus : option Z }.
Inductive errawr : Type :=
| ImplError (base : ErrorBase) (sensitivity : ErrorSensitivity) (buggy : bool) (causes : list errawr)
| GolangError (delegate : error).

Definition base_ID (b : ErrorBase) : string :=
  Domain_Key (Error_Domain b) +:+ "_" +:+ Section_Key (Error_Section b) +:+ "_" +:+ Error_Code b.
Definition Sensitivity (e : errawr) : ErrorSensitivity :=
  match e with ImplError _ s _ _ => s | GolangError _ => ErrorSensitivityEdge end.
Definition IsBug (e : errawr) : bool :=
  match e with ImplError _ _ b _ => b | GolangError _ => false end.
Definition HTTP (e : errawr) : option Z :=
  match e with ImplError b _ _ _ => HTTPStatus b | GolangError _ => None end.

Definition WithSensitivity (s : ErrorSensitivity) (e : errawr) : errawr :=
  match e with
  | ImplError b s0 bug cs => ImplError b (if bool_decide (s0 < s)%Z then s else s0) bug cs
  | e => e
  end.
Definition Bug (e : errawr) : errawr :=
  match e with
  | ImplError b s _ cs => WithSensitivity ErrorSensitivityBug (ImplError b s true cs)
  | e => e
  end.
Definition WithCause (cause : error) (e : errawr) : errawr :=
  match e with
  | ImplError b s bug cs => ImplError b s (bug || IsBug (GolangError cause)) (cs ++ [GolangError cause])
  | e => e
  end.

Section display.
Context `{ErrorText, GoFmt}.

Definition ID (e : errawr) : string :=
  match e with
  | ImplError b _ _ _ => base_ID b
  | GolangError d => "err_golang_" +:+ reflect_code d
  end.
Definition Is (id : string) (e : errawr) : bool := String.eqb (ID e) id.

Definition ErrorDescription (friendly technical : string) : json :=
  json_object [json_field "friendly" friendly; json_field "technical" technical].
Definition optional_field (empty : bool) (name : string) (j : json) : list (string * json) :=
  if empty then [] else [(name, j)].

(** What is shown of every error, and what only of one that is not too sensitive. *)
Definition shown (domain section id title : string) (s : ErrorSensitivity) : list (string * json) :=
  [json_field "domain" domain; json_field "section" section; json_field "code" id;
   json_field "title" title]
  ++ optional_field (Z.eqb s 0) "sensitivity" (JNumber (pretty s)).
Definition detailed (description formatted : json) (arguments : gmap string json) (causes : list json)
    : list (string * json) :=
  ("description", description)
  :: optional_field (bool_decide (arguments = ∅)) "arguments" (JObject arguments)
  ++ [("formatted", formatted)]
  ++ optional_field (bool_decide (length causes = 0)) "causes" (JArray causes).

Fixpoint ForDisplayWithSensitivity (sensitivity : ErrorSensitivity) (e : errawr) : json :=
  match e with
  | ImplError b s _ causes =>
      let shown := shown (Domain_Key (Error_Domain b)) (Section_Key (Error_Section b)) (base_ID b)
                     (Error_Title b) s in
      if (sensitivity <? s)%Z then json_object shown
      else json_object (shown ++ detailed (ErrorDescription (Friendly b) (Technical b))
             (ErrorDescription (formatWithArguments (Friendly b) (Error_Arguments b))
                (formatWithArguments (Technical b) (Error_Arguments b)))
             (Error_Arguments b) (ForDisplayWithSensitivity sensitivity <$> causes))
  | GolangError d =>
      let shown := shown "err" "golang" (ID (GolangError d)) (reflect_title d) ErrorSensitivityEdge in
      if (sensitivity <? ErrorSensitivityEdge)%Z then json_object shown
      else json_object (shown ++ detailed (ErrorDescription "{{cause}}" "{{cause}}")
             (ErrorDescription (Errors.Error d) (Errors.Error d))
             {["cause" := JString (Errors.Error d)]} [])
  end.
Definition NewErrorEnvelopeWithSensitivity (s : ErrorSensitivity) (e : errawr) : json :=
  json_object [("error", ForDisplayWithSensitivity s e)].
End display.

(** ** The errors of the API (generate_errors.go) *)
Definition Domain : ErrorDomain := MkErrorDomain "rma" "Relay Metadata API".
Definition APISection : ErrorSection := MkErrorSection "api" "API errors".
Definition ConditionSection : ErrorSection := MkErrorSection "condition" "Condition errors".
Definition ExpressionSection : ErrorSection := MkErrorSection "expression" "Expression errors".
Definition ModelSection : ErrorSection := MkErrorSection "model" "Model errors".

Definition built (section : ErrorSection) (code title description : string)
    (arguments : gmap string json) (status : option Z) : errawr :=
  ImplError (MkErrorBase Domain section code title description description arguments status)
    ErrorSensitivityNone false [].

Definition APIAuthenticationErrorCode : string := "rma_api_authentication_error".
Definition NewAPIAuthenticationError : errawr :=
  built APISection "authentication_error" "Unauthorized"
    "The provided credential information did not authenticate this request." ∅ (Some 401%Z).

Definition APIMalformedRequestErrorCode : string := "rma_api_malformed_request_error".
Definition NewAPIMalformedRequestError : errawr :=
  built APISection "malformed_request_error" "Malformed request"
    "The request body you provided could not be deserialized." ∅ (Some 422%Z).

Definition APIUnknownRequestMediaTypeErrorCode : string := "rma_api_unknown_request_media_type_error".
Definition NewAPIUnknownRequestMediaTypeError (mediaType : string) : errawr :=
  built APISection "unknown_request_media_type_error" "Unknown media type"
    "We don't know how to decode a request body with media type {{pre mediaType}}."
    {["mediaType" := JString mediaType]} (Some 422%Z).

Definition ConditionTypeErrorCode : string := "rma_condition_type_error".
Definition NewConditionTypeError (type_ : string) : errawr :=
  built ConditionSection "type_error" "Type error"
    "A condition must evaluate to a single boolean value or a list of boolean values, but your condition provided a {{pre type}}."
    {["type" := JString type_]} None.

Definition newline : string := String (ascii_of_nat 10) "".
Definition ExpressionEvaluationErrorCode : string := "rma_expression_evaluation_error".
Definition NewExpressionEvaluationError (error : string) : errawr :=
  built ExpressionSection "evaluation_error" "Evaluation error"
    ("We could not evaluate this resource expression." +:+ newline +:+ "{{error}}")
    {["error" := JString error]} (Some 422%Z).

Definition ExpressionUnresolvableErrorCode : string := "rma_expression_unresolvable_error".
Definition NewExpressionUnresolvableError (errors : list string) : errawr :=
  built ExpressionSection "unresolvable_error" "Unresolvable"
    ("We could not fully evaluate this resource expression:" +:+ newline
     +:+ "{{#enum errors}}{{this}}{{/enum}}")
    {["errors" := JArray (JString <$> errors)]} (Some 422%Z).

Definition ExpressionUnsupportedLanguageErrorCode : string :=
  "rma_expression_unsupported_language_error".
Definition NewExpressionUnsupportedLanguageError (language : string) : errawr :=
  built ExpressionSection "unsupported_language_error" "Unsupported query language"
    "We don't know the query language {{quote language}}."
    {["language" := JString language]} (Some 422%Z).

Definition ModelAuthorizationErrorCode : string := "rma_model_authorization_error".
Definition NewModelAuthorizationError : errawr :=
  built ModelSection "authorization_error" "Unauthorized"
    "You are not authorized to access this resource." ∅ (Some 403%Z).

Definition ModelNotFoundErrorCode : string := "rma_model_not_found_error".
Definition NewModelNotFoundError : errawr :=
  built ModelSection "not_found_error" "Not found"
    "The resource you requested does not exist." ∅ (Some 404%Z).

Definition ModelReadErrorCode : string := "rma_model_read_error".
Definition NewModelReadError : errawr :=
  built ModelSection "read_error" "Read error" "We could not read this resource." ∅ None.

Definition ModelWriteErrorCode : string := "rma_model_write_error".
Definition NewModelWriteError : errawr :=
  built ModelSection "write_error" "Write error" "We could not persist this resource." ∅ None.

(** [errors.NewAPIResourceSerializationError] of the HTTP library. *)
Definition NewAPIResourceSerializationError : errawr :=
  ImplError (MkErrorBase (MkErrorDomain "hhttp" "Horsehead HTTP Library") APISection
    "resource_serialization_error" "Resource serialization error"
    "The resource you requested could not be serialized for the wire."
    "The resource you requested could not be serialized for the wire." ∅ None)
    ErrorSensitivityNone false [].

(** The error a handler writes; [decoding] is what the decoder says of a request's body. *)
Definition error_of_api (decoding : error) (e : api_error) : errawr :=
  match e with
  | ModelNotFoundError => NewModelNotFoundError
  | ModelAuthorizationError => NewModelAuthorizationError
  | ModelReadFailure cause => WithCause cause NewModelReadError
  | ModelWriteFailure cause => WithCause cause NewModelWriteError
  | ExpressionEvaluationError message => NewExpressionEvaluationError message
  | ConditionEvaluationBug message => Bug (NewExpressionEvaluationError message)
  | ExpressionUnresolvableError causes => NewExpressionUnresolvableError causes
  | ExpressionUnsupportedLanguageError lang => NewExpressionUnsupportedLanguageError lang
  | ConditionTypeError type => NewConditionTypeError type
  | APIMalformedRequestError => WithCause decoding NewAPIMalformedRequestError
  | APIUnknownRequestMediaTypeError ct => NewAPIUnknownRequestMediaTypeError ct
  end.

(** ** Writing responses

    The first status that is written is sent, with the header fields as they are then. *)
Record ResponseWriter := MkResponseWriter {
  Writer_Header : gmap string string; Sent : option (Z * gmap string string); Written : string }.
Definition set_header (k v : string) (w : ResponseWriter) : ResponseWriter :=
  MkResponseWriter (<[k := v]> (Writer_Header w)) (Sent w) (Written w).
Definition WriteHeader (status : Z) (w : ResponseWriter) : ResponseWriter :=
  match Sent w with
  | Some _ => w
  | None => MkResponseWriter (Writer_Header w) (Some (status, Writer_Header w)) (Written w)
  end.
Definition Write (data : string) (w : ResponseWriter) : ResponseWriter :=
  let w := WriteHeader 200 w in MkResponseWriter (Writer_Header w) (Sent w) (Written w +:+ data).

Section write.
Context `{ErrorText, GoFmt, JSONText} (sensitivity : ErrorSensitivity).

Definition WriteError (e : errawr) (w : ResponseWriter) : ResponseWriter :=
  let status := default 500%Z (HTTP e) in
  Write (json_print (NewErrorEnvelopeWithSensitivity sensitivity e) +:+ newline)
    (WriteHeader status (set_header "Content-Type" "application/json" w)).

(** None of the objects of the API have a cache key. *)
Definition WriteObjectWithStatus (status : Z) (object : result json) (w : ResponseWriter)
    : ResponseWriter :=
  match object with
  | Ok j => Write (json_print j) (WriteHeader status (set_header "Content-Type" "application/json" w))
  | Err e => WriteError (Bug (WithCause e NewAPIResourceSerializationError)) w
  | Panic _ => w
  end.
Definition WriteObjectOK : result json → ResponseWriter → ResponseWriter := WriteObjectWithStatus 200.

(** [http.Error] *)
Definition http_Error (text : string) (status : Z) (w : ResponseWriter) : ResponseWriter :=
  Write (text +:+ newline)
    (WriteHeader status (set_header "X-Content-Type-Options" "nosniff"
       (set_header "Content-Type" "text/plain; charset=utf-8" w))).
End write.

(** ** The envelopes of the API

    A result that is written without an envelope has the fields of its Go types; an error
    in it is written as its type has it. *)
Section bodies.
Context `{ErrorText, GoFmt, JSONText} (error_json : error → json).

Definition null_or {A} (f : A → json) (l : list A) : json :=
  match l with [] => JNull | _ => JArray (f <$> l) end.
Definition unresolvable_json (u : Unresolvable) : json :=
  json_object
    [("Data", null_or (λ d, json_object [json_field "Query" (Data_Query d)]) (Data u));
     ("Secrets", null_or (λ s, json_object [json_field "Name" (Secret_Name s)]) (Unresolvable.Secrets u));
     ("Connections", null_or (λ c, json_object [json_field "Type" (Connection_Type c);
                                      json_field "Name" (Connection_Name c)])
                       (Unresolvable.Connections u));
     ("Outputs", null_or (λ o, json_object [json_field "From" (Output_From o);
                                  json_field "Name" (Output_Name o)]) (Unresolvable.Outputs u));
     ("Parameters", null_or (λ p, json_object [json_field "Name" (Parameter_Name p)])
                      (Unresolvable.Parameters u));
     ("Answers", null_or (λ a, json_object [json_field "AskRef" (Answer_AskRef a);
                                  json_field "Name" (Answer_Name a)]) (Unresolvable.Answers u));
     ("Invocations", null_or (λ i, json_object [json_field "Name" (Invocation_Name i);
                                      ("Cause", error_json (Invocation_Cause i))])
                       (Unresolvable.Invocations u))].

Definition body_json (b : body) : result json :=
  match b with
  | BConditions success message =>
      Ok (json_object [("success", JBool success); json_field "message" message])
  | BResult env => envelope_marshal env
  | BEnvironment evs complete => envelope_marshal (MkEnvelope (VMap evs) JNull complete)
  | BRawResult r =>
      v ← json_marshal (Value r);
      Ok (json_object [("Value", v); ("Unresolvable", unresolvable_json (Unresolvables r))])
  | BOutput task key v =>
      v ← ji_marshal v;
      Ok (json_object [json_field "task_name" task; json_field "key" key; ("value", v)])
  | BSecret key v =>
      v ← json_marshal v; Ok (json_object [json_field "key" key; ("value", v)])
  | BState key v =>
      v ← ji_marshal v; Ok (json_object [json_field "key" key; ("value", v)])
  end.

Context (sensitivity : ErrorSensitivity) (decoding : error).

Definition write_response (w : ResponseWriter) (r : response) : ResponseWriter :=
  match r with
  | RespOK b => WriteObjectOK sensitivity (body_json b) w
  | RespError e => WriteError sensitivity (error_of_api decoding e) w
  | RespCreated => WriteHeader 201 w
  | RespAccepted => WriteHeader 202 w
  end.

Definition GetHealthz : ResponseWriter → ResponseWriter :=
  WriteObjectOK sensitivity (Ok (json_object [json_field "ping" "pong"])).

(** What is written for what the service answers. *)
Definition write_content (c : content) (w : ResponseWriter) : ResponseWriter :=
  match c with
  | Moved => WriteHeader 301 w
  | NotFound => http_Error "404 page not found" 404 w
  | MethodNotAllowed => WriteHeader 405 w
  | Unauthorized => http_Error "401 unauthorized" 401 w
  | InternalError => http_Error "500 internal server error" 500 w
  | Pong => GetHealthz w
  | Responses l => foldl write_response w l
  end.

(** What is sent when the handler returns. *)
Definition render (x : Exchange) : Z * gmap string string * string :=
  let w := write_content (Content x) (MkResponseWriter (Header_Set x) None "") in
  (default (200%Z, Writer_Header w) (Sent w), Written w).
End bodies.

(** Which error of the API it is. *)
Section kinds.
Context `{ErrorText, GoFmt}.
Definition IsAPIAuthenticationError : errawr → bool := Is APIAuthenticationErrorCode.
Definition IsAPIMalformedRequestError : errawr → bool := Is APIMalformedRequestErrorCode.
Definition IsAPIUnknownRequestMediaTypeError : errawr → bool := Is APIUnknownRequestMediaTypeErrorCode.
Definition IsConditionTypeError : errawr → bool := Is ConditionTypeErrorCode.
Definition IsExpressionEvaluationError : errawr → bool := Is ExpressionEvaluationErrorCode.
Definition IsExpressionUnresolvableError : errawr → bool := Is ExpressionUnresolvableErrorCode.
Definition IsExpressionUnsupportedLanguageError : errawr → bool :=
  Is ExpressionUnsupportedLanguageErrorCode.
Definition IsModelAuthorizationError : errawr → bool := Is ModelAuthorizationErrorCode.
Definition IsModelNotFoundError : errawr → bool := Is ModelNotFoundErrorCode.
Definition IsModelReadError : errawr → bool := Is ModelReadErrorCode.
Definition IsModelWriteError : errawr → bool := Is ModelWriteErrorCode.
End kinds.

(** The kinds tell the errors of the handlers apart. *)
Definition kinds `{ErrorText, GoFmt} : list (errawr → bool) :=
  [IsModelNotFoundError; IsModelAuthorizationError; IsModelReadError; IsModelWriteError;
   IsExpressionEvaluationError; IsExpressionUnresolvableError; IsExpressionUnsupportedLanguageError;
   IsConditionTypeError; IsAPIMalformedRequestError; IsAPIUnknownRequestMediaTypeError;
   IsAPIAuthenticationError].
Definition kind_index (e : api_error) : nat :=
  match e with
  | ModelNotFoundError => 0 | ModelAuthorizationError => 1 | ModelReadFailure _ => 2
  | ModelWriteFailure _ => 3 | ExpressionEvaluationError _ | ConditionEvaluationBug _ => 4
  | ExpressionUnresolvableError _ => 5 | ExpressionUnsupportedLanguageError _ => 6
  | ConditionTypeError _ => 7 | APIMalformedRequestError => 8
  | APIUnknownRequestMediaTypeError _ => 9
  end.
Lemma kinds_told_apart `{ErrorText, GoFmt} d e :
  (λ is_kind, is_kind (error_of_api d e)) <$> kinds
  = (λ i, bool_decide (i = kind_index e)) <$> seq 0 11.
Proof. by destruct e. Qed.

(** * Properties of what is written *)

(** The encoders fail, but do not panic. *)
Lemma sequence_map_no_panic {E A} (m : gmap string (outcome E A)) :
  map_Forall (λ _ r, no_panic r) m → no_panic (sequence_map m).
Proof.
  intros Hm. apply sequence_entries_no_panic, Forall_forall.
  intros [k r] Hkr%elem_of_map_to_list. by apply (Hm k).
Qed.

Section encoders.
Context `{JSONText}.

Lemma encoder_no_panic (f : value → result json) :
  (∀ v, is_leaf v = true → no_panic (f v)) →
  (∀ l, f (VSlice l) = (l' ← mapM f l; Ok (JArray l'))) →
  (∀ m, f (VMap m) = (m' ← sequence_map (f <$> m); Ok (JObject m'))) →
  ∀ v, no_panic (f v).
Proof.
  intros Hleaf Hl Hm v. induction v as [v Hv|l IH|m IH] using value_ind'; [by apply Hleaf|..].
  - rewrite Hl. apply bind_no_panic; [|intros; apply Ok_no_panic]. apply mapM_no_panic.
    by apply Forall_forall.
  - rewrite Hm. apply bind_no_panic; [|intros; apply Ok_no_panic].
    apply sequence_map_no_panic, map_Forall_fmap. exact IH.
Qed.
Lemma json_leaf_no_panic v : no_panic (json_leaf v).
Proof. intros x. unfold json_leaf. by destruct (format_leaf v). Qed.
Lemma json_marshal_no_panic v : no_panic (json_marshal v).
Proof.
  apply encoder_no_panic; [|done..]. intros [] Hv; try discriminate Hv;
    try (by apply json_leaf_no_panic); by intros x.
Qed.
Lemma ji_marshal_no_panic v : no_panic (ji_marshal v).
Proof.
  apply encoder_no_panic; [|done..]. intros [] Hv; try discriminate Hv;
    try (by apply json_marshal_no_panic).
  intros x. cbn. by destruct (EncodeJSON _).
Qed.
End encoders.

Section written.
Context `{ErrorText, GoFmt, JSONText} (error_json : error → json).
Implicit Types (w : ResponseWriter).

Lemma body_json_no_panic b : no_panic (body_json error_json b).
Proof.
  destruct b; cbn [body_json]; unfold envelope_marshal; try (by intros x);
    (apply bind_no_panic; [first [apply ji_marshal_no_panic|apply json_marshal_no_panic]
                          |intros; apply Ok_no_panic]).
Qed.

(** The status of a response that is the first one. *)
Definition error_status (e : api_error) : Z :=
  match e with
  | ModelNotFoundError => 404
  | ModelAuthorizationError => 403
  | ModelReadFailure _ | ModelWriteFailure _ | ConditionTypeError _ => 500
  | _ => 422
  end.
Definition response_status (r : response) : Z :=
  match r with
  | RespOK b => if is_ok (body_json error_json b) then 200 else 500
  | RespError e => error_status e
  | RespCreated => 201
  | RespAccepted => 202
  end.
Definition content_status (c : content) : Z :=
  match c with
  | Moved => 301 | NotFound => 404 | MethodNotAllowed => 405
  | Unauthorized => 401 | InternalError => 500 | Pong => 200
  | Responses [] => 200
  | Responses (r :: _) => response_status r
  end.

(** What was sent stays, and fields other than the writer's own are kept. *)
Definition own_field (k : string) : Prop := k = "Content-Type" ∨ k = "X-Content-Type-Options".
Definition kept_fields (hdr hdr' : gmap string string) : Prop := ∀ k, ¬ own_field k → hdr' !! k = hdr !! k.

Definition fresh_writer (hdr : gmap string string) : ResponseWriter := MkResponseWriter hdr None "".

Lemma WriteHeader_sent st w x : Sent w = Some x → WriteHeader st w = w.
Proof. unfold WriteHeader. by intros ->. Qed.
Lemma WriteHeader_spec st w :
  Sent (WriteHeader st w) = Some (default (st, Writer_Header w) (Sent w))
  ∧ Writer_Header (WriteHeader st w) = Writer_Header w.
Proof. unfold WriteHeader. by destruct (Sent w) as [x|] eqn:E; cbn; rewrite ?E. Qed.
Lemma Write_spec d w :
  Sent (Write d w) = Some (default (200%Z, Writer_Header w) (Sent w))
  ∧ Writer_Header (Write d w) = Writer_Header w.
Proof.
  unfold Write. cbn. destruct (WriteHeader_spec 200 w) as [-> ->]. done.
Qed.

Lemma sent_if_any st d w :
  Sent (Write d (WriteHeader st w)) = Some (default (st, Writer_Header w) (Sent w)).
Proof.
  destruct (WriteHeader_spec st w) as [E _]. destruct (Write_spec d (WriteHeader st w)) as [-> _].
  by rewrite E.
Qed.

(** What a response sends: its status, unless there is one. *)
Lemma write_response_sent s d r w :
  ∃ h, Sent (write_response error_json s d w r) = Some (default (response_status r, h) (Sent w))
    ∧ kept_fields (Writer_Header w) h.
Proof.
  assert (Hkeep : ∀ v, kept_fields (Writer_Header w) (<["Content-Type" := v]> (Writer_Header w))).
  { intros v k Hk. apply lookup_insert_ne. intros <-. apply Hk. by left. }
  assert (Herr : ∀ e, ∃ h, Sent (WriteError s e w) = Some (default (default 500%Z (HTTP e), h) (Sent w))
                        ∧ kept_fields (Writer_Header w) h).
  { intros e. eexists. split; [exact (sent_if_any _ _ (set_header _ _ w))|apply Hkeep]. }
  destruct r as [b|e| |]; cbn [write_response response_status].
  - unfold WriteObjectOK, WriteObjectWithStatus. assert (Hp := body_json_no_panic b).
    destruct (body_json error_json b) as [j|e|x]; [|apply Herr|by destruct (Hp x)].
    eexists. split; [exact (sent_if_any _ _ (set_header _ _ w))|apply Hkeep].
  - destruct (Herr (error_of_api d e)) as (h & E & Hh). exists h. split; [|done]. rewrite E.
    by destruct e.
  - eexists. split; [apply WriteHeader_spec|]. by intros k.
  - eexists. split; [apply WriteHeader_spec|]. by intros k.
Qed.
Lemma write_responses_sent s d l w x :
  Sent w = Some x → Sent (foldl (write_response error_json s d) w l) = Some x.
Proof.
  revert w. induction l as [|r l IH]; intros w Hx; [done|]. cbn. apply IH.
  destruct (write_response_sent s d r w) as (h & -> & _). by rewrite Hx.
Qed.

(** What status a request is answered with, from what the service does with it: that
    of its error, 500 for an object that cannot be encoded, and otherwise the first one
    that is written, whatever a handler goes on to write; and the header fields that
    were set before, those of security among them, are sent as they are, but for the
    type of the content. *)
Theorem answer_sent s d hdr c :
  let '(status, fields, _) := render error_json s d (MkExchange hdr c) in
  status = content_status c ∧ kept_fields hdr fields.
Proof.
  assert (Herr : ∀ t st, ∃ h, Sent (http_Error t st (fresh_writer hdr)) = Some (st, h) ∧ kept_fields hdr h).
  { intros t st. eexists.
    split; [exact (sent_if_any _ _ (set_header _ _ (set_header _ _ (fresh_writer hdr))))|]. intros k Hk. unfold own_field in Hk. cbn.
    rewrite !lookup_insert_ne by (intros <-; tauto). done. }
  assert (Hsent : ∃ h, default (200%Z, Writer_Header (write_content error_json s d c (fresh_writer hdr)))
      (Sent (write_content error_json s d c (fresh_writer hdr))) = (content_status c, h) ∧ kept_fields hdr h).
  { destruct c as [| | | | | |[|r l]]; cbn [write_content content_status].
    - exists hdr. by split.
    - destruct (Herr "404 page not found" 404%Z) as (h & -> & ?). by exists h.
    - exists hdr. by split.
    - destruct (Herr "401 unauthorized" 401%Z) as (h & -> & ?). by exists h.
    - destruct (Herr "500 internal server error" 500%Z) as (h & -> & ?). by exists h.
    - eexists. unfold GetHealthz, WriteObjectOK, WriteObjectWithStatus. rewrite sent_if_any.
      split; [done|]. intros k Hk. cbn. apply lookup_insert_ne. intros <-. apply Hk. by left.
    - exists hdr. by split.
    - destruct (write_response_sent s d r (fresh_writer hdr)) as (h & E & Hh). exists h. cbn [foldl].
      by erewrite write_responses_sent by exact E. }
  unfold render. cbv zeta. cbn [Header_Set Content].
  change (MkResponseWriter hdr None "") with (fresh_writer hdr).
  destruct Hsent as (h & -> & Hh). by split.
Qed.
End written.

(** ** What is not told *)
Section hidden.
Context `{ErrorText, GoFmt, JSONText} (error_json : error → json).

Definition same_type (e1 e2 : error) : Prop :=
  reflect_code e1 = reflect_code e2 ∧ reflect_title e1 = reflect_title e2.

(** Responses that differ in the inner errors they report: the failure of a manager, of
    the evaluation of a condition, or of the encoding of an object. *)
Inductive alike : response → response → Prop :=
| alike_same r : alike r r
| alike_read e1 e2 : same_type e1 e2 →
    alike (RespError (ModelReadFailure e1)) (RespError (ModelReadFailure e2))
| alike_write e1 e2 : same_type e1 e2 →
    alike (RespError (ModelWriteFailure e1)) (RespError (ModelWriteFailure e2))
| alike_condition m1 m2 :
    alike (RespError (ConditionEvaluationBug m1)) (RespError (ConditionEvaluationBug m2))
| alike_unencodable b1 b2 e1 e2 :
    body_json error_json b1 = Err e1 → body_json error_json b2 = Err e2 → alike (RespOK b1) (RespOK b2).

Lemma WriteError_alike s e1 e2 w :
  HTTP e1 = HTTP e2 → ForDisplayWithSensitivity s e1 = ForDisplayWithSensitivity s e2 →
  WriteError s e1 w = WriteError s e2 w.
Proof. unfold WriteError, NewErrorEnvelopeWithSensitivity. by intros -> ->. Qed.

Lemma cause_alike s e1 e2 :
  (s < ErrorSensitivityEdge)%Z → same_type e1 e2 →
  ForDisplayWithSensitivity s (GolangError e1) = ForDisplayWithSensitivity s (GolangError e2).
Proof.
  intros Hs [Hc Ht]. cbn [ForDisplayWithSensitivity ID].
  rewrite (proj2 (Z.ltb_lt _ _) Hs), Hc, Ht. done.
Qed.
Lemma caused_alike s b e1 e2 :
  (s < ErrorSensitivityEdge)%Z → same_type e1 e2 →
  ForDisplayWithSensitivity s (WithCause e1 (ImplError b ErrorSensitivityNone false []))
  = ForDisplayWithSensitivity s (WithCause e2 (ImplError b ErrorSensitivityNone false [])).
Proof.
  intros Hs Ht. cbn [WithCause app]. cbn [ForDisplayWithSensitivity fmap list_fmap].
  pose proof (cause_alike s e1 e2 Hs Ht) as E. cbn [ForDisplayWithSensitivity] in E. by rewrite E.
Qed.
(** A bug tells nothing but its code and title. *)
Lemma bug_alike s b1 b2 cs1 cs2 :
  (s < ErrorSensitivityBug)%Z → Error_Domain b1 = Error_Domain b2 → Error_Section b1 = Error_Section b2 →
  Error_Code b1 = Error_Code b2 → Error_Title b1 = Error_Title b2 →
  ForDisplayWithSensitivity s (Bug (ImplError b1 ErrorSensitivityNone false cs1))
  = ForDisplayWithSensitivity s (Bug (ImplError b2 ErrorSensitivityNone false cs2)).
Proof.
  intros Hs Hd Hc Hi Ht. cbn [Bug WithSensitivity].
  rewrite bool_decide_eq_true_2 by done. cbn [ForDisplayWithSensitivity].
  rewrite (proj2 (Z.ltb_lt _ _) Hs). unfold base_ID. by rewrite Hd, Hc, Hi, Ht.
Qed.

Lemma write_response_alike s d1 d2 r1 r2 w :
  (s < ErrorSensitivityEdge)%Z → same_type d1 d2 → alike r1 r2 →
  write_response error_json s d1 w r1 = write_response error_json s d2 w r2.
Proof.
  intros Hs Hd. assert (Hb : (s < ErrorSensitivityBug)%Z) by (unfold ErrorSensitivityBug, ErrorSensitivityEdge in *; lia).
  intros [r|e1 e2 He|e1 e2 He|m1 m2|b1 b2 e1 e2 E1 E2]; cbn [write_response].
  - destruct r as [b|[| | | | | | | | | |]| |];
      [reflexivity..| |reflexivity|reflexivity|reflexivity]. cbn [error_of_api].
    apply WriteError_alike; [done|]. by apply caused_alike.
  - apply WriteError_alike; [done|]. by apply caused_alike.
  - apply WriteError_alike; [done|]. by apply caused_alike.
  - apply WriteError_alike; [done|]. by apply bug_alike.
  - unfold WriteObjectOK, WriteObjectWithStatus. rewrite E1, E2.
    apply WriteError_alike; [done|]. by apply bug_alike.
Qed.

(** C12: With the sensitivity the service starts with, and any below that of the system's
    own components, a client learns of an inner error its type and nothing else: two
    requests that fail in a manager, in decoding a request, in evaluating a condition or
    in encoding an answer with other messages, arguments or causes, but errors of the
    same types, get the same status, header fields and bytes. *)
Theorem internal_errors_hidden s d1 d2 hdr l1 l2 :
  (s < ErrorSensitivityEdge)%Z → same_type d1 d2 → Forall2 alike l1 l2 →
  render error_json s d1 (MkExchange hdr (Responses l1))
  = render error_json s d2 (MkExchange hdr (Responses l2)).
Proof.
  intros Hs Hd Hl. unfold render. cbn [Header_Set Content write_content]. cbv zeta.
  assert (E : ∀ w, foldl (write_response error_json s d1) w l1 = foldl (write_response error_json s d2) w l2).
  { induction Hl as [|r1 r2 l1 l2 Hr _ IH]; intros w; [done|]. cbn [foldl].
    by rewrite (write_response_alike s d1 d2 r1 r2 w Hs Hd Hr). }
  by rewrite E.
Qed.
End hidden.

(** ** A failing manager, as a client sees it and in the debugging mode *)
#[local] Instance sample_text : ErrorText := {|
  formatWithArguments t _ := t; reflect_code _ := "errors_errorString";
  reflect_title _ := "*errors.errorString" |}.
Definition sample_render (s : ErrorSensitivity) (message : string) : Z * gmap string string * string :=
  @render sample_text sample_fmt tree_json (λ _, JNull) s ENotEncodable
    (MkExchange ∅ (Responses [RespError (ModelReadFailure (EText message))])).

Lemma internal_errors_hidden_witness :
  (0 < 100)%Z ∧ sample_render ErrorSensitivityNone "vault token s.123 expired"
                = sample_render ErrorSensitivityNone "connection refused".
Proof.
  split; [reflexivity|].
  apply (@internal_errors_hidden sample_text sample_fmt tree_json (λ _, JNull) ErrorSensitivityNone
    ENotEncodable ENotEncodable ∅ [RespError (ModelReadFailure (EText "vault token s.123 expired"))]
    [RespError (ModelReadFailure (EText "connection refused"))]).
  - reflexivity.
  - split; reflexivity.
  - repeat constructor.
Defined.
Lemma internal_errors_shown :
  sample_render ErrorSensitivityAll "vault token s.123 expired"
  ≠ sample_render ErrorSensitivityAll "connection refused".
Proof. vm_compute. intros H. discriminate H. Qed.
