(* ===== verification/Service.v ===== *)
(** * The process of the metadata service (pkg/metadataapi/opt, pkg/util/lifecycleutil)

    The configuration that is read from the environment, the clients that are made of it,
    and the listener that is closed when the process is told to end. *)
From S2P Require Import Prelude GoStd GoStrings Values Errors Transfer Model ConfigMaps.
From S2P Require Import Yaml Query Authenticate AuthKubernetes MetadataApi MetadataServer.
From S2P Require Import APIErrors.
From stdpp Require Import pretty.

(** ** Reading the environment (viper, cast)

    A variable that is empty counts as not set. *)
Definition upper_ascii (c : ascii) : ascii :=
  let n := N_of_ascii c in
  if bool_decide (97 ≤ n ≤ 122)%N then ascii_of_N (n - 32) else c.
Fixpoint ToUpper (s : string) : string :=
  match s with "" => "" | String c s => String (upper_ascii c) (ToUpper s) end.

Inductive viper_value := FromEnv (s : string) | Default (v : string + Z).
Record Viper := MkViper {
  envPrefix : string; bound : gmap string string; defaults : gmap string (string + Z) }.

Definition BindEnv (key envkey : string) (v : Viper) : Viper :=
  MkViper (envPrefix v) (<[key := envkey]> (bound v)) (defaults v).
Definition SetDefault (key : string) (x : string + Z) (v : Viper) : Viper :=
  MkViper (envPrefix v) (bound v) (<[key := x]> (defaults v)).

(** [strconv.ParseInt(s, 0, 0)]: a prefix gives the base, and underscores may then separate
    digits. *)
Definition digit_value (c : ascii) : option Z :=
  let n := Z.of_N (N_of_ascii c) in
  if bool_decide (48 ≤ n ≤ 57)%Z then Some (n - 48)%Z
  else if bool_decide (97 ≤ n ≤ 122)%Z then Some (n - 87)%Z
  else if bool_decide (65 ≤ n ≤ 90)%Z then Some (n - 55)%Z
  else None.
Fixpoint digits_in (base n : Z) (s : string) : option Z :=
  match s with
  | "" => Some n
  | String "_" s => digits_in base n s
  | String c s =>
      match digit_value c with
      | Some d => if bool_decide (d < base)%Z then digits_in base (n * base + d)%Z s else None
      | None => None
      end
  end.
Definition base_of (s : string) : Z * string :=
  match s with
  | String "0" (String c rest) =>
      let rest3 := match rest with "" => false | _ => true end in
      if rest3 && (Ascii.eqb c "b" || Ascii.eqb c "B") then (2%Z, rest)
      else if rest3 && (Ascii.eqb c "o" || Ascii.eqb c "O") then (8%Z, rest)
      else if rest3 && (Ascii.eqb c "x" || Ascii.eqb c "X") then (16%Z, rest)
      else (8%Z, String c rest)
  | s => (10%Z, s)
  end.
(** [last] is what came before: a digit or a prefix, an underscore, or something else. *)
Inductive separator := AfterDigit | AfterUnderscore | AfterOther.
Fixpoint underscores_ok (hex : bool) (last : separator) (s : string) : bool :=
  match s with
  | "" => match last with AfterUnderscore => false | _ => true end
  | String "_" s =>
      match last with AfterDigit => underscores_ok hex AfterUnderscore s | _ => false end
  | String c s =>
      let digit := match digit_value c with
                   | Some d => bool_decide (d < 10)%Z || (hex && bool_decide (d < 16)%Z)
                   | None => false
                   end in
      if digit then underscores_ok hex AfterDigit s
      else match last with AfterUnderscore => false | _ => underscores_ok hex AfterOther s end
  end.
Definition underscoreOK (s : string) : bool :=
  match s with
  | String "0" (String c rest) =>
      let hex := Ascii.eqb c "x" || Ascii.eqb c "X" in
      if Ascii.eqb c "b" || Ascii.eqb c "B" || Ascii.eqb c "o" || Ascii.eqb c "O" || hex
      then underscores_ok hex AfterDigit rest else underscores_ok false AfterOther s
  | s => underscores_ok false AfterOther s
  end.
Definition unsigned_text (s : string) : bool * string :=
  match s with
  | String "+" s => (false, s)
  | String "-" s => (true, s)
  | s => (false, s)
  end.
Definition ParseInt (s : string) : option Z :=
  let '(neg, digits) := unsigned_text s in
  match digits with
  | "" => None
  | _ =>
      let '(base, text) := base_of digits in
      n ← digits_in base 0 text;
      if string_elem "_" digits && negb (underscoreOK digits) then None
      else
        let n := if neg : bool then (- n)%Z else n in
        if bool_decide (- 2^63 ≤ n < 2^63)%Z then Some n else None
  end.

(** [strconv.ParseBool]; another text is false. *)
Definition ParseBool (s : string) : bool :=
  existsb (String.eqb s) ["1"; "t"; "T"; "TRUE"; "true"; "True"].

(** [strings.Fields]: the words between the white space of Unicode. *)
Definition space_at (s : string) : option string :=
  snd <$> list_find (λ sp, has_prefix sp s = true) unicode_spaces.
Fixpoint fields_from (fuel : nat) (s word : string) : list string :=
  let ended rest := match word with "" => rest | _ => word :: rest end in
  match fuel, s with
  | O, _ | _, "" => ended []
  | S fuel, String c rest =>
      match space_at s with
      | Some sp => ended (fields_from fuel (drop_string (String.length sp) s) "")
      | None => fields_from fuel rest (word +:+ String c "")
      end
  end.
Definition Fields (s : string) : list string := fields_from (S (String.length s)) s "".

Section environment.
Context (Getenv : string → string).

Definition getEnv (key : string) : option string :=
  match Getenv key with "" => None | v => Some v end.
Definition viper_find (v : Viper) (key : string) : option viper_value :=
  match getEnv (ToUpper (envPrefix v +:+ "_" +:+ key)) with
  | Some s => Some (FromEnv s)
  | None =>
      match bound v !! key ≫= getEnv with
      | Some s => Some (FromEnv s)
      | None => Default <$> defaults v !! key
      end
  end.
Definition GetString (v : Viper) (key : string) : string :=
  match viper_find v key with
  | Some (FromEnv s) | Some (Default (inl s)) => s
  | Some (Default (inr n)) => pretty n
  | None => ""
  end.
Definition GetBool (v : Viper) (key : string) : bool :=
  match viper_find v key with
  | Some (FromEnv s) | Some (Default (inl s)) => ParseBool s
  | Some (Default (inr n)) => negb (Z.eqb n 0)
  | None => false
  end.
Definition GetInt (v : Viper) (key : string) : Z :=
  match viper_find v key with
  | Some (FromEnv s) | Some (Default (inl s)) => default 0%Z (ParseInt s)
  | Some (Default (inr n)) => n
  | None => 0%Z
  end.
Definition GetStringSlice (v : Viper) (key : string) : list string :=
  match viper_find v key with
  | Some (FromEnv s) | Some (Default (inl s)) => Fields s
  | Some (Default (inr n)) => [pretty n]
  | None => []
  end.
End environment.

Example fields_words : Fields "a.yaml  b.yaml" = ["a.yaml"; "b.yaml"].
Proof. vm_compute. reflexivity. Qed.
Example parse_bases :
  ParseInt <$> ["7000"; "0x1F"; "0o17"; "017"; "-5"; "1_000"; "1__0"; "9223372036854775808"]
  = [Some 7000; Some 31; Some 15; Some 15; Some (-5); Some 1000; None; None]%Z.
Proof. vm_compute. reflexivity. Qed.

(** ** The configuration *)
Definition DefaultListenPort : Z := 7000.
Definition DefaultVaultURL : string := "http://localhost:8200".
Definition DefaultKubernetesAutomountTokenFile : string :=
  "/var/run/secrets/kubernetes.io/serviceaccount/token".
Definition DefaultKubernetesAutomountCAFile : string :=
  "/var/run/secrets/kubernetes.io/serviceaccount/ca.crt".

Record Config := MkConfig {
  Debug_ : bool; Environment : string; ListenPort : Z; TLSKeyFile : string;
  TLSCertificateFile : string; VaultTransitURL : string; VaultTransitToken : string;
  VaultTransitPath : string; VaultTransitKey : string; VaultAuthURL : string;
  VaultAuthPath : string; VaultAuthRole : string; KubernetesURL : string;
  KubernetesCAData : string; KubernetesServiceAccountToken : string;
  SampleConfigFiles : list string; SampleHS256SigningKey : string; SentryDSN : string }.

Section config.
Context (Getenv : string → string).

Definition NewConfig : Config :=
  let v := MkViper "relay_metadata_api" ∅ ∅ in
  let v := SetDefault "vault_addr" (inl DefaultVaultURL) (BindEnv "vault_addr" "VAULT_ADDR" v) in
  let v := BindEnv "vault_token" "VAULT_TOKEN" v in
  let v := SetDefault "listen_port" (inr DefaultListenPort) (SetDefault "environment" (inl "dev") v) in
  let v := SetDefault "vault_transit_url" (inl (GetString Getenv v "vault_addr")) v in
  let v := SetDefault "vault_transit_token" (inl (GetString Getenv v "vault_token")) v in
  let v := SetDefault "vault_transit_path" (inl "transit") v in
  let v := SetDefault "vault_transit_key" (inl "metadata-api") v in
  let v := SetDefault "vault_auth_url" (inl (GetString Getenv v "vault_addr")) v in
  let v := SetDefault "vault_auth_path" (inl "auth/jwt") v in
  let text := GetString Getenv v in
  MkConfig (GetBool Getenv v "debug") (text "environment") (GetInt Getenv v "listen_port")
    (text "tls_key_file") (text "tls_certificate_file") (text "vault_transit_url")
    (text "vault_transit_token") (text "vault_transit_path") (text "vault_transit_key")
    (text "vault_auth_url") (text "vault_auth_path") (text "vault_auth_role")
    (text "kubernetes_url") (text "kubernetes_ca_data") (text "kubernetes_service_account_token")
    (GetStringSlice Getenv v "sample_config_files") (text "sample_hs256_signing_key")
    (text "sentry_dsn").

(** ** Kubernetes clients *)

(** The address of a URL of a host: of what may not be in it, the bytes are escaped. *)
Definition host_char (c : ascii) : string :=
  if unreserved c || string_elem c "!$&'()*+,;=:[]<>" || Ascii.eqb c (ascii_of_N 34) then String c ""
  else String "%" (String (upper_hex (N_of_ascii c / 16)) (String (upper_hex (N_of_ascii c mod 16)) "")).
Fixpoint escape_host (s : string) : string :=
  match s with "" => "" | String c s => host_char c +:+ escape_host s end.
Definition JoinHostPort (host port : string) : string :=
  if string_elem ":" host then "[" +:+ host +:+ "]:" +:+ port else host +:+ ":" +:+ port.

Definition kubernetesInClusterHost : option string :=
  let host := Getenv "KUBERNETES_SERVICE_HOST" in
  let port := Getenv "KUBERNETES_SERVICE_PORT" in
  if String.eqb host "" || String.eqb port "" then None
  else Some ("https://" +:+ escape_host (JoinHostPort host port)).

(** [rest.Config] *)
Record RestConfig := MkRestConfig {
  Host : string; CAData : string; CAFile : string; BearerToken : string; BearerTokenFile : string }.
Definition ErrNotInCluster : error :=
  EText "unable to load in-cluster configuration, KUBERNETES_SERVICE_HOST and KUBERNETES_SERVICE_PORT must be defined".

(** The certificates of a file can be read; the text of a file. *)
Context {W : Type} (NewPool : string → io W unit) (ReadFile : string → io W string).
Context (c : Config).

Definition kubernetesClientConfig : io W RestConfig :=
  cfg ← lift (match KubernetesURL c, kubernetesInClusterHost with
              | "", None => Err ErrNotInCluster
              | "", Some host => Ok (MkRestConfig host (KubernetesCAData c) "" "" "")
              | url, _ => Ok (MkRestConfig url (KubernetesCAData c) "" "" "")
              end);
  match CAData cfg with
  | "" =>
      match kubernetesInClusterHost with
      | None => lift (Err ErrNotInCluster)
      | Some _ =>
          _ ← NewPool DefaultKubernetesAutomountCAFile;
          mret (MkRestConfig (Host cfg) (CAData cfg) DefaultKubernetesAutomountCAFile "" "")
      end
  | _ => mret cfg
  end.

(** The clients are made of configurations by the library. *)
Definition KubernetesClientFactory (token : string) : io W RestConfig :=
  cfg ← kubernetesClientConfig;
  mret (MkRestConfig (Host cfg) (CAData cfg) (CAFile cfg) token (BearerTokenFile cfg)).

Definition KubernetesClient : io W RestConfig :=
  cfg ← kubernetesClientConfig;
  match KubernetesServiceAccountToken c with
  | "" =>
      match kubernetesInClusterHost with
      | None => lift (Err ErrNotInCluster)
      | Some _ =>
          b ← ReadFile DefaultKubernetesAutomountTokenFile;
          mret (MkRestConfig (Host cfg) (CAData cfg) (CAFile cfg) b DefaultKubernetesAutomountTokenFile)
      end
  | token => mret (MkRestConfig (Host cfg) (CAData cfg) (CAFile cfg) token (BearerTokenFile cfg))
  end.
End config.

(** The sensitivity the process gives to its server (cmd/relay-metadata-api). *)
Definition server_sensitivity (c : Config) : ErrorSensitivity :=
  if Debug_ c then ErrorSensitivityAll else ErrorSensitivityNone.

(** * Properties of the configuration *)

(** Without a setting of its own, a Vault client uses the common one, and then the default. *)
Definition first_of (Getenv : string → string) (keys : list string) (last : string) : string :=
  default last (head (omap (getEnv Getenv) keys)).
Lemma vault_settings Getenv :
  let c := NewConfig Getenv in
  VaultTransitURL c = first_of Getenv ["RELAY_METADATA_API_VAULT_TRANSIT_URL";
                        "RELAY_METADATA_API_VAULT_ADDR"; "VAULT_ADDR"] DefaultVaultURL
  ∧ VaultAuthURL c = first_of Getenv ["RELAY_METADATA_API_VAULT_AUTH_URL";
                       "RELAY_METADATA_API_VAULT_ADDR"; "VAULT_ADDR"] DefaultVaultURL
  ∧ VaultTransitToken c = first_of Getenv ["RELAY_METADATA_API_VAULT_TRANSIT_TOKEN";
                            "RELAY_METADATA_API_VAULT_TOKEN"; "VAULT_TOKEN"] "".
Proof.
  unfold NewConfig, first_of. cbn [VaultTransitURL VaultAuthURL VaultTransitToken].
  unfold GetString, viper_find. cbn -[getEnv ToUpper].
  repeat match goal with |- context [ToUpper ?x] =>
    let y := eval vm_compute in (ToUpper x) in change (ToUpper x) with y end.
  cbn [bound defaults BindEnv SetDefault envPrefix].
  repeat (rewrite lookup_insert_eq || rewrite lookup_insert_ne by done || rewrite lookup_empty).
  cbn -[getEnv]. repeat split; repeat (match goal with |- context [getEnv ?g ?k] =>
    let E := fresh "E" in destruct (getEnv g k) eqn:E; cbn -[getEnv] end); reflexivity.
Qed.

(** The client of a request has the token of the request, and depends on no token of the
    service; the service's own client has its token, or in a cluster the mounted one. *)
Section clients.
Context (Getenv : string → string) {W : Type} (NewPool : string → io W unit).
Context (ReadFile : string → io W string).

Lemma factory_token c token w cfg w' :
  KubernetesClientFactory Getenv NewPool c token w = (Ok cfg, w') →
  BearerToken cfg = token ∧ BearerTokenFile cfg = ""
  ∧ Host cfg = (match KubernetesURL c with "" => default "" (kubernetesInClusterHost Getenv) | u => u end)
  ∧ (CAData cfg = "" ↔ CAFile cfg = DefaultKubernetesAutomountCAFile).
Proof.
  unfold KubernetesClientFactory, kubernetesClientConfig. rewrite !effect_bind_run.
  destruct (KubernetesURL c) as [|u us], (kubernetesInClusterHost Getenv) as [host|]; try done;
    cbn [lift CAData]; destruct (KubernetesCAData c) as [|a b]; try done;
    rewrite ?effect_bind_run;
    try (destruct (NewPool _ w) as [[[]|e|x] w1]; try done);
    intros [= <- _]; cbn; split_and!; try done; naive_solver.
Qed.
Lemma own_token c w cfg w' :
  KubernetesClient Getenv NewPool ReadFile c w = (Ok cfg, w') →
  (BearerToken cfg = KubernetesServiceAccountToken c ∧ KubernetesServiceAccountToken c ≠ "")
  ∨ (KubernetesServiceAccountToken c = "" ∧ is_Some (kubernetesInClusterHost Getenv)
     ∧ BearerTokenFile cfg = DefaultKubernetesAutomountTokenFile
     ∧ ∃ w1, ReadFile DefaultKubernetesAutomountTokenFile w1 = (Ok (BearerToken cfg), w')).
Proof.
  unfold KubernetesClient. rewrite effect_bind_run.
  destruct (kubernetesClientConfig _ _ _ w) as [[cfg1|e|x] w1]; try done.
  destruct (KubernetesServiceAccountToken c) as [|a b].
  - destruct (kubernetesInClusterHost Getenv) as [host|]; [|done]. rewrite effect_bind_run.
    destruct (ReadFile _ w1) as [[t|e|x] w2] eqn:E; try done. intros [= <- <-]. right.
    split_and!; eauto.
  - intros [= <- _]. left. by split.
Qed.
End clients.

(** Without the debugging mode, what the process writes has the default sensitivity. *)
Lemma sensitivity_default Getenv :
  Getenv "RELAY_METADATA_API_DEBUG" = "" →
  (server_sensitivity (NewConfig Getenv) < ErrorSensitivityEdge)%Z.
Proof.
  intros E. unfold server_sensitivity. cbn [NewConfig Debug_]. unfold GetBool, viper_find.
  change (ToUpper _) with "RELAY_METADATA_API_DEBUG". unfold getEnv. by rewrite E.
Qed.

(** * Closing a listener (pkg/util/lifecycleutil, horsehead's lifecycle)

    [ListenWaitHTTP] starts a function that waits for the process to be told to end, and
    those of its options; when all of them have returned, what must be closed is closed
    in its order, the server first.  The functions run concurrently: a state says how far
    each has come, and the steps are those of any of them. *)
Inductive when_phase :=
| Running
| Emitting (e : option error)   (* it returned, and the common context is cancelled *)
| Taken.                         (* the waiter has its error *)
Inductive closer_phase :=
| Waits
| Closes (next : nat)            (* the next required function *)
| Closed_.
Inductive listener :=
| Listens
| Awaits                         (* the server was shut down *)
| Failed (e : error)             (* listening failed *)
| Returned (r : list error).     (* what the closer collected; none is nil *)

Record Life := MkLife {
  cancelled : bool; common_cancelled : bool; whens : list when_phase; taken : nat;
  errs : list error; closer : closer_phase; shutdown : bool; main_ : listener;
  closings : list nat }.

Section lifecycle.
(** The numbers of the functions that are waited for and of those that close; the first
    of each is [ListenWaitHTTP]'s own. *)
Context (nwhens nreqs : nat).

Definition Build_life : Life :=
  MkLife false false (replicate nwhens Running) 0 [] Waits false Listens [].

Definition with_error (e : option error) (l : list error) : list error :=
  match e with Some e => l ++ [e] | None => l end.

Inductive life_step : Life → Life → Prop :=
| life_cancel c cc ws n es cl sh m k :
    life_step (MkLife c cc ws n es cl sh m k) (MkLife true cc ws n es cl sh m k)
| life_when i e c cc ws n es cl sh m k :
    ws !! i = Some Running → (i = 0 → (c = true ∨ cc = true) ∧ e = None) →
    life_step (MkLife c cc ws n es cl sh m k) (MkLife c true (<[i := Emitting e]> ws) n es cl sh m k)
| life_take e c cc ws n es sh m k :
    ws !! n = Some (Emitting e) →
    life_step (MkLife c cc ws n es Waits sh m k)
      (MkLife c cc (<[n := Taken]> ws) (S n) (with_error e es) Waits sh m k)
| life_do c cc ws es sh m k :
    life_step (MkLife c cc ws nwhens es Waits sh m k) (MkLife c true ws nwhens es (Closes 0) sh m k)
| life_require r e c cc ws n es sh m k :
    r < nreqs →
    life_step (MkLife c cc ws n es (Closes r) sh m k)
      (MkLife c cc ws n (with_error e es) (Closes (S r)) (sh || bool_decide (r = 0)) m (k ++ [r]))
| life_closed c cc ws n es sh m k :
    life_step (MkLife c cc ws n es (Closes nreqs) sh m k) (MkLife c cc ws n es Closed_ sh m k)
| life_listen_error e c cc ws n es cl k :
    life_step (MkLife c cc ws n es cl false Listens k) (MkLife c cc ws n es cl false (Failed e) k)
| life_server_closed c cc ws n es cl k :
    life_step (MkLife c cc ws n es cl true Listens k) (MkLife c cc ws n es cl true Awaits k)
| life_return c cc ws n es sh k :
    life_step (MkLife c cc ws n es Closed_ sh Awaits k)
      (MkLife c cc ws n es Closed_ sh (Returned es) k).

(** A function of the options has returned. *)
Definition ended_by_option (s : Life) : Prop :=
  ∃ i ph, 0 < i ∧ whens s !! i = Some ph ∧ ph ≠ Running.

(** What holds along the way. *)
Record life_ok (s : Life) : Prop := {
  life_length : length (whens s) = nwhens;
  life_taken : taken s ≤ nwhens ∧ ∀ i, i < nwhens → whens s !! i = Some Taken ↔ i < taken s;
  life_closing : closer s ≠ Waits → taken s = nwhens;
  life_order : closings s = match closer s with
                            | Waits => [] | Closes r => seq 0 r | Closed_ => seq 0 nreqs end
               ∧ (∀ r, closer s = Closes r → r ≤ nreqs);
  life_shutdown : shutdown s = bool_decide (0 ∈ closings s);
  life_cause : common_cancelled s = true →
    cancelled s = true ∨ ended_by_option s ∨ taken s = nwhens;
  life_first : ∀ ph, whens s !! 0 = Some ph → ph ≠ Running → cancelled s = true ∨ ended_by_option s;
  life_awaits : main_ s = Awaits → shutdown s = true;
  life_main : ∀ r, main_ s = Returned r → closer s = Closed_ ∧ r = errs s }.

Hypothesis (Hwhens : 0 < nwhens).

Lemma Build_ok : life_ok Build_life.
Proof.
  split; cbn; try done.
  - apply length_replicate.
  - split; [lia|]. intros i Hi. split; [|lia]. by rewrite lookup_replicate_2.
  - intros ph Hph%lookup_replicate_1 Hn. by destruct Hph as [-> _].
Qed.

Lemma ended_more c c' cc cc' ws n n' es es' cl cl' sh sh' m m' k k' i ph :
  ws !! i = Some Running ∨ ph ≠ Running →
  ended_by_option (MkLife c cc ws n es cl sh m k) →
  ended_by_option (MkLife c' cc' (<[i := ph]> ws) n' es' cl' sh' m' k').
Proof.
  intros Hi (j & ph' & Hj & E & Hph). cbn in E. destruct (decide (i = j)) as [->|Hne].
  - destruct Hi as [Hi|Hi]; [congruence|]. exists j, ph. cbn. split_and!; [done| |done].
    apply list_lookup_insert_eq. by eapply lookup_lt_Some.
  - exists j, ph'. cbn. by rewrite list_lookup_insert_ne.
Qed.

(** Why a function that was waiting could return. *)
Lemma when_cause i e c cc ws n es cl sh m k :
  life_ok (MkLife c cc ws n es cl sh m k) →
  ws !! i = Some Running → (i = 0 → (c = true ∨ cc = true) ∧ e = None) →
  c = true ∨ ended_by_option (MkLife c true (<[i := Emitting e]> ws) n es cl sh m k).
Proof.
  intros [Hl [Ht Htk] Hc [Ho Hr] Hs Hcc Hf Ha Hm] Hi Hz. cbn in *.
  destruct (decide (i = 0)) as [->|Hne].
  - destruct (Hz eq_refl) as [[?|Ecc] _]; [by left|].
    destruct (Hcc Ecc) as [?|[He|En]]; [by left| |].
    + right. eapply ended_more; [by left|exact He].
    + assert (ws !! 0 = Some Taken) by (apply Htk; lia). congruence.
  - right. exists i, (Emitting e). cbn. split_and!; [lia| |done].
    apply list_lookup_insert_eq. by eapply lookup_lt_Some.
Qed.

Lemma life_step_ok s s' : life_ok s → life_step s s' → life_ok s'.
Proof.
  intros Hok Hst. assert (Hok' := Hok). destruct Hok' as [Hl [Ht Htk] Hc [Ho Hr] Hs Hcc Hf Ha Hm].
  destruct Hst as [c cc ws n es cl sh m k|i e c cc ws n es cl sh m k Hi Hz|e c cc ws n es sh m k Hn
    |c cc ws es sh m k|r e c cc ws n es sh m k Hlt|c cc ws n es sh m k|e c cc ws n es cl k
    |c cc ws n es cl k|c cc ws n es sh k]; cbn in *.
  - split; cbn; auto.
  - assert (i < nwhens) by (rewrite <- Hl; by eapply lookup_lt_Some).
    assert (Hcause := when_cause _ _ _ _ _ _ _ _ _ _ _ Hok Hi Hz). split; cbn; auto.
    + by rewrite length_insert.
    + split; [done|]. intros j Hj. destruct (decide (i = j)) as [->|Hne].
      * rewrite list_lookup_insert_eq by lia. rewrite <- Htk by done. split; congruence.
      * rewrite list_lookup_insert_ne by done. auto.
    + intros _. tauto.
  - assert (n < nwhens) by (rewrite <- Hl; by eapply lookup_lt_Some).
    assert (Hmore : ended_by_option (MkLife c cc ws n es Waits sh m k) →
        ended_by_option (MkLife c cc (<[n := Taken]> ws) (S n) (with_error e es) Waits sh m k))
      by (apply ended_more; by right).
    split; cbn; auto.
    + by rewrite length_insert.
    + split; [lia|]. intros j Hj. destruct (decide (n = j)) as [->|Hne].
      * rewrite list_lookup_insert_eq by lia. split; [lia|done].
      * rewrite list_lookup_insert_ne, Htk by done. lia.
    + done.
    + intros Ecc. destruct (Hcc Ecc) as [?|[?|?]]; [by left|auto|lia].
    + intros ph Hph Hne. destruct (decide (n = 0)) as [->|Hn0].
      * destruct (Hf _ Hn) as [?|?]; [done|by left|auto].
      * rewrite list_lookup_insert_ne in Hph by done. destruct (Hf _ Hph Hne); auto.
    + intros r Er. by destruct (Hm r Er).
  - split; cbn; auto.
    + split; [done|]. intros r [= <-]. lia.
    + intros r Er. by destruct (Hm r Er).
  - split; cbn; auto.
    + split; [change (0 :: seq 1 r) with (seq 0 (S r)); by rewrite Ho, seq_S|].
      intros r' [= <-]. lia.
    + rewrite Hs. apply eq_true_iff_eq. rewrite orb_true_iff, !bool_decide_eq_true, elem_of_app,
        list_elem_of_singleton. naive_solver.
    + intros Em. by rewrite (Ha Em).
    + intros r' Er. by destruct (Hm r' Er).
  - split; cbn; auto.
    + by split.
    + intros r' Er. by destruct (Hm r' Er).
  - split; cbn; auto; done.
  - split; cbn; auto; done.
  - split; cbn; auto; try done. intros r [= <-]. done.
Qed.

(** ** A graceful end *)
Inductive life_steps : Life → Life → Prop :=
| life_steps_nil s : life_steps s s
| life_steps_cons s s1 s2 : life_steps s s1 → life_step s1 s2 → life_steps s s2.

Lemma life_steps_ok s : life_steps Build_life s → life_ok s.
Proof.
  intros H. remember Build_life as s0 eqn:E0. induction H as [|s s1 s2 H IH H1]; subst.
  - apply Build_ok.
  - eapply life_step_ok; [by apply IH|done].
Qed.

(** What is left to do. *)
Definition phase_left (ph : when_phase) : nat :=
  match ph with Running => 2 | Emitting _ => 1 | Taken => 0 end.
Definition life_left (s : Life) : nat :=
  sum_list_with phase_left (whens s)
  + match closer s with Waits => nreqs + 2 | Closes r => S (nreqs - r) | Closed_ => 0 end
  + match main_ s with Listens => 2 | Awaits => 1 | _ => 0 end.
Definition told (s : Life) : Life :=
  MkLife true (common_cancelled s) (whens s) (taken s) (errs s) (closer s) (shutdown s) (main_ s)
    (closings s).

Lemma phase_left_insert ws i ph ph' :
  ws !! i = Some ph → phase_left ph' < phase_left ph →
  sum_list_with phase_left (<[i := ph']> ws) < sum_list_with phase_left ws.
Proof.
  revert i. induction ws as [|x ws IH]; intros [|i] Hi Hlt; try done; cbn in *.
  - injection Hi as ->. lia.
  - apply Nat.add_lt_mono_l. by apply IH.
Qed.
Lemma step_left s s' : life_step s s' → s' = told s ∨ life_left s' < life_left s.
Proof.
  intros [c cc ws n es cl sh m k|i e c cc ws n es cl sh m k Hi Hz|e c cc ws n es sh m k Hn
    |c cc ws es sh m k|r e c cc ws n es sh m k Hlt|c cc ws n es sh m k|e c cc ws n es cl k
    |c cc ws n es cl k|c cc ws n es sh k]; [by left|right..]; unfold life_left; cbn [whens closer main_];
    try lia.
  - assert (H := phase_left_insert _ _ _ (Emitting e) Hi). cbn in H. lia.
  - assert (H := phase_left_insert _ _ _ Taken Hn). cbn in H. lia.
Qed.

Definition main_done (s : Life) : Prop :=
  match main_ s with Failed _ | Returned _ => True | _ => False end.

Hypothesis (Hreqs : 0 < nreqs).
Lemma life_progress s :
  life_ok s → cancelled s = true → (∀ i, 0 < i → whens s !! i ≠ Some Running) → ¬ main_done s →
  ∃ s', life_step s s' ∧ s' ≠ told s.
Proof.
  intros [Hl [Ht Htk] Hc [Ho Hr] Hs Hcc Hf Ha Hm] Hca Hopt Hd.
  destruct s as [c cc ws n es cl sh m k]. cbn in *. subst c. destruct cl as [|r|].
  - destruct (decide (n = nwhens)) as [->|Hn].
    + eexists. split; [apply life_do|]. intros [=].
    + destruct (ws !! n) as [ph|] eqn:En; [|apply lookup_ge_None_1 in En; lia].
      destruct ph as [|e|].
      * destruct (decide (n = 0)) as [->|Hn0]; [|by destruct (Hopt n); [lia|]].
        exists (MkLife true true (<[0 := Emitting None]> ws) 0 es Waits sh m k). split.
        -- by apply life_when; auto.
        -- intros [= _ E]. assert (E' : <[0 := Emitting None]> ws !! 0 = ws !! 0) by (by rewrite E).
           rewrite En, list_lookup_insert_eq in E'; [done|by eapply lookup_lt_Some].
      * eexists. split; [by eapply life_take|]. intros [= E]. lia.
      * apply Htk in En; [lia|]. rewrite <- Hl. by eapply lookup_lt_Some.
  - destruct (decide (r = nreqs)) as [->|Hne].
    + eexists. split; [apply life_closed|]. intros [=].
    + assert (r < nreqs) by (specialize (Hr r eq_refl); lia). eexists.
      split; [by apply (life_require r None)|]. intros [= E]. lia.
  - assert (sh = true) as ->.
    { rewrite Hs, Ho. apply bool_decide_eq_true, elem_of_seq. lia. }
    destruct m as [| |e|r]; [| |by destruct Hd..]; eexists.
    + split; [apply life_server_closed|]. intros [=].
    + split; [apply life_return|]. intros [=].
Qed.

(** C29: The listener is closed gracefully: the server is shut down only once the process
    was told to end, or a function of the options returned, and after every function that
    is waited for has returned; what must be closed is closed once and in its order, the
    server first; and the call returns before all of it was closed only if listening
    failed.  Once the process was told to end and the functions of the options have
    returned, it does return: as long as it has not, some step is possible, and every
    step but telling it to end leaves less to do. *)
Theorem graceful_shutdown s :
  life_steps Build_life s →
  (shutdown s = true → (∀ i, i < nwhens → whens s !! i = Some Taken)
                       ∧ (cancelled s = true ∨ ended_by_option s))
  ∧ (∃ r, r ≤ nreqs ∧ closings s = seq 0 r)
  ∧ (∀ r, main_ s = Returned r → closings s = seq 0 nreqs ∧ r = errs s)
  ∧ (cancelled s = true → (∀ i, 0 < i → whens s !! i ≠ Some Running) → ¬ main_done s →
     ∃ s', life_step s s' ∧ s' ≠ told s)
  ∧ (∀ s', life_step s s' → s' = told s ∨ life_left s' < life_left s).
Proof.
  intros Hok%life_steps_ok. split_and!.
  - intros Hsh. destruct Hok as [Hl [Ht Htk] Hc [Ho Hr] Hs Hcc Hf Ha Hm].
    assert (Htn : taken s = nwhens).
    { apply Hc. intros E. rewrite Hs, Ho, E in Hsh. by apply bool_decide_eq_true, elem_of_nil in Hsh. }
    assert (Hall : ∀ i, i < nwhens → whens s !! i = Some Taken) by (intros i Hi; apply Htk; lia).
    split; [done|]. by apply (Hf Taken (Hall 0 Hwhens)).
  - destruct (life_order _ Hok) as [-> Hr]. destruct (closer s) as [|r|]; [by exists 0; split; [lia|]| |].
    + exists r. split; [by apply Hr|done].
    + by exists nreqs.
  - intros r Er. destruct (life_main _ Hok r Er) as [E ->]. destruct (life_order _ Hok) as [-> _].
    by rewrite E.
  - by apply life_progress.
  - intros s'. apply step_left.
Qed.
End lifecycle.

(** The service's own listener: nothing but the end of the process is waited for. *)
Definition served_life : Life :=
  MkLife true true [Taken] 1 [] (Closes 1) true Listens [0].
Lemma graceful_shutdown_witness :
  shutdown served_life = true ∧ (∀ i, i < 1 → whens served_life !! i = Some Taken)
  ∧ ∃ s', life_step 1 1 served_life s' ∧ s' ≠ told served_life.
Proof.
  assert (Hs : life_steps 1 1 (Build_life 1) served_life).
  { eapply life_steps_cons; [eapply life_steps_cons; [eapply life_steps_cons;
      [eapply life_steps_cons; [eapply life_steps_cons; [apply life_steps_nil|]|]|]|]|].
    - apply life_cancel.
    - apply (life_when 1 1 0 None); [reflexivity|]. intros _. split; [by left|done].
    - apply (life_take 1 1 None). reflexivity.
    - apply life_do.
    - apply (life_require 1 1 0 None). lia. }
  destruct (graceful_shutdown 1 1 ltac:(lia) ltac:(lia) served_life Hs) as (H1 & _ & _ & H4 & _).
  split; [reflexivity|]. split; [exact (proj1 (H1 eq_refl))|]. apply H4; [reflexivity| |by intros []].
  intros [|i] Hi; [lia|]. discriminate.
Defined.

