(* ===== verification/Graph.v ===== *)
(** * Directed graphs and their topological order (vendored horsehead/graph)

    The graph ConfigureWorkflowRun builds: a simple directed graph with deterministic
    iteration, that is, vertices and edges in the order they were inserted.  [ForEach]
    is the traverser; it counts incoming edges down, vertex by vertex. *)
From S2P Require Import Prelude.

(** An edge is its source and its target. *)
Record graph := MkGraph { Vertices : list string; Edges : list (string * string) }.

Inductive graph_error : Type :=
| VertexNotFoundError (vertex : string)
| ErrEdgeAlreadyInGraph
| ErrWouldCreateLoop.

Inductive traverse_error : Type := ErrCyclicGraph.

Definition NewSimpleDirectedGraph : graph := MkGraph [] [].

Definition AddVertex (vertex : string) (g : graph) : graph :=
  if decide (vertex ∈ Vertices g) then g else MkGraph (Vertices g ++ [vertex]) (Edges g).

Definition Connect (source target : string) (g : graph) : outcome graph_error graph :=
  if decide (source ∈ Vertices g) then
    if decide (target ∈ Vertices g) then
      if decide ((source, target) ∈ Edges g) then Err ErrEdgeAlreadyInGraph
      else if String.eqb source target then Err ErrWouldCreateLoop
      else Ok (MkGraph (Vertices g) (Edges g ++ [(source, target)]))
    else Err (VertexNotFoundError target)
  else Err (VertexNotFoundError source).

Definition IncomingEdgesOf (vertex : string) (g : graph) : list (string * string) :=
  List.filter (λ e, String.eqb e.2 vertex) (Edges g).
Definition OutgoingEdgesOf (vertex : string) (g : graph) : list (string * string) :=
  List.filter (λ e, String.eqb e.1 vertex) (Edges g).
Definition InDegreeOf (vertex : string) (g : graph) : nat := length (IncomingEdgesOf vertex g).

(** [OppositeVertexOf] for an edge and one of its ends. *)
Definition OppositeVertexOf (e : string * string) (v : string) : string :=
  if String.eqb e.1 v then e.2 else e.1.

(** ** The traverser *)

(** [remaining[v]]; a missing key counts 0. *)
Definition count_of (remaining : gmap string nat) (v : string) : nat := default 0 (remaining !! v).

(** The loop over the outgoing edges of a vertex that was visited. *)
Fixpoint release (edges : list (string * string)) (queue : list string)
    (remaining : gmap string nat) : list string * gmap string nat :=
  match edges with
  | [] => (queue, remaining)
  | (_, next) :: edges' =>
      match count_of remaining next with
      | O => release edges' queue remaining
      | S n => release edges' (if Nat.eqb n 0 then queue ++ [next] else queue)
                 (<[next := n]> remaining)
      end
  end.

Section traverse.
Context {S : Type} (g : graph) (fn : string → effect traverse_error S unit).

(** The loop over the queue; [fuel] bounds the visits. *)
Fixpoint visit (fuel : nat) (queue : list string) (remaining : gmap string nat)
    : effect traverse_error S unit :=
  match fuel with
  | O => lift (Panic "TopologicalOrderTraverser: no result")
  | Datatypes.S fuel' =>
      match queue with
      | [] => mret tt
      | cur :: queue' =>
          _ ← fn cur;
          let '(queue, remaining) := release (OutgoingEdgesOf cur g) queue' remaining in
          visit fuel' queue remaining
      end
  end.

Definition starting_points : list string :=
  List.filter (λ v, Nat.eqb (InDegreeOf v g) 0) (Vertices g).
Definition in_degrees : gmap string nat :=
  list_to_map ((λ v, (v, InDegreeOf v g)) <$> Vertices g).

Definition ForEach : effect traverse_error S unit :=
  match Vertices g, starting_points with
  | [], _ => mret tt
  | _, [] => lift (Err ErrCyclicGraph)
  | _, queue => visit (Datatypes.S (length (Vertices g))) queue in_degrees
  end.
End traverse.

(** * Theory of the topological traverser

    Graphs built with [AddVertex] and [Connect] are simple.  On a simple graph the
    traverser visits exactly the vertices that no cycle leads to, once each and after
    all their predecessors, and it always ends. *)
(** ** Simple graphs *)
Record simple (g : graph) : Prop := {
  simple_vertices : NoDup (Vertices g);
  simple_edges : NoDup (Edges g);
  simple_ends : ∀ u v, (u, v) ∈ Edges g → u ∈ Vertices g ∧ v ∈ Vertices g ∧ u ≠ v;
}.

Lemma simple_new : simple NewSimpleDirectedGraph.
Proof. split; [constructor..|]. intros u v H. by apply elem_of_nil in H. Qed.

Lemma simple_AddVertex v g : simple g → simple (AddVertex v g).
Proof.
  intros [Hv He Hx]. unfold AddVertex. destruct (decide _) as [|Hn]; [done|].
  split; cbn; [|done|].
  - apply NoDup_app. split_and!; [done| |apply NoDup_singleton].
    intros x Hin Hx'. apply list_elem_of_singleton in Hx' as ->. done.
  - intros u w Hin. destruct (Hx u w Hin) as (? & ? & ?). rewrite !elem_of_app. naive_solver.
Qed.

Lemma simple_Connect u v g g' : simple g → Connect u v g = Ok g' → simple g'.
Proof.
  intros [Hv He Hx]. unfold Connect.
  repeat (destruct (decide _); try done). destruct (String.eqb_spec u v); [done|].
  intros [= <-]. split; cbn; [done|..].
  - apply NoDup_app. split_and!; [done| |apply NoDup_singleton].
    intros x Hin Hx'. apply list_elem_of_singleton in Hx' as ->. done.
  - intros a b [Hin|Hin]%elem_of_app; [by apply Hx|].
    apply list_elem_of_singleton in Hin as [= -> ->]. done.
Qed.

(** ** Predecessors *)
Definition preds (v : string) (g : graph) : gset string :=
  list_to_set (fst <$> IncomingEdgesOf v g).

Lemma elem_of_incoming e v g : e ∈ IncomingEdgesOf v g ↔ e ∈ Edges g ∧ e.2 = v.
Proof.
  unfold IncomingEdgesOf. rewrite !list_elem_of_In, filter_In, String.eqb_eq. done.
Qed.

Lemma elem_of_outgoing e v g : e ∈ OutgoingEdgesOf v g ↔ e ∈ Edges g ∧ e.1 = v.
Proof.
  unfold OutgoingEdgesOf. rewrite !list_elem_of_In, filter_In, String.eqb_eq. done.
Qed.

Lemma elem_of_preds u v g : u ∈ preds v g ↔ (u, v) ∈ Edges g.
Proof.
  unfold preds. rewrite elem_of_list_to_set, list_elem_of_fmap. split.
  - intros ([a b] & -> & H). apply elem_of_incoming in H as [H Hb]. cbn in *. by subst.
  - intros H. exists (u, v). split; [done|]. by apply elem_of_incoming.
Qed.

Lemma NoDup_sources v g : NoDup (Edges g) → NoDup (fst <$> IncomingEdgesOf v g).
Proof.
  intros H. assert (Hf : NoDup (IncomingEdgesOf v g))
    by (apply NoDup_ListNoDup, List.NoDup_filter, NoDup_ListNoDup, H).
  apply NoDup_fmap_2_strong; [|done].
  intros [a b] [c d] H1 H2. apply elem_of_incoming in H1, H2. cbn in *. naive_solver.
Qed.

Lemma InDegreeOf_preds v g : NoDup (Edges g) → InDegreeOf v g = size (preds v g).
Proof.
  intros H. unfold preds. rewrite size_list_to_set by by apply NoDup_sources.
  by rewrite length_fmap.
Qed.

Lemma NoDup_targets u g : NoDup (Edges g) → NoDup (snd <$> OutgoingEdgesOf u g).
Proof.
  intros H. assert (Hf : NoDup (OutgoingEdgesOf u g))
    by (apply NoDup_ListNoDup, List.NoDup_filter, NoDup_ListNoDup, H).
  apply NoDup_fmap_2_strong; [|done].
  intros [a b] [c d] H1 H2. apply elem_of_outgoing in H1, H2. cbn in *. naive_solver.
Qed.

Lemma elem_of_targets u v g : v ∈ snd <$> OutgoingEdgesOf u g ↔ (u, v) ∈ Edges g.
Proof.
  rewrite list_elem_of_fmap. split.
  - intros ([a b] & -> & H). apply elem_of_outgoing in H as [H Hb]. cbn in *. by subst.
  - intros H. exists (u, v). split; [done|]. by apply elem_of_outgoing.
Qed.

(** ** One visit *)
Lemma count_of_insert r v w n :
  count_of (<[v := n]> r) w = if decide (v = w) then n else count_of r w.
Proof. unfold count_of. rewrite lookup_insert. by destruct (decide _). Qed.

Lemma release_spec es q r :
  NoDup (snd <$> es) →
  (release es q r).1 = q ++ List.filter (λ v, Nat.eqb (count_of r v) 1) (snd <$> es)
  ∧ ∀ v, count_of (release es q r).2 v
         = if decide (v ∈ snd <$> es) then count_of r v - 1 else count_of r v.
Proof.
  revert q r. induction es as [|[u v] es IH]; intros q r Hn.
  { cbn. rewrite app_nil_r. split; [done|]. intros v. by destruct (decide _) as [?%elem_of_nil|]. }
  cbn in Hn. apply NoDup_cons in Hn as [Hv Hn]. cbn [release fmap list_fmap snd List.filter].
  destruct (count_of r v) as [|n] eqn:En.
  - destruct (IH q r Hn) as [E1 E2]. split; [done|]. intros x. rewrite E2.
    destruct (decide (x = v)) as [->|Hx].
    + rewrite decide_False by done. rewrite decide_True by left. lia.
    + apply decide_ext. rewrite elem_of_cons. naive_solver.
  - destruct (IH (if n =? 0 then q ++ [v] else q) (<[v := n]> r) Hn) as [E1 E2]. split.
    + rewrite E1. transitivity ((if n =? 0 then q ++ [v] else q) ++
        List.filter (λ v, count_of r v =? 1) (snd <$> es)).
      * f_equal. apply filter_ext_in. intros x Hx. rewrite count_of_insert, decide_False; [done|].
        intros <-. by apply Hv, list_elem_of_In.
      * destruct n; cbn; [by rewrite <- app_assoc|done].
    + intros x. rewrite E2, count_of_insert. destruct (decide (v = x)) as [<-|Hx].
      * rewrite decide_False by done. rewrite decide_True by left. lia.
      * apply decide_ext. rewrite elem_of_cons. naive_solver.
Qed.

(** ** The invariant: [done] was visited, [queue] is about to be. *)
Record traversal (g : graph) (done queue : list string) (r : gmap string nat) : Prop := {
  trav_NoDup : NoDup (done ++ queue);
  trav_count : ∀ v, v ∈ Vertices g → count_of r v = size (preds v g ∖ list_to_set done);
  trav_zero : ∀ v, v ∈ done ++ queue ↔ v ∈ Vertices g ∧ count_of r v = 0;
}.

Lemma traversal_start g : simple g → traversal g [] (starting_points g) (in_degrees g).
Proof.
  intros [Hv He Hx].
  assert (Hc : ∀ v, v ∈ Vertices g → count_of (in_degrees g) v = InDegreeOf v g).
  { intros v Hin. unfold count_of, in_degrees.
    erewrite elem_of_list_to_map_1; [done|..].
    - rewrite <- list_fmap_compose. change (NoDup (id <$> Vertices g)). by rewrite list_fmap_id.
    - apply list_elem_of_fmap. by exists v. }
  split; cbn [app].
  - apply NoDup_ListNoDup, List.NoDup_filter, NoDup_ListNoDup, Hv.
  - intros v Hin. rewrite Hc, InDegreeOf_preds by done. f_equal. cbn. set_solver.
  - intros v. unfold starting_points. rewrite list_elem_of_In, filter_In, <- list_elem_of_In.
    rewrite Nat.eqb_eq. split; intros [H1 H2]; (split; [done|]); [by rewrite Hc|by rewrite <- Hc].
Qed.

Lemma traversal_preds g done cur queue r v :
  traversal g done (cur :: queue) r → v ∈ preds cur g → v ∈ done.
Proof.
  intros [Hn Hc Hz] Hv.
  destruct (proj1 (Hz cur)) as [Hin H0]; [apply elem_of_app; right; left|].
  rewrite Hc in H0 by done. apply size_empty_inv in H0.
  destruct (decide (v ∈ done)) as [|Hd]; [done|]. exfalso.
  apply (not_elem_of_empty (C := gset string) v). rewrite <- H0. set_solver.
Qed.

Lemma traversal_step g done cur queue r :
  simple g → traversal g done (cur :: queue) r →
  let '(queue', r') := release (OutgoingEdgesOf cur g) queue r in
  traversal g (done ++ [cur]) queue' r'.
Proof.
  intros [Hv He Hx] [Hn Hc Hz].
  destruct (release_spec (OutgoingEdgesOf cur g) queue r) as [E1 E2]; [by apply NoDup_targets|].
  destruct (release _ _ _) as [q' r']. cbn [fst snd] in E1, E2. subst q'.
  assert (E3 : ∀ v, count_of r' v
    = if decide ((cur, v) ∈ Edges g) then count_of r v - 1 else count_of r v).
  { intros v. rewrite E2. apply decide_ext, elem_of_targets. }
  clear E2. rename E3 into E2.
  assert (Hcur : cur ∉ done).
  { intros Hd. apply NoDup_app in Hn as (_ & Hn & _). by apply (Hn cur Hd); left. }
  assert (Hdrop : ∀ v, v ∈ Vertices g → count_of r' v
    = size (preds v g ∖ list_to_set (done ++ [cur]))).
  { intros v Hin. rewrite E2, Hc by done. destruct (decide _) as [Hed|Hed].
    - rewrite list_to_set_app_L. cbn.
      replace (preds v g ∖ (list_to_set done ∪ ({[cur]} ∪ ∅)))
        with ((preds v g ∖ list_to_set done) ∖ {[cur]}) by set_solver.
      rewrite (size_difference _ {[cur]}), size_singleton; [done|].
      apply elem_of_preds in Hed. set_solver.
    - f_equal. rewrite list_to_set_app_L. rewrite <- elem_of_preds in Hed. set_solver. }
  assert (Hedge : ∀ v, (cur, v) ∈ Edges g → v ∈ Vertices g ∧ 0 < count_of r v).
  { intros v Hed. destruct (Hx _ _ Hed) as (_ & Hin & _). split; [done|]. rewrite Hc by done.
    assert (cur ∈ preds v g ∖ list_to_set done) as Hp.
    { apply elem_of_preds in Hed. set_solver. }
    destruct (size _) eqn:E; [|lia]. apply size_empty_inv in E. set_solver. }
  assert (Hnew : ∀ v, v ∈ List.filter (λ v, count_of r v =? 1) (snd <$> OutgoingEdgesOf cur g)
    ↔ (cur, v) ∈ Edges g ∧ count_of r v = 1).
  { intros v. rewrite list_elem_of_In, filter_In, <- list_elem_of_In, elem_of_targets.
    by rewrite Nat.eqb_eq. }
  assert (Hzq : ∀ v, v ∈ (done ++ [cur]) ++ queue ++ List.filter (λ v, count_of r v =? 1)
      (snd <$> OutgoingEdgesOf cur g) ↔ v ∈ done ++ cur :: queue ∨ ((cur, v) ∈ Edges g ∧ count_of r v = 1)).
  { intros v. rewrite !elem_of_app, !elem_of_cons, Hnew, elem_of_nil. tauto. }
  split; [|done|].
  - replace ((done ++ [cur]) ++ queue ++ _) with ((done ++ cur :: queue) ++
      List.filter (λ v, count_of r v =? 1) (snd <$> OutgoingEdgesOf cur g))
      by (by rewrite <- !app_assoc).
    apply NoDup_app. split_and!; [done|..].
    + intros v Hin [_ H1]%Hnew. apply Hz in Hin as [_ H0]. lia.
    + apply NoDup_ListNoDup, List.NoDup_filter, NoDup_ListNoDup, NoDup_targets, He.
  - intros v. rewrite Hzq, Hz, E2. split.
    + intros [[Hin H0]|[Hed H1]].
      * split; [done|]. rewrite H0. by destruct (decide _).
      * split; [by apply Hedge|]. rewrite decide_True by done. lia.
    + intros [Hin H0]. destruct (decide _) as [Hed|Hed]; [|by left].
      right. split; [done|]. apply Hedge in Hed as [_ ?]. lia.
Qed.

(** ** The order of the visits *)
Definition edge (g : graph) (u v : string) : Prop := (u, v) ∈ Edges g.

(** No cycle leads to the vertex. *)
Notation grounded g := (Acc (edge g)).

(** [l] lists vertices after their predecessors, all of which it has. *)
Definition topological (g : graph) (l : list string) : Prop :=
  ∀ l1 v l2, l = l1 ++ v :: l2 → ∀ u, edge g u v → u ∈ l1.

Record visiting_order (g : graph) (l : list string) : Prop := {
  order_NoDup : NoDup l;
  order_topological : topological g l;
  order_members : ∀ v, v ∈ l ↔ v ∈ Vertices g ∧ grounded g v;
}.

Lemma topological_snoc g l v :
  topological g l → (∀ u, edge g u v → u ∈ l) → topological g (l ++ [v]).
Proof.
  intros Hl Hv l1 x l2 E u Hu. destruct l2 as [|y l2 _] using rev_ind.
  - apply app_inj_tail in E as [-> ->]. by apply Hv.
  - rewrite app_comm_cons, app_assoc in E. apply app_inj_tail in E as [-> _].
    by apply (Hl l1 x l2).
Qed.

Lemma topological_grounded g l v : topological g l → v ∈ l → grounded g v.
Proof.
  intros Hl. revert v. induction l as [|x l IH] using rev_ind; intros v Hv.
  { by apply elem_of_nil in Hv. }
  assert (Hl' : topological g l).
  { intros l1 y l2 -> u. apply (Hl l1 y (l2 ++ [x])). by rewrite <- app_assoc. }
  apply elem_of_app in Hv as [Hv|Hv]; [by apply IH|].
  apply list_elem_of_singleton in Hv as ->. constructor. intros u Hu.
  apply IH; [done|]. by apply (Hl l x []).
Qed.

Lemma traversal_end g l r :
  simple g → topological g l → traversal g l [] r → visiting_order g l.
Proof.
  intros Hg Hl [Hn Hc Hz]. rewrite app_nil_r in *. split; [done..|]. intros v. split.
  - intros Hv. split; [by apply Hz in Hv as [? _]|by apply (topological_grounded g l)].
  - intros [Hv Ha]. induction Ha as [v _ IH]. apply Hz. split; [done|].
    rewrite Hc by done. apply size_empty_iff. intros u. rewrite elem_of_difference.
    rewrite elem_of_preds, elem_of_list_to_set. split; [|by intros ?%not_elem_of_empty].
    intros [Hu Hnot]. destruct Hnot. apply IH; [done|].
    by destruct (simple_ends g Hg u v Hu).
Qed.

(** A callback that returns no error. *)
Definition total_callback {S} (fn : string → effect traverse_error S unit)
    (f : string → S → S) : Prop := ∀ v s, fn v s = (Ok tt, f v s).

Lemma visit_order g fuel done queue r :
  simple g → topological g done → traversal g done queue r →
  length (Vertices g) < length done + fuel →
  ∃ l r', topological g (done ++ l) ∧ traversal g (done ++ l) [] r' ∧
    ∀ S (fn : string → effect traverse_error S unit) f, total_callback fn f →
      ∀ s, visit g fn fuel queue r s = (Ok tt, foldl (flip f) s l).
Proof.
  intros Hg. revert done queue r. induction fuel as [|fuel IH]; intros done queue r Hd Ht Hf.
  { assert (length done ≤ length (Vertices g)); [|lia].
    apply submseteq_length, NoDup_submseteq.
    - apply (NoDup_app done queue), Ht.
    - intros v Hv. apply (trav_zero _ _ _ _ Ht v). apply elem_of_app. by left. }
  destruct queue as [|cur queue].
  { exists [], r. rewrite app_nil_r. split_and!; [done..|]. intros S fn f Hfn s. done. }
  assert (Hstep := traversal_step g done cur queue r Hg Ht).
  assert (Hd' : topological g (done ++ [cur])).
  { apply topological_snoc; [done|]. intros u Hu.
    eapply traversal_preds; [done|]. by apply elem_of_preds. }
  destruct (release _ _ _) as [queue' r'] eqn:Er.
  destruct (IH (done ++ [cur]) queue' r' Hd' Hstep) as (l & r'' & Hl & Ht' & Hrun).
  { rewrite length_app. cbn. lia. }
  exists (cur :: l), r''. rewrite <- app_assoc in Hl, Ht'. split_and!; [done..|].
  intros S fn f Hfn s. cbn [visit]. rewrite effect_bind_run, Hfn, Er. cbn [foldl flip].
  by apply Hrun.
Qed.

(** The traverser runs its callback over an order that depends on the graph alone, and
    always ends. *)
Lemma ForEach_order g :
  simple g → ∃ l, visiting_order g l ∧
    ∀ S (fn : string → effect traverse_error S unit) f, total_callback fn f →
      ∀ s, no_panic (ForEach g fn s).1 ∧ (ForEach g fn s).2 = foldl (flip f) s l.
Proof.
  intros Hg. assert (Ht := traversal_start g Hg).
  assert (Hnil : topological g []) by (intros [|] ? ? [=]).
  destruct (visit_order g (S (length (Vertices g))) [] (starting_points g) (in_degrees g) Hg Hnil Ht)
    as (l & r' & Hl & Hend & Hrun); [cbn; lia|].
  cbn [app] in *. exists l. split; [by apply (traversal_end g l r')|].
  intros S fn f Hfn s. specialize (Hrun S fn f Hfn s). unfold ForEach.
  destruct (Vertices g) as [|v vs] eqn:Ev.
  - unfold starting_points in Hrun. rewrite Ev in Hrun. cbn in Hrun.
    injection Hrun as Hrun. split; [apply Ok_no_panic|done].
  - destruct (starting_points g) eqn:Es; [|rewrite Hrun; split; [apply Ok_no_panic|done]].
    cbn [visit] in Hrun. injection Hrun as Hrun. split; [apply Err_no_panic|done].
Qed.
