(* ===== verification/RunStatus.v ===== *)
(** * The status of a workflow run (pkg/obj/workflowrun.go)

    [ConfigureWorkflowRun] writes the status of a run from the status of its Tekton
    pipeline run: a summary per step and condition, and the steps that will never run
    marked as skipped along the dependencies. *)
From S2P Require Import Prelude GoStd GoStrings Values Errors Model ObjUtil Graph.

Definition WorkflowRunStateCancel : string := "cancel".
Definition WorkflowRunStatusPending : string := "pending".
Definition WorkflowRunStatusInProgress : string := "in-progress".
Definition WorkflowRunStatusSuccess : string := "success".
Definition WorkflowRunStatusFailure : string := "failure".
Definition WorkflowRunStatusCancelled : string := "cancelled".
Definition WorkflowRunStatusSkipped : string := "skipped".
Definition WorkflowRunStatusTimedOut : string := "timed-out".

(** ** The Tekton side: conditions, task runs, pipeline runs *)
Definition ConditionSucceeded : string := "Succeeded".
Definition ReasonConditionCheckFailed : string := "ConditionCheckFailed".
Definition ReasonTimedOut : string := "PipelineRunTimeout".

Record TektonCondition := MkTektonCondition {
  Tekton_Type : string; Tekton_Status : ConditionStatus; Tekton_Reason : string }.

(** The fields shared by the statuses of task runs, checks and pipeline runs. *)
Record TektonStatus := MkTektonStatus {
  Tekton_Conditions : list TektonCondition;
  Tekton_StartTime : option Z; Tekton_CompletionTime : option Z }.

(** Checks and task runs whose [Status] is a nil pointer have [None]. *)
Record TaskRun := MkTaskRun {
  PipelineTaskName : string;
  TaskRun_Status : option TektonStatus;
  ConditionChecks : gmap string (option TektonStatus) }.

Record PipelineRun := MkPipelineRun {
  PipelineRun_Status : TektonStatus; TaskRuns : gmap string TaskRun }.

(** [Status.GetCondition] *)
Definition GetCondition (t : string) (status : TektonStatus) : option TektonCondition :=
  find (λ cond, String.eqb (Tekton_Type cond) t) (Tekton_Conditions status).

Definition workflowRunStatus (status : TektonStatus) : string :=
  match GetCondition ConditionSucceeded status with
  | None => WorkflowRunStatusPending
  | Some cs =>
      match Tekton_Status cs with
      | ConditionUnknown => WorkflowRunStatusInProgress
      | ConditionTrue => WorkflowRunStatusSuccess
      | ConditionFalse =>
          if String.eqb (Tekton_Reason cs) ReasonConditionCheckFailed then WorkflowRunStatusSkipped
          else if String.eqb (Tekton_Reason cs) ReasonTimedOut then WorkflowRunStatusTimedOut
          else WorkflowRunStatusFailure
      | ConditionOther _ => WorkflowRunStatusPending
      end
  end.

(** ** Workflow runs *)
Record WorkflowRunStatusSummary := MkSummary {
  Summary_Name : string; Summary_Status : string; LogKey : string;
  Summary_StartTime : option Z; Summary_CompletionTime : option Z }.

Definition zero_summary : WorkflowRunStatusSummary := MkSummary "" "" "" None None.
Definition with_status (st : string) (s : WorkflowRunStatusSummary) : WorkflowRunStatusSummary :=
  MkSummary (Summary_Name s) st (LogKey s) (Summary_StartTime s) (Summary_CompletionTime s).
Definition with_log_key (k : string) (s : WorkflowRunStatusSummary) : WorkflowRunStatusSummary :=
  MkSummary (Summary_Name s) (Summary_Status s) k (Summary_StartTime s) (Summary_CompletionTime s).

(** A step of a run's workflow. *)
Record WorkflowStep := MkWorkflowStep {
  WorkflowStep_Name : string; Image : string; StepSpec : gmap string value;
  StepInput : list string; Command : string; Args : list string;
  StepEnv : gmap string value; When : value; DependsOn : list string }.

(** The status; [None] is a nil map. *)
Record RunStatus := MkRunStatus {
  Status : string; StartTime : option Z; CompletionTime : option Z;
  Steps : option (gmap string WorkflowRunStatusSummary);
  Conditions : option (gmap string WorkflowRunStatusSummary) }.

(** A run: the name and workflow of its specification, the parameters of the workflow
    and of the run, the state set on the workflow and on its steps, its status. *)
Record WorkflowRun := MkWorkflowRun {
  Run_Name : string;
  Workflow_Steps : list WorkflowStep;
  Workflow_Parameters : gmap string value; Run_Parameters : gmap string value;
  Workflow_State : gmap string value; Step_States : gmap string (gmap string value);
  WorkflowRun_Status : RunStatus }.

Definition with_run_status (st : RunStatus) (wr : WorkflowRun) : WorkflowRun :=
  MkWorkflowRun (Run_Name wr) (Workflow_Steps wr) (Workflow_Parameters wr) (Run_Parameters wr)
    (Workflow_State wr) (Step_States wr) st.

Definition IsCancelled (wr : WorkflowRun) : bool :=
  match Workflow_State wr !! WorkflowRunStateCancel with
  | None => false
  | Some v => match v with VBool true => true | _ => false end
  end.

(** ** Summaries by task name *)
Definition summary_of (name : string) (st : TektonStatus) : WorkflowRunStatusSummary :=
  MkSummary name (workflowRunStatus st) "" (Tekton_StartTime st) (Tekton_CompletionTime st).

Definition workflowRunSkipsPendingSteps (wr_status : string) : bool :=
  String.eqb wr_status WorkflowRunStatusCancelled || String.eqb wr_status WorkflowRunStatusFailure
  || String.eqb wr_status WorkflowRunStatusTimedOut.

Record SummariesByTaskName := MkSummaries {
  steps : gmap string WorkflowRunStatusSummary;
  conditions : gmap string WorkflowRunStatusSummary }.

Section status.
Context `{GoRuntime}.

(** The first check, in the order of the map, that has a status. *)
Definition taskRunConditionStatusSummary (status : TaskRun) (name : string)
    : option WorkflowRunStatusSummary :=
  summary_of name <$> head (omap snd (range_map (ConditionChecks status))).

Definition taskRunStepStatusSummary (status : TaskRun) (name : string)
    : option WorkflowRunStatusSummary :=
  summary_of name <$> TaskRun_Status status.

(** A step that is pending in a run that is over is skipped. *)
Definition settle_step (wr_status : string) (step : WorkflowRunStatusSummary)
    : WorkflowRunStatusSummary :=
  if String.eqb (Summary_Status step) WorkflowRunStatusPending
     && workflowRunSkipsPendingSteps wr_status
  then with_status WorkflowRunStatusSkipped step else step.

(** The body of the loop over the task runs. *)
Definition add_task_run (wr_status : string) (m : SummariesByTaskName)
    (entry : string * TaskRun) : SummariesByTaskName :=
  let '(name, taskRun) := entry in
  let key := PipelineTaskName taskRun in
  let conds := match taskRunConditionStatusSummary taskRun name with
               | Some cond => <[key := cond]> (conditions m)
               | None => conditions m
               end in
  let sts := match taskRunStepStatusSummary taskRun name with
             | Some step => <[key := settle_step wr_status step]> (steps m)
             | None => steps m
             end in
  MkSummaries sts conds.

Definition workflowRunStatusSummaries (wr_status : string) (pr : PipelineRun)
    : SummariesByTaskName :=
  foldl (add_task_run wr_status) (MkSummaries ∅ ∅) (range_map (TaskRuns pr)).

(** ** Steps *)
Definition task_name (run_name step_name : string) : string :=
  HexEncoding (step_hash (ModelStepFromName run_name step_name)).

(** The graph the skipped steps are found in; errors of [Connect] are dropped. *)
Definition add_dependency (step_name : string) (g : graph) (dep : string) : graph :=
  let g := AddVertex dep g in
  match Connect dep step_name g with Ok g' => g' | _ => g end.

Definition add_step_vertices (g : graph) (step : WorkflowStep) : graph :=
  foldl (add_dependency (WorkflowStep_Name step)) (AddVertex (WorkflowStep_Name step) g)
    (DependsOn step).

Definition skipFinder (sts : list WorkflowStep) : graph :=
  foldl add_step_vertices NewSimpleDirectedGraph sts.

(** The summary of a step, with the log key it had. *)
Definition step_summary (by_task : SummariesByTaskName) (run_name step_name : string)
    (existing : gmap string WorkflowRunStatusSummary) : WorkflowRunStatusSummary :=
  let stepSummary := match steps by_task !! task_name run_name step_name with
                     | Some s => s
                     | None => with_status WorkflowRunStatusPending zero_summary
                     end in
  let key := LogKey (default zero_summary (existing !! step_name)) in
  if String.eqb key "" then stepSummary else with_log_key key stepSummary.

(** The body of the loop over the steps, apart from the graph. *)
Definition record_step (by_task : SummariesByTaskName) (run_name : string)
    (maps : gmap string WorkflowRunStatusSummary * gmap string WorkflowRunStatusSummary)
    (step : WorkflowStep)
    : gmap string WorkflowRunStatusSummary * gmap string WorkflowRunStatusSummary :=
  let '(sts, conds) := maps in
  let name := WorkflowStep_Name step in
  (<[name := step_summary by_task run_name name sts]> sts,
   match conditions by_task !! task_name run_name name with
   | Some c => <[name := c]> conds
   | None => conds
   end).

(** ** Skipped steps *)
Definition status_at (sts : gmap string WorkflowRunStatusSummary) (name : string) : string :=
  Summary_Status (default zero_summary (sts !! name)).

Definition skips_dependents (st : string) : bool :=
  String.eqb st WorkflowRunStatusSkipped || String.eqb st WorkflowRunStatusFailure.

(** The callback of the traverser; the loop over the incoming edges stops at the first
    that skips. *)
Definition mark_skipped (g : graph) (next : string) (sts : gmap string WorkflowRunStatusSummary)
    : gmap string WorkflowRunStatusSummary :=
  if String.eqb (status_at sts next) WorkflowRunStatusPending then
    if existsb (λ e, skips_dependents (status_at sts (OppositeVertexOf e next)))
         (IncomingEdgesOf next g)
    then <[next := with_status WorkflowRunStatusSkipped (default zero_summary (sts !! next))]> sts
    else sts
  else sts.

Definition mark_all_skipped (g : graph) (sts : gmap string WorkflowRunStatusSummary)
    : gmap string WorkflowRunStatusSummary :=
  (ForEach g (λ next s, (Ok tt, mark_skipped g next s)) sts).2.

(** ** The status of the run *)
Definition or_else {A} (o d : option A) : option A := match o with Some _ => o | None => d end.

Definition ConfigureWorkflowRun (wr : WorkflowRun) (pr : PipelineRun) : WorkflowRun :=
  let old := WorkflowRun_Status wr in
  let status := if IsCancelled wr then WorkflowRunStatusCancelled
                else workflowRunStatus (PipelineRun_Status pr) in
  let start := or_else (Tekton_StartTime (PipelineRun_Status pr)) (StartTime old) in
  let completion := or_else (Tekton_CompletionTime (PipelineRun_Status pr)) (CompletionTime old) in
  let by_task := workflowRunStatusSummaries status pr in
  let '(sts, conds) := foldl (record_step by_task (Run_Name wr))
                         (default ∅ (Steps old), default ∅ (Conditions old))
                         (Workflow_Steps wr) in
  let sts := mark_all_skipped (skipFinder (Workflow_Steps wr)) sts in
  with_run_status (MkRunStatus status start completion (Some sts) (Some conds)) wr.

(** A run without steps; [persist] writes the status back.  Each time that is missing is
    a reading of the clock of its own. *)
Definition time_or_now {E W} (t : option Z) (clock : effect E W Z) : effect E W (option Z) :=
  match t with Some _ => mret t | None => now ← clock; mret (Some now) end.

Definition Complete {E W} (persist : WorkflowRun → effect E W unit) (clock : effect E W Z)
    (wr : WorkflowRun) : effect E W WorkflowRun :=
  let old := WorkflowRun_Status wr in
  start ← time_or_now (StartTime old) clock;
  completion ← time_or_now (CompletionTime old) clock;
  let wr := with_run_status
    (MkRunStatus WorkflowRunStatusSuccess start completion (Steps old) (Conditions old)) wr in
  _ ← persist wr; mret wr.
End status.
