(* ===== verification/RunStatusProperties.v ===== *)
(** * Theory of the status of a workflow run *)
From S2P Require Import Prelude GoStd GoStrings Values Errors Model ObjUtil Graph.
From S2P Require Import RunStatus.

(** ** The graph of the dependencies *)
Definition step_names (sts : list WorkflowStep) : list string := WorkflowStep_Name <$> sts.

(** [d] is a dependency of the step named [n]. *)
Definition depends (sts : list WorkflowStep) (d n : string) : Prop :=
  ∃ s, s ∈ sts ∧ WorkflowStep_Name s = n ∧ d ∈ DependsOn s ∧ d ≠ n.

Lemma AddVertex_vertices v g x : x ∈ Vertices (AddVertex v g) ↔ x ∈ Vertices g ∨ x = v.
Proof.
  unfold AddVertex. destruct (decide _); cbn; [naive_solver|].
  by rewrite elem_of_app, list_elem_of_singleton.
Qed.

Lemma AddVertex_edges v g : Edges (AddVertex v g) = Edges g.
Proof. unfold AddVertex. by destruct (decide _). Qed.

Lemma edge_AddVertex x g u v : edge (AddVertex x g) u v ↔ edge g u v.
Proof. unfold edge. by rewrite AddVertex_edges. Qed.

Lemma add_dependency_spec name g dep :
  simple g → name ∈ Vertices g →
  simple (add_dependency name g dep)
  ∧ (∀ x, x ∈ Vertices (add_dependency name g dep) ↔ x ∈ Vertices g ∨ x = dep)
  ∧ (∀ u v, edge (add_dependency name g dep) u v
            ↔ edge g u v ∨ (u = dep ∧ v = name ∧ dep ≠ name)).
Proof.
  intros Hg Hn. assert (Ha := simple_AddVertex dep g Hg). unfold add_dependency.
  assert (Hd : dep ∈ Vertices (AddVertex dep g)) by (apply AddVertex_vertices; by right).
  assert (Hn' : name ∈ Vertices (AddVertex dep g)) by (apply AddVertex_vertices; by left).
  destruct (Connect dep name (AddVertex dep g)) as [g'| |] eqn:E.
  - split; [by apply (simple_Connect dep name (AddVertex dep g))|].
    unfold Connect in E. rewrite !decide_True in E by done.
    destruct (decide _); [done|]. destruct (String.eqb_spec dep name); [done|].
    injection E as <-. unfold edge. cbn. split; [apply AddVertex_vertices|].
    intros u v. rewrite elem_of_app, list_elem_of_singleton, AddVertex_edges. naive_solver.
  - split_and!; [done|apply AddVertex_vertices|]. intros u v. unfold edge.
    unfold Connect in E. rewrite !decide_True in E by done. rewrite AddVertex_edges in *.
    destruct (decide _); [naive_solver|].
    destruct (String.eqb_spec dep name); [naive_solver|done].
  - exfalso. unfold Connect in E. by repeat case_match.
Qed.

Lemma add_dependencies_spec name deps g :
  simple g → name ∈ Vertices g →
  let g' := foldl (add_dependency name) g deps in
  simple g' ∧ (∀ x, x ∈ Vertices g' ↔ x ∈ Vertices g ∨ x ∈ deps)
  ∧ (∀ u v, edge g' u v ↔ edge g u v ∨ (u ∈ deps ∧ v = name ∧ u ≠ name)).
Proof.
  revert g. induction deps as [|dep deps IH]; intros g Hg Hn; cbn.
  { split_and!; [done|set_solver..]. }
  destruct (add_dependency_spec name g dep Hg Hn) as (Hg' & Hv & He).
  destruct (IH (add_dependency name g dep) Hg') as (Hs & Hv' & He'); [apply Hv; by left|].
  split_and!; [done|..].
  - intros x. rewrite Hv', Hv, elem_of_cons. tauto.
  - intros u v. rewrite He', He, elem_of_cons. naive_solver.
Qed.

Lemma skipFinder_from sts g :
  simple g →
  let g' := foldl add_step_vertices g sts in
  simple g' ∧ (∀ x, x ∈ Vertices g → x ∈ Vertices g')
  ∧ (∀ n, n ∈ step_names sts → n ∈ Vertices g')
  ∧ (∀ u v, edge g' u v ↔ edge g u v ∨ depends sts u v).
Proof.
  revert g. induction sts as [|s sts IH]; intros g Hg; cbn.
  { split_and!; [done..| |].
    - by intros n ?%elem_of_nil.
    - intros u v. unfold depends. set_solver. }
  destruct (add_dependencies_spec (WorkflowStep_Name s) (DependsOn s)
    (AddVertex (WorkflowStep_Name s) g)) as (H1 & H2 & H3);
    [by apply simple_AddVertex|apply AddVertex_vertices; by right|].
  destruct (IH (add_step_vertices g s) H1) as (H4 & H5 & H6 & H7).
  setoid_rewrite AddVertex_vertices in H2.
  split_and!; [done|..].
  - intros x Hx. apply H5, H2. naive_solver.
  - intros n [->|Hn]%elem_of_cons; [apply H5, H2; naive_solver|by apply H6].
  - intros u v. rewrite H7. unfold add_step_vertices. rewrite H3.
    rewrite edge_AddVertex. unfold depends. setoid_rewrite elem_of_cons. naive_solver.
Qed.

Lemma skipFinder_spec sts :
  simple (skipFinder sts)
  ∧ (∀ n, n ∈ step_names sts → n ∈ Vertices (skipFinder sts))
  ∧ (∀ u v, edge (skipFinder sts) u v ↔ depends sts u v).
Proof.
  destruct (skipFinder_from sts NewSimpleDirectedGraph simple_new) as (H1 & _ & H2 & H3).
  split_and!; [done..|]. intros u v. rewrite H3. unfold edge. cbn. set_solver.
Qed.

(** ** Steps that never run

    [st] are the statuses reported: a pending step never runs when one of its
    dependencies failed, was skipped or never runs. *)
Definition stops (st : string) : Prop :=
  st = WorkflowRunStatusSkipped ∨ st = WorkflowRunStatusFailure.

Lemma skips_dependents_iff st : skips_dependents st = true ↔ stops st.
Proof. unfold skips_dependents. by rewrite orb_true_iff, !String.eqb_eq. Qed.

Inductive never_runs (dep : string → string → Prop) (st : string → string) : string → Prop :=
| never_runs_direct d n :
    dep d n → st n = WorkflowRunStatusPending → stops (st d) → never_runs dep st n
| never_runs_after d n :
    dep d n → st n = WorkflowRunStatusPending → never_runs dep st d → never_runs dep st n.

Lemma never_runs_mono (dep dep' : string → string → Prop) st st' n :
  (∀ u v, dep u v → dep' u v) → (∀ v, st v = st' v) →
  never_runs dep st n → never_runs dep' st' n.
Proof.
  intros H Hst. induction 1 as [d n Hd Hn Hs|d n Hd Hn _ IH]; rewrite Hst in *.
  - apply (never_runs_direct _ _ d); auto.
  - apply (never_runs_after _ _ d); auto.
Qed.

Lemma never_runs_iff dep st n :
  never_runs dep st n ↔ st n = WorkflowRunStatusPending ∧
    ∃ d, dep d n ∧ (stops (st d) ∨ never_runs dep st d).
Proof.
  split.
  - intros [d m H1 H2 H3|d m H1 H2 H3]; eauto.
  - intros (H1 & d & H2 & [H3|H3]);
      [by apply (never_runs_direct _ _ d)|by apply (never_runs_after _ _ d)].
Qed.

(** ** Marking, along an order *)
Section marking.
Context (g : graph) (pre : gmap string WorkflowRunStatusSummary).
Let st := status_at pre.

Definition marked_entry (n : string) : WorkflowRunStatusSummary :=
  with_status WorkflowRunStatusSkipped (default zero_summary (pre !! n)).

(** What the maps hold of a vertex that was visited. *)
Definition settled (m : gmap string WorkflowRunStatusSummary) (n : string) : Prop :=
  (never_runs (edge g) st n ∧ m !! n = Some (marked_entry n))
  ∨ (¬ never_runs (edge g) st n ∧ m !! n = pre !! n).

Lemma settled_skips m d :
  settled m d →
  skips_dependents (status_at m d) = true
  ↔ stops (st d) ∨ never_runs (edge g) st d.
Proof.
  rewrite <- skips_dependents_iff.
  intros [[Hn Hm]|[Hn Hm]]; unfold status_at; rewrite Hm.
  - split; [|reflexivity]. intros _. by right.
  - change (Summary_Status (default zero_summary (pre !! d))) with (st d).
    split; [by left|]. by intros [?|?].
Qed.

Lemma opposite_source e n : edge g e.1 e.2 → simple g → e.2 = n → OppositeVertexOf e n = e.1.
Proof.
  intros He Hg <-. unfold OppositeVertexOf. destruct (String.eqb_spec e.1 e.2) as [E|]; [|done].
  by destruct (simple_ends g Hg _ _ He) as (_ & _ & ?).
Qed.

Lemma mark_skipped_settles m n :
  simple g → m !! n = pre !! n → (∀ d, edge g d n → settled m d) →
  settled (mark_skipped g n m) n.
Proof.
  intros Hg Hn Hd.
  assert (Hst : status_at m n = st n) by (unfold status_at; by rewrite Hn).
  unfold settled, mark_skipped. rewrite Hst, never_runs_iff.
  destruct (String.eqb_spec (st n) WorkflowRunStatusPending) as [Hp|Hp];
    [|right; split; [naive_solver|done]].
  destruct (existsb _ _) eqn:Ex.
  - left. split; [|by rewrite Hn, lookup_insert_eq]. split; [done|].
    apply existsb_exists in Ex as (e & Hin & Hs). apply list_elem_of_In, elem_of_incoming in Hin
      as [Hin He]. assert (Hed : edge g e.1 e.2) by (unfold edge; by destruct e).
    rewrite opposite_source in Hs by done. exists e.1. rewrite He in Hed. split; [done|].
    by apply (settled_skips m); [apply Hd|].
  - right. split; [|done]. intros (_ & d & Hed & Hs).
    apply (settled_skips m) in Hs; [|by apply Hd].
    assert (Ht : existsb (λ e, skips_dependents (status_at m (OppositeVertexOf e n)))
                   (IncomingEdgesOf n g) = true); [|congruence].
    apply existsb_exists. exists (d, n). split; [apply list_elem_of_In, elem_of_incoming; done|].
    by rewrite opposite_source.
Qed.

Lemma mark_skipped_other m n k : k ≠ n → mark_skipped g n m !! k = m !! k.
Proof.
  intros Hk. unfold mark_skipped. repeat case_match; [|done..]. by rewrite lookup_insert_ne.
Qed.

Lemma marking_settles l :
  simple g → NoDup l → topological g l →
  let m := foldl (flip (mark_skipped g)) pre l in
  (∀ n, n ∈ l → settled m n) ∧ (∀ n, n ∉ l → m !! n = pre !! n).
Proof.
  intros Hg. induction l as [|x l IH] using rev_ind; intros Hn Ht; cbn.
  { split; [by intros n ?%elem_of_nil|done]. }
  apply NoDup_app in Hn as (Hn & Hx & _).
  assert (Hxl : x ∉ l) by (intros Hin; apply (Hx x Hin); left).
  destruct IH as [IH1 IH2]; [done| |].
  { intros l1 y l2 -> u. apply (Ht l1 y (l2 ++ [x])). by rewrite <- app_assoc. }
  rewrite foldl_snoc. cbn [flip]. split.
  - intros n [Hin|Hin%list_elem_of_singleton]%elem_of_app; [|subst n].
    + unfold settled. rewrite mark_skipped_other by (by intros ->). by apply IH1.
    + apply mark_skipped_settles; [done|by apply IH2|].
      intros d Hd. by apply IH1, (Ht l x []).
  - intros n Hnot. rewrite mark_skipped_other by (intros ->; apply Hnot, elem_of_app; right; left).
    apply IH2. intros Hin. by apply Hnot, elem_of_app; left.
Qed.

(** What [mark_all_skipped] leaves, vertex by vertex. *)
Lemma mark_all_spec n :
  simple g →
  (n ∈ Vertices g ∧ grounded g n ∧ settled (mark_all_skipped g pre) n)
  ∨ (¬ (n ∈ Vertices g ∧ grounded g n) ∧ mark_all_skipped g pre !! n = pre !! n).
Proof.
  intros Hg. destruct (ForEach_order g Hg) as (l & [Hn Ht Hm] & Hrun).
  assert (E : mark_all_skipped g pre = foldl (flip (mark_skipped g)) pre l) by by apply Hrun.
  rewrite E. destruct (marking_settles l Hg Hn Ht) as [H1 H2].
  destruct (decide (n ∈ l)) as [Hin|Hin].
  - left. destruct (proj1 (Hm n) Hin). auto.
  - right. rewrite Hm in Hin. split; [done|]. apply H2. by rewrite Hm.
Qed.
End marking.

(** ** The maps by task name *)
Section summaries.
Context `{GoRuntime}.

Lemma summary_of_key name st : LogKey (summary_of name st) = "".
Proof. done. Qed.

Lemma summaries_no_keys wr_status pr k s :
  steps (workflowRunStatusSummaries wr_status pr) !! k = Some s → LogKey s = "".
Proof.
  unfold workflowRunStatusSummaries.
  assert (Hgen : ∀ l m, (∀ k s, steps m !! k = Some s → LogKey s = "") →
    ∀ k s, steps (foldl (add_task_run wr_status) m l) !! k = Some s → LogKey s = ""); [|by apply Hgen].
  induction l as [|[name tr] l IH]; intros m Hm; [done|]. cbn [foldl]. apply IH. clear k s.
  intros k s. unfold add_task_run, taskRunStepStatusSummary. cbn [steps].
  destruct (TaskRun_Status tr) as [st|]; cbn [fmap option_fmap option_map]; [|apply Hm].
  rewrite lookup_insert. destruct (decide _); [|apply Hm]. intros [= <-].
  unfold settle_step. by destruct (_ && _).
Qed.
End summaries.

(** ** The record of the steps *)
Section record.
Context (by_task : SummariesByTaskName) (run : string).
Context (Hkeys : ∀ k s, steps by_task !! k = Some s → LogKey s = "").
Implicit Types (sts : list WorkflowStep) (old conds : gmap string WorkflowRunStatusSummary).

Definition key_at old n : string := LogKey (default zero_summary (old !! n)).

Lemma step_summary_key n old : LogKey (step_summary by_task run n old) = key_at old n.
Proof.
  unfold step_summary, key_at. destruct (String.eqb_spec (LogKey (default zero_summary (old !! n))) "")
    as [->|]; [|by destruct (steps by_task !! _)].
  destruct (steps by_task !! _) eqn:E; [by apply Hkeys in E|done].
Qed.

Lemma step_summary_ext n old old' :
  key_at old n = key_at old' n → step_summary by_task run n old = step_summary by_task run n old'.
Proof. unfold step_summary, key_at. by intros ->. Qed.

Definition recorded old sts n : option WorkflowRunStatusSummary :=
  if decide (n ∈ step_names sts) then Some (step_summary by_task run n old) else old !! n.

Lemma decide_step_names {A} n sts s (x y : A) :
  (if decide (n ∈ step_names (s :: sts)) then x else y)
  = if decide (WorkflowStep_Name s = n) then x else if decide (n ∈ step_names sts) then x else y.
Proof.
  unfold step_names. cbn [fmap list_fmap].
  destruct (decide (_ = n)) as [<-|Hne]; [by rewrite decide_True by left|].
  apply decide_ext. rewrite elem_of_cons. naive_solver.
Qed.

Lemma record_steps sts old conds n :
  (foldl (record_step by_task run) (old, conds) sts).1 !! n = recorded old sts n.
Proof.
  revert old conds. induction sts as [|s sts IH]; intros old conds; cbn [foldl].
  { unfold recorded. by rewrite decide_False by apply not_elem_of_nil. }
  unfold record_step at 2. rewrite IH. unfold recorded. rewrite (decide_step_names _ _ s).
  set (m := WorkflowStep_Name s).
  assert (Hk : key_at (<[m := step_summary by_task run m old]> old) n = key_at old n).
  { unfold key_at at 1. rewrite lookup_insert. destruct (decide (m = n)) as [<-|]; [|done].
    apply step_summary_key. }
  destruct (decide (n ∈ step_names sts)) as [Hin|Hin].
  - replace (if decide (m = n) then _ else _) with (Some (step_summary by_task run n old))
      by by destruct (decide _).
    f_equal. by apply step_summary_ext.
  - rewrite lookup_insert. by destruct (decide (m = n)) as [<-|Hne].
Qed.

Lemma record_conditions sts old conds n :
  (foldl (record_step by_task run) (old, conds) sts).2 !! n
  = if decide (n ∈ step_names sts) then
      match conditions by_task !! task_name run n with Some c => Some c | None => conds !! n end
    else conds !! n.
Proof.
  revert old conds. induction sts as [|s sts IH]; intros old conds; cbn [foldl].
  { by rewrite decide_False by apply not_elem_of_nil. }
  unfold record_step at 2. rewrite IH, (decide_step_names _ _ s).
  set (m := WorkflowStep_Name s).
  destruct (decide (m = n)) as [<-|Hne].
  - destruct (conditions by_task !! _) eqn:E; [rewrite lookup_insert_eq|]; by destruct (decide _).
  - destruct (conditions by_task !! task_name run m); [by rewrite lookup_insert_ne|done].
Qed.
End record.

(** ** The whole status *)
Section configure.
Context `{GoRuntime}.
Implicit Types (wr : WorkflowRun) (pr : PipelineRun).

Definition old_steps wr : gmap string WorkflowRunStatusSummary :=
  default ∅ (Steps (WorkflowRun_Status wr)).
Definition new_steps wr pr : gmap string WorkflowRunStatusSummary :=
  old_steps (ConfigureWorkflowRun wr pr).
Definition run_status wr pr : string :=
  if IsCancelled wr then WorkflowRunStatusCancelled else workflowRunStatus (PipelineRun_Status pr).
Definition by_task_name wr pr : SummariesByTaskName :=
  workflowRunStatusSummaries (run_status wr pr) pr.

(** The summaries before steps are marked as skipped. *)
Definition recorded_maps wr pr
    : gmap string WorkflowRunStatusSummary * gmap string WorkflowRunStatusSummary :=
  foldl (record_step (by_task_name wr pr) (Run_Name wr))
    (old_steps wr, default ∅ (Conditions (WorkflowRun_Status wr))) (Workflow_Steps wr).

(** The summary of a step as its task run reports it. *)
Definition reported wr pr (n : string) : WorkflowRunStatusSummary :=
  default zero_summary (recorded (by_task_name wr pr) (Run_Name wr) (old_steps wr)
                          (Workflow_Steps wr) n).

Lemma by_task_keys wr pr k s : steps (by_task_name wr pr) !! k = Some s → LogKey s = "".
Proof. apply summaries_no_keys. Qed.

Lemma configure_eq wr pr :
  ConfigureWorkflowRun wr pr = with_run_status (MkRunStatus (run_status wr pr)
    (or_else (Tekton_StartTime (PipelineRun_Status pr)) (StartTime (WorkflowRun_Status wr)))
    (or_else (Tekton_CompletionTime (PipelineRun_Status pr)) (CompletionTime (WorkflowRun_Status wr)))
    (Some (mark_all_skipped (skipFinder (Workflow_Steps wr)) (recorded_maps wr pr).1))
    (Some (recorded_maps wr pr).2)) wr.
Proof.
  unfold ConfigureWorkflowRun, recorded_maps, by_task_name, run_status, old_steps. cbv zeta.
  by destruct (foldl _ _ _).
Qed.

Lemma new_steps_eq wr pr :
  new_steps wr pr = mark_all_skipped (skipFinder (Workflow_Steps wr)) (recorded_maps wr pr).1.
Proof. unfold new_steps. by rewrite configure_eq. Qed.

Lemma recorded_lookup wr pr n :
  (recorded_maps wr pr).1 !! n
  = recorded (by_task_name wr pr) (Run_Name wr) (old_steps wr) (Workflow_Steps wr) n.
Proof. unfold recorded_maps. apply record_steps, by_task_keys. Qed.

Lemma recorded_status wr pr n :
  status_at (recorded_maps wr pr).1 n = Summary_Status (reported wr pr n).
Proof. unfold status_at, reported. by rewrite recorded_lookup. Qed.

Lemma reported_key wr pr n : LogKey (reported wr pr n) = key_at (old_steps wr) n.
Proof.
  unfold reported, recorded. destruct (decide _); [|done]. cbn.
  apply step_summary_key, by_task_keys.
Qed.

(** A step is what was reported of it, or marked as skipped. *)
Lemma new_steps_spec wr pr n :
  let dep := depends (Workflow_Steps wr) in
  let st n := Summary_Status (reported wr pr n) in
  (n ∈ step_names (Workflow_Steps wr) ∧ Acc dep n ∧ never_runs dep st n
   ∧ new_steps wr pr !! n = Some (with_status WorkflowRunStatusSkipped (reported wr pr n)))
  ∨ (¬ (Acc dep n ∧ never_runs dep st n) ∧ new_steps wr pr !! n = (recorded_maps wr pr).1 !! n).
Proof.
  cbv zeta. rewrite new_steps_eq.
  set (dep := depends _). set (pre := (recorded_maps wr pr).1).
  destruct (skipFinder_spec (Workflow_Steps wr)) as (Hg & Hv & He). fold dep in He.
  set (g := skipFinder _) in *.
  assert (Hacc : ∀ n, grounded g n ↔ Acc dep n).
  { intros m. split; induction 1 as [m _ IH]; constructor; intros u Hu; by apply IH, He. }
  assert (Hnever : ∀ n, never_runs (edge g) (status_at pre) n
    ↔ never_runs dep (λ n, Summary_Status (reported wr pr n)) n).
  { intros m. split; apply never_runs_mono; intros; try by apply He.
    - apply recorded_status.
    - symmetry. apply recorded_status. }
  assert (Hstep : ∀ m, never_runs dep (λ n, Summary_Status (reported wr pr n)) m →
    m ∈ step_names (Workflow_Steps wr)).
  { intros m [d k (s & Hs & <- & _) _ _|d k (s & Hs & <- & _) _ _]; by apply list_elem_of_fmap_2. }
  destruct (mark_all_spec g pre n Hg) as [(Hn & Ha & [[Hr Hm]|[Hr Hm]])|[Hn Hm]].
  - left. apply Hnever in Hr. split_and!; [by apply Hstep|by apply Hacc|done|].
    rewrite Hm. unfold marked_entry, pre, reported. by rewrite recorded_lookup.
  - right. split; [|done]. intros [_ H']. by apply Hr, Hnever.
  - right. split; [|done]. intros [Ha Hr]. apply Hn. split; [by apply Hv, Hstep|by apply Hacc].
Qed.
End configure.

(** ** Any order of the maps *)
Section orders.
Context {R1 R2 : GoRuntime} {L1 : GoRuntimeLaws R1} {L2 : GoRuntimeLaws R2}.

Lemma range_map_orders {A} (m : gmap string A) : @range_map R1 A m ≡ₚ @range_map R2 A m.
Proof. by rewrite !range_map_perm. Qed.

(** At most one check of a task run has a status. *)
Definition one_check (tr : TaskRun) : Prop :=
  ∀ i j a b, ConditionChecks tr !! i = Some (Some a) → ConditionChecks tr !! j = Some (Some b) → i = j.

Lemma checks_order tr name :
  one_check tr →
  @taskRunConditionStatusSummary R1 tr name = @taskRunConditionStatusSummary R2 tr name.
Proof.
  intros Hone. unfold taskRunConditionStatusSummary. f_equal.
  assert (Hall : ∀ (Rt : GoRuntime) (L : GoRuntimeLaws Rt) x,
    x ∈ omap snd (@range_map Rt _ (ConditionChecks tr)) →
    ∃ i, ConditionChecks tr !! i = Some (Some x)).
  { intros Rt L x Hx. apply list_elem_of_omap in Hx as ([i o] & Hin & Ho). cbn in Ho. subst o.
    exists i. by apply elem_of_range_map. }
  assert (Hp : omap snd (@range_map R1 _ (ConditionChecks tr))
    ≡ₚ omap snd (@range_map R2 _ (ConditionChecks tr))) by by rewrite range_map_orders.
  assert (H1 := Hall R1 L1). assert (H2 := Hall R2 L2). revert Hp H1 H2.
  generalize (omap snd (@range_map R1 _ (ConditionChecks tr))) as l1,
    (omap snd (@range_map R2 _ (ConditionChecks tr))) as l2.
  intros [|x l1] [|y l2] Hp H1 H2; [done|by apply Permutation_nil_cons in Hp|
    by symmetry in Hp; apply Permutation_nil_cons in Hp|].
  cbn. f_equal. destruct (H1 x) as [i Hi]; [left|]. destruct (H2 y) as [j Hj]; [left|].
  rewrite (Hone i j x y Hi Hj) in Hi. congruence.
Qed.

(** Writing the entries of a list whose keys differ. *)
Definition write_entry {A B} (key : A → string) (f : A → option B) (m : gmap string B) (e : A)
    : gmap string B :=
  match f e with Some v => <[key e := v]> m | None => m end.

Lemma foldl_insert_lookup {A B} (key : A → string) (f : A → option B) l m k v :
  NoDup (key <$> l) →
  foldl (write_entry key f) m l !! k = Some v
  ↔ (∃ e, e ∈ l ∧ key e = k ∧ f e = Some v)
    ∨ ((∀ e, e ∈ l → key e = k → f e = None) ∧ m !! k = Some v).
Proof.
  revert m. induction l as [|e l IH]; intros m Hn.
  { cbn. set_solver. }
  cbn [fmap list_fmap] in Hn. apply NoDup_cons in Hn as [He Hn]. cbn [foldl]. rewrite IH by done.
  unfold write_entry. setoid_rewrite elem_of_cons.
  assert (Hk : ∀ e', e' ∈ l → key e' ≠ key e)
    by (intros e' H' E; apply He; rewrite <- E; by apply list_elem_of_fmap_2).
  destruct (decide (key e = k)) as [<-|Hne].
  - destruct (f e) as [v'|] eqn:Ef.
    + rewrite lookup_insert_eq. naive_solver.
    + naive_solver.
  - destruct (f e) as [v'|] eqn:Ef; [rewrite lookup_insert_ne by done|]; naive_solver.
Qed.

Lemma foldl_insert_perm {A B} (key : A → string) (f g : A → option B) l l' :
  NoDup (key <$> l) → l ≡ₚ l' → (∀ e, e ∈ l → f e = g e) →
  foldl (write_entry key f) ∅ l = foldl (write_entry key g) ∅ l'.
Proof.
  intros Hn Hp Hfg. apply map_eq. intros k. apply option_eq. intros v.
  rewrite !foldl_insert_lookup; [|by rewrite <- Hp|done]. setoid_rewrite lookup_empty.
  split; (intros [(e & He & Hk & Hv)|[_ ?]]; [|done]); left; exists e.
  - rewrite <- Hp, <- Hfg by done. done.
  - rewrite <- Hp in He. rewrite Hfg by done. done.
Qed.

Lemma summaries_split `{GoRuntime} wr_status l m :
  foldl (add_task_run wr_status) m l = MkSummaries
    (foldl (write_entry (λ e : string * TaskRun, PipelineTaskName e.2)
       (λ e, settle_step wr_status <$> taskRunStepStatusSummary e.2 e.1)) (steps m) l)
    (foldl (write_entry (λ e : string * TaskRun, PipelineTaskName e.2)
       (λ e, taskRunConditionStatusSummary e.2 e.1)) (conditions m) l).
Proof.
  revert m. induction l as [|[name tr] l IH]; intros m; [by destruct m|].
  cbn [foldl fst snd]. rewrite IH. unfold add_task_run, write_entry at 2 4.
  cbn [steps conditions fst snd]. f_equal.
  by destruct (taskRunStepStatusSummary tr name).
Qed.

(** Task runs of different tasks. *)
Definition distinct_tasks pr : Prop :=
  NoDup ((λ e : string * TaskRun, PipelineTaskName e.2) <$> map_to_list (TaskRuns pr)).

Lemma summaries_order wr_status pr :
  distinct_tasks pr → map_Forall (λ _ tr, one_check tr) (TaskRuns pr) →
  @workflowRunStatusSummaries R1 wr_status pr = @workflowRunStatusSummaries R2 wr_status pr.
Proof.
  intros Hd Hone. unfold workflowRunStatusSummaries. rewrite !summaries_split. cbn [steps conditions].
  assert (Hn : NoDup ((λ e : string * TaskRun, PipelineTaskName e.2) <$> @range_map R1 _ (TaskRuns pr)))
    by by rewrite (@range_map_perm R1 L1).
  f_equal; apply (foldl_insert_perm (λ e : string * TaskRun, PipelineTaskName e.2));
    try done; try apply range_map_orders.
  intros [name tr] Hin. apply (@elem_of_range_map R1 L1) in Hin. by apply checks_order, (Hone name).
Qed.

Lemma configure_order wr pr :
  distinct_tasks pr → map_Forall (λ _ tr, one_check tr) (TaskRuns pr) →
  @ConfigureWorkflowRun R1 wr pr = @ConfigureWorkflowRun R2 wr pr.
Proof.
  intros Hd Hone. unfold ConfigureWorkflowRun. cbv zeta. by rewrite summaries_order.
Qed.
End orders.

(** * Properties of the status of a workflow run *)
Section properties.
Context `{GoRuntime}.

(** C27: A step's new status is the one its task run reports (pending without one),
    except that a pending step is marked as skipped when, along its dependencies, it
    comes after a step that failed or was skipped, however far; a step that waits on a
    cycle of dependencies is left alone.  The traversal this takes always ends, and the
    log key a step had is kept. *)
Theorem skipped_steps wr pr n :
  let dep := depends (Workflow_Steps wr) in
  let st m := Summary_Status (reported wr pr m) in
  n ∈ step_names (Workflow_Steps wr) →
  (∃ s, new_steps wr pr !! n = Some s ∧ LogKey s = key_at (old_steps wr) n
    ∧ (Acc dep n ∧ never_runs dep st n ∧ s = with_status WorkflowRunStatusSkipped (reported wr pr n)
       ∨ ¬ (Acc dep n ∧ never_runs dep st n) ∧ s = reported wr pr n))
  ∧ no_panic (ForEach (skipFinder (Workflow_Steps wr))
      (λ next s, (Ok tt, mark_skipped (skipFinder (Workflow_Steps wr)) next s))
      (recorded_maps wr pr).1).1.
Proof.
  intros dep st Hn. split.
  - destruct (new_steps_spec wr pr n) as [(_ & Ha & Hr & E)|[Hnot E]]; rewrite E.
    + eexists. split; [done|]. split; [apply reported_key|by left].
    + exists (reported wr pr n). split; [|split; [apply reported_key|by right]].
      rewrite recorded_lookup. unfold reported, recorded. by rewrite decide_True.
  - destruct (ForEach_order _ (proj1 (skipFinder_spec (Workflow_Steps wr)))) as (l & _ & Hrun).
    by apply (Hrun _ _ (mark_skipped (skipFinder (Workflow_Steps wr)))).
Qed.
End properties.

Lemma or_else_twice {A} (o d : option A) : or_else o (or_else o d) = or_else o d.
Proof. by destruct o. Qed.

(** Configuring a run is idempotent: a controller that reconciles the run again
    without news from the pipeline run writes the same status, in whatever order Go
    visits the maps of task runs and checks, provided that the task runs are of
    different tasks and have at most one check with a status each. *)
Theorem configure_idempotent (R1 R2 : GoRuntime) (L1 : GoRuntimeLaws R1) (L2 : GoRuntimeLaws R2) wr pr :
  distinct_tasks pr → map_Forall (λ _ tr, one_check tr) (TaskRuns pr) →
  @ConfigureWorkflowRun R2 (@ConfigureWorkflowRun R1 wr pr) pr = @ConfigureWorkflowRun R1 wr pr.
Proof.
  intros Hd Hone. rewrite (configure_order (R1 := R2) (R2 := R1)) by done.
  clear Hd Hone L2 R2.
  set (wr' := @ConfigureWorkflowRun R1 wr pr).
  assert (Hw : run_status wr' pr = run_status wr pr ∧ Run_Name wr' = Run_Name wr
    ∧ Workflow_Steps wr' = Workflow_Steps wr ∧ by_task_name wr' pr = by_task_name wr pr).
  { assert (Hrs : run_status wr' pr = run_status wr pr) by (unfold wr'; by rewrite configure_eq).
    unfold by_task_name. rewrite Hrs. unfold wr'. by rewrite configure_eq. }
  destruct Hw as (Hst & Hrn & Hws & Hby).
  assert (Hold : old_steps wr' = new_steps wr pr) by done.
  assert (Hc : default ∅ (Conditions (WorkflowRun_Status wr')) = (recorded_maps wr pr).2)
    by (unfold wr'; by rewrite configure_eq).
  assert (Hkeys := by_task_keys wr pr).
  assert (E1 : (recorded_maps wr' pr).1 = (recorded_maps wr pr).1).
  { apply map_eq. intros n. rewrite !recorded_lookup, Hby, Hrn, Hws, Hold.
    unfold recorded. destruct (decide (n ∈ step_names (Workflow_Steps wr))) as [Hn|Hn].
    - f_equal. apply step_summary_ext.
      destruct (skipped_steps wr pr n Hn) as [(s & E & Hk & _) _].
      unfold key_at at 1. by rewrite E.
    - destruct (new_steps_spec wr pr n) as [(? & _)|[_ ->]]; [done|].
      rewrite recorded_lookup. unfold recorded. by rewrite decide_False. }
  assert (E2 : (recorded_maps wr' pr).2 = (recorded_maps wr pr).2).
  { apply map_eq. intros n. unfold recorded_maps at 1. rewrite Hby, Hrn, Hws, Hc.
    rewrite record_conditions. unfold recorded_maps. rewrite !record_conditions.
    destruct (decide _); [|done]. by destruct (conditions _ !! _). }
  rewrite configure_eq, Hst, Hws, E1, E2. unfold wr'. rewrite configure_eq.
  unfold with_run_status. cbn. by rewrite !or_else_twice.
Qed.

(** ** Samples: the steps [a], [b] after [a], [c] after [b], and [x] and [y] that wait
    on each other; the task run of [a] has ended. *)
Definition sample_steps : list WorkflowStep :=
  (λ s, MkWorkflowStep s.1 "" ∅ [] "" [] ∅ VNil s.2) <$>
    [("a", []); ("c", ["b"]); ("b", ["a"]); ("x", ["y"]); ("y", ["x"])].
Definition sample_run : WorkflowRun :=
  MkWorkflowRun "r1" sample_steps ∅ ∅ ∅ ∅
    (MkRunStatus "" None None (Some {["b" := MkSummary "" "" "log-b" None None]}) None).
Definition ended_task (reason : string) : TaskRun :=
  MkTaskRun (task_name "r1" "a")
    (Some (MkTektonStatus [MkTektonCondition "Succeeded" ConditionFalse reason] (Some 1%Z) (Some 2%Z)))
    {["check" := Some (MkTektonStatus [MkTektonCondition "Succeeded" ConditionTrue ""] None None)]}.
Definition sample_pipeline_run (reason : string) : PipelineRun :=
  MkPipelineRun (MkTektonStatus [MkTektonCondition "Succeeded" ConditionUnknown "Running"] (Some 0%Z) None)
    {["task-a" := ended_task reason]}.

Definition new_status `{GoRuntime} (wr : WorkflowRun) (pr : PipelineRun) (n : string) : option string :=
  Summary_Status <$> new_steps wr pr !! n.

Lemma skipped_steps_witness :
  let wr := sample_run in
  let pr := sample_pipeline_run "Failed" in
  new_status (H := forward_runtime) wr pr <$> ["a"; "b"; "c"; "x"]
    = Some <$> ["failure"; "skipped"; "skipped"; "pending"]
  ∧ ∃ s, new_steps (H := forward_runtime) wr pr !! "b" = Some s ∧ LogKey s = "log-b".
Proof.
  split; [vm_compute; reflexivity|].
  destruct (@skipped_steps forward_runtime sample_run (sample_pipeline_run "Failed") "b")
    as [(s & E & Hk & _) _]; [vm_compute; right; right; left|].
  exists s. split; [exact E|exact Hk].
Defined.

Lemma configure_idempotent_witness :
  let pr := sample_pipeline_run "Failed" in
  @ConfigureWorkflowRun backward_runtime (@ConfigureWorkflowRun forward_runtime sample_run pr) pr
  = @ConfigureWorkflowRun forward_runtime sample_run pr.
Proof.
  apply (configure_idempotent forward_runtime backward_runtime _ _ sample_run
           (sample_pipeline_run "Failed")).
  - unfold distinct_tasks. cbn. rewrite map_to_list_singleton. apply NoDup_singleton.
  - cbn. apply map_Forall_singleton. intros i j a b Hi Hj. cbn in Hi, Hj.
    apply lookup_singleton_Some in Hi as [<- _], Hj as [<- _]. reflexivity.
Defined.

(** Only failed and skipped steps skip the steps after them: after a step that timed
    out they stay pending. *)
Lemma timed_out_leaves_pending :
  new_status (H := forward_runtime) sample_run (sample_pipeline_run "PipelineRunTimeout")
    <$> ["a"; "b"; "c"] = Some <$> ["timed-out"; "pending"; "pending"].
Proof. vm_compute. reflexivity. Qed.
