(* ===== verification/RunConfig.v ===== *)
(** * The ConfigMaps of runs and triggers (pkg/obj/configmap.go)

    The controllers evaluate what they can of a run's or a trigger's expressions and
    write the rest, parameters, specs, environments, conditions and state into two
    ConfigMaps that the metadata service reads.  The writes go to the object in memory
    ([LocalConfigMap]); it is persisted afterwards. *)
From S2P Require Import Prelude GoStd GoStrings Values Errors Transfer Unresolvable Fn.
From S2P Require Import Resolve Evaluate Model ConfigMaps ObjUtil Graph RunStatus.

(** Errors marked with [errmark.MarkUser] are the user's; the others are not. *)
Inductive config_error : Type :=
| UserError (delegate : error)
| PlainError (e : error).

Notation config := (effect config_error CoreConfigMap unit).

(** A call whose error is returned as it is, or marked. *)
Definition plainly {A} (m : io CoreConfigMap A) : effect config_error CoreConfigMap A := λ w,
  let '(r, w') := m w in (map_err PlainError r, w').
Definition for_user {A} (r : result A) : effect config_error CoreConfigMap A :=
  lift (map_err UserError r).

(** [v.(map[string]interface{})] *)
Definition assert_map {E} (v : value) : outcome E (gmap string value) :=
  match as_map v with
  | Some m => Ok m
  | None => Panic "interface conversion: not a map"
  end.

(** A webhook trigger: the name of its object, and its specification. *)
Record WebhookTrigger := MkWebhookTrigger {
  WebhookTrigger_Key : string;
  TenantRef : string; WebhookTrigger_Name : string; TriggerImage : string;
  TriggerInput : list string; TriggerCommand : string; TriggerArgs : list string;
  TriggerSpec : gmap string value; TriggerEnv : gmap string value }.

Definition scriptConfigMapKey (action : Action) : string :=
  Plural (action_type action) +:+ "." +:+ HexEncoding (action_hash action) +:+ "." +:+ "script".

Section configure.
Context `{GoRuntime, GoFmt, JSONText, Markdown} (fuel : nat).

Definition default_evaluator : Evaluator := NewEvaluator [].

(** The spec, when there is one. *)
Definition configure_spec (action : Action) (spec : gmap string value) : config :=
  if Nat.eqb (size spec) 0 then mret tt
  else
    r ← for_user (EvaluateAll default_evaluator (VMap spec));
    m ← lift (assert_map (Value r));
    _ ← plainly (Spec_Set (NewSpecManager fuel action LocalConfigMap) m);
    mret tt.

(** The loop over the variables; each has to evaluate to a map. *)
Definition evaluate_variables (env : list (string * value)) (vars : gmap string value)
    : effect config_error CoreConfigMap (gmap string value) :=
  lift (fold_outcome (λ vars nv,
    r ← map_err UserError (EvaluateAll default_evaluator nv.2);
    m ← assert_map (Value r);
    Ok (<[nv.1 := VMap m]> vars)) vars env).

(** [Env.Value()] is never nil, so the environment is always written; the error of the
    write is dropped. *)
Definition configure_environment (action : Action) (env : gmap string value) : config :=
  vars ← evaluate_variables (range_map env) ∅;
  _ ← attempt (plainly (Environment_Set (NewEnvironmentManager fuel action LocalConfigMap) vars));
  mret tt.

Definition configure_condition (action : Action) (when : value) : config :=
  match when with
  | VNil => mret tt
  | _ =>
      r ← for_user (EvaluateAll default_evaluator when);
      _ ← plainly (Condition_Set (NewConditionManager fuel action LocalConfigMap) (Value r));
      mret tt
  end.

Definition configure_parameter (nv : string * value) : config :=
  _ ← plainly (Parameter_Set (NewParameterManager fuel LocalConfigMap) nv.1 nv.2); mret tt.

(** The parameters of the run replace those of the workflow. *)
Definition run_parameters (wr : WorkflowRun) : gmap string value :=
  copy_into (Run_Parameters wr) (Workflow_Parameters wr).

Definition ModelStep (wr : WorkflowRun) (step : WorkflowStep) : Step :=
  ModelStepFromName (Run_Name wr) (WorkflowStep_Name step).

Definition configure_step (wr : WorkflowRun) (step : WorkflowStep) : config :=
  let action := AStep (ModelStep wr step) in
  _ ← configure_spec action (StepSpec step);
  _ ← configure_environment action (StepEnv step);
  configure_condition action (When step).

Definition ConfigureImmutableConfigMapForWorkflowRun (wr : WorkflowRun) : config :=
  _ ← each_effect configure_parameter (range_map (run_parameters wr));
  each_effect (configure_step wr) (Workflow_Steps wr).

(** ** State *)
Definition configure_state (step : Step) (nv : string * value) : config :=
  _ ← plainly (State_Set (NewStateManager fuel (AStep step) LocalConfigMap) nv.1 nv.2); mret tt.

Definition ConfigureMutableConfigMapForWorkflowRun (wr : WorkflowRun) : config :=
  each_effect (λ entry : string * gmap string value,
    each_effect (configure_state (ModelStepFromName (Run_Name wr) entry.1)) (range_map entry.2))
    (range_map (Step_States wr)).

(** ** Triggers *)
Definition configure_script (action : Action) (input : list string) : config :=
  match input with
  | [] => mret tt
  | _ =>
      _ ← plainly (MutateConfigMap fuel LocalConfigMap
            (set_entry (scriptConfigMapKey action) (ScriptForInput input)));
      mret tt
  end.

Definition ConfigureImmutableConfigMapForWebhookTrigger (wt : WebhookTrigger) : config :=
  let action := ATrigger (ModelWebhookTrigger (WebhookTrigger_Name wt) (WebhookTrigger_Key wt)) in
  _ ← configure_spec action (TriggerSpec wt);
  _ ← configure_environment action (TriggerEnv wt);
  configure_script action (TriggerInput wt).
End configure.
