(* ===== verification/RunConfigProperties.v ===== *)
(** * Theory of the configuration of runs and triggers

    A configuration writes entries one after the other until it fails.  [performs m t]
    says that [m] writes the entries of the trace [t] and ends with its outcome; traces
    compose as the configurations do, so that what can be read afterwards follows from
    the list of the writes. *)
From S2P Require Import Prelude GoStd GoStrings Values Errors Transfer Unresolvable Fn.
From S2P Require Import Resolve Evaluate Model ManagersMemory ConfigMaps ConfigMapTheory.
From S2P Require Import ObjUtil Graph RunStatus RunConfig EvaluateTheory Denote Staging.
From S2P Require Import ResultMapper Metadata MetadataApi Samples Query.

Lemma assert_map_Ok {E} v m : @assert_map E v = Ok m ↔ v = VMap m.
Proof. unfold assert_map. destruct v; cbn; naive_solver. Qed.

(** ** Traces *)
Definition entries : Type := list (Slot * value).
Definition trace A : Type := entries * outcome config_error A.

Definition trace_ret {A} (a : A) : trace A := ([], Ok a).
Definition trace_lift {A} (o : outcome config_error A) : trace A := ([], o).
Definition trace_put (s : Slot) (v : value) : trace unit := ([(s, v)], Ok tt).
Definition trace_bind {A B} (t : trace A) (k : A → trace B) : trace B :=
  match t.2 with
  | Ok a => (t.1 ++ (k a).1, (k a).2)
  | Err e => (t.1, Err e)
  | Panic s => (t.1, Panic s)
  end.

Fixpoint trace_each {A} (f : A → trace unit) (l : list A) : trace unit :=
  match l with
  | [] => trace_ret tt
  | x :: l' => trace_bind (f x) (λ _, trace_each f l')
  end.

Lemma trace_bind_Ok {A B} (t : trace A) (k : A → trace B) b :
  (trace_bind t k).2 = Ok b →
  ∃ a, t.2 = Ok a ∧ (k a).2 = Ok b ∧ (trace_bind t k).1 = t.1 ++ (k a).1.
Proof. unfold trace_bind. destruct t.2; [|done..]. intros. by eexists. Qed.

Lemma trace_each_Ok {A} (f : A → trace unit) l :
  (trace_each f l).2 = Ok tt →
  Forall (λ x, (f x).2 = Ok tt) l ∧ (trace_each f l).1 = concat ((λ x, (f x).1) <$> l).
Proof.
  induction l as [|x l IH]; [by split|]. cbn [trace_each]. intros Ho.
  destruct (trace_bind_Ok _ _ _ Ho) as ([] & Hx & Hl & ->). destruct (IH Hl) as [Hf E].
  split; [by constructor|]. cbn. by rewrite E.
Qed.

(** ** What is read after writes *)
Notation contents := (Slot → option value).

Definition put (f : contents) (e : Slot * value) : contents := λ t,
  if decide (slot_id t = slot_id e.1) then Some e.2 else f t.
Definition put_all (f : contents) (ws : entries) : contents := foldl put f ws.

Lemma put_all_app f ws ws' : put_all f (ws ++ ws') = put_all (put_all f ws) ws'.
Proof. apply foldl_app. Qed.

Lemma put_all_ext f g ws t : (∀ t, f t = g t) → put_all f ws t = put_all g ws t.
Proof.
  revert f g. induction ws as [|e ws IH]; intros f g H; [done|]. cbn. apply IH.
  intros u. unfold put. by rewrite H.
Qed.

Lemma put_all_other f ws t :
  Forall (λ e : Slot * value, slot_id t ≠ slot_id e.1) ws → put_all f ws t = f t.
Proof.
  revert f. induction ws as [|e ws IH]; intros f H; [done|].
  apply Forall_cons in H as [He H]. cbn. rewrite IH by done. unfold put. by rewrite decide_False.
Qed.

(** The last write of a slot is what is read. *)
Lemma put_all_last f ws s v ws' :
  Forall (λ e : Slot * value, slot_id s ≠ slot_id e.1) ws' →
  put_all f (ws ++ (s, v) :: ws') s = Some v.
Proof.
  intros H. rewrite put_all_app. change (put_all ?g ((s, v) :: ws')) with (put_all (put g (s, v)) ws').
  rewrite put_all_other by done. unfold put. by rewrite decide_True.
Qed.

(** ** Configurations and their traces *)
Section performs.
Context `{JSONTextLaws}.

Definition contents_of (cm : CoreConfigMap) : contents := λ s, read cm (slot_key s).
Definition can_write (ws : entries) : Prop := Forall (λ e, storable e.1 e.2) ws.

Definition performs {A} (m : effect config_error CoreConfigMap A) (t : trace A) : Prop :=
  ∀ cm, usable cm → can_write t.1 →
  ∃ cm', m cm = (t.2, cm') ∧ usable cm' ∧ ∀ s, contents_of cm' s = put_all (contents_of cm) t.1 s.

Lemma performs_ret {A} (a : A) : performs (mret a) (trace_ret a).
Proof. intros cm Hcm _. by exists cm. Qed.

Lemma performs_lift {A} (o : outcome config_error A) : performs (lift o) (trace_lift o).
Proof. intros cm Hcm _. by exists cm. Qed.

Lemma performs_bind {A B} m (k : A → effect config_error CoreConfigMap B) t u :
  performs m t → (∀ a, performs (k a) (u a)) → performs (m ≫= k) (trace_bind t u).
Proof.
  intros Hm Hk cm Hcm Hw. rewrite effect_bind_run. unfold trace_bind in *.
  assert (Ht : can_write t.1).
  { destruct t.2; [|done..]. by apply Forall_app in Hw as [? _]. }
  destruct (Hm cm Hcm Ht) as (cm1 & -> & Hcm1 & Hr1).
  destruct t.2 as [a|e|s]; [|by exists cm1..].
  apply Forall_app in Hw as [_ Hw]. destruct (Hk a cm1 Hcm1 Hw) as (cm2 & -> & Hcm2 & Hr2).
  exists cm2. split_and!; [done..|]. intros s. cbn. rewrite Hr2, put_all_app.
  by apply put_all_ext.
Qed.

Lemma performs_each {A} (f : A → effect config_error CoreConfigMap unit) g l :
  (∀ x, performs (f x) (g x)) → performs (each_effect f l) (trace_each g l).
Proof.
  intros H'. induction l as [|x l IH]; [apply performs_ret|]. cbn.
  apply performs_bind; [apply H'|done].
Qed.

(** A write through a manager. *)
Lemma performs_set n s v {A} (m : io CoreConfigMap A) :
  (∀ w, (m w).2 = (slot_set (S n) LocalConfigMap s v w).2 ∧
        is_ok (m w).1 = is_ok (slot_set (S n) LocalConfigMap s v w).1) →
  performs (_ ← plainly m; mret tt) (trace_put s v).
Proof.
  intros Hm cm Hcm Hw. apply Forall_cons in Hw as [Hw _]. cbn in Hw.
  destruct (slot_set_local n s v cm Hcm Hw) as (cm' & E & Hcm' & Hr). exists cm'.
  destruct (Hm cm) as [H1 H2]. rewrite E in H1, H2. cbn in H1, H2.
  rewrite effect_bind_run. unfold plainly. destruct (m cm) as [[a|e|x] w]; try discriminate H2.
  cbn in H1. subst w. cbn. split_and!; [done..|]. exact Hr.
Qed.

Lemma performs_attempt {A} (m : effect config_error CoreConfigMap A) ws :
  performs (_ ← m; mret tt) (ws, Ok tt) → performs (_ ← attempt m; mret tt) (ws, Ok tt).
Proof.
  intros Hm cm Hcm Hw. destruct (Hm cm Hcm Hw) as (cm' & E & Hcm' & Hr). exists cm'.
  split; [|done]. revert E. unfold mbind, effect_bind, attempt.
  destruct (m cm) as [[a|e|x] w]; intros E; [exact E|discriminate E..].
Qed.
End performs.

(** ** The traces of the configurations *)
Section traces.
Context `{GoRuntime, GoFmt, JSONText, Markdown}.

Definition evaluated_map (v : value) : outcome config_error (gmap string value) :=
  r ← map_err UserError (EvaluateAll default_evaluator v); assert_map (Value r).

Definition spec_trace (a : Action) (spec : gmap string value) : trace unit :=
  if Nat.eqb (size spec) 0 then trace_ret tt
  else trace_bind (trace_lift (evaluated_map (VMap spec))) (λ m, trace_put (SSpec a) (VMap m)).

Definition variables (env : gmap string value) : outcome config_error (gmap string value) :=
  fold_outcome (λ vars nv, m ← evaluated_map nv.2; Ok (<[nv.1 := VMap m]> vars)) ∅ (range_map env).

Definition environment_trace (a : Action) (env : gmap string value) : trace unit :=
  trace_bind (trace_lift (variables env)) (λ vars, trace_put (SEnvironment a) (VMap vars)).

Definition condition_trace (a : Action) (when : value) : trace unit :=
  match when with
  | VNil => trace_ret tt
  | _ => trace_bind (trace_lift (map_err UserError (EvaluateAll default_evaluator when)))
           (λ r, trace_put (SCondition a) (Value r))
  end.

Definition step_trace (wr : WorkflowRun) (step : WorkflowStep) : trace unit :=
  let a := AStep (ModelStep wr step) in
  trace_bind (spec_trace a (StepSpec step)) (λ _,
  trace_bind (environment_trace a (StepEnv step)) (λ _, condition_trace a (When step))).

Definition parameter_trace (nv : string * value) : trace unit := trace_put (SParameter nv.1) nv.2.

Definition run_trace (wr : WorkflowRun) : trace unit :=
  trace_bind (trace_each parameter_trace (range_map (run_parameters wr)))
    (λ _, trace_each (step_trace wr) (Workflow_Steps wr)).

Definition state_trace (wr : WorkflowRun) : trace unit :=
  trace_each (λ entry : string * gmap string value,
    trace_each (λ nv, trace_put (SState (AStep (ModelStepFromName (Run_Name wr) entry.1)) nv.1) nv.2)
      (range_map entry.2)) (range_map (Step_States wr)).

Context `{!JSONTextLaws} (n : nat).

(** A manager's write, whose object is dropped, performs the write of its slot. *)
Ltac by_slot := apply (performs_set n); intros w; split; cbn [slot_set as_map];
  open_managers; rewrite !effect_bind_run; by destruct (KV_Set _ _ _ _ _) as [[]].

Lemma spec_performs a spec : performs (configure_spec (S n) a spec) (spec_trace a spec).
Proof.
  unfold configure_spec, spec_trace. destruct (Nat.eqb _ 0); [apply performs_ret|].
  assert (E : trace_bind (trace_lift (evaluated_map (VMap spec))) (λ m, trace_put (SSpec a) (VMap m))
    = trace_bind (trace_lift (map_err UserError (EvaluateAll default_evaluator (VMap spec))))
        (λ r, trace_bind (trace_lift (assert_map (Value r))) (λ m, trace_put (SSpec a) (VMap m)))).
  { unfold evaluated_map, trace_bind, trace_lift. cbn [fst snd].
    destruct (EvaluateAll default_evaluator (VMap spec)) as [r| |]; [|done..].
    cbn [map_err mbind outcome_bind]. by destruct (assert_map _). }
  rewrite E. apply performs_bind; [apply performs_lift|]. intros r.
  apply performs_bind; [apply performs_lift|]. intros m. by_slot.
Qed.

Lemma variables_eq env :
  evaluate_variables (range_map env) ∅ = lift (variables env).
Proof.
  unfold evaluate_variables, variables. f_equal. apply fold_outcome_ext. intros vars nv _.
  unfold evaluated_map. by destruct (map_err _ _).
Qed.

Lemma environment_performs a env :
  performs (configure_environment (S n) a env) (environment_trace a env).
Proof.
  unfold configure_environment, environment_trace. rewrite variables_eq.
  apply performs_bind; [apply performs_lift|]. intros vars. apply performs_attempt. by_slot.
Qed.

Lemma condition_performs a when : performs (configure_condition (S n) a when) (condition_trace a when).
Proof.
  destruct when; try apply performs_ret;
    (apply performs_bind; [apply performs_lift|]; intros r; by_slot).
Qed.

Lemma step_performs wr s : performs (configure_step (S n) wr s) (step_trace wr s).
Proof.
  apply performs_bind; [apply spec_performs|]. intros _.
  apply performs_bind; [apply environment_performs|]. intros _. apply condition_performs.
Qed.

Lemma run_performs wr :
  performs (ConfigureImmutableConfigMapForWorkflowRun (S n) wr) (run_trace wr).
Proof.
  apply performs_bind.
  - apply performs_each. intros [k v]. by_slot.
  - intros _. apply performs_each, step_performs.
Qed.

Lemma state_performs wr :
  performs (ConfigureMutableConfigMapForWorkflowRun (S n) wr) (state_trace wr).
Proof. apply performs_each. intros [k m]. apply performs_each. intros [k' v]. by_slot. Qed.
End traces.

(** ** What a configured run holds *)
Section run_contents.
Context `{GoRuntimeLaws} `{GoFmt, JSONText, Markdown}.
Implicit Types (f : contents) (wr : WorkflowRun) (s : WorkflowStep).

Lemma variables_related env vars :
  variables env = Ok vars →
  map_related (λ _ v w, ∃ m, evaluated_map v = Ok m ∧ w = VMap m) env vars.
Proof.
  intros Ho. assert (Hr : map_related
    (λ _ v w, (m ← evaluated_map v; Ok (VMap m)) = (Ok w : outcome config_error value)) env vars).
  { apply range_insert_Ok. rewrite <- Ho. apply fold_outcome_ext. intros acc [k v] _.
    unfold insert_result. cbn. by destruct (evaluated_map v). }
  intros k. specialize (Hr k). destruct (env !! k), (vars !! k); try done.
  apply bind_Ok in Hr as (m & Hm & [= <-]). by exists m.
Qed.

(** The slots a step writes are those of its action. *)
Definition step_slots wr s : list Slot :=
  [SSpec (AStep (ModelStep wr s)); SEnvironment (AStep (ModelStep wr s));
   SCondition (AStep (ModelStep wr s))].

(** The trace of a step that is configured, entry by entry. *)
Lemma step_trace_Ok wr s :
  (step_trace wr s).2 = Ok tt →
  ∃ spec vars cond,
    (step_trace wr s).1 = spec ++ (SEnvironment (AStep (ModelStep wr s)), VMap vars) :: cond
    ∧ variables (StepEnv s) = Ok vars
    ∧ ((StepSpec s = ∅ ∧ spec = []) ∨ ∃ m, evaluated_map (VMap (StepSpec s)) = Ok m
         ∧ spec = [(SSpec (AStep (ModelStep wr s)), VMap m)])
    ∧ ((When s = VNil ∧ cond = []) ∨ ∃ r, EvaluateAll default_evaluator (When s) = Ok r
         ∧ cond = [(SCondition (AStep (ModelStep wr s)), Value r)]).
Proof.
  unfold step_trace. cbv zeta. set (a := AStep _). intros Ho.
  destruct (trace_bind_Ok _ _ _ Ho) as ([] & Hs & Ho' & ->).
  destruct (trace_bind_Ok _ _ _ Ho') as ([] & He & Hc & ->).
  destruct (trace_bind_Ok _ _ _ He) as (vars & Hv & _ & E2).
  exists (spec_trace a (StepSpec s)).1, vars, (condition_trace a (When s)).1.
  unfold environment_trace. rewrite E2. split_and!; [done|exact Hv|..].
  - unfold spec_trace in *. destruct (Nat.eqb_spec (size (StepSpec s)) 0) as [Hz|Hz].
    + left. split; [by apply map_size_empty_inv|done].
    + right. destruct (trace_bind_Ok _ _ _ Hs) as (m & Hm & _ & ->). by exists m.
  - assert (Hwhen : (When s = VNil ∧ condition_trace a (When s) = trace_ret tt)
      ∨ condition_trace a (When s) = trace_bind (trace_lift (map_err UserError
          (EvaluateAll default_evaluator (When s)))) (λ r, trace_put (SCondition a) (Value r)))
      by (destruct (When s); auto).
    destruct Hwhen as [[-> ->]|E]; [by left|]. rewrite E in Hc |- *. right.
    destruct (trace_bind_Ok _ _ _ Hc) as (r & Hr & _ & ->). exists r. split; [|done].
    cbn in Hr. by apply map_err_Ok in Hr.
Qed.

Lemma step_trace_slots wr s :
  (step_trace wr s).2 = Ok tt → Forall (λ e : Slot * value, e.1 ∈ step_slots wr s) (step_trace wr s).1.
Proof.
  intros Ho. destruct (step_trace_Ok wr s Ho) as (spec & vars & cond & -> & _ & Hs & Hc).
  apply Forall_app. split; [|constructor; [right; left|]].
  - destruct Hs as [[_ ->]|(m & _ & ->)]; repeat constructor.
  - destruct Hc as [[_ ->]|(r & _ & ->)]; repeat constructor.
Qed.

Lemma run_trace_Ok wr :
  (run_trace wr).2 = Ok tt →
  Forall (λ s, (step_trace wr s).2 = Ok tt) (Workflow_Steps wr) ∧
  (run_trace wr).1 = ((λ nv, (SParameter nv.1, nv.2)) <$> range_map (run_parameters wr))
                     ++ concat ((λ s, (step_trace wr s).1) <$> Workflow_Steps wr).
Proof.
  intros Ho. destruct (trace_bind_Ok _ _ _ Ho) as ([] & Hp & Hs & E).
  destruct (trace_each_Ok _ _ Hp) as [_ E1]. destruct (trace_each_Ok _ _ Hs) as [Hf E2].
  split; [done|]. unfold run_trace. rewrite E, E1, E2. f_equal. clear.
  induction (range_map (run_parameters wr)) as [|[k v] l IH]; [done|]. cbn. f_equal. exact IH.
Qed.

Lemma run_parameter_contents f wr k v :
  (run_trace wr).2 = Ok tt → run_parameters wr !! k = Some v →
  put_all f (run_trace wr).1 (SParameter k) = Some v.
Proof.
  intros Ho Hk. destruct (run_trace_Ok wr Ho) as [Hs ->].
  apply elem_of_range_map in Hk. apply list_elem_of_split in Hk as (l1 & l2 & E).
  assert (Hn := range_map_NoDup (run_parameters wr)). rewrite E in Hn |- *.
  rewrite fmap_app, fmap_cons in Hn. apply NoDup_app in Hn as (_ & _ & Hn).
  apply NoDup_cons in Hn as [Hn _].
  rewrite fmap_app, fmap_cons, <- app_assoc. cbn [app fst snd]. apply put_all_last, Forall_app. split.
  - apply Forall_forall. intros e (nv & -> & Hin)%list_elem_of_fmap. cbn [slot_id fst]. intros [= E'].
    apply Hn. cbn [fst]. rewrite E'. by apply list_elem_of_fmap_2.
  - apply Forall_concat, Forall_fmap. eapply Forall_impl; [exact Hs|]. intros s Hso.
    eapply Forall_impl; [by apply step_trace_slots|]. intros [sl v'] Hsl. cbn [fst] in *.
    unfold step_slots in Hsl. rewrite !elem_of_cons, elem_of_nil in Hsl.
    by destruct Hsl as [->|[->|[->|[]]]].
Qed.

(** The entries of a step that no later step with the same hash writes over. *)
Lemma run_step_contents f wr l1 s l2 :
  (run_trace wr).2 = Ok tt → Workflow_Steps wr = l1 ++ s :: l2 →
  Forall (λ s', step_hash (ModelStep wr s') ≠ step_hash (ModelStep wr s)) l2 →
  let a := AStep (ModelStep wr s) in
  let read := put_all f (run_trace wr).1 in
  (StepSpec s ≠ ∅ → ∃ m, evaluated_map (VMap (StepSpec s)) = Ok m ∧ read (SSpec a) = Some (VMap m))
  ∧ (∃ vars, variables (StepEnv s) = Ok vars ∧ read (SEnvironment a) = Some (VMap vars))
  ∧ (When s ≠ VNil → ∃ r, EvaluateAll default_evaluator (When s) = Ok r
       ∧ read (SCondition a) = Some (Value r)).
Proof.
  intros Ho Hl Hlater a read. destruct (run_trace_Ok wr Ho) as [Hs E]. rewrite Hl in Hs, E.
  apply Forall_app in Hs as [_ Hs]. apply Forall_cons in Hs as [Hso Hs2].
  set (W1 := ((λ nv, (SParameter nv.1, nv.2)) <$> range_map (run_parameters wr))
             ++ concat ((λ s, (step_trace wr s).1) <$> l1)).
  set (W2 := concat ((λ s, (step_trace wr s).1) <$> l2)).
  assert (E' : (run_trace wr).1 = W1 ++ (step_trace wr s).1 ++ W2).
  { rewrite E, fmap_app, concat_app, fmap_cons. cbn [concat]. unfold W1, W2.
    by rewrite <- app_assoc. }
  assert (Hw2 : ∀ t, t ∈ step_slots wr s → Forall (λ e : Slot * value, slot_id t ≠ slot_id e.1) W2).
  { intros t Ht. unfold W2. apply Forall_concat, Forall_fmap, Forall_forall. intros s' Hs'.
    rewrite Forall_forall in Hs2, Hlater. specialize (Hlater s' Hs').
    eapply Forall_impl; [by apply step_trace_slots, Hs2|]. intros [sl v] Hsl. cbn [fst] in *.
    unfold step_slots in Ht, Hsl. rewrite !elem_of_cons, elem_of_nil in Ht, Hsl.
    clear -Ht Hsl Hlater. revert Hlater. cbn.
    destruct Ht as [->|[->|[->|[]]]], Hsl as [->|[->|[->|[]]]]; cbn;
      generalize (step_hash (ModelStep wr s)) as h, (step_hash (ModelStep wr s')) as h';
      intros h h' Hne [=]; congruence. }
  destruct (step_trace_Ok wr s Hso) as (spec & vars & cond & Es & Hv & Hsp & Hc).
  unfold read. rewrite E', Es. fold a. split_and!.
  - intros Hne. destruct Hsp as [[? _]|(m & Hm & ->)]; [done|]. exists m. split; [done|].
    rewrite <- app_assoc. cbn [app]. apply put_all_last. constructor; [done|]. apply Forall_app.
    split; [|by apply Hw2; left]. destruct Hc as [[_ ->]|(r & _ & ->)]; by repeat constructor.
  - exists vars. split; [done|]. rewrite <- !app_assoc, app_assoc. cbn [app]. apply put_all_last.
    apply Forall_app. split; [|by apply Hw2; right; left].
    destruct Hc as [[_ ->]|(r & _ & ->)]; by repeat constructor.
  - intros Hne. destruct Hc as [[? _]|(r & Hr & ->)]; [done|]. exists r. split; [done|].
    replace (W1 ++ _ ++ W2) with ((W1 ++ spec ++ [(SEnvironment a, VMap vars)])
      ++ (SCondition a, Value r) :: W2) by (by rewrite <- !app_assoc).
    by apply put_all_last, Hw2; right; right; left.
Qed.
End run_contents.

(** ** Reading through a backend *)
Section readers.
Context {W : Type} `{JSONTextLaws} (rd : ConfigMap W) (w : W) (cm : CoreConfigMap).
Context (Hrd : cm_Get rd w = (Ok cm, w)) (Hcm : usable cm).

Lemma KV_Get_reader key : KV_Get rd key w = ((KV_Get LocalConfigMap key cm).1, w).
Proof. unfold KV_Get. rewrite Hrd. cbn. by destruct (Cm_Data cm ≫= _). Qed.

Lemma slot_get_reader n s v :
  read cm (slot_key s) = Some v → slot_get n rd s w = (Ok (slot_object s v), w).
Proof.
  intros Hv. assert (E := slot_get_local 0 s cm Hcm). rewrite Hv in E. cbn [read_result] in E.
  destruct s as [k|a|a|a|a k|[r k] k']; cbn [slot_get] in *; revert E; open_managers;
    rewrite !effect_bind_run, KV_Get_reader; cbn [slot_key] in *;
    destruct (KV_Get LocalConfigMap _ cm) as [[x|e|x] w']; cbn [fst]; intros E; try discriminate E;
    try (cbn in E |- *; by injection E as -> _).
  rewrite effect_bind_run in *. unfold lift in *. cbn [fst] in *.
  destruct (as_map x); [|discriminate E]. cbn in E |- *. by injection E as -> _.
Qed.
End readers.

(** * Properties of the configuration of runs *)
Section properties.
Context `{GoRuntimeLaws} `{GoFmt} `{JSONTextLaws} `{Markdown}.

(** What a successful configuration leaves. *)
Lemma configured n wr cm cm' :
  usable cm → can_write (run_trace wr).1 →
  ConfigureImmutableConfigMapForWorkflowRun (S n) wr cm = (Ok tt, cm') →
  (run_trace wr).2 = Ok tt ∧ usable cm'
  ∧ ∀ s, read cm' (slot_key s) = put_all (contents_of cm) (run_trace wr).1 s.
Proof.
  intros Hcm Hw Hrun. destruct (run_performs n wr cm Hcm Hw) as (cm2 & E & Hu & Hr).
  rewrite E in Hrun. injection Hrun as Ho ->. done.
Qed.

Lemma evaluated_map_Ok v m :
  evaluated_map v = Ok m ↔ ∃ r, EvaluateAll default_evaluator v = Ok r ∧ Value r = VMap m.
Proof.
  unfold evaluated_map. rewrite bind_Ok. split; intros (r & Hr & Hm); exists r;
    by rewrite ?map_err_Ok, ?assert_map_Ok in *.
Qed.

(** C32: After a run is configured, what its steps read through the metadata service's
    managers, over any backend that holds the ConfigMap, is what the run says: each
    parameter has the run's value or else the workflow's, and each step has its spec,
    its environment variables and its condition as the default evaluator leaves them.
    (Two steps of one hash share their entries; the later one's are read.) *)
Theorem run_config_readable {W} n k wr cm cm' (rd : ConfigMap W) w :
  usable cm → can_write (run_trace wr).1 →
  ConfigureImmutableConfigMapForWorkflowRun (S n) wr cm = (Ok tt, cm') →
  cm_Get rd w = (Ok cm', w) →
  (∀ name v, Run_Parameters wr !! name = Some v
             ∨ (Run_Parameters wr !! name = None ∧ Workflow_Parameters wr !! name = Some v) →
   Parameter_Get (NewParameterManager k rd) name w = (Ok (MkParameter name v), w))
  ∧ ∀ l1 s l2, Workflow_Steps wr = l1 ++ s :: l2 →
      Forall (λ s', step_hash (ModelStep wr s') ≠ step_hash (ModelStep wr s)) l2 →
      let me := AStep (ModelStep wr s) in
      (StepSpec s ≠ ∅ → ∃ r m, EvaluateAll default_evaluator (VMap (StepSpec s)) = Ok r
         ∧ Value r = VMap m ∧ Spec_Get (NewSpecManager k me rd) w = (Ok (MkSpec (VMap m)), w))
      ∧ (∃ vars, Environment_Get (NewEnvironmentManager k me rd) w = (Ok (MkEnvironment vars), w)
         ∧ map_related (λ _ v v', ∃ r, EvaluateAll default_evaluator v = Ok r ∧ Value r = v')
             (StepEnv s) vars)
      ∧ (When s ≠ VNil → ∃ r, EvaluateAll default_evaluator (When s) = Ok r
         ∧ Condition_Get (NewConditionManager k me rd) w = (Ok (MkCondition (Value r)), w)).
Proof.
  intros Hcm Hw Hrun Hrd. destruct (configured n wr cm cm' Hcm Hw Hrun) as (Ho & Hu & Hr).
  assert (Hget : ∀ s v, put_all (contents_of cm) (run_trace wr).1 s = Some v →
    slot_get k rd s w = (Ok (slot_object s v), w)).
  { intros s v Hv. apply (slot_get_reader rd w cm' Hrd Hu). by rewrite Hr. }
  split.
  - intros name v Hv. assert (Hp : run_parameters wr !! name = Some v).
    { unfold run_parameters. rewrite copy_into_union. apply lookup_union_Some_raw. naive_solver. }
    assert (E := Hget _ _ (run_parameter_contents (contents_of cm) wr name v Ho Hp)).
    by destruct (effect_map_Ok _ _ _ _ _ E) as (p & Ep & [= ->]).
  - intros l1 s l2 Hl Hlater me.
    destruct (run_step_contents (contents_of cm) wr l1 s l2 Ho Hl Hlater) as (Hsp & (vars & Hv & He) & Hc).
    fold me in Hsp, He, Hc. split_and!.
    + intros Hne. destruct (Hsp Hne) as (m & Hm & E). apply evaluated_map_Ok in Hm as (r & Hev & Hm).
      exists r, m. split_and!; [done..|].
      by destruct (effect_map_Ok _ _ _ _ _ (Hget _ _ E)) as (p & Ep & [= ->]).
    + exists vars. split.
      * by destruct (effect_map_Ok _ _ _ _ _ (Hget _ _ He)) as (p & Ep & [= ->]).
      * intros x. assert (Hx := variables_related (StepEnv s) vars Hv x).
        destruct (StepEnv s !! x), (vars !! x); try done.
        destruct Hx as (m & Hm & ->). apply evaluated_map_Ok in Hm as (r & Hev & Hm). by exists r.
    + intros Hne. destruct (Hc Hne) as (r & Hev & E). exists r. split; [done|].
      by destruct (effect_map_Ok _ _ _ _ _ (Hget _ _ E)) as (p & Ep & [= ->]).
Qed.

(** The default evaluator resolves no references, so that any evaluator with the default
    functions can follow it. *)
Lemma default_is_early e :
  invocationResolver e = NewDefaultMemoryInvocationResolver → (∀ i, invoke e i = i tt) →
  later_stage default_evaluator e.
Proof.
  intros Hf Hi. split; cbn; try done.
  - intros key args i. unfold Denote.call, resolve_invoker. by rewrite Hf.
  - intros i w. by rewrite Hi.
Qed.

(** C6: From the specification of a run to the answer of the metadata service: when a
    step asks for its spec, it gets the complete value that evaluating the expressions
    of its workflow with the resolvers of the request gives, although they were
    evaluated without resolvers when the run was configured, written to a ConfigMap as
    JSON, and evaluated again.  That holds if the functions that the first evaluation
    calls return data that the second evaluates to itself ([stage_stable]), and merge is
    called on maps that an evaluation has to itself ([owned_merges]).  What jsonUnmarshal
    reads from a text with an expression in it is not such data: the service evaluates it
    once more ([unmarshaled_reference]). *)
Theorem run_spec_served {W} `{ValueText, QueryLanguages} n k wr cm cm' (rd : ConfigMap W) (m : MetadataManagers W)
    w l1 s l2 v :
  usable cm → can_write (run_trace wr).1 →
  ConfigureImmutableConfigMapForWorkflowRun (S n) wr cm = (Ok tt, cm') →
  cm_Get rd w = (Ok cm', w) →
  Workflow_Steps wr = l1 ++ s :: l2 →
  Forall (λ s', step_hash (ModelStep wr s') ≠ step_hash (ModelStep wr s)) l2 →
  StepSpec s ≠ ∅ →
  SpecOf m = NewSpecManager k (AStep (ModelStep wr s)) rd →
  let spec := VMap (StepSpec s) in
  let late := spec_evaluator m w LanguagePath in
  stage_stable default_evaluator late spec →
  owned_merges default_evaluator spec → owned_merges late spec →
  (∀ r, EvaluateAll default_evaluator spec = Ok r → owned_merges late (Value r)) →
  EvaluateAll late spec = Ok (complete_result v) →
  GetSpec m "" "" w
  = (Ok [RespOK (BResult (NewJSONResultEnvelope (complete_result v)))], w).
Proof.
  intros Hcm Hw Hrun Hrd Hl Hlater Hne Hm spec late Hst _ _ _ Hev. subst spec late.
  destruct (configured n wr cm cm' Hcm Hw Hrun) as (Ho & Hu & Hr).
  destruct (run_step_contents (contents_of cm) wr l1 s l2 Ho Hl Hlater) as (Hsp & _).
  destruct (Hsp Hne) as (m0 & Hm0 & E). apply evaluated_map_Ok in Hm0 as (r0 & Hr0 & Hv0).
  rewrite <- Hr in E. apply (slot_get_reader rd w cm' Hrd Hu k) in E.
  destruct (effect_map_Ok _ _ _ _ _ E) as (sp & Esp & [= ->]).
  assert (Hlate : later_stage default_evaluator (spec_evaluator m w LanguagePath))
    by by apply default_is_early.
  assert (Hd : evaluate default_evaluator (VMap (StepSpec s)) (-1) = Ok r0).
  { unfold EvaluateAll, Evaluate in Hr0. apply bind_Ok in Hr0 as (r & Hr0 & [= <-]). done. }
  assert (He : evaluate (spec_evaluator m w LanguagePath) (VMap (StepSpec s)) (-1)
               = Ok (complete_result v)).
  { unfold EvaluateAll, Evaluate in Hev. apply bind_Ok in Hev as (r & Hev & [= <-]). done. }
  destruct (stage_step _ _ Hlate _ _ Hst Hd) as [Hds _].
  assert (Hnext : evaluate (spec_evaluator m w LanguagePath) (VMap m0) (-1) = Ok (complete_result v)).
  { rewrite <- Hv0. change (completes (spec_evaluator m w LanguagePath) (Value r0) v).
    apply completes_denotes, Hds, completes_denotes. exact He. }
  assert (Hans : Scoped_EvaluateAll (ScopeTo (spec_evaluator m w LanguagePath) (VMap m0))
                 = Ok (complete_result v)).
  { unfold Scoped_EvaluateAll, EvaluateAll, Evaluate. cbn [parent tree ScopeTo]. by rewrite Hnext. }
  unfold GetSpec, reading, attempt. rewrite effect_bind_run, Hm, Esp.
  cbn -[spec_evaluator Scoped_EvaluateAll ScopeTo]. by rewrite Hans.
Qed.
End properties.

(** ** A sample run: one step whose spec names a parameter *)
Definition greeting : gmap string value := {["greeting" := ref_parameter "who"]}.
Definition sample_step : WorkflowStep :=
  MkWorkflowStep "hello" "alpine" greeting [] "" [] {["TOKEN" := ref_secret "token"]}
    (VSlice [VBool true]) [].
Definition configured_run : WorkflowRun :=
  MkWorkflowRun "r1" [sample_step] {["who" := VString "nobody"]} {["who" := VString "world"]} ∅ ∅
    (MkRunStatus "" None None None None).

Definition configure_sample (wr : WorkflowRun) : outcome config_error unit * CoreConfigMap :=
  @ConfigureImmutableConfigMapForWorkflowRun forward_runtime sample_fmt tree_json sample_markdown 1
    wr empty_config_map.
Definition sample_cm : CoreConfigMap := (configure_sample configured_run).2.

Definition sample_managers : MetadataManagers CoreConfigMap :=
  Build (SetSpec (@NewSpecManager _ tree_json 1 (AStep (ModelStep configured_run sample_step)) LocalConfigMap)
    (SetParameters (@NewParameterManager _ tree_json 1 LocalConfigMap) NewMetadataBuilder)).

Lemma sample_can_write :
  can_write (@run_trace forward_runtime sample_fmt tree_json sample_markdown configured_run).1.
Proof.
  assert (E : (@run_trace forward_runtime sample_fmt tree_json sample_markdown configured_run).1
    = [(SParameter "who", VString "world");
       (SSpec (AStep (ModelStep configured_run sample_step)), VMap greeting);
       (SEnvironment (AStep (ModelStep configured_run sample_step)),
        VMap {["TOKEN" := ref_secret "token"]});
       (SCondition (AStep (ModelStep configured_run sample_step)), VSlice [VBool true])])
    by (vm_compute; reflexivity).
  rewrite E. unfold can_write.
  repeat apply Forall_cons_2; try apply Forall_nil_2;
    (split; [vm_compute; reflexivity|first [exact I|eexists; reflexivity]]).
Qed.

Lemma sample_configured : configure_sample configured_run = (Ok tt, sample_cm).
Proof. vm_compute. reflexivity. Qed.

Lemma run_config_readable_witness :
  Parameter_Get (@NewParameterManager _ tree_json 1 LocalConfigMap) "who" sample_cm
    = (Ok (MkParameter "who" (VString "world")), sample_cm).
Proof.
  refine (proj1 (@run_config_readable forward_runtime _ sample_fmt tree_json _ sample_markdown _ 0 1
    configured_run empty_config_map sample_cm LocalConfigMap sample_cm usable_empty sample_can_write
    sample_configured eq_refl) "who" (VString "world") _).
  left. reflexivity.
Defined.

Lemma subtree_map x m :
  subtree x (VMap m) → x = VMap m ∨ ∃ k v, m !! k = Some v ∧ subtree x v.
Proof. intros Hx. inversion Hx; subst; [by left|right; eauto]. Qed.

Lemma sample_stage_stable (e : Evaluator) :
  stage_stable (@default_evaluator tree_json sample_markdown) e (VMap greeting).
Proof.
  assert (Hleaf : ∀ x s, subtree x (VString s) → is_reference x = false)
    by (intros x s Hx; inversion Hx; reflexivity).
  assert (Hg : is_reference (VMap greeting) = false) by (vm_compute; reflexivity).
  assert (Hnot : match @evaluate forward_runtime sample_fmt
      (@default_evaluator tree_json sample_markdown) (ref_parameter "who") (-1) with
    | Ok r => Unresolvable.Complete r | _ => false end = false) by (vm_compute; reflexivity).
  intros x w Hx Hr Hd. exfalso. apply subtree_map in Hx as [->|(k & v & Hk & Hx)]; [congruence|].
  unfold greeting in Hk. apply lookup_singleton_Some in Hk as [<- <-].
  apply subtree_map in Hx as [->|(k & v & Hk & Hx)].
  - apply (@completes_denotes forward_runtime _ sample_fmt) in Hd. unfold completes in Hd.
    unfold ref_parameter, map2 in Hnot. rewrite Hd in Hnot. discriminate Hnot.
  - apply lookup_insert_Some in Hk as [[<- <-]|[_ Hk]];
      [|apply lookup_singleton_Some in Hk as [<- <-]];
      apply Hleaf in Hx; congruence.
Qed.

Lemma run_spec_served_witness :
  @GetSpec _ forward_runtime sample_fmt tree_json sample_markdown sample_text
    sample_languages sample_managers "" "" sample_cm
  = (Ok [RespOK (BResult (NewJSONResultEnvelope
       (complete_result (VMap {["greeting" := VString "world"]}))))], sample_cm).
Proof.
  refine (@run_spec_served forward_runtime _ sample_fmt tree_json _ sample_markdown _
    sample_text sample_languages 0 1 configured_run empty_config_map sample_cm LocalConfigMap
    sample_managers sample_cm [] sample_step [] _ usable_empty sample_can_write
    sample_configured eq_refl eq_refl (Forall_nil_2 _) _ eq_refl (sample_stage_stable _)
    (merges_plain_owned _ _ _) (merges_plain_owned _ _ _) _ _).
  - discriminate.
  - vm_compute; reflexivity.
  - vm_compute; reflexivity.
  - intros r Hr. apply merges_plain_owned. revert Hr.
    set (o := EvaluateAll _ _). vm_compute in o. by intros [= <-].
  - vm_compute; reflexivity.
Defined.

(** What fails without [stage_stable]: text with a reference in it is read as data by one
    evaluation, and is the secret in two. *)
Lemma unmarshaled_reference :
  let text := @json_print tree_json (JObject (list_to_map
    [("$type", JString "Secret"); ("name", JString "key")])) in
  let spec := VMap {["$fn.jsonUnmarshal" := VString text]} in
  let early := @default_evaluator tree_json sample_markdown in
  let late := @NewEvaluator tree_json sample_markdown
    [WithSecretTypeResolver (MemorySecretTypeResolver sample_secrets)] in
  @evaluate forward_runtime sample_fmt early spec (-1) = Ok (complete_result (ref_secret "key"))
  ∧ @evaluate forward_runtime sample_fmt late spec (-1) = Ok (complete_result (ref_secret "key"))
  ∧ @evaluate forward_runtime sample_fmt late (ref_secret "key") (-1) = Ok (complete_result (VString "!")).
Proof. split_and!; vm_compute; reflexivity. Qed.

(** ** Panics of the controller *)
Definition with_step (spec env : gmap string value) : WorkflowRun :=
  MkWorkflowRun "r1" [MkWorkflowStep "hello" "alpine" spec [] "" [] env VNil []] ∅ ∅ ∅ ∅
    (MkRunStatus "" None None None None).

(** A variable with a literal value. *)
Lemma environment_literal_panics :
  (configure_sample (with_step ∅ {["NAME" := VString "literal"]})).1
  = Panic "interface conversion: not a map".
Proof. vm_compute. reflexivity. Qed.

(** A spec that evaluates to something other than an object. *)
Lemma evaluated_spec_panics :
  (configure_sample (with_step {["$fn.concat" := VSlice [VString "a"; VString "b"]]} ∅)).1
  = Panic "interface conversion: not a map".
Proof. vm_compute. reflexivity. Qed.
