(* ===== verification/Workflow.v ===== *)
(** * The workflow language (pkg/workflow/types/v1)

    A workflow file is decoded to [YAMLWorkflowData] (by yaml.v3, a parameter here), then
    to [WorkflowData], whose steps and triggers are variants, and mapped to the objects
    the controllers reconcile: a workflow run, a tenant, a webhook trigger. *)
From S2P Require Import Prelude GoStd GoStrings Values Errors Transfer Model ObjUtil.
From S2P Require Import AuthIssue Graph RunStatus RunConfig.

Definition WorkflowStepTypeContainer : string := "container".
Definition WorkflowStepTypeApproval : string := "approval".
Definition WorkflowStepApprovalWaiting : string := "waiting".
Definition WorkflowStepApprovalApproved : string := "approved".
Definition WorkflowStepApprovalRejected : string := "rejected".
Definition WorkflowTriggerSourceTypePush : string := "push".
Definition WorkflowTriggerSourceTypeSchedule : string := "schedule".
Definition WorkflowTriggerSourceTypeWebhook : string := "webhook".

(** ** Data: [None] is a nil map or pointer, a tree that is absent is [VNil]. *)
Notation trees := (option (gmap string value)).

(** [YAMLContainerMixin]; [ContainerMixin] has the same fields, and remembers whether
    its input file was loaded. *)
Record YAMLContainerMixin := MkYAMLContainerMixin {
  yaml_Image : string; yaml_Spec : trees; yaml_Input : list string; yaml_InputFile : string;
  yaml_Command : string; yaml_Args : list string }.

Record ContainerMixin := MkContainerMixin {
  Mixin_Image : string; Mixin_Spec : trees; Mixin_InputFile : string; Mixin_Input : list string;
  Mixin_Command : string; Mixin_Args : list string; inputFileLoaded : bool }.

Record YAMLWorkflowStep := MkYAMLWorkflowStep {
  yaml_step_Name : string; yaml_step_Type : string; yaml_step_container : YAMLContainerMixin;
  yaml_step_DependsOn : list string; yaml_step_When : value }.

Record YAMLWorkflowTriggerSource := MkYAMLWorkflowTriggerSource {
  yaml_source_Type : string; yaml_source_Schema : trees; yaml_source_Schedule : string;
  yaml_source_container : YAMLContainerMixin }.

Record YAMLWorkflowTrigger := MkYAMLWorkflowTrigger {
  yaml_trigger_Name : string; yaml_trigger_Source : YAMLWorkflowTriggerSource;
  yaml_trigger_Key : value; yaml_trigger_Parameters : trees; yaml_trigger_When : value }.

Record WorkflowParameter := MkWorkflowParameter {
  Default : value; Parameter_Description : string; Parameter_Type : string }.

(** The parameters are pointers; a YAML null is a nil one. *)
Record YAMLWorkflowData := MkYAMLWorkflowData {
  yaml_APIVersion : string; yaml_Description : string; yaml_Name : string;
  yaml_Parameters : gmap string (option WorkflowParameter);
  yaml_Steps : list YAMLWorkflowStep; yaml_Triggers : list YAMLWorkflowTrigger }.

Inductive WorkflowStepVariant : Type :=
| ContainerWorkflowStep (c : ContainerMixin)
| ApprovalWorkflowStep.

Inductive WorkflowTriggerSourceVariant : Type :=
| PushWorkflowTriggerSource (schema : trees)
| ScheduleWorkflowTriggerSource (schedule : string)
| WebhookWorkflowTriggerSource (c : ContainerMixin).

Definition StepType (v : WorkflowStepVariant) : string :=
  match v with
  | ContainerWorkflowStep _ => "container"
  | ApprovalWorkflowStep => "approval"
  end.
Definition TriggerSourceType (v : WorkflowTriggerSourceVariant) : string :=
  match v with
  | PushWorkflowTriggerSource _ => "push"
  | ScheduleWorkflowTriggerSource _ => "schedule"
  | WebhookWorkflowTriggerSource _ => "webhook"
  end.

Record WorkflowDataStep := MkWorkflowDataStep {
  data_step_Name : string; data_step_DependsOn : list string; data_step_When : value;
  Variant : WorkflowStepVariant }.

(** A source of unknown type is a nil pointer. *)
Record WorkflowDataTriggerSource := MkWorkflowDataTriggerSource {
  source_Type : string; source_Variant : WorkflowTriggerSourceVariant }.

Record WorkflowDataTrigger := MkWorkflowDataTrigger {
  data_trigger_Name : string; Source : option WorkflowDataTriggerSource;
  Binding_Key : value; Binding_Parameters : trees; data_trigger_When : value }.

Record WorkflowData := MkWorkflowData {
  APIVersion : string; Description : string; data_Name : string;
  data_Parameters : gmap string (option WorkflowParameter);
  data_Steps : list WorkflowDataStep; Triggers : list WorkflowDataTrigger }.

(** ** Decoding *)
Inductive workflow_error : Type :=
| WorkflowFileFormatError (cause : error)
| WorkflowStepInvalidError (name type : string)
| MissingTenantIDError
| MissingWorkflowIDError
| ReaderError (cause : error).

Notation wf_result := (outcome workflow_error).

(** [WorkflowStepTypeUnknown] comes with an error only. *)
Definition makeStepType (step : YAMLWorkflowStep) : wf_result string :=
  let t := yaml_step_Type step in
  if String.eqb t "" || String.eqb t "container" then Ok WorkflowStepTypeContainer
  else if String.eqb t "approval" then Ok WorkflowStepTypeApproval
  else Err (WorkflowStepInvalidError (yaml_step_Name step) t).

Definition makeJSONTreeMap (ym : trees) : trees :=
  match ym with
  | None => None
  | Some m => Some (copy_into m ∅)
  end.

Definition make_container (y : YAMLContainerMixin) : ContainerMixin :=
  MkContainerMixin (yaml_Image y) (makeJSONTreeMap (yaml_Spec y)) (yaml_InputFile y) (yaml_Input y)
    (yaml_Command y) (yaml_Args y) false.

(** The condition that an approval was given. *)
Definition approval_condition (name : string) : value :=
  VMap {["$fn.equals" := VSlice [
    VMap (<["$type" := VString "Answer"]> (<["askRef" := VString name]>
      {["name" := VString WorkflowStepTypeApproval]}));
    VString WorkflowStepApprovalApproved]]}.

(** The conditions of an approval: its own before those of the file, be they a list or
    one condition. *)
Definition approval_when (name : string) (when : value) : value :=
  VSlice (approval_condition name ::
    match when with
    | VNil => []
    | VSlice existing => existing
    | v => [v]
    end).

Definition make_step (step : YAMLWorkflowStep) : wf_result WorkflowDataStep :=
  stepType ← makeStepType step;
  if String.eqb stepType WorkflowStepTypeApproval then
    Ok (MkWorkflowDataStep (yaml_step_Name step) (yaml_step_DependsOn step)
          (approval_when (yaml_step_Name step) (yaml_step_When step)) ApprovalWorkflowStep)
  else
    Ok (MkWorkflowDataStep (yaml_step_Name step) (yaml_step_DependsOn step) (yaml_step_When step)
          (ContainerWorkflowStep (make_container (yaml_step_container step)))).

Definition make_source (s : YAMLWorkflowTriggerSource) : option WorkflowDataTriggerSource :=
  let t := yaml_source_Type s in
  if String.eqb t WorkflowTriggerSourceTypePush then
    Some (MkWorkflowDataTriggerSource t (PushWorkflowTriggerSource (yaml_source_Schema s)))
  else if String.eqb t WorkflowTriggerSourceTypeSchedule then
    Some (MkWorkflowDataTriggerSource t (ScheduleWorkflowTriggerSource (yaml_source_Schedule s)))
  else if String.eqb t WorkflowTriggerSourceTypeWebhook then
    Some (MkWorkflowDataTriggerSource t
            (WebhookWorkflowTriggerSource (make_container (yaml_source_container s))))
  else None.

Definition make_trigger (t : YAMLWorkflowTrigger) : WorkflowDataTrigger :=
  MkWorkflowDataTrigger (yaml_trigger_Name t) (make_source (yaml_trigger_Source t))
    (yaml_trigger_Key t) (makeJSONTreeMap (yaml_trigger_Parameters t)) (yaml_trigger_When t).

(** The first step that cannot be decoded ends the loop. *)
Definition yamlWorkflowDataToWorkflowData (ywd : YAMLWorkflowData) : wf_result WorkflowData :=
  steps ← mapM make_step (yaml_Steps ywd);
  Ok (MkWorkflowData (yaml_APIVersion ywd) (yaml_Description ywd) (yaml_Name ywd)
        (yaml_Parameters ywd) steps (make_trigger <$> yaml_Triggers ywd)).

Section decoder.
(** [yaml.Unmarshal] of a document. *)
Context (yaml_unmarshal : string → result YAMLWorkflowData).

Definition YAMLDecoder_Decode (data : string) : wf_result WorkflowData :=
  ywd ← map_err WorkflowFileFormatError (yaml_unmarshal data);
  yamlWorkflowDataToWorkflowData ywd.

(** A streaming decoder: its buffer, and the reader, which has some data left and then
    ends, or fails. *)
Record documentStreamingDecoder := MkStreaming {
  buf : string; reader_rest : string; reader_error : option error }.

(** The workflow and whether the end of the stream was reported.  [buf.ReadFrom] reads
    all there is and does not report the end; [buf.Bytes] leaves the buffer as it is. *)
Definition DecodeStream : effect workflow_error documentStreamingDecoder (WorkflowData * bool) := λ d,
  let d' := MkStreaming (buf d +:+ reader_rest d) "" (reader_error d) in
  match reader_error d with
  | Some e => (Err (ReaderError e), d')
  | None => (wd ← YAMLDecoder_Decode (buf d'); Ok (wd, false), d')
  end.

Definition NewDocumentStreamingDecoder (rest : string) (e : option error) : documentStreamingDecoder :=
  MkStreaming "" rest e.
End decoder.

(** ** Input files

    [GetByURL] and reading its content are the file manager's. *)
Definition LoadInputFile {W} (get_by_url : string → effect workflow_error W string)
    (c : ContainerMixin) : effect workflow_error W ContainerMixin :=
  if inputFileLoaded c || String.eqb (Mixin_InputFile c) "" then mret c
  else
    content ← get_by_url (Mixin_InputFile c);
    mret (MkContainerMixin (Mixin_Image c) (Mixin_Spec c) (Mixin_InputFile c) [content]
            (Mixin_Command c) (Mixin_Args c) true).

(** * From workflows to the objects of the controllers (pkg/workflow/types/v1)

    [DefaultRunEngineMapper], [DefaultTenantEngineMapper] and
    [DefaultWebhookTriggerEngineMapper].  An option of a mapper is the setting of one of
    its fields; the objects returned are not yet created. *)
Definition AccountIDLabel : string := "managed.relay.sh/account-id".
Definition WorkflowIDLabel : string := "managed.relay.sh/workflow-id".
Definition WorkflowNameLabel : string := "managed.relay.sh/workflow-name".
Definition WorkflowTriggerIDLabel : string := "managed.relay.sh/workflow-trigger-id".
Definition WorkflowTriggerNameLabel : string := "managed.relay.sh/workflow-trigger-name".
Definition defaultWorkflowName : string := "workflow".
Definition defaultWorkflowRunName : string := "workflow-run".
Definition defaultNamespace : string := "default".

(** The metadata of a new object, in a namespace, with labels and annotations. *)
Definition new_meta (namespace name : string) (labels annotations : option (gmap string string))
    (owners : list OwnerReference) : ObjectMeta :=
  MkObjectMeta namespace name "" annotations labels [] owners None.

Definition mapNamespace (ns : string) : ObjectMeta :=
  new_meta "" ns
    (Some (<["app.kubernetes.io/managed-by" := "nebula"]>
          (<["nebula.puppet.com/network-policy.customer" := "true"]>
          {["controller.relay.sh/tenant-workload" := "true"]}))) None [].

(** The namespace of an object, unless it is the default one. *)
Definition namespace_object (ns : string) : option ObjectMeta :=
  if String.eqb ns defaultNamespace then None else Some (mapNamespace ns).

(** [make] gives a map, be the source nil or not. *)
Definition mapStepSpec (jm : trees) : gmap string value :=
  match jm with
  | None => ∅
  | Some m => copy_into m ∅
  end.

Definition map_step (s : WorkflowDataStep) : WorkflowStep :=
  match Variant s with
  | ContainerWorkflowStep c =>
      MkWorkflowStep (data_step_Name s) (Mixin_Image c) (mapStepSpec (Mixin_Spec c)) (Mixin_Input c)
        (Mixin_Command c) (Mixin_Args c) ∅ (data_step_When s) (data_step_DependsOn s)
  | ApprovalWorkflowStep =>
      MkWorkflowStep (data_step_Name s) "" ∅ [] "" [] ∅ (data_step_When s) (data_step_DependsOn s)
  end.

Definition mapSteps (wd : WorkflowData) : list WorkflowStep := map_step <$> data_Steps wd.

(** ** Runs *)
Notation WorkflowRunParameters := (gmap string (option value)).

Record DefaultRunEngineMapper := MkRunMapper {
  run_name : string; run_runName : string; run_namespace : string;
  run_runParameters : WorkflowRunParameters; run_domainID : string; run_vaultEngineMount : string }.

Definition WithDomainIDRunOption (id : string) (m : DefaultRunEngineMapper) : DefaultRunEngineMapper :=
  MkRunMapper (run_name m) (run_runName m) (run_namespace m) (run_runParameters m) id
    (run_vaultEngineMount m).
Definition WithWorkflowNameRunOption (name : string) (m : DefaultRunEngineMapper)
    : DefaultRunEngineMapper :=
  MkRunMapper name (run_runName m) (run_namespace m) (run_runParameters m) (run_domainID m)
    (run_vaultEngineMount m).
Definition WithWorkflowRunNameRunOption (name : string) (m : DefaultRunEngineMapper)
    : DefaultRunEngineMapper :=
  MkRunMapper (run_name m) name (run_namespace m) (run_runParameters m) (run_domainID m)
    (run_vaultEngineMount m).
Definition WithNamespaceRunOption (ns : string) (m : DefaultRunEngineMapper)
    : DefaultRunEngineMapper :=
  MkRunMapper (run_name m) (run_runName m) ns (run_runParameters m) (run_domainID m)
    (run_vaultEngineMount m).
Definition WithRunParametersRunOption (params : WorkflowRunParameters) (m : DefaultRunEngineMapper)
    : DefaultRunEngineMapper :=
  MkRunMapper (run_name m) (run_runName m) (run_namespace m) params (run_domainID m)
    (run_vaultEngineMount m).
Definition WithVaultEngineMountRunOption (mount : string) (m : DefaultRunEngineMapper)
    : DefaultRunEngineMapper :=
  MkRunMapper (run_name m) (run_runName m) (run_namespace m) (run_runParameters m) (run_domainID m)
    mount.

Definition NewDefaultRunEngineMapper
    (opts : list (DefaultRunEngineMapper → DefaultRunEngineMapper)) : DefaultRunEngineMapper :=
  foldl (λ m opt, opt m)
    (MkRunMapper defaultWorkflowName defaultWorkflowRunName defaultNamespace ∅ "" "") opts.

(** A workflow run as an object: its metadata and the name of its workflow. *)
Record WorkflowRunObject := MkRunObject {
  RunObject_Meta : ObjectMeta; Workflow_Name : string; RunObject_Run : WorkflowRun }.

Record RunKubernetesObjectMapping := MkRunMapping {
  RunMapping_Namespace : option ObjectMeta; RunMapping_WorkflowRun : WorkflowRunObject }.

(** A field of a nil pointer. *)
Definition field_of {A B} (field : A → B) (p : option A) : wf_result B :=
  match p with
  | Some x => Ok (field x)
  | None => Panic "invalid memory address or nil pointer dereference"
  end.

Definition new_run_status : RunStatus := MkRunStatus "" None None None None.

Section runs.
Context `{GoRuntime}.

(** The loop that copies a field of each parameter. *)
Definition copy_parameters {A} (field : A → value) (params : gmap string (option A))
    : wf_result (gmap string value) :=
  fold_outcome (λ m kv, v ← field_of field kv.2; Ok (<[kv.1 := v]> m)) ∅ (range_map params).

Definition run_annotations (m : DefaultRunEngineMapper) : gmap string string :=
  let annotations := <[RelayDomainIDAnnotation := run_domainID m]>
                     {[RelayTenantIDAnnotation := run_name m]} in
  if String.eqb (run_vaultEngineMount m) "" then annotations
  else
    <[RelayVaultConnectionPathAnnotation := path_join ["connections"; run_domainID m]]>
    (<[RelayVaultSecretPathAnnotation := path_join ["workflows"; run_name m]]>
    (<[RelayVaultEngineMountAnnotation := run_vaultEngineMount m]> annotations)).

Definition Run_ToRuntimeObjectsManifest (m : DefaultRunEngineMapper) (wd : WorkflowData)
    : wf_result RunKubernetesObjectMapping :=
  wp ← copy_parameters Default (data_Parameters wd);
  wrp ← copy_parameters id (run_runParameters m);
  Ok (MkRunMapping (namespace_object (run_namespace m))
        (MkRunObject
           (new_meta (run_namespace m) (run_runName m) None (Some (run_annotations m)) [])
           (run_name m)
           (MkWorkflowRun (run_runName m) (mapSteps wd) wp wrp ∅ ∅ new_run_status))).
End runs.

(** ** Tenants *)
Record DefaultTenantEngineMapper := MkTenantMapper {
  tenant_id : string; tenant_name : string; tenant_namespace : string;
  tenant_workflowID : string; tenant_workflowName : string; tenant_tokenSecretName : string;
  tenant_eventURL : option string   (* the URL as [String] prints it *) }.

Definition WithNameTenantOption (name : string) (m : DefaultTenantEngineMapper)
    : DefaultTenantEngineMapper :=
  MkTenantMapper (tenant_id m) name (tenant_namespace m) (tenant_workflowID m)
    (tenant_workflowName m) (tenant_tokenSecretName m) (tenant_eventURL m).
Definition WithIDTenantOption (id : string) (m : DefaultTenantEngineMapper)
    : DefaultTenantEngineMapper :=
  MkTenantMapper id (tenant_name m) (tenant_namespace m) (tenant_workflowID m)
    (tenant_workflowName m) (tenant_tokenSecretName m) (tenant_eventURL m).
Definition WithWorkflowNameTenantOption (name : string) (m : DefaultTenantEngineMapper)
    : DefaultTenantEngineMapper :=
  MkTenantMapper (tenant_id m) (tenant_name m) (tenant_namespace m) (tenant_workflowID m)
    name (tenant_tokenSecretName m) (tenant_eventURL m).
Definition WithWorkflowIDTenantOption (id : string) (m : DefaultTenantEngineMapper)
    : DefaultTenantEngineMapper :=
  MkTenantMapper (tenant_id m) (tenant_name m) (tenant_namespace m) id
    (tenant_workflowName m) (tenant_tokenSecretName m) (tenant_eventURL m).
Definition WithNamespaceTenantOption (ns : string) (m : DefaultTenantEngineMapper)
    : DefaultTenantEngineMapper :=
  MkTenantMapper (tenant_id m) (tenant_name m) ns (tenant_workflowID m)
    (tenant_workflowName m) (tenant_tokenSecretName m) (tenant_eventURL m).
Definition WithEventURLTenantOption (u : option string) (m : DefaultTenantEngineMapper)
    : DefaultTenantEngineMapper :=
  MkTenantMapper (tenant_id m) (tenant_name m) (tenant_namespace m) (tenant_workflowID m)
    (tenant_workflowName m) (tenant_tokenSecretName m) u.
Definition WithTokenSecretNameTenantOption (name : string) (m : DefaultTenantEngineMapper)
    : DefaultTenantEngineMapper :=
  MkTenantMapper (tenant_id m) (tenant_name m) (tenant_namespace m) (tenant_workflowID m)
    (tenant_workflowName m) name (tenant_eventURL m).

Definition NewDefaultTenantEngineMapper
    (opts : list (DefaultTenantEngineMapper → DefaultTenantEngineMapper))
    : DefaultTenantEngineMapper :=
  foldl (λ m opt, opt m) (MkTenantMapper "" "" defaultNamespace "" defaultWorkflowName "" None) opts.

(** The event sink: the URL, the literal token, and the secret's name and key. *)
Record APITriggerEventSink := MkAPISink {
  Sink_URL : string; Sink_Token : string; Sink_TokenFrom : option (option (string * string)) }.

Record Tenant := MkTenant {
  Tenant_Meta : ObjectMeta; Tenant_ResourceVersion : string;
  NamespaceTemplate : ObjectMeta; TriggerEventSink : option APITriggerEventSink }.

Record TenantKubernetesObjectMapping := MkTenantMapping {
  TenantMapping_Namespace : option ObjectMeta; TenantMapping_Tenant : Tenant }.

Definition tenant_labels (m : DefaultTenantEngineMapper) : gmap string string :=
  <[AccountIDLabel := tenant_id m]> (<[WorkflowIDLabel := tenant_workflowID m]>
    {[WorkflowNameLabel := tenant_workflowName m]}).

Definition Tenant_ToRuntimeObjectsManifest (m : DefaultTenantEngineMapper)
    : wf_result TenantKubernetesObjectMapping :=
  if String.eqb (tenant_id m) "" then Err MissingTenantIDError
  else if String.eqb (tenant_workflowID m) "" then Err MissingWorkflowIDError
  else
    let name := if String.eqb (tenant_name m) "" then tenant_workflowID m else tenant_name m in
    Ok (MkTenantMapping (namespace_object (tenant_namespace m))
          (MkTenant (new_meta (tenant_namespace m) name (Some (tenant_labels m)) (Some ∅) []) ""
             (new_meta "" name None None [])
             ((λ u, MkAPISink u "" (Some (Some (tenant_tokenSecretName m, "token"))))
                <$> tenant_eventURL m))).

(** ** Webhook triggers *)
Record DefaultWebhookTriggerEngineMapper := MkTriggerMapper {
  trigger_id : string; trigger_name : string; trigger_image : string }.

Definition WithIDWebhookTriggerOption (id : string) (m : DefaultWebhookTriggerEngineMapper)
    : DefaultWebhookTriggerEngineMapper := MkTriggerMapper id (trigger_name m) (trigger_image m).
Definition WithNameWebhookTriggerOption (name : string) (m : DefaultWebhookTriggerEngineMapper)
    : DefaultWebhookTriggerEngineMapper := MkTriggerMapper (trigger_id m) name (trigger_image m).
Definition WithImageWebhookTriggerOption (image : string) (m : DefaultWebhookTriggerEngineMapper)
    : DefaultWebhookTriggerEngineMapper := MkTriggerMapper (trigger_id m) (trigger_name m) image.

Definition NewDefaultWebhookTriggerEngineMapper
    (opts : list (DefaultWebhookTriggerEngineMapper → DefaultWebhookTriggerEngineMapper))
    : DefaultWebhookTriggerEngineMapper :=
  foldl (λ m opt, opt m) (MkTriggerMapper "" "" "") opts.

Record WebhookTriggerKubernetesObjectMapping := MkTriggerMapping {
  TriggerMapping_Meta : ObjectMeta; TriggerMapping_Trigger : WebhookTrigger }.

Definition TenantKind : GroupVersionKind := MkGVK "relay.sh/v1beta1" "Tenant".

(** The image is the mapper's, not the source's. *)
Definition Trigger_ToRuntimeObjectsManifest (m : DefaultWebhookTriggerEngineMapper)
    (tenant : Tenant) (source : ContainerMixin) : WebhookTriggerKubernetesObjectMapping :=
  let key := "trigger-" +:+ trigger_id m in
  MkTriggerMapping
    (new_meta (Meta_Namespace (Tenant_Meta tenant)) key
       (Some (<[WorkflowTriggerIDLabel := trigger_id m]>
             {[WorkflowTriggerNameLabel := trigger_name m]}))
       (Some {["managed.relay.sh/tenant.resource-version" := Tenant_ResourceVersion tenant]})
       [NewControllerRef (Tenant_Meta tenant) TenantKind])
    (MkWebhookTrigger key (Meta_Name (Tenant_Meta tenant)) (trigger_name m) (trigger_image m)
       (Mixin_Input source) (Mixin_Command source) (Mixin_Args source)
       (mapStepSpec (Mixin_Spec source)) ∅).
