(* ===== verification/WorkflowProperties.v ===== *)
(** * Lemmas on decoding and mapping workflows *)
From S2P Require Import Prelude GoStd GoStrings Values Errors Transfer Unresolvable Fn.
From S2P Require Import ManagersMemory ConfigMaps ConfigMapTheory RunConfigProperties.
From S2P Require Import FnProperties Resolve Evaluate EvaluateTheory Denote Staging Model.
From S2P Require Import Metadata MetadataApi ObjUtil Graph RunStatus RunConfig Workflow.
From S2P Require Import Samples.

(** ** Steps *)
Lemma make_step_Ok ys ds :
  make_step ys = Ok ds ↔
  data_step_Name ds = yaml_step_Name ys ∧ data_step_DependsOn ds = yaml_step_DependsOn ys
  ∧ ((yaml_step_Type ys = "approval" ∧ Variant ds = ApprovalWorkflowStep
      ∧ data_step_When ds = approval_when (yaml_step_Name ys) (yaml_step_When ys))
     ∨ ((yaml_step_Type ys = "" ∨ yaml_step_Type ys = "container")
        ∧ Variant ds = ContainerWorkflowStep (make_container (yaml_step_container ys))
        ∧ data_step_When ds = yaml_step_When ys)).
Proof.
  unfold make_step, makeStepType. destruct ds as [n d w v]; cbn [data_step_Name data_step_DependsOn
    data_step_When Variant].
  destruct (String.eqb_spec (yaml_step_Type ys) "") as [->|H1];
    [|destruct (String.eqb_spec (yaml_step_Type ys) "container") as [->|H2];
      [|destruct (String.eqb_spec (yaml_step_Type ys) "approval") as [->|H3]]]; cbn; naive_solver.
Qed.

(** The steps of a decoded workflow, mapped to those of a run. *)
Lemma decoded_steps ywd wd :
  yamlWorkflowDataToWorkflowData ywd = Ok wd →
  Forall2 (λ ys s, ∃ ds, make_step ys = Ok ds ∧ s = map_step ds) (yaml_Steps ywd) (mapSteps wd).
Proof.
  unfold yamlWorkflowDataToWorkflowData, mapSteps. intros Ho. apply bind_Ok in Ho as (steps & Hs & [= <-]).
  cbn. apply Forall2_fmap_r. apply mapM_Ok in Hs.
  eapply Forall2_impl; [exact Hs|]. cbn. eauto.
Qed.

(** ** The condition of an approval *)
Definition approval_answer (name : string) : gmap string value :=
  <["$type" := VString "Answer"]> (<["askRef" := VString name]>
    {["name" := VString WorkflowStepTypeApproval]}).

Section approval.
Context `{GoRuntimeLaws, GoFmt, JSONText, Markdown}.

Lemma approval_shape name :
  map_shape {["$fn.equals" := VSlice [VMap (approval_answer name);
                                       VString WorkflowStepApprovalApproved]]}
  = ShInvocation "$fn.equals" (VSlice [VMap (approval_answer name); VString "approved"]).
Proof. apply map_shape_invocation_iff. by split_and!. Qed.

Lemma approval_answer_shape name : map_shape (approval_answer name) = ShType.
Proof. unfold map_shape, approval_answer. by rewrite lookup_insert_eq. Qed.

(** An answer is what its resolver says of it. *)
Lemma denotes_answer e name v :
  denotes e (VMap (approval_answer name)) v ↔
  answerTypeResolver e name "approval" = Ok v ∧ supported v = true.
Proof.
  rewrite denotes_type by apply approval_answer_shape.
  assert (E : evaluateType e (approval_answer name)
    = type_result "Answer" (approval_answer name) unresolved_answer
        (answerTypeResolver e name "approval")) by reflexivity.
  rewrite E, type_result_complete by unresolved_case. done.
Qed.

Lemma call_equals e a b :
  invocationResolver e = NewDefaultMemoryInvocationResolver →
  ∃ i, call e "$fn.equals" (VSlice [a; b]) = Ok i ∧ i tt = Ok (VBool (deep_equal a b)).
Proof.
  intros Hf. unfold call, resolve_invoker. rewrite Hf.
  assert (E : trim_prefix "$fn.equals" "$fn." = "equals") by reflexivity. rewrite E.
  unfold NewDefaultMemoryInvocationResolver, MemoryInvocationResolver.
  cbn [ResolveInvocationPositional]. rewrite Descriptor_equals. cbn. eexists. split; reflexivity.
Qed.

(** The condition holds exactly when the answer is the approval, for an evaluator with
    the default functions. *)
Lemma denotes_approval e name b :
  invocationResolver e = NewDefaultMemoryInvocationResolver → (∀ i, invoke e i = i tt) →
  denotes e (approval_condition name) (VBool b) ↔
  ∃ v, answerTypeResolver e name "approval" = Ok v ∧ supported v = true
       ∧ deep_equal v (VString "approved") = b.
Proof.
  intros Hf Hi. unfold approval_condition. fold (approval_answer name).
  rewrite (denotes_invocation e _ _ _ _ (approval_shape name)). split.
  - intros (args & i & Ha & Hc & Hv & _).
    apply denotes_slice in Ha as (l' & -> & Ha). inversion Ha as [|? v ? l2 Hans Ha2]; subst.
    inversion Ha2 as [|? w ? l3 Hw Ha3]; subst. inversion Ha3; subst.
    apply denotes_answer in Hans as [Hans Hs]. apply denotes_leaf in Hw as [-> _]; [|done].
    exists v. split_and!; [done..|].
    destruct (call_equals e v (VString "approved") Hf) as (j & Hj & Hr). rewrite Hj in Hc.
    injection Hc as ->. rewrite Hi, Hr in Hv. by injection Hv.
  - intros (v & Hans & Hs & <-). destruct (call_equals e v (VString "approved") Hf) as (j & Hj & Hr).
    exists (VSlice [v; VString "approved"]), j. split_and!; [|done|by rewrite Hi|done].
    apply denotes_slice. eexists. split; [done|]. constructor; [by apply denotes_answer|].
    constructor; [by apply denotes_leaf|constructor].
Qed.

(** While no answer is known, the condition denotes nothing, and is left as it is for the
    next stage. *)
Lemma subtree_leaf x v : subtree x v → is_leaf v = true → is_reference x = false.
Proof. intros Hx Hv. by inversion Hx; subst; [destruct v| |]. Qed.

Lemma unknown_approval name x w :
  subtree x (approval_condition name) → is_reference x = true → ¬ denotes default_evaluator x w.
Proof.
  assert (Hno : ∀ w, ¬ denotes default_evaluator (VMap (approval_answer name)) w)
    by (by intros w' [Hans _]%denotes_answer).
  unfold approval_condition. fold (approval_answer name). intros Hx Hr Hd.
  inversion Hx as [|? ? ? _ _|? k v m Hk Hx']; subst.
  { apply (denotes_invocation _ _ _ _ _ (approval_shape name)) in Hd as (args & i & Ha & _).
    apply denotes_slice in Ha as (l' & -> & Ha). inversion Ha; subst. by eapply Hno. }
  apply lookup_singleton_Some in Hk as [<- <-].
  inversion Hx' as [|? v ? Hv Hx2|]; subst; [done|].
  rewrite !elem_of_cons, elem_of_nil in Hv. destruct Hv as [->|[->|[]]].
  - inversion Hx2 as [| |? k v m Hk Hx3]; subst; [by eapply Hno|].
    apply subtree_leaf in Hx3; [congruence|].
    unfold approval_answer in Hk.
    repeat (apply lookup_insert_Some in Hk as [[_ <-]|[_ Hk]]; [done|]).
    by apply lookup_singleton_Some in Hk as [_ <-].
  - apply subtree_leaf in Hx2; [congruence|done].
Qed.

Lemma approval_kept e1 name r :
  later_stage default_evaluator e1 →
  evaluate default_evaluator (approval_condition name) (-1) = Ok r →
  ∀ w, denotes e1 (Value r) w ↔ denotes e1 (approval_condition name) w.
Proof.
  intros Hls Hr. eapply stage_step; [exact Hls| |exact Hr].
  intros x w Hx Hx' Hd. by destruct (unknown_approval name x w Hx Hx').
Qed.

Lemma deep_equal_to_string v s : deep_equal v (VString s) = true ↔ v = VString s.
Proof.
  destruct v; cbn; rewrite ?String.eqb_eq; naive_solver.
Qed.
End approval.

(** ** Decoding and mapping, outcome by outcome *)
Definition known_type (ys : YAMLWorkflowStep) : Prop :=
  yaml_step_Type ys ∈ [""; "container"; "approval"].

Lemma make_step_known ys : known_type ys → ∃ ds, make_step ys = Ok ds.
Proof.
  unfold known_type, make_step, makeStepType. rewrite !elem_of_cons, elem_of_nil.
  intros [->|[->|[->|[]]]]; cbn; by eexists.
Qed.

Lemma make_step_unknown ys :
  ¬ known_type ys →
  make_step ys = Err (WorkflowStepInvalidError (yaml_step_Name ys) (yaml_step_Type ys)).
Proof.
  unfold known_type, make_step, makeStepType. rewrite !elem_of_cons, elem_of_nil. intros Hk.
  destruct (String.eqb_spec (yaml_step_Type ys) ""); [tauto|].
  destruct (String.eqb_spec (yaml_step_Type ys) "container"); [tauto|].
  destruct (String.eqb_spec (yaml_step_Type ys) "approval"); [tauto|done].
Qed.

Lemma mapM_outcome_app {E A B} (f : A → outcome E B) l k :
  mapM f (l ++ k) = (x ← mapM f l; y ← mapM f k; Ok (x ++ y)).
Proof.
  induction l as [|a l IH]; cbn; [by destruct (mapM f k)|].
  destruct (f a) as [b|e|s]; cbn; [|done..]. rewrite IH.
  destruct (mapM f l); cbn; [|done..]. by destruct (mapM f k).
Qed.

Lemma mapM_known steps : Forall known_type steps → ∃ ds, mapM make_step steps = Ok ds.
Proof.
  intros Hk. induction Hk as [|ys l Hy _ [ds IH]]; [by eexists|].
  destruct (make_step_known ys Hy) as [d Hd]. cbn. by rewrite Hd, IH; eexists.
Qed.

Section parameters.
Context `{GoRuntimeLaws}.

(** A field of each parameter, when there is no nil among them. *)
Lemma copy_parameters_Ok {A} (field : A → value) (params : gmap string (option A)) r :
  copy_parameters field params = Ok r ↔
  map_related (λ _ p v, ∃ x, p = Some x ∧ v = field x) params r.
Proof.
  transitivity (map_related (λ _ p v, field_of field p = Ok v) params r).
  { rewrite <- (range_insert_Ok (field_of field) params r). done. }
  split; intros Hr k; specialize (Hr k); destruct (params !! k) as [[x|]|], (r !! k); naive_solver.
Qed.

Lemma copy_parameters_nil {A} (field : A → value) (params : gmap string (option A)) k :
  params !! k = Some None →
  copy_parameters field params = Panic "invalid memory address or nil pointer dereference".
Proof.
  intros Hk%elem_of_range_map%list_elem_of_split. destruct Hk as (l1 & l2 & E).
  unfold copy_parameters. rewrite E. generalize (∅ : gmap string value).
  clear E. induction l1 as [|[k' [x|]] l1 IH]; intros acc; cbn; [done|apply IH|done].
Qed.
End parameters.

(** ** The first step of an unknown type ends the decoding *)
Lemma decode_unknown ywd l1 ys l2 :
  yaml_Steps ywd = l1 ++ ys :: l2 → Forall known_type l1 → ¬ known_type ys →
  yamlWorkflowDataToWorkflowData ywd
  = Err (WorkflowStepInvalidError (yaml_step_Name ys) (yaml_step_Type ys)).
Proof.
  intros Hl [ds Hds]%mapM_known Hy%make_step_unknown. unfold yamlWorkflowDataToWorkflowData.
  rewrite Hl, mapM_outcome_app, Hds. cbn. by rewrite Hy.
Qed.

Lemma decode_known ywd :
  Forall known_type (yaml_Steps ywd) →
  ∃ wd, yamlWorkflowDataToWorkflowData ywd = Ok wd ∧ data_Parameters wd = yaml_Parameters ywd.
Proof.
  intros [ds Hds]%mapM_known. unfold yamlWorkflowDataToWorkflowData. rewrite Hds. by eexists.
Qed.

(** What a later component sees of a step. *)
Definition step_edges (s : WorkflowStep) : string * list string := (WorkflowStep_Name s, DependsOn s).

Lemma decoded_edges ywd wd :
  yamlWorkflowDataToWorkflowData ywd = Ok wd →
  step_edges <$> mapSteps wd = (λ ys, (yaml_step_Name ys, yaml_step_DependsOn ys)) <$> yaml_Steps ywd.
Proof.
  intros Hd%decoded_steps. induction Hd as [|ys s l k (ds & Hs & ->) _ IH]; [done|].
  rewrite !fmap_cons, IH. f_equal. apply make_step_Ok in Hs as (<- & <- & _).
  unfold step_edges, map_step. by destruct (Variant ds).
Qed.

(** * Properties of the workflow language *)
Section approvals.
Context {W : Type} `{GoRuntimeLaws} `{GoFmt} `{JSONTextLaws} `{Markdown}.

Lemma condition_evaluator_later (m : MetadataManagers W) w :
  later_stage default_evaluator (condition_evaluator m w).
Proof. by apply default_is_early. Qed.

Lemma EvaluateAll_identity e v :
  (∀ r, resultMapper e r = Ok r) → EvaluateAll e v = evaluate e v (-1).
Proof.
  intros He. unfold EvaluateAll, Evaluate. destruct (evaluate e v (-1)); cbn; [apply He|done..].
Qed.

Lemma condition_evaluated (m : MetadataManagers W) w v :
  EvaluateAll (condition_evaluator m w) v = evaluate (condition_evaluator m w) v (-1).
Proof. by apply EvaluateAll_identity. Qed.

Lemma EvaluateAll_complete e v rv :
  (∀ r, resultMapper e r = Ok r) →
  EvaluateAll e v = Ok rv → Unresolvable.Complete rv = true → denotes e v (Value rv).
Proof.
  intros He Ho Hc%Complete_eq. rewrite EvaluateAll_identity in Ho by done.
  apply completes_denotes. unfold completes. by rewrite <- Hc.
Qed.

(** The state a step finds its approval in. *)
Definition approval_state (m : MetadataManagers W) (w : W) (v : value) : Prop :=
  ∃ st, (State_Get (StateOf m) WorkflowStepTypeApproval w).1 = Ok st ∧ state_value st = v.

Lemma answer_state m w name v :
  answerTypeResolver (condition_evaluator m w) name "approval" = Ok v ↔ approval_state m w v.
Proof.
  change (at_state (ResolveAnswer (StateOf m) name "approval") w = Ok v ↔ approval_state m w v).
  unfold at_state, ResolveAnswer, approval_state. rewrite effect_bind_run. unfold found_or.
  change WorkflowStepTypeApproval with "approval".
  destruct (State_Get (StateOf m) "approval" w) as [[st|e|x] w']; cbn;
    [naive_solver| |naive_solver].
  destruct e as [| | |[]| | | | | | | |]; cbn; naive_solver.
Qed.

(** The first condition of an approval step, as the metadata service evaluates it. *)
Lemma approval_evaluated m w name r b :
  evaluate default_evaluator (approval_condition name) (-1) = Ok r →
  denotes (condition_evaluator m w) (Value r) (VBool b) ↔
  ∃ v, approval_state m w v ∧ supported v = true ∧ deep_equal v (VString "approved") = b.
Proof.
  intros Hr. rewrite (approval_kept _ name r (condition_evaluator_later m w) Hr).
  rewrite denotes_approval by done. by setoid_rewrite answer_state.
Qed.
(** What the configuration writes for an approval: its condition as one evaluation leaves
    it, before the conditions of the file. *)
Lemma approval_when_evaluated name wh r :
  EvaluateAll default_evaluator (approval_when name wh) = Ok r →
  ∃ r1 rest, Value r = VSlice (Value r1 :: rest)
    ∧ evaluate default_evaluator (approval_condition name) (-1) = Ok r1
    ∧ (wh = VNil → rest = []).
Proof.
  rewrite EvaluateAll_identity by done. unfold approval_when.
  intros (rs & Hrs & ->)%evaluate_slice_Ok; [|done..].
  inversion Hrs as [|? r1 ? rs' Hr1 Hrest]; subst. exists r1, (Value <$> rs'). split_and!; [done| |].
  - by rewrite <- (evaluate_negative _ _ (-1 - 1)).
  - intros ->. by inversion Hrest.
Qed.

(** The answer to an approval without other conditions, when its state is known. *)
Lemma approval_answered (m : MetadataManagers W) w name r1 v :
  evaluate default_evaluator (approval_condition name) (-1) = Ok r1 →
  Condition_Get (Metadata.Conditions m) w = (Ok (MkCondition (VSlice [Value r1])), w) →
  approval_state m w v → supported v = true →
  GetConditions m w = (Ok (condition_response
    (complete_result (VSlice [VBool (deep_equal v (VString "approved"))]))), w).
Proof.
  intros Hr1 Hc Hv Hs. unfold GetConditions, reading, attempt. rewrite effect_bind_run, Hc.
  assert (Hd : denotes (condition_evaluator m w) (VSlice [Value r1])
                 (VSlice [VBool (deep_equal v (VString "approved"))])).
  { apply denotes_slice. eexists. split; [done|].
    constructor; [|constructor]. apply (approval_evaluated m w name); [exact Hr1|].
    exists v. split_and!; [exact Hv|exact Hs|reflexivity]. }
  apply completes_denotes in Hd. unfold completes in Hd.
  cbn [condition_tree]. unfold evaluated_or. by rewrite condition_evaluated, Hd.
Qed.

(** The condition manager of an approval step after its run is configured. *)
Lemma approval_configured n k mapper ywd wd mapping cm cm' (rd : ConfigMap W) w l1 ys l2 :
  let wr := RunObject_Run (RunMapping_WorkflowRun mapping) in
  let step ys := ModelStepFromName (run_runName mapper) (yaml_step_Name ys) in
  yamlWorkflowDataToWorkflowData ywd = Ok wd →
  Run_ToRuntimeObjectsManifest mapper wd = Ok mapping →
  usable cm → can_write (run_trace wr).1 →
  ConfigureImmutableConfigMapForWorkflowRun (S n) wr cm = (Ok tt, cm') →
  cm_Get rd w = (Ok cm', w) →
  yaml_Steps ywd = l1 ++ ys :: l2 → yaml_step_Type ys = "approval" →
  Forall (λ ys', step_hash (step ys') ≠ step_hash (step ys)) l2 →
  ∃ r1 rest, evaluate default_evaluator (approval_condition (yaml_step_Name ys)) (-1) = Ok r1
    ∧ Condition_Get (NewConditionManager k (AStep (step ys)) rd) w
      = (Ok (MkCondition (VSlice (Value r1 :: rest))), w)
    ∧ (yaml_step_When ys = VNil → rest = []).
Proof.
  cbv zeta. intros Hd Hmap Hcm Hw Hrun Hrd Hl Hty Hlater.
  set (wr := RunObject_Run (RunMapping_WorkflowRun mapping)) in *.
  destruct (configured n wr cm cm' Hcm Hw Hrun) as (Ho & Hu & Hr).
  assert (Run_Name wr = run_runName mapper ∧ Workflow_Steps wr = mapSteps wd) as [Hname Hsteps].
  { unfold Run_ToRuntimeObjectsManifest in Hmap. inv_ok. done. }
  assert (Hds := decoded_steps ywd wd Hd). rewrite Hl, <- Hsteps in Hds.
  apply Forall2_app_inv_l in Hds as (s1 & s2' & _ & Hds & Hmapped).
  inversion Hds as [|? s ? s2 (ds & Hstep & ->) Hds2]; subst s2'. subst.
  assert (Hstep' := Hstep). apply make_step_Ok in Hstep' as (Hn & _ & [(_ & Hv & Hwhen)|([?|?] & _)]); [|congruence..].
  assert (Hms : ∀ y d, make_step y = Ok d →
    ModelStep wr (map_step d) = ModelStepFromName (run_runName mapper) (yaml_step_Name y)).
  { intros y d (<- & _)%make_step_Ok. unfold ModelStep. rewrite Hname. unfold map_step.
    by destruct (Variant d). }
  rewrite <- (Hms ys ds) by exact Hstep.
  assert (Hlater' : Forall (λ s', step_hash (ModelStep wr s') ≠ step_hash (ModelStep wr (map_step ds))) s2).
  { rewrite (Hms _ _ Hstep). clear -Hds2 Hlater Hms.
    induction Hds2 as [|y s l2 s2 (d & Hd & ->) _ IH]; [constructor|].
    apply Forall_cons in Hlater as [Hy Hlater]. constructor; [by rewrite (Hms _ _ Hd)|by apply IH]. }
  assert (Hw' : When (map_step ds) = data_step_When ds) by (unfold map_step; by rewrite Hv).
  destruct (run_step_contents (contents_of cm) wr s1 (map_step ds) s2 Ho Hmapped Hlater')
    as (_ & _ & Hc).
  destruct Hc as (r & Hev & E); [by rewrite Hw', Hwhen|].
  rewrite Hw', Hwhen in Hev. apply approval_when_evaluated in Hev as (r1 & rest & Hv1 & Hr1 & Hnil).
  exists r1, rest. split_and!; [done| |done]. rewrite <- Hv1.
  rewrite <- Hr in E. apply (slot_get_reader rd w cm' Hrd Hu k) in E.
  by destruct (effect_map_Ok _ _ _ _ _ E) as (p & Ep & [= ->]).
Qed.

(** C14: Approvals cannot be bypassed: when a workflow with an approval step is decoded,
    mapped to a run and configured, the metadata service answers that the conditions of
    the step hold only if the step's state says "approved", whatever other conditions
    the workflow gives it. With no other conditions they hold as soon as it does, and
    any other answer fails them. *)
Theorem approval_required n k mapper ywd wd mapping cm cm' (rd : ConfigMap W)
    (m : MetadataManagers W) w l1 ys l2 :
  let wr := RunObject_Run (RunMapping_WorkflowRun mapping) in
  let step ys := ModelStepFromName (run_runName mapper) (yaml_step_Name ys) in
  yamlWorkflowDataToWorkflowData ywd = Ok wd →
  Run_ToRuntimeObjectsManifest mapper wd = Ok mapping →
  usable cm → can_write (run_trace wr).1 →
  ConfigureImmutableConfigMapForWorkflowRun (S n) wr cm = (Ok tt, cm') →
  cm_Get rd w = (Ok cm', w) →
  yaml_Steps ywd = l1 ++ ys :: l2 → yaml_step_Type ys = "approval" →
  Forall (λ ys', step_hash (step ys') ≠ step_hash (step ys)) l2 →
  Metadata.Conditions m = NewConditionManager k (AStep (step ys)) rd →
  (GetConditions m w = (Ok [RespOK (BConditions true "all checks passed")], w) →
     approval_state m w (VString "approved"))
  ∧ (yaml_step_When ys = VNil →
     (approval_state m w (VString "approved") →
        GetConditions m w = (Ok [RespOK (BConditions true "all checks passed")], w))
     ∧ ∀ v, approval_state m w v → supported v = true → v ≠ VString "approved" →
        GetConditions m w = (Ok [RespOK (BConditions false "one or more conditions failed")], w)).
Proof.
  cbv zeta. intros Hd Hmap Hcm Hw Hrun Hrd Hl Hty Hlater Hm.
  destruct (approval_configured n k mapper ywd wd mapping cm cm' rd w l1 ys l2) as (r1 & rest & Hr1 & Hg & Hnil);
    [done..|].
  rewrite <- Hm in Hg. split.
  - intros (cond & rv & Hc & Hev & [Hrc Hp]%response_passed)%conditions_answered.
    rewrite Hg in Hc. injection Hc as <-. cbn [condition_tree] in Hev.
    apply EvaluateAll_complete in Hev as (l' & Hv & Hl')%denotes_slice; [|done..].
    rewrite Hv in Hp. inversion Hl' as [|? x ? l3 Hx _]; subst.
    destruct Hp as [[=]|(l & [= <-] & Hall)]. apply Forall_cons in Hall as [-> _].
    by apply (approval_evaluated m w _ _ _ Hr1) in Hx as (v & Ha & _ & ->%deep_equal_to_string).
  - intros Hwh. rewrite (Hnil Hwh) in Hg.
    assert (Hans := λ v Ha Hs, approval_answered m w _ r1 v Hr1 Hg Ha Hs). split.
    + intros Ha. exact (Hans _ Ha eq_refl).
    + intros v Ha Hs Hne. specialize (Hans v Ha Hs).
      destruct (deep_equal v _) eqn:E; [|exact Hans].
      destruct (Hne (proj1 (deep_equal_to_string _ _) E)).
Qed.
End approvals.

(** ** From a workflow to a run, outcome by outcome *)
Section runs.
Context `{GoRuntimeLaws}.

Definition no_nil {A} (params : gmap string (option A)) : Prop := ∀ k, params !! k ≠ Some None.

Lemma copy_parameters_total {A} (field : A → value) params :
  no_nil params → ∃ r, copy_parameters field params = Ok r
    ∧ ∀ k, r !! k = field <$> (params !! k ≫= id).
Proof.
  intros Hn. exists (omap (fmap field) params). split.
  - apply copy_parameters_Ok. intros k. rewrite lookup_omap. specialize (Hn k).
    destruct (params !! k) as [[x|]|]; cbn; naive_solver.
  - intros k. rewrite lookup_omap. by destruct (params !! k) as [[x|]|].
Qed.

Lemma copy_parameters_partial {A} (field : A → value) params :
  ¬ no_nil params → ∃ why, copy_parameters field params = Panic why.
Proof.
  intros Hn. destruct (decide (map_Forall (λ _ p, is_Some p) params)) as [Ha|Ha].
  - destruct Hn. intros k Hk'. by destruct (Ha k None Hk').
  - apply map_not_Forall in Ha as (k & [x|] & Hk' & Hx); [by destruct Hx; eexists| |apply _].
    eexists. by eapply copy_parameters_nil.
Qed.

Lemma no_nil_or {A} (params : gmap string (option A)) : no_nil params ∨ ¬ no_nil params.
Proof.
  destruct (decide (map_Forall (λ _ p, is_Some p) params)) as [Ha|Ha].
  - left. intros k Hk. by destruct (Ha k None Hk).
  - right. intros Hn. destruct Ha. intros k [x|] Hk; [by eexists|by destruct (Hn k)].
Qed.

(** C33: What becomes of a workflow file: the first step of an unknown type is the error; a
    null parameter of the file or a nil one of the run panics; otherwise the run has the
    steps of the file in their order, with their names and dependencies, and each
    parameter has the run's value or else the file's default. *)
Theorem workflow_to_run mapper ywd :
  (∀ l1 ys l2, yaml_Steps ywd = l1 ++ ys :: l2 → Forall known_type l1 → ¬ known_type ys →
     yamlWorkflowDataToWorkflowData ywd
     = Err (WorkflowStepInvalidError (yaml_step_Name ys) (yaml_step_Type ys)))
  ∧ (Forall known_type (yaml_Steps ywd) →
     ∃ wd, yamlWorkflowDataToWorkflowData ywd = Ok wd
     ∧ (¬ no_nil (yaml_Parameters ywd) ∨ ¬ no_nil (run_runParameters mapper) →
        ∃ why, Run_ToRuntimeObjectsManifest mapper wd = Panic why)
     ∧ (no_nil (yaml_Parameters ywd) → no_nil (run_runParameters mapper) →
        ∃ mapping, Run_ToRuntimeObjectsManifest mapper wd = Ok mapping
        ∧ let wr := RunObject_Run (RunMapping_WorkflowRun mapping) in
          step_edges <$> Workflow_Steps wr
            = (λ ys, (yaml_step_Name ys, yaml_step_DependsOn ys)) <$> yaml_Steps ywd
          ∧ ∀ k, run_parameters wr !! k
                 = match run_runParameters mapper !! k ≫= id with
                   | Some v => Some v
                   | None => Default <$> (yaml_Parameters ywd !! k ≫= id)
                   end)).
Proof.
  split; [intros; by eapply decode_unknown|]. intros Hk.
  destruct (decode_known ywd Hk) as (wd & Hd & Hp). exists wd. split; [done|].
  unfold Run_ToRuntimeObjectsManifest. rewrite Hp. split.
  - intros Hn. destruct (no_nil_or (yaml_Parameters ywd)) as [H1|H1].
    + destruct Hn as [Hn|Hn]; [done|].
      destruct (copy_parameters_total Default _ H1) as (wp & -> & _).
      destruct (copy_parameters_partial id _ Hn) as [why E]. cbn. rewrite E. by eexists.
    + destruct (copy_parameters_partial Default _ H1) as [why ->]. by eexists.
  - intros H1 H2. destruct (copy_parameters_total Default _ H1) as (wp & -> & Hwp).
    destruct (copy_parameters_total id _ H2) as (wrp & E & Hwrp). cbn. rewrite E. eexists.
    split; [done|]. cbn. split; [by apply decoded_edges|]. intros k.
    unfold run_parameters. rewrite copy_into_union, lookup_union. cbn [Run_Parameters Workflow_Parameters].
    rewrite Hwrp, Hwp.
    destruct (run_runParameters mapper !! k) as [[x|]|]; cbn;
      by destruct (yaml_Parameters ywd !! k) as [[y|]|].
Qed.
End runs.

(** ** A sample workflow: a step that waits for an approval *)
Definition no_container : YAMLContainerMixin := MkYAMLContainerMixin "" None [] "" "" [].
Definition gate : YAMLWorkflowStep := MkYAMLWorkflowStep "gate" "approval" no_container [] VNil.
Definition deploy : YAMLWorkflowStep :=
  MkYAMLWorkflowStep "deploy" "" (MkYAMLContainerMixin "alpine" None [] "" "" []) ["gate"] VNil.
Definition gated : YAMLWorkflowData := MkYAMLWorkflowData "v1" "" "gated" ∅ [gate; deploy] [].
Definition gated_mapper : DefaultRunEngineMapper :=
  NewDefaultRunEngineMapper [WithWorkflowRunNameRunOption "r1"; WithNamespaceRunOption "ns"].

Definition gated_data : WorkflowData :=
  match yamlWorkflowDataToWorkflowData gated with
  | Ok wd => wd
  | _ => MkWorkflowData "" "" "" ∅ [] []
  end.
Definition gated_mapping : RunKubernetesObjectMapping :=
  match @Run_ToRuntimeObjectsManifest forward_runtime gated_mapper gated_data with
  | Ok mapping => mapping
  | _ => MkRunMapping None (MkRunObject (mapNamespace "") "" configured_run)
  end.
Definition gated_run : WorkflowRun := RunObject_Run (RunMapping_WorkflowRun gated_mapping).

(** A ConfigMap in which the gate is approved, before and after the run is configured. *)
Definition gate_step : Step := ModelStepFromName "r1" "gate".
Definition approved_cm : CoreConfigMap :=
  (@State_Set _ (@NewStateManager _ tree_json 1 (AStep gate_step) LocalConfigMap)
     "approval" (VString "approved") empty_config_map).2.
Definition gated_cm : CoreConfigMap :=
  (@ConfigureImmutableConfigMapForWorkflowRun forward_runtime sample_fmt tree_json sample_markdown 1
     gated_run approved_cm).2.
Definition gated_managers : MetadataManagers CoreConfigMap :=
  Build (SetConditions (@NewConditionManager _ tree_json 1 (AStep gate_step) LocalConfigMap)
    (SetState (@NewStateManager _ tree_json 1 (AStep gate_step) LocalConfigMap) NewMetadataBuilder)).

Lemma approved_usable : @usable tree_json approved_cm.
Proof.
  destruct (@local_KV_Set tree_json _ 0 empty_config_map (SState (AStep gate_step) "approval")
    (VString "approved") usable_empty) as (w' & E & Hw & _); [by split|].
  assert (E' : approved_cm = w'); [|by rewrite E'].
  unfold approved_cm. cbn [State_Set NewStateManager]. rewrite effect_bind_run.
  cbn [slot_key] in E. rewrite E. done.
Qed.

Lemma gated_can_write :
  can_write (@run_trace forward_runtime sample_fmt tree_json sample_markdown gated_run).1.
Proof.
  assert (E : (@run_trace forward_runtime sample_fmt tree_json sample_markdown gated_run).1
    = [(SEnvironment (AStep gate_step), VMap ∅);
       (SCondition (AStep gate_step), VSlice [approval_condition "gate"]);
       (SEnvironment (AStep (ModelStepFromName "r1" "deploy")), VMap ∅)])
    by (vm_compute; reflexivity).
  rewrite E. unfold can_write.
  repeat apply Forall_cons_2; try apply Forall_nil_2;
    (split; [vm_compute; reflexivity|first [exact I|eexists; reflexivity]]).
Qed.

Lemma approval_required_witness :
  @GetConditions _ forward_runtime sample_fmt tree_json sample_markdown gated_managers gated_cm
  = (Ok [RespOK (BConditions true "all checks passed")], gated_cm).
Proof.
  refine (proj1 (proj2 (@approval_required _ forward_runtime _ sample_fmt tree_json _ sample_markdown
    0 1 gated_mapper gated gated_data gated_mapping approved_cm gated_cm LocalConfigMap gated_managers
    gated_cm [] gate [deploy] eq_refl _ approved_usable gated_can_write _ eq_refl eq_refl eq_refl
    _ eq_refl) eq_refl) _).
  - vm_compute; reflexivity.
  - vm_compute; reflexivity.
  - apply Forall_singleton. vm_compute. discriminate.
  - exists (MkState "approval" (VString "approved")). vm_compute. split; reflexivity.
Defined.

Lemma workflow_to_run_witness :
  yamlWorkflowDataToWorkflowData
    (MkYAMLWorkflowData "v1" "" "w" ∅ [deploy; MkYAMLWorkflowStep "x" "query" no_container [] VNil] [])
  = Err (WorkflowStepInvalidError "x" "query").
Proof.
  refine (proj1 (@workflow_to_run forward_runtime _ gated_mapper (MkYAMLWorkflowData "v1" "" "w" ∅
    [deploy; MkYAMLWorkflowStep "x" "query" no_container [] VNil] [])) [deploy]
    (MkYAMLWorkflowStep "x" "query" no_container [] VNil) [] eq_refl _ _).
  - apply Forall_singleton. left.
  - intros Hk. unfold known_type in Hk. cbn in Hk.
    repeat (apply elem_of_cons in Hk as [[=]|Hk]). by apply elem_of_nil in Hk.
Defined.

(** ** Streams

    A stream never ends: a call that decoded does not report the end, and the next call
    decodes the same data again. *)
Lemma stream_repeats yaml_unmarshal d wd eof d' :
  DecodeStream yaml_unmarshal d = (Ok (wd, eof), d') →
  eof = false ∧ DecodeStream yaml_unmarshal d' = (Ok (wd, eof), d').
Proof.
  unfold DecodeStream. destruct d as [b r [e|]]; cbn; [done|].
  destruct (YAMLDecoder_Decode yaml_unmarshal (b +:+ r)) as [w|e|x] eqn:E; cbn; [|done..].
  intros [= -> <- <-]. split; [done|]. cbn. by rewrite (app_string_nil_r (b +:+ r)), E.
Qed.

(** A parameter that is null in the file. *)
Lemma null_parameter_panics :
  match yamlWorkflowDataToWorkflowData (MkYAMLWorkflowData "v1" "" "w" {["p" := None]} [] []) with
  | Ok wd => @Run_ToRuntimeObjectsManifest forward_runtime gated_mapper wd
  | _ => Err MissingTenantIDError
  end = Panic "invalid memory address or nil pointer dereference".
Proof. vm_compute. reflexivity. Qed.
