(* ===== verification/ErrMark.v ===== *)
(** * Marked errors and reconciler filters (pkg/errmark, pkg/reconciler/filter)

    A reconciler marks its errors as the user's or as transient and wraps their messages;
    the marks are functions that are applied, in their order, when the error is resolved.
    [ErrorCaptureReconciler] resolves the errors of its delegate and reports the others. *)
From S2P Require Import Prelude GoStd Values Errors.

Section errmark.
Context {E : Type}.

(** [error] values: [*TransientError] and [*UserError] are the markers. *)
Inductive marked : Type :=
| EPlain (e : E)
| ETransient (delegate : marked)
| EUser (delegate : marked).

(** [Marker.Map], and calling [fn] on what is not a marker. *)
Definition map_marked (fn : marked → marked) (e : marked) : marked :=
  match e with
  | EPlain _ => fn e
  | ETransient d => ETransient (fn d)
  | EUser d => EUser (fn d)
  end.

Record MarkedError := MkMarkedError { Delegate : marked; Maps : list (marked → marked) }.

Definition MarkedError_MapFirst (e : MarkedError) (fn : marked → marked) : MarkedError :=
  MkMarkedError (Delegate e) (fn :: Maps e).
Definition MarkedError_MapLast (e : MarkedError) (fn : marked → marked) : MarkedError :=
  MkMarkedError (Delegate e) (Maps e ++ [fn]).
Definition MarkedError_Resolve (e : MarkedError) : marked :=
  foldl (λ err m, map_marked m err) (Delegate e) (Maps e).

(** An [error] that may be a [*MarkedError]. *)
Inductive merror : Type :=
| Unmarked (e : marked)
| Marked (m : MarkedError).

Definition AsMarkedError (err : merror) : MarkedError :=
  match err with
  | Marked m => m
  | Unmarked e => MkMarkedError e []
  end.

Definition MapFirst (err : merror) (fn : marked → marked) : merror :=
  Marked (MarkedError_MapFirst (AsMarkedError err) fn).
Definition MapLast (err : merror) (fn : marked → marked) : merror :=
  Marked (MarkedError_MapLast (AsMarkedError err) fn).
Definition Resolve (err : merror) : marked := MarkedError_Resolve (AsMarkedError err).

(** ** Transient rules *)
Definition TransientRule : Type := marked → bool.

Definition TransientAll (rules : list TransientRule) : TransientRule :=
  λ err, forallb (λ rule, rule err) rules.
Definition TransientAlways : TransientRule := TransientAll [].
Definition TransientAny (rules : list TransientRule) : TransientRule :=
  λ err, existsb (λ rule, rule err) rules.
Definition TransientPredicate (rule : TransientRule) (pred : bool) : TransientRule :=
  λ err, if pred then rule err else false.

(** ** Marks *)
Definition mark_transient (rules : list TransientRule) (err : marked) : marked :=
  match err with
  | ETransient _ => err
  | _ => if TransientAny rules err then ETransient err else err
  end.

Definition MarkTransient (err : merror) (rules : list TransientRule) : merror :=
  MapFirst err (mark_transient rules).
Definition MarkUser (err : merror) : merror := MapFirst err EUser.

(** ** Conditional calls

    An [IfFunc] calls its function or not, and with what; [T] is what the calls do. *)
Definition IfFunc (T : Type) : Type := marked → (marked → T → T) → T → T.

Definition IfTransient {T} : IfFunc T := λ err fn t,
  match err with ETransient d => fn d t | _ => t end.
Definition IfNotTransient {T} : IfFunc T := λ err fn t,
  match err with ETransient _ => t | _ => fn err t end.
Definition IfUser {T} : IfFunc T := λ err fn t,
  match err with EUser d => fn d t | _ => t end.
Definition IfNotUser {T} : IfFunc T := λ err fn t,
  match err with EUser _ => t | _ => fn err t end.

(** The loop from the last condition to the first wraps [fn]. *)
Definition IfAll {T} (err : merror) (conds : list (IfFunc T)) (fn : marked → T → T) : T → T :=
  foldr (λ cond next err', cond err' next) fn conds (Resolve err).

(** ** Filters

    A reconciler answers a request (a namespace and a name) in a world [W]; [R] is
    [ctrl.Result]. *)
Section filters.
Context {W R : Type} (zero : R).
Definition Request : Type := string * string.
Definition Reconciler : Type := Request → effect merror W R.

Definition ChainRight (last : Reconciler) (links : list (Reconciler → Reconciler)) : Reconciler :=
  foldr (λ link r, link r) last links.

Definition NamespaceFilter_Reconcile (name : string) (delegate : Reconciler) : Reconciler :=
  λ req, if negb (String.eqb name "") && negb (String.eqb req.1 name) then mret zero
         else delegate req.

(** [capture] reports an error to the tracker.  A panic of the delegate is raised again
    by the tracker's [Try]; the result is kept beside an error. *)
Definition ErrorCapture_Reconcile (capture : marked → W → W) (transientRules : list TransientRule)
    (delegate : Reconciler) : Reconciler := λ req w,
  match delegate req w with
  | (Err err, w') =>
      let err := Unmarked (Resolve (MarkTransient err transientRules)) in
      (Err err, IfAll err [IfNotTransient; IfNotUser] capture w')
  | r => r
  end.
End filters.
End errmark.
Arguments marked : clear implicits. Arguments MarkedError : clear implicits.
Arguments merror : clear implicits. Arguments TransientRule : clear implicits.

(** ** The rules on errors of the API server *)
Definition reason_is (p : api_reason → bool) : TransientRule error := λ err,
  match err with
  | EPlain (EAPI r _) => p r
  | _ => false
  end.

Definition IsConflict : TransientRule error :=
  reason_is (λ r, match r with ReasonConflict => true | _ => false end).
Definition IsAlreadyExists : TransientRule error :=
  reason_is (λ r, match r with ReasonAlreadyExists => true | _ => false end).
Definition IsTimeout : TransientRule error :=
  reason_is (λ r, match r with ReasonOther s => String.eqb s "Timeout" | _ => false end).
Definition IsServerTimeout : TransientRule error :=
  reason_is (λ r, match r with ReasonOther s => String.eqb s "ServerTimeout" | _ => false end).
Definition TransientIfForbidden : TransientRule error :=
  reason_is (λ r, match r with ReasonOther s => String.eqb s "Forbidden" | _ => false end).

Definition TransientIfConflict : TransientRule error := TransientAny [IsConflict; IsAlreadyExists].
Definition TransientIfTimeout : TransientRule error := TransientAny [IsTimeout; IsServerTimeout].
Definition TransientDefault : TransientRule error :=
  TransientAny [TransientIfConflict; TransientIfTimeout].

(** * Properties of marked errors *)
Section marks.
Context {E : Type}.
Implicit Types (e : E) (err : marked E).

(** What a reconciler does to an error on its way out. *)
Inductive marking : Type :=
| MarksUser
| MarksTransient (rules : list (TransientRule E))
| Wraps (fn : marked E → marked E).

Definition apply_marking (err : merror E) (m : marking) : merror E :=
  match m with
  | MarksUser => MarkUser err
  | MarksTransient rules => MarkTransient err rules
  | Wraps fn => MapLast err fn
  end.
Definition apply_markings (e : E) (ms : list marking) : merror E :=
  foldl apply_marking (Unmarked (EPlain e)) ms.

Definition first_map (m : marking) : option (marked E → marked E) :=
  match m with
  | MarksUser => Some EUser
  | MarksTransient rules => Some (mark_transient rules)
  | Wraps _ => None
  end.
Definition last_map (m : marking) : option (marked E → marked E) :=
  match m with Wraps fn => Some fn | _ => None end.

Definition is_plain err : bool := match err with EPlain _ => true | _ => false end.

(** The marks come in the reverse order, before the wrappers. *)
Lemma markings_maps e ms :
  AsMarkedError (apply_markings e ms)
  = MkMarkedError (EPlain e) (reverse (omap first_map ms) ++ omap last_map ms).
Proof.
  unfold apply_markings. induction ms as [|m ms IH] using rev_ind; [done|].
  rewrite foldl_app, !omap_app. cbn [foldl].
  destruct m; cbn [apply_marking]; unfold MarkUser, MarkTransient, MapFirst, MapLast,
    MarkedError_MapFirst, MarkedError_MapLast; cbn; rewrite IH; cbn;
    rewrite ?reverse_app, ?app_nil_r; cbn; by rewrite <- ?app_assoc.
Qed.

Lemma map_marked_marker fn err : is_plain err = false → is_plain (map_marked fn err) = false.
Proof. by destruct err. Qed.

Lemma fold_marker fns err :
  is_plain err = false → is_plain (foldl (λ err m, map_marked m err) err fns) = false.
Proof.
  revert err. induction fns as [|fn fns IH]; intros err He; [done|]. by apply IH, map_marked_marker.
Qed.

(** The marks that apply to a plain error. *)
Definition matches (e : E) (m : marking) : bool :=
  match m with
  | MarksUser => true
  | MarksTransient rules => TransientAny rules (EPlain e)
  | Wraps _ => false
  end.

Lemma fold_firsts e ms :
  is_plain (foldl (λ err m, map_marked m err) (EPlain e) (omap first_map ms))
    = negb (existsb (matches e) ms)
  ∧ (existsb (matches e) ms = false →
     foldl (λ err m, map_marked m err) (EPlain e) (omap first_map ms) = EPlain e).
Proof.
  induction ms as [|m ms IH]; [by split|].
  destruct m as [|rules|fn]; cbn [omap list_omap first_map foldl existsb matches map_marked].
  - split; [|done]. by apply fold_marker.
  - destruct (TransientAny rules (EPlain e)) eqn:Hr; cbn [mark_transient orb]; rewrite Hr; [|exact IH].
    split; [|done]. by apply fold_marker.
  - exact IH.
Qed.

(** Wrappers format the error as a message. *)
Definition formats (fn : marked E → marked E) : Prop := ∀ err, is_plain (fn err) = true.
Definition wrappers_format (ms : list marking) : Prop :=
  Forall (λ m, match m with Wraps fn => formats fn | _ => True end) ms.

Lemma fold_lasts err ms :
  wrappers_format ms →
  is_plain (foldl (λ err m, map_marked m err) err (omap last_map ms)) = is_plain err.
Proof.
  intros Hf. revert err. induction Hf as [|m ms Hm _ IH]; intros err; [done|].
  destruct m; cbn [omap list_omap last_map foldl]; [apply IH..|].
  rewrite IH. destruct err; cbn; [apply Hm|done..].
Qed.

Lemma existsb_reverse {A} (p : A → bool) l : existsb p (reverse l) = existsb p l.
Proof.
  apply eq_true_iff_eq. rewrite !existsb_exists. setoid_rewrite <- list_elem_of_In.
  by setoid_rewrite elem_of_reverse.
Qed.

Lemma omap_reverse {A B} (f : A → option B) l : reverse (omap f l) = omap f (reverse l).
Proof.
  induction l as [|x l IH]; [done|]. rewrite reverse_cons, omap_app, <- IH.
  cbn [omap list_omap]. destruct (f x); [apply reverse_cons|by rewrite app_nil_r].
Qed.

Lemma resolve_plain e ms :
  wrappers_format ms →
  is_plain (Resolve (apply_markings e ms)) = negb (existsb (matches e) ms).
Proof.
  intros Hf. unfold Resolve, MarkedError_Resolve. rewrite markings_maps. cbn [Delegate Maps].
  rewrite foldl_app, fold_lasts by done. rewrite omap_reverse.
  by rewrite (proj1 (fold_firsts e (reverse ms))), existsb_reverse.
Qed.

(** C39: An error of a reconciler is reported exactly when it is neither the user's nor
    transient: however it was marked and its message wrapped on its way out, and in
    whatever order, it is left out of the report when it was marked as the user's, or
    when the error it started from is transient by one of the rules it was marked with or
    one of the filter's. *)
Theorem reported_errors {W R} (capture : marked E → W → W) rules (delegate : Reconciler) req w
    e ms w' :
  wrappers_format ms →
  delegate req w = (Err (apply_markings e ms), w') →
  ∃ err, ErrorCapture_Reconcile (R := R) capture rules delegate req w
    = (Err (Unmarked err),
       if existsb (matches e) (MarksTransient rules :: ms) then w' else capture err w').
Proof.
  intros Hf Hd. unfold ErrorCapture_Reconcile. rewrite Hd.
  change (MarkTransient (apply_markings e ms) rules)
    with (apply_marking (apply_markings e ms) (MarksTransient rules)).
  assert (Happ : apply_marking (apply_markings e ms) (MarksTransient rules)
               = apply_markings e (ms ++ [MarksTransient rules]))
    by (unfold apply_markings; by rewrite foldl_app).
  rewrite Happ. set (err := Resolve _). exists err. f_equal.
  assert (Hp : is_plain err = negb (existsb (matches e) (MarksTransient rules :: ms))).
  { unfold err. rewrite resolve_plain, existsb_app.
    - cbn. by rewrite orb_false_r, orb_comm.
    - apply Forall_app. split; [done|]. by apply Forall_singleton. }
  destruct (existsb (matches e) (MarksTransient rules :: ms)); cbn [negb] in Hp;
    by destruct err.
Qed.
End marks.

(** A conflict that was wrapped before it reached the filter, and an error of the user. *)
Definition wrap_message (prefix : string) (err : marked error) : marked error :=
  EPlain (EText prefix).
Definition conflicting : Reconciler (E := error) (W := list (marked error)) (R := unit) :=
  λ _ w, (Err (apply_markings (EAPI ReasonConflict "changed") [Wraps (wrap_message "failed")]), w).

Lemma reported_errors_witness :
  ∃ err, ErrorCapture_Reconcile (R := unit) (λ err l, err :: l) [TransientDefault] conflicting
           ("ns", "n") [] = (Err (Unmarked err), []).
Proof.
  refine (reported_errors (R := unit) (λ err l, err :: l) [TransientDefault] conflicting ("ns", "n") []
    (EAPI ReasonConflict "changed") [Wraps (wrap_message "failed")] [] _ eq_refl).
  apply Forall_singleton. intros err. reflexivity.
Defined.
