(* ===== verification/WorkQueue.v ===== *)
(** * Work queues and workers (k8s.io/client-go/util/workqueue, controller-runtime)

    A controller keeps the requests that are to be reconciled in a queue.  What is added
    again while it is reconciled is queued again when that is done; what failed or asks for
    it is added again after a delay.  A trace of labelled steps tells what happened. *)
From S2P Require Import Prelude GoStd Values Errors ErrMark.

(** ** The queue: requests to process in their order, and those being processed *)
Record WorkQueue := MkWorkQueue {
  queued : list Request; dirty : gset Request; processing : gset Request }.
Definition NewQueue : WorkQueue := MkWorkQueue [] ∅ ∅.

Definition Add (item : Request) (q : WorkQueue) : WorkQueue :=
  if decide (item ∈ dirty q) then q
  else
    let dirty := {[item]} ∪ dirty q in
    if decide (item ∈ processing q) then MkWorkQueue (queued q) dirty (processing q)
    else MkWorkQueue (queued q ++ [item]) dirty (processing q).

(** [Get] waits while there is nothing. *)
Definition Get (q : WorkQueue) : option (Request * WorkQueue) :=
  match queued q with
  | [] => None
  | item :: rest => Some (item, MkWorkQueue rest (dirty q ∖ {[item]}) ({[item]} ∪ processing q))
  end.

Definition Done (item : Request) (q : WorkQueue) : WorkQueue :=
  let processing := processing q ∖ {[item]} in
  if decide (item ∈ dirty q) then MkWorkQueue (queued q ++ [item]) (dirty q) processing
  else MkWorkQueue (queued q) (dirty q) processing.

(** ** The delaying queue: when a request is ready to be added *)
Record DelayingQueue := MkDelayingQueue { queue_of : WorkQueue; waiting : gmap Request Z }.
Definition on_queue (f : WorkQueue → WorkQueue) (q : DelayingQueue) : DelayingQueue :=
  MkDelayingQueue (f (queue_of q)) (waiting q).

(** An entry that exists is only ever ready sooner. *)
Definition insert_waiting (item : Request) (readyAt : Z) (w : gmap Request Z) : gmap Request Z :=
  match w !! item with
  | Some t => if bool_decide (readyAt < t)%Z then <[item := readyAt]> w else w
  | None => <[item := readyAt]> w
  end.
Definition AddAfter (now : Z) (item : Request) (duration : Z) (q : DelayingQueue) : DelayingQueue :=
  if bool_decide (duration <= 0)%Z then on_queue (Add item) q
  else MkDelayingQueue (queue_of q) (insert_waiting item (now + duration) (waiting q)).

(** An entry whose time has come is added. *)
Definition add_ready (item : Request) (q : DelayingQueue) : DelayingQueue :=
  MkDelayingQueue (Add item (queue_of q)) (delete item (waiting q)).

(** ** The controller

    [Do] is its reconciler and [watch] turns a notice of its informers into requests.  Its
    result tells whether to queue the request again; the delay of a request that is added
    again is the rate limiter's. *)
Section controller.
Context {E W N : Type} (Do : Reconciler (E := E) (W := W) (R := bool)).
Context (watch : N → W → option (list Request)) (MaxConcurrentReconciles : nat).

Definition reconcileHandler (now delay : Z) (req : Request) (r : outcome (merror E) bool)
    (q : DelayingQueue) : option DelayingQueue :=
  match r with
  | Err _ => Some (AddAfter now req delay q)
  | Ok true => Some (AddAfter now req delay q)
  | Ok false => Some q
  | Panic _ => None
  end.

Record State := MkState { world : W; clock : Z; work : DelayingQueue }.

Inductive label : Type :=
| LWorld
| LTime
| LAdd (req : Request)
| LGet (req : Request)
| LFinish (req : Request) (before : W) (r : outcome (merror E) bool) (after : W)
| LReady (req : Request).

(** The requests of a notice are added one after the other. *)
Definition add_requests (reqs : list Request) (q : DelayingQueue) : DelayingQueue :=
  on_queue (λ q, foldl (λ q r, Add r q) q reqs) q.

(** The steps.  Others change the world at any time; a reconciliation acts between [Get]
    and [Done], and its calls are put at one moment of that time.  A panic ends the process. *)
Inductive step : State → list label → State → Prop :=
| step_world s w : step s [LWorld] (MkState w (clock s) (work s))
| step_time s t : (clock s <= t)%Z → step s [LTime] (MkState (world s) t (work s))
| step_notice s n reqs :
    watch n (world s) = Some reqs →
    step s (LAdd <$> reqs) (MkState (world s) (clock s) (add_requests reqs (work s)))
| step_get s req q :
    size (processing (queue_of (work s))) < MaxConcurrentReconciles →
    Get (queue_of (work s)) = Some (req, q) →
    step s [LGet req] (MkState (world s) (clock s) (on_queue (λ _, q) (work s)))
| step_finish s req delay r w' q :
    req ∈ processing (queue_of (work s)) →
    Do req (world s) = (r, w') →
    reconcileHandler (clock s) delay req r (work s) = Some q →
    step s [LFinish req (world s) r w'] (MkState w' (clock s) (on_queue (Done req) q))
| step_ready s req t :
    waiting (work s) !! req = Some t → (t <= clock s)%Z →
    step s [LReady req] (MkState (world s) (clock s) (add_ready req (work s))).

Inductive steps : State → list label → State → Prop :=
| steps_nil s : steps s [] s
| steps_snoc s tr s1 ls s2 : steps s tr s1 → step s1 ls s2 → steps s (tr ++ ls) s2.

Definition initial (w : W) (now : Z) : State := MkState w now (MkDelayingQueue NewQueue ∅).
End controller.
Arguments State : clear implicits. Arguments label : clear implicits.

(** * Properties of the queue *)
Implicit Types (q : WorkQueue) (req : Request).

(** The queue holds, once each, the requests that are dirty and not being processed. *)
Record queue_ok q : Prop := {
  ok_NoDup : NoDup (queued q);
  ok_queued : ∀ req, req ∈ queued q ↔ req ∈ dirty q ∧ req ∉ processing q }.

Lemma NewQueue_ok : queue_ok NewQueue.
Proof. split; [constructor|]. intros req. cbn. set_solver. Qed.

Lemma Add_ok item q : queue_ok q → queue_ok (Add item q).
Proof.
  intros [Hn Hq]. unfold Add. case_decide as Hd; [done|]. case_decide as Hp; split; cbn.
  - done.
  - intros req. rewrite Hq. set_solver.
  - apply NoDup_app. split_and!; [done| |apply NoDup_singleton]. intros x Hx%Hq. set_solver.
  - intros req. rewrite elem_of_app, Hq. set_solver.
Qed.
Lemma Get_ok q item q' : queue_ok q → Get q = Some (item, q') → queue_ok q' ∧ item ∉ processing q.
Proof.
  intros [Hn Hq]. unfold Get. destruct (queued q) as [|i rest] eqn:Eq; [done|]. intros [= -> <-].
  apply NoDup_cons in Hn as [Hi Hn]. assert (Hin := proj1 (Hq item) (list_elem_of_here _ _)).
  split; [|tauto]. split; cbn; [done|]. intros req. specialize (Hq req).
  rewrite elem_of_cons in Hq. destruct (decide (req = item)) as [->|]; set_solver.
Qed.
Lemma Done_ok item q : item ∈ processing q → queue_ok q → queue_ok (Done item q).
Proof.
  intros Hp [Hn Hq]. unfold Done. case_decide as Hd; split; cbn.
  - apply NoDup_app. split_and!; [done| |apply NoDup_singleton]. intros x Hx%Hq. set_solver.
  - intros req. rewrite elem_of_app, Hq. destruct (decide (req = item)) as [->|]; set_solver.
  - done.
  - intros req. rewrite Hq. destruct (decide (req = item)) as [->|]; set_solver.
Qed.

Lemma Add_dirty item q : dirty (Add item q) = {[item]} ∪ dirty q.
Proof. unfold Add. case_decide; [set_solver|]. by case_decide. Qed.
Lemma Add_processing item q : processing (Add item q) = processing q.
Proof. unfold Add. case_decide; [done|]. by case_decide. Qed.
Lemma Done_dirty item q : dirty (Done item q) = dirty q.
Proof. unfold Done. by case_decide. Qed.
Lemma Done_processing item q : processing (Done item q) = processing q ∖ {[item]}.
Proof. unfold Done. by case_decide. Qed.

Lemma insert_waiting_kept (item : Request) (t : Z) (w : gmap Request Z) (req : Request) :
  is_Some (w !! req) → is_Some (insert_waiting item t w !! req).
Proof.
  unfold insert_waiting. intros Hw. destruct (w !! item); [case_bool_decide; [|done]|];
    destruct (decide (item = req)) as [->|]; by simplify_map_eq.
Qed.
Lemma insert_waiting_there (item : Request) (t : Z) (w : gmap Request Z) : is_Some (insert_waiting item t w !! item).
Proof.
  unfold insert_waiting. destruct (w !! item) eqn:E; [case_bool_decide|]; by simplify_map_eq.
Qed.

(** * Properties of the controller *)
Section theory.
Context {E W N : Type} (Do : Reconciler (E := E) (W := W) (R := bool)).
Context (watch : N → W → option (list Request)) (MaxConcurrentReconciles : nat).
Notation step := (step Do watch MaxConcurrentReconciles).
Notation steps := (steps Do watch MaxConcurrentReconciles).
Notation queue s := (queue_of (work s)).
Implicit Types (s : State W) (tr : list (label E W)).

Lemma add_requests_spec reqs (d : DelayingQueue) :
  waiting (add_requests reqs d) = waiting d
  ∧ processing (queue_of (add_requests reqs d)) = processing (queue_of d)
  ∧ dirty (queue_of (add_requests reqs d)) = list_to_set reqs ∪ dirty (queue_of d)
  ∧ (queue_ok (queue_of d) → queue_ok (queue_of (add_requests reqs d))).
Proof.
  unfold add_requests. cbn. split; [done|]. generalize (queue_of d). clear d.
  induction reqs as [|r reqs IH]; intros q; cbn [foldl list_to_set]; [split_and!; [done|set_solver|done]|].
  destruct (IH (Add r q)) as (-> & -> & H). rewrite Add_processing, Add_dirty.
  split_and!; [done|set_solver|]. intros Hq. by apply H, Add_ok.
Qed.

Lemma AddAfter_spec now req d (q : DelayingQueue) :
  let q' := AddAfter now req d q in
  processing (queue_of q') = processing (queue_of q)
  ∧ dirty (queue_of q) ⊆ dirty (queue_of q')
  ∧ (∀ r, is_Some (waiting q !! r) → is_Some (waiting q' !! r))
  ∧ (req ∈ dirty (queue_of q') ∨ is_Some (waiting q' !! req))
  ∧ (queue_ok (queue_of q) → queue_ok (queue_of q')).
Proof.
  unfold AddAfter. case_bool_decide; cbn.
  - rewrite Add_processing, Add_dirty. split_and!; [done|set_solver|done|left; set_solver|apply Add_ok].
  - split_and!; [done|done|apply insert_waiting_kept|right; apply insert_waiting_there|done].
Qed.

(** What a finished reconciliation leaves in the queue. *)
Lemma reconcileHandler_spec now delay req (r : outcome (merror E) bool) (q q' : DelayingQueue) :
  reconcileHandler now delay req r q = Some q' →
  processing (queue_of q') = processing (queue_of q)
  ∧ dirty (queue_of q) ⊆ dirty (queue_of q')
  ∧ (∀ r', is_Some (waiting q !! r') → is_Some (waiting q' !! r'))
  ∧ (r = Ok false ∨ req ∈ dirty (queue_of q') ∨ is_Some (waiting q' !! req))
  ∧ (queue_ok (queue_of q) → queue_ok (queue_of q')).
Proof.
  destruct (AddAfter_spec now req delay q) as (H1 & H2 & H3 & H4 & H5).
  destruct r as [[]|e|x]; cbn; intros [= <-]; split_and!; auto.
Qed.

(** The queue stays well-formed and no more workers run than there are. *)
Definition state_ok s : Prop :=
  queue_ok (queue s) ∧ size (processing (queue s)) ≤ MaxConcurrentReconciles.

Lemma step_ok s ls s' : state_ok s → step s ls s' → state_ok s'.
Proof.
  intros [Hq Hn] Hs.
  destruct Hs as [s w|s t Ht|s n reqs Hw|s req q Hsz Hget|s req delay r w' q Hp Hd Hh|s req t Ht Hc];
    cbn in *; unfold state_ok; cbn; try done.
  - destruct (add_requests_spec reqs (work s)) as (_ & E1 & _ & H). cbn in E1, H. rewrite E1. auto.
  - destruct (Get_ok _ _ _ Hq Hget) as [Hq' Hnp]. split; [done|].
    unfold Get in Hget. destruct (queued _); [done|]. injection Hget as <- <-. cbn.
    rewrite size_union, size_singleton by set_solver. lia.
  - destruct (reconcileHandler_spec _ _ _ _ _ _ Hh) as (Hpr & _ & _ & _ & Hok).
    split; [apply Done_ok; [by rewrite Hpr|auto]|].
    rewrite Done_processing, Hpr. etrans; [|exact Hn]. apply subseteq_size. set_solver.
  - split; [by apply Add_ok|by rewrite Add_processing].
Qed.

Lemma steps_ok s tr s' : state_ok s → steps s tr s' → state_ok s'.
Proof. intros Hs H. induction H; [done|]. eapply step_ok; [|done]. auto. Qed.

Lemma initial_ok w now : state_ok (initial w now).
Proof. split; [apply NewQueue_ok|]. cbn. rewrite size_empty. lia. Qed.

(** ** What was asked for is done *)
Definition finishes req (l : label E W) : Prop :=
  match l with LFinish req' _ _ _ => req' = req | _ => False end.
Definition began req tr : Prop :=
  ∃ a b, tr = a ++ LGet req :: b ∧ Forall (λ l, ¬ finishes req l) b.
Definition reconciled_since req w w' tr : Prop :=
  ∃ a b c, tr = a ++ LGet req :: b ++ LFinish req w (Ok false) w' :: c
    ∧ Forall (λ l, ¬ finishes req l) b ∧ Do req w = (Ok false, w').

Inductive owed req s tr : Prop :=
| owed_dirty : req ∈ dirty (queue s) → owed req s tr
| owed_later : is_Some (waiting (work s) !! req) → owed req s tr
| owed_now : req ∈ processing (queue s) → began req tr → owed req s tr
| paid w w' : reconciled_since req w w' tr → owed req s tr.

Lemma began_more req tr ls : began req tr → Forall (λ l, ¬ finishes req l) ls → began req (tr ++ ls).
Proof.
  intros (a & b & -> & Hb) Hl. exists a, (b ++ ls). rewrite <- app_assoc. split; [done|].
  by apply Forall_app.
Qed.
(** A reconciliation that another step does not finish goes on. *)
Lemma owed_still req s s' tr l :
  processing (queue s) ⊆ processing (queue s') → ¬ finishes req l →
  req ∈ processing (queue s) → began req tr → owed req s' (tr ++ [l]).
Proof.
  intros Hp Hl Hin Hb. apply owed_now; [set_solver|]. apply began_more; [done|].
  constructor; [done|constructor].
Qed.
Lemma reconciled_since_more req w w' tr ls : reconciled_since req w w' tr → reconciled_since req w w' (tr ++ ls).
Proof.
  intros (a & b & c & -> & H). exists a, b, (c ++ ls).
  split; [|done]. by rewrite <- !app_assoc, <- app_comm_cons, <- app_assoc.
Qed.

(** A step that keeps the queue's entries keeps what is owed. *)
Lemma owed_kept req s s' tr ls :
  dirty (queue s) ⊆ dirty (queue s') → (is_Some (waiting (work s) !! req) → owed req s' (tr ++ ls)) →
  (req ∈ processing (queue s) → began req tr → owed req s' (tr ++ ls)) →
  owed req s tr → owed req s' (tr ++ ls).
Proof.
  intros Hd Hw Hp [?|?|? ?|w w' ?]; [apply owed_dirty; set_solver|auto|auto|].
  by eapply paid, reconciled_since_more.
Qed.

Lemma get_owed req s req' q tr :
  Get (queue s) = Some (req', q) → owed req s tr →
  owed req (MkState (world s) (clock s) (on_queue (λ _, q) (work s))) (tr ++ [LGet req']).
Proof.
  unfold Get. destruct (queued (queue s)) as [|i rest]; [done|]. intros [= -> <-] Ho.
  destruct (decide (req = req')) as [->|Hne].
  - apply owed_now; [cbn; set_solver|]. by exists tr, [].
  - destruct Ho as [Hd|Hw|Hp Hb|w w' Hr].
    + apply owed_dirty. cbn. set_solver.
    + by apply owed_later.
    + eapply owed_still; eauto. cbn. set_solver.
    + by eapply paid, reconciled_since_more.
Qed.

Lemma finish_owed req s req' delay r w' (q : DelayingQueue) tr :
  Do req' (world s) = (r, w') →
  reconcileHandler (clock s) delay req' r (work s) = Some q → owed req s tr →
  owed req (MkState w' (clock s) (on_queue (Done req') q)) (tr ++ [LFinish req' (world s) r w']).
Proof.
  intros Hd (Hpr & Hdi & Hwa & Hres & _)%reconcileHandler_spec. apply owed_kept; cbn.
  - by rewrite Done_dirty.
  - intros Hw%Hwa. by apply owed_later.
  - intros Hp Hb. destruct (decide (req = req')) as [->|Hne].
    + destruct Hres as [->|[Hin|Hin]].
      * destruct Hb as (a & b & -> & Hb). eapply paid. exists a, b, [].
        split; [by rewrite <- app_assoc|]. split; [done|exact Hd].
      * apply owed_dirty. cbn. by rewrite Done_dirty.
      * by apply owed_later.
    + apply owed_now; [cbn; rewrite Done_processing; set_solver|].
      apply began_more; [done|]. constructor; [cbn; congruence|constructor].
Qed.

Lemma step_owed req s ls s' tr : owed req s tr → step s ls s' → owed req s' (tr ++ ls).
Proof.
  intros Ho Hs.
  destruct Hs as [s w|s t Ht|s n reqs Hw|s req' q Hsz Hget|s req' delay r w' q Hp Hd Hh|s req' t Ht Hc].
  - revert Ho. apply owed_kept; [done|intros Hx; apply owed_later; exact Hx|]. intros Hp Hb; eapply owed_still; eauto.
  - revert Ho. apply owed_kept; [done|intros Hx; apply owed_later; exact Hx|]. intros Hp Hb; eapply owed_still; eauto.
  - revert Ho. destruct (add_requests_spec reqs (work s)) as (Hwa & Hpr & Hdi & _).
    apply owed_kept; cbn [work]; [rewrite Hdi; apply union_subseteq_r| |].
    + intros Hx. apply owed_later. cbn. exact Hx.
    + intros Hp Hb. apply owed_now; [cbn [work]; by rewrite Hpr|]. apply began_more; [done|].
      apply Forall_fmap, Forall_true. intros x [].
  - by apply get_owed.
  - by eapply finish_owed.
  - revert Ho. apply owed_kept; cbn.
    + rewrite Add_dirty. set_solver.
    + intros Hx. destruct (decide (req = req')) as [->|Hne].
      * apply owed_dirty. cbn. rewrite Add_dirty. set_solver.
      * apply owed_later. cbn. by rewrite lookup_delete_ne.
    + intros Hp Hb. eapply owed_still; eauto. cbn. by rewrite Add_processing.
Qed.

(** From a notice on, what it added is owed. *)
Definition notified (reqs : list Request) s : State W :=
  MkState (world s) (clock s) (add_requests reqs (work s)).

Lemma owed_steps req s tr s' tr0 : owed req s tr0 → steps s tr s' → owed req s' (tr0 ++ tr).
Proof.
  intros Ho H. induction H as [s|s tr s1 ls s2 Hs IH H1]; [by rewrite app_nil_r|].
  rewrite app_assoc. eapply step_owed; [by apply IH|exact H1].
Qed.
Lemma notified_owed req reqs s tr s' : req ∈ reqs → steps (notified reqs s) tr s' → owed req s' tr.
Proof.
  intros Hin. apply (owed_steps _ _ _ _ []). apply owed_dirty. cbn [work notified].
  destruct (add_requests_spec reqs (work s)) as (_ & _ & -> & _). set_solver.
Qed.

(** The request is still to be reconciled: it is queued, will be added again, or a
    reconciliation of it that began since is going on. *)
Definition due req s tr : Prop :=
  req ∈ dirty (queue s) ∨ is_Some (waiting (work s) !! req)
  ∨ (req ∈ processing (queue s) ∧ began req tr).
Lemma owed_due req s tr : owed req s tr → due req s tr ∨ ∃ w w', reconciled_since req w w' tr.
Proof. unfold due. intros [?|?|? ?|w w' ?]; [tauto..|]. right. by exists w, w'. Qed.

(** ** First come, first served *)
Definition is_get (l : label E W) : bool := match l with LGet _ => true | _ => false end.
Definition gets tr : nat := length (filter is_get tr).

Lemma Add_queued req q : ∃ l, queued (Add req q) = queued q ++ l.
Proof.
  unfold Add. case_decide; [exists []; by rewrite app_nil_r|].
  case_decide; [exists []; by rewrite app_nil_r|by eexists].
Qed.
Lemma AddAfter_queued now req d (q : DelayingQueue) :
  ∃ l, queued (queue_of (AddAfter now req d q)) = queued (queue_of q) ++ l.
Proof.
  unfold AddAfter. case_bool_decide; [apply Add_queued|]. exists []. by rewrite app_nil_r.
Qed.
Lemma add_requests_queued reqs (d : DelayingQueue) :
  ∃ l, queued (queue_of (add_requests reqs d)) = queued (queue_of d) ++ l.
Proof.
  unfold add_requests. cbn. generalize (queue_of d). clear d.
  induction reqs as [|r reqs IH]; intros q; cbn; [exists []; by rewrite app_nil_r|].
  destruct (IH (Add r q)) as [l ->], (Add_queued r q) as [l' ->].
  eexists. by rewrite <- app_assoc.
Qed.
Lemma Done_queued req q : ∃ l, queued (Done req q) = queued q ++ l.
Proof. unfold Done. case_decide; [by eexists|]. exists []. by rewrite app_nil_r. Qed.

(** A step takes the first request of the queue or only appends to it. *)
Lemma step_queued s ls s' : step s ls s' →
  (∃ l, queued (queue s') = queued (queue s) ++ l ∧ gets ls = 0)
  ∨ ∃ req, queued (queue s) = req :: queued (queue s') ∧ ls = [LGet req].
Proof.
  intros Hs.
  destruct Hs as [s w|s t Ht|s n reqs Hw|s req q Hsz Hget|s req delay r w' q Hp Hd Hh|s req t Ht Hc].
  - left. exists []. by rewrite app_nil_r.
  - left. exists []. by rewrite app_nil_r.
  - left. destruct (add_requests_queued reqs (work s)) as [l Hl]. exists l. split; [exact Hl|].
    unfold gets. clear. by induction reqs.
  - right. unfold Get in Hget. destruct (queued (queue s)) as [|i rest]; [done|].
    injection Hget as -> <-. by exists req.
  - left. assert (∃ l, queued (queue_of q) = queued (queue s) ++ l) as [l Hl].
    { destruct r as [[]|e|x]; cbn in Hh; [..|discriminate Hh]; injection Hh as <-;
        [apply AddAfter_queued|exists []; by rewrite app_nil_r|apply AddAfter_queued]. }
    destruct (Done_queued req (queue_of q)) as [l' Hl']. exists (l ++ l'). split; [|done].
    cbn. by rewrite Hl', Hl, app_assoc.
  - left. destruct (Add_queued req (queue s)) as [l Hl]. by exists l.
Qed.

(** Requests are taken in the order in which they were queued: with [k] others before it,
    a request has been taken after [k + 1] were. *)
Lemma taken_in_order s tr s' req l1 l2 :
  queued (queue s) = l1 ++ req :: l2 → steps s tr s' →
  LGet req ∈ tr ∨ (gets tr ≤ length l1 ∧ ∃ l, queued (queue s') = drop (gets tr) l1 ++ req :: l).
Proof.
  intros Hq H. induction H as [s|s tr s1 ls s2 Hs IH H1].
  { right. split; [apply Nat.le_0_l|]. exists l2. exact Hq. }
  destruct (IH Hq) as [Hin|[Hn [l Hl]]]; [left; by apply elem_of_app; left|].
  unfold gets in *. rewrite filter_app, length_app.
  destruct (step_queued _ _ _ H1) as [(l' & E1 & E2)|(req' & E1 & ->)].
  - unfold gets in E2. right. rewrite E2, Nat.add_0_r. split; [done|].
    rewrite E1, Hl, <- app_assoc. by eexists.
  - rewrite Hl in E1. change (filter is_get [LGet req']) with [LGet (E := E) (W := W) req'].
    cbn [length]. set (n := length (filter is_get tr)) in *.
    destruct (drop n l1) as [|x rest] eqn:Ed; cbn in E1; injection E1 as -> E1.
    + left. apply elem_of_app. right. left.
    + right. assert (n < length l1).
      { apply Nat.nle_gt. intros Hle%drop_ge. congruence. }
      split; [lia|]. exists l. rewrite <- E1. f_equal.
      by rewrite <- drop_drop, Ed.
Qed.

(** C13: A controller never reconciles a request twice at a time, whatever happens and
    however often it is added: in every state it can reach no more requests are being
    reconciled than it has workers, and the one a worker takes is not among them.  No
    request starves: one that waits behind [k] others has been taken once workers have
    taken [k + 1] requests. *)
Theorem workers_exclusive_fair w now tr s :
  steps (initial w now) tr s →
  size (processing (queue s)) ≤ MaxConcurrentReconciles
  ∧ (∀ req s', step s [LGet req] s' → req ∉ processing (queue s))
  ∧ (∀ req l1 l2 tr' s', queued (queue s) = l1 ++ req :: l2 → steps s tr' s' →
       length l1 < gets tr' → LGet req ∈ tr').
Proof.
  intros [Hq Hn]%(steps_ok _ _ _ (initial_ok w now)). split_and!; [done| |].
  - intros req s' H. inversion H as [| |? ? reqs ? El| ? ? ? ? Hget| |].
    + by destruct reqs.
    + by eapply Get_ok.
  - intros req l1 l2 tr' s' Eq [?|[Hle _]]%(taken_in_order _ _ _ _ _ _ Eq) Hlt; [done|lia].
Qed.
End theory.

(** The trace of a reconciliation that settles, from the notice on. *)
Definition round_queue (req : Request) : WorkQueue :=
  default NewQueue (snd <$> Get (Add req NewQueue)).
Definition round_state {W} (req : Request) (w : W) (t : Z) : State W :=
  MkState w t (MkDelayingQueue (Done req (round_queue req)) ∅).
Lemma one_round {E W N} (Do : Reconciler (E := E) (W := W) (R := bool))
    (watch : N → W → option (list Request)) req w w' t :
  Do req w = (Ok false, w') →
  steps Do watch 1 (notified [req] (initial w t)) (([] ++ [LGet req]) ++ [LFinish req w (Ok false) w'])
    (round_state req w' t).
Proof.
  intros Hd. eapply steps_snoc; [eapply steps_snoc; [apply steps_nil|]|].
  - apply (step_get Do watch 1 (notified [req] (initial w t)) req (round_queue req)); [|reflexivity].
    vm_compute. lia.
  - apply (step_finish Do watch 1 (MkState w t (MkDelayingQueue (round_queue req) ∅)) req 0 (Ok false) w'
      (MkDelayingQueue (round_queue req) ∅)); [|exact Hd|reflexivity].
    cbn. set_solver.
Qed.

(** A worker, and two requests of which one is added while it is reconciled. *)
Definition queue_notice : list Request → unit → option (list Request) := λ l _, Some l.
Definition settles : Reconciler (E := error) (W := unit) (R := bool) := λ _, mret false.

Definition two_trace : list (label error unit) :=
  ((([] ++ [LAdd ("n", "a"); LAdd ("n", "b")]) ++ [LGet ("n", "a")]) ++ [LAdd ("n", "a")])
  ++ [LFinish ("n", "a") tt (Ok false) tt].
Definition got_queue : WorkQueue :=
  default NewQueue (snd <$> Get (foldl (λ q r, Add r q) NewQueue [("n", "a"); ("n", "b")])).
Definition busy_state : State unit :=
  MkState tt 0 (MkDelayingQueue (Add ("n", "a") got_queue) ∅).
Definition two_state : State unit :=
  MkState tt 0 (on_queue (Done ("n", "a")) (work busy_state)).

Lemma two_steps : steps settles queue_notice 1 (initial tt 0) two_trace two_state.
Proof.
  eapply steps_snoc; [eapply steps_snoc; [eapply steps_snoc; [eapply steps_snoc;
    [apply steps_nil|]|]|]|].
  - exact (step_notice settles queue_notice 1 (initial tt 0) [("n", "a"); ("n", "b")] _ eq_refl).
  - eapply step_get; [vm_compute; lia|reflexivity].
  - exact (step_notice settles queue_notice 1 _ [("n", "a")] _ eq_refl).
  - refine (step_finish settles queue_notice 1 busy_state ("n", "a") 5 (Ok false) tt _ _ eq_refl eq_refl).
    vm_compute. reflexivity.
Qed.
Lemma workers_exclusive_fair_witness :
  size (processing (queue_of (work two_state))) ≤ 1
  ∧ queued (queue_of (work two_state)) = [("n", "b"); ("n", "a")].
Proof.
  split; [|reflexivity].
  exact (proj1 (workers_exclusive_fair settles queue_notice 1 tt 0 two_trace two_state two_steps)).
Defined.
