(* ===== verification/KubeObjects.v ===== *)
(** * Kubernetes objects (pkg/obj: obj.go, util.go, namespace.go, limitrange.go, secret.go)

    The objects of the controllers, and how they are loaded, persisted and deleted through
    the Kubernetes client, which is a parameter: a record of calls per kind of object. *)
From S2P Require Import Prelude GoStd GoStrings Values Errors Transfer ResultMapper Model.
From S2P Require Import ConfigMaps ObjUtil.

Definition ErrRequired : error := EText "obj: required".

(** ** Objects and the client *)

(** An object: its metadata and the rest of it. *)
Record Kube (S : Type) := MkKube { Kube_Meta : ObjectMeta; Kube_Spec : S }.
Arguments MkKube {S}. Arguments Kube_Meta {S}. Arguments Kube_Spec {S}.

Definition with_Meta {S} (m : ObjectMeta) (o : Kube S) : Kube S := MkKube m (Kube_Spec o).
Definition with_Spec {S} (s : S) (o : Kube S) : Kube S := MkKube (Kube_Meta o) s.

Notation ObjectKey := (string * string)%type.

(** The metadata of an object that was just made. *)
Definition zero_meta : ObjectMeta := MkObjectMeta "" "" "" None None [] [] None.
Definition with_key (key : ObjectKey) (m : ObjectMeta) : ObjectMeta :=
  MkObjectMeta key.1 key.2 (Meta_UID m) (Annotations m) (Labels m) (Finalizers m)
    (OwnerReferences m) (DeletionTimestamp m).

(** The calls for one kind of object.  A write returns the object as the server has it. *)
Record ObjectClient (W S : Type) := MkObjectClient {
  kube_Get : ObjectKey → io W (Kube S);
  kube_Create : Kube S → io W (Kube S);
  kube_Update : Kube S → io W (Kube S);
  kube_Delete : Kube S → io W unit;
}.
Arguments kube_Get {W S}. Arguments kube_Create {W S}.
Arguments kube_Update {W S}. Arguments kube_Delete {W S}.

Section client.
Context {W S : Type} (cl : ObjectClient W S).
Implicit Types (obj : Kube S).

Definition Exists (key : ObjectKey) (obj : Kube S) : bool * Kube S :=
  let obj := with_Meta (with_key key (Kube_Meta obj)) obj in
  (negb (String.eqb (Meta_UID (Kube_Meta obj)) ""), obj).

Definition CreateOrUpdate (key : ObjectKey) (obj : Kube S) : io W (Kube S) :=
  let '(exists_, obj) := Exists key obj in
  if exists_ : bool then kube_Update cl obj else kube_Create cl obj.

(** An object that is not found keeps what it has and is named. *)
Definition GetIgnoreNotFound (key : ObjectKey) (obj : Kube S) : io W (bool * Kube S) :=
  r ← attempt (kube_Get cl key);
  match r with
  | Ok found => mret (true, found)
  | Err e => if is_not_found e then mret (false, with_Meta (with_key key (Kube_Meta obj)) obj)
             else lift (Err e)
  | Panic s => lift (Panic s)
  end.

Definition DeleteIgnoreNotFound (obj : Kube S) : io W bool :=
  r ← attempt (kube_Delete cl obj);
  match r with
  | Ok _ => mret true
  | Err e => if is_not_found e then mret false else lift (Err e)
  | Panic s => lift (Panic s)
  end.
End client.

(** ** Dependencies

    An object in another namespace cannot be owned; an annotation names what it depends
    on. *)
Definition RelayControllerDependencyOfAnnotation : string := "controller.relay.sh/dependency-of".

Record DependencyOf := MkDependencyOf {
  Dep_APIVersion : string; Dep_Kind : string; Dep_Namespace : string; Dep_Name : string;
  Dep_UID : string }.

#[export] Instance DependencyOf_eq_dec : EqDecision DependencyOf.
Proof. solve_decision. Defined.

Section dependencies.
Context `{JSONText}.

(** An empty namespace is left out. *)
Definition dependency_marshal (d : DependencyOf) : json :=
  json_object (json_field "apiVersion" (Dep_APIVersion d) :: json_field "kind" (Dep_Kind d)
    :: (if String.eqb (Dep_Namespace d) "" then [] else [json_field "namespace" (Dep_Namespace d)])
    ++ [json_field "name" (Dep_Name d); json_field "uid" (Dep_UID d)]).

(** A string field: absent and null leave it empty.  (Field names are matched exactly; Go
    also accepts other capitalisations.) *)
Definition struct_field (m : gmap string json) (k : string) : result string :=
  match m !! k with
  | Some (JString s) => Ok s
  | None | Some JNull => Ok ""
  | _ => Err EJSONSyntax
  end.

Definition dependency_unmarshal (text : string) : result DependencyOf :=
  match json_parse text with
  | Some (JObject m) =>
      v ← struct_field m "apiVersion"; k ← struct_field m "kind"; ns ← struct_field m "namespace";
      n ← struct_field m "name"; u ← struct_field m "uid";
      Ok (MkDependencyOf v k ns n u)
  | Some JNull => Ok (MkDependencyOf "" "" "" "" "")
  | _ => Err EJSONSyntax
  end.

Definition dependency_on (owner : Owner) : DependencyOf :=
  MkDependencyOf (GVK_APIVersion (Owner_GVK owner)) (GVK_Kind (Owner_GVK owner))
    (Meta_Namespace (Owner_Object owner)) (Meta_Name (Owner_Object owner))
    (Meta_UID (Owner_Object owner)).

Definition SetDependencyOf (target : ObjectMeta) (owner : Owner) : ObjectMeta :=
  (Annotate target RelayControllerDependencyOfAnnotation
     (json_print (dependency_marshal (dependency_on owner)))).2.

(** The group and version are compared parsed, which for the owners of this program (a
    group, a slash and a version) is comparing the text. *)
Definition IsDependencyOf (target : ObjectMeta) (owner : Owner) : result bool :=
  let annotation := default "" (default ∅ (Annotations target)
                                  !! RelayControllerDependencyOfAnnotation) in
  if String.eqb annotation "" then Ok false
  else
    dep ← dependency_unmarshal annotation;
    let own := dependency_on owner in
    if negb (String.eqb (Dep_Kind own) (Dep_Kind dep))
       || negb (String.eqb (Dep_APIVersion own) (Dep_APIVersion dep)) then Ok false
    else
      Ok (String.eqb (Dep_UID own) (Dep_UID dep) && String.eqb (Dep_Namespace own) (Dep_Namespace dep)
          && String.eqb (Dep_Name own) (Dep_Name dep)).
End dependencies.

(** ** Loaders and persisters

    A structure [D] of objects is loaded and persisted field by field; the calls act on
    the world and on the structure.  A field that may be nil is an [option]. *)
Section structures.
Context {W D : Type}.
Implicit Types (d : D).

Definition Loader : Type := io (W * D) bool.
Definition Persister : Type := io (W * D) unit.

(** A call on a field. *)
Definition on {O A} (view : D → O) (put : O → D → D) (m : O → io W (A * O)) : io (W * D) A :=
  λ '(w, d), let '(r, w') := m (view d) w in
    match r with
    | Ok (a, o) => (Ok a, (w', put o d))
    | Err e => (Err e, (w', d))
    | Panic s => (Panic s, (w', d))
    end.

(** [IgnoreNilLoader], [IgnoreNilPersister] *)
Definition unless_nil {O A} (nil : A) (view : D → option O) (m : O → io (W * D) A) : io (W * D) A :=
  λ '(w, d), match view d with None => (Ok nil, (w, d)) | Some o => m o (w, d) end.

Definition RequiredLoader (l : Loader) : Loader :=
  ok ← l; if (ok : bool) then mret true else lift (Err ErrRequired).

(** All are loaded, unless one fails. *)
Fixpoint Loaders_from (all : bool) (ls : list Loader) : Loader :=
  match ls with
  | [] => mret all
  | l :: ls' => ok ← l; Loaders_from (if (ok : bool) then all else false) ls'
  end.
Definition Loaders_Load (ls : list Loader) : Loader := Loaders_from true ls.

Definition Persist_all (ps : list Persister) : Persister := each_effect (λ p, p) ps.
End structures.
Arguments Loader : clear implicits. Arguments Persister : clear implicits.

(** ** Kinds of objects *)
Definition Namespace : Type := string * Kube unit.
Definition NewNamespace (name : string) : Namespace := (name, MkKube zero_meta tt).
Definition Namespace_Object (n : Namespace) : ObjectMeta := Kube_Meta n.2.

Section namespaces.
Context {W : Type} (cl : ObjectClient W unit).
Definition Namespace_Load (n : Namespace) : io W (bool * Namespace) :=
  '(ok, o) ← GetIgnoreNotFound cl ("", n.1) n.2; mret (ok, (n.1, o)).
Definition Namespace_Persist (n : Namespace) : io W (unit * Namespace) :=
  o ← CreateOrUpdate cl ("", n.1) n.2; mret (tt, (n.1, o)).
Definition Namespace_Delete (n : Namespace) : io W bool := DeleteIgnoreNotFound cl n.2.
End namespaces.

(** An object of a kind that is created from its key. *)
Definition Keyed (S : Type) : Type := ObjectKey * Kube S.
Section keyed.
Context {W S : Type} (cl : ObjectClient W S).
Definition Keyed_Load (o : Keyed S) : io W (bool * Keyed S) :=
  '(ok, obj) ← GetIgnoreNotFound cl o.1 o.2; mret (ok, (o.1, obj)).
Definition Keyed_Persist (o : Keyed S) : io W (unit * Keyed S) :=
  obj ← CreateOrUpdate cl o.1 o.2; mret (tt, (o.1, obj)).
End keyed.

(** *** Secrets *)
Record SecretData := MkSecretData { Secret_Type : string; Secret_Data : gmap string string }.
Definition SecretTypeOpaque : string := "Opaque".
Definition SecretTypeServiceAccountToken : string := "kubernetes.io/service-account-token".
Definition SecretTypeDockerConfigJson : string := "kubernetes.io/dockerconfigjson".
Definition ErrNotOpaqueSecret : error := EText "obj: secret is not an unstructured opaque secret".
Definition ErrNotImagePullSecret : error :=
  EText "obj: secret is not usable for pulling container images".
Definition ErrNotServiceAccountTokenSecret : error :=
  EText "obj: secret is not usable for service accounts".
Definition ErrServiceAccountTokenMissingData : error :=
  EText "obj: service account token secret has no token data".

Definition NewSecret (ty : string) (key : ObjectKey) : Keyed SecretData :=
  (key, MkKube zero_meta (MkSecretData ty ∅)).
Definition NewOpaqueSecret : ObjectKey → Keyed SecretData := NewSecret SecretTypeOpaque.
Definition NewImagePullSecret : ObjectKey → Keyed SecretData := NewSecret SecretTypeDockerConfigJson.
Definition NewServiceAccountTokenSecret : ObjectKey → Keyed SecretData :=
  NewSecret SecretTypeServiceAccountToken.

(** Loads a secret that has to be of a type. *)
Definition load_secret {W} (cl : ObjectClient W SecretData) (ty : string) (wrong : error)
    (s : Keyed SecretData) : io W (bool * Keyed SecretData) :=
  '(ok, s') ← Keyed_Load cl s;
  if String.eqb (Secret_Type (Kube_Spec s'.2)) ty then mret (ok, s') else lift (Err wrong).
Definition OpaqueSecret_Load {W} (cl : ObjectClient W SecretData) :=
  load_secret cl SecretTypeOpaque ErrNotOpaqueSecret.
Definition ImagePullSecret_Load {W} (cl : ObjectClient W SecretData) :=
  load_secret cl SecretTypeDockerConfigJson ErrNotImagePullSecret.
Definition ServiceAccountTokenSecret_Load {W} (cl : ObjectClient W SecretData) :=
  load_secret cl SecretTypeServiceAccountToken ErrNotServiceAccountTokenSecret.

Definition OpaqueSecret_Data (s : Keyed SecretData) (key : string) : option string :=
  Secret_Data (Kube_Spec s.2) !! key.
Definition ServiceAccountToken (s : Keyed SecretData) : result string :=
  let tok := default "" (Secret_Data (Kube_Spec s.2) !! "token") in
  if String.eqb tok "" then Err ErrServiceAccountTokenMissingData else Ok tok.
Definition ConfigureImagePullSecret (target src : Keyed SecretData) : Keyed SecretData :=
  (target.1, with_Spec (MkSecretData (Secret_Type (Kube_Spec target.2))
                          (Secret_Data (Kube_Spec src.2))) target.2).

(** *** Limit ranges: quantities are kept as they are written. *)
Record LimitRangeSpec := MkLimitRangeSpec {
  containerDefaultLimit : gmap string string;
  containerDefaultRequestLimit : gmap string string;
  containerMaxLimit : gmap string string }.

Definition resources (cpu memory : string) : gmap string string :=
  <["cpu" := cpu]> {["memory" := memory]}.
Definition default_limits : LimitRangeSpec :=
  MkLimitRangeSpec (resources "750m" "2Gi") (resources "100m" "256Mi") (resources "1" "3Gi").

(** The options are setters of the limits; a range that was never configured has none. *)
Definition ConfigureLimitRange (opts : list (LimitRangeSpec → LimitRangeSpec))
    (lr : Keyed (option LimitRangeSpec)) : Keyed (option LimitRangeSpec) :=
  (lr.1, with_Spec (Some (foldl (λ lro opt, opt lro) default_limits opts)) lr.2).
Definition NewLimitRange (key : ObjectKey) : Keyed (option LimitRangeSpec) :=
  (key, MkKube zero_meta None).
