(* ===== verification/WorkflowJSON.v ===== *)
(** * Workflows as JSON (pkg/workflow/types/v1/types.go, pkg/expr/serialize)

    The steps and the trigger sources of a workflow have JSON forms of their own: the
    fields of the variant are written next to the common ones, and the trees of
    expressions are evaluated, without functions or resolvers, on the way.  At the end:
    the validation of workflow files and of the kinds of documents (pkg/util/typeutil). *)
From S2P Require Import Prelude GoStd GoStrings Values Errors Transfer Unresolvable Fn.
From S2P Require Import Resolve Evaluate EvaluateTheory Denote Staging ResultMapper Model.
From S2P Require Import KubeObjects Graph RunStatus RunConfig Workflow Samples.

(** ** Trees (serialize.JSONTree) *)
Section trees.
Context `{GoRuntime, GoFmt, JSONText, Markdown}.

Definition json_tree_evaluator : Evaluator :=
  NewEvaluator [WithInvocationResolver (MemoryInvocationResolver ∅);
                WithResultMapper (JSONResultMapper_MapResult (NewJSONResultMapper []))].
Definition JSONTree_MarshalJSON (tree : value) : result string :=
  r ← EvaluateAll json_tree_evaluator tree;
  match Value r with VBytes b => Ok b | _ => Panic "interface conversion: not a []byte" end.
Definition JSONTree_UnmarshalJSON (data : json) : value := json_unmarshal data.

(** A tree inside another object: its text has to be JSON. *)
Definition json_tree (tree : value) : result json :=
  text ← JSONTree_MarshalJSON tree;
  match json_parse text with Some j => Ok j | None => Err EJSONSyntax end.

(** ** Fields *)
Definition omit_empty (k v : string) : list (string * json) :=
  if String.eqb v "" then [] else [json_field k v].
Definition trees_to (f : value → result json) (k : string) (m : option (gmap string value))
    : result (list (string * json)) :=
  match m with
  | None => Ok []
  | Some m =>
      if decide (m = ∅) then Ok []
      else o ← sequence_map (f <$> m); Ok [(k, JObject o)]
  end.

(** [null] leaves a field as it is. *)
Definition element_string (j : json) : result string :=
  match j with JString s => Ok s | JNull => Ok "" | _ => Err EJSONSyntax end.
Definition strings_field (m : gmap string json) (k : string) : result (list string) :=
  match m !! k with
  | None | Some JNull => Ok []
  | Some (JArray l) => mapM element_string l
  | _ => Err EJSONSyntax
  end.
Definition trees_field (m : gmap string json) (k : string) : result (option (gmap string value)) :=
  match m !! k with
  | None | Some JNull => Ok None
  | Some (JObject o) => Ok (Some (JSONTree_UnmarshalJSON <$> o))
  | _ => Err EJSONSyntax
  end.
Definition tree_field (m : gmap string json) (k : string) : value :=
  match m !! k with Some j => JSONTree_UnmarshalJSON j | None => VNil end.

(** The fields of an object; [null] has none. *)
Definition object_of (data : string) : result (gmap string json) :=
  match json_parse data with
  | Some (JObject m) => Ok m
  | Some JNull => Ok ∅
  | _ => Err EJSONSyntax
  end.

(** ** Containers *)
Definition container_fields (c : ContainerMixin) : result (list (string * json)) :=
  spec ← trees_to json_tree "spec" (Mixin_Spec c);
  Ok (json_field "image" (Mixin_Image c) :: spec
      ++ omit_empty "inputFile" (Mixin_InputFile c) ++ list_field "input" JString (Mixin_Input c)
      ++ omit_empty "command" (Mixin_Command c) ++ list_field "args" JString (Mixin_Args c)).
Definition container_of (m : gmap string json) : result ContainerMixin :=
  image ← struct_field m "image"; spec ← trees_field m "spec";
  inputFile ← struct_field m "inputFile"; input ← strings_field m "input";
  command ← struct_field m "command"; args ← strings_field m "args";
  Ok (MkContainerMixin image spec inputFile input command args false).

(** ** Steps

    An empty list of dependencies is a nil one here, and written as null.  The condition of
    the common part is never set. *)
Definition common_fields (name type : string) (dependsOn : list string) (when : json)
    : list (string * json) :=
  [json_field "name" name; json_field "type" type;
   ("depends_on", match dependsOn with [] => JNull | l => JArray (JString <$> l) end); ("when", when)].

Definition WorkflowStep_MarshalJSON (ws : WorkflowDataStep) : result string :=
  when ← json_tree VNil;
  let common type := common_fields (data_step_Name ws) type (data_step_DependsOn ws) when in
  match Variant ws with
  | ContainerWorkflowStep c =>
      fields ← container_fields c; Ok (json_print (json_object (common "container" ++ fields)))
  | ApprovalWorkflowStep => Ok (json_print (json_object (common "approval")))
  end.

Definition WorkflowStep_UnmarshalJSON (data : string) : result WorkflowDataStep :=
  m ← object_of data;
  name ← struct_field m "name"; type ← struct_field m "type";
  dependsOn ← strings_field m "depends_on";
  variant ← (if String.eqb type WorkflowStepTypeApproval then Ok ApprovalWorkflowStep
             else c ← container_of m; Ok (ContainerWorkflowStep c));
  Ok (MkWorkflowDataStep name dependsOn (tree_field m "when") variant).

(** ** Trigger sources: the variant may be nil *)
Record WorkflowTriggerSource := MkWorkflowTriggerSource {
  wts_Type : string; wts_Variant : option WorkflowTriggerSourceVariant }.

Definition source_fields (v : WorkflowTriggerSourceVariant) : result (list (string * json)) :=
  match v with
  | PushWorkflowTriggerSource schema => trees_to json_marshal "schema" schema
  | ScheduleWorkflowTriggerSource schedule => Ok (omit_empty "schedule" schedule)
  | WebhookWorkflowTriggerSource c => container_fields c
  end.
Definition WorkflowTriggerSource_MarshalJSON (wts : WorkflowTriggerSource) : result string :=
  match wts_Variant wts with
  | None => Ok (json_print JNull)
  | Some v =>
      fields ← source_fields v;
      Ok (json_print (json_object (json_field "type" (TriggerSourceType v) :: fields)))
  end.
Definition WorkflowTriggerSource_UnmarshalJSON (data : string) : result WorkflowTriggerSource :=
  m ← object_of data;
  type ← struct_field m "type";
  variant ←
    (if String.eqb type WorkflowTriggerSourceTypePush then
       schema ← trees_field m "schema"; Ok (Some (PushWorkflowTriggerSource schema))
     else if String.eqb type WorkflowTriggerSourceTypeSchedule then
       schedule ← struct_field m "schedule"; Ok (Some (ScheduleWorkflowTriggerSource schedule))
     else if String.eqb type WorkflowTriggerSourceTypeWebhook then
       c ← container_of m; Ok (Some (WebhookWorkflowTriggerSource c))
     else Ok None);
  Ok (MkWorkflowTriggerSource type variant).
End trees.

(** ** Unstructured values (pkg/apis/relay.sh/v1beta1)

    Arbitrary JSON data with transfer encodings, as the custom resources carry it. *)
Record Unstructured := MkUnstructured { unstructured_value : value }.
Definition UnstructuredObject : Type := gmap string Unstructured.
Definition AsUnstructured (v : value) : Unstructured := MkUnstructured v.
Definition Unstructured_Value (u : Unstructured) : value := unstructured_value u.
Definition Unstructured_MarshalJSON `{JSONText} (u : Unstructured) : result json :=
  ji_marshal (unstructured_value u).
Definition Unstructured_UnmarshalJSON `{JSONText} (j : json) : result Unstructured :=
  v ← ji_unmarshal j; Ok (MkUnstructured v).
Definition UnstructuredObject_Value (uo : UnstructuredObject) : gmap string value :=
  map_fold (λ k v out, <[k := Unstructured_Value v]> out) ∅ uo.
Definition NewUnstructuredObject (m : gmap string value) : UnstructuredObject :=
  map_fold (λ k v out, <[k := AsUnstructured v]> out) ∅ m.

(** * What is read back

    ** Trees

    Texts, other leaves that JSON can carry, lists and maps; an encoding is not kept, since
    it is decoded when the tree is written. *)
Inductive expression_tree `{JSONText} : value → Prop :=
| tree_string s : utf8_valid s = true → expression_tree (VString s)
| tree_leaf v j :
    is_leaf v = true → supported v = true → as_string v = None →
    json_marshal v = Ok j → json_utf8 j = true → json_unmarshal j = v → expression_tree v
| tree_slice l : (∀ v, v ∈ l → expression_tree v) → expression_tree (VSlice l)
| tree_map m :
    m !! "$encoding" = None → (∀ k v, m !! k = Some v → utf8_valid k = true ∧ expression_tree v) →
    expression_tree (VMap m).

(** Trees of texts, booleans and nulls, by computing. *)
Fixpoint text_tree (v : value) : bool :=
  match v with
  | VNil | VBool _ => true
  | VString s => utf8_valid s
  | VSlice l => forallb text_tree l
  | VMap m =>
      match m !! "$encoding" with None => true | Some _ => false end
      && map_fold (λ k v b, (utf8_valid k && text_tree v) && b) true m
  | _ => false
  end.
Lemma text_tree_expression `{JSONText} v : text_tree v = true → expression_tree v.
Proof.
  induction v as [v Hv|l IH|m IH] using value_ind'; intros Ht.
  - destruct v; try discriminate Ht; try discriminate Hv.
    + by apply (tree_leaf VNil JNull).
    + by apply (tree_leaf (VBool b) (JBool b)).
    + by apply tree_string.
  - constructor. intros v Hv. cbn in Ht. rewrite forallb_forall in Ht. rewrite Forall_forall in IH.
    apply IH; [done|]. by apply Ht, list_elem_of_In.
  - cbn [text_tree] in Ht. apply andb_true_iff in Ht as [He Ht].
    constructor; [by destruct (m !! "$encoding") eqn:E; rewrite ?E in He|]. intros k v Hk.
    rewrite (map_fold_andb_true (λ k v, utf8_valid k && text_tree v)) in Ht.
    assert (Hkv := Ht k v Hk). apply andb_true_iff in Hkv as [Hu Hv]. split; [done|]. exact (IH k v Hk Hv).
Qed.

Section tree_lemmas.
Context `{GoRuntimeLaws, GoFmt, JSONTextLaws, Markdown}.

Lemma tree_marshal v :
  expression_tree v →
  ∃ j, json_marshal (utf8_do v) = Ok j ∧ json_utf8 j = true ∧ json_unmarshal j = v.
Proof.
  induction v as [v Hv|l IH|m IH] using value_ind'; intros Ht.
  - destruct Ht as [s Hs|v j _ Hp Hn Hj Hu Hb|l|m]; try discriminate Hv.
    + exists (JString s). cbn. unfold EncodeJSON. by rewrite Hs.
    + exists j. split; [|done]. by destruct v.
  - assert (Hl : ∀ v, v ∈ l → expression_tree v) by (by inversion Ht).
    assert (∃ k, Forall2 (λ v j, json_marshal (utf8_do v) = Ok j ∧ json_utf8 j = true
        ∧ json_unmarshal j = v) l k) as [k Hk].
    { apply Forall_exists_Forall2. rewrite Forall_forall in IH |- *. auto. }
    exists (JArray k). cbn [utf8_do json_marshal]. split_and!.
    + rewrite (proj2 (mapM_Ok json_marshal (utf8_do <$> l) k)); [done|].
      apply Forall2_fmap_l. eapply Forall2_impl; [exact Hk|]. naive_solver.
    + cbn [json_utf8]. apply forallb_Forall. clear -Hk. induction Hk; constructor; naive_solver.
    + cbn [json_unmarshal]. f_equal. clear -Hk. induction Hk as [|v j l k (_ & _ & E) _ IH]; [done|].
      cbn. by rewrite E, IH.
  - assert (Hm : ∀ k v, m !! k = Some v → utf8_valid k = true ∧ expression_tree v) by (by inversion Ht).
    assert (∃ n, map_related (λ k v j, utf8_valid k = true ∧ json_marshal (utf8_do v) = Ok j
        ∧ json_utf8 j = true ∧ json_unmarshal j = v) m n) as [n Hn].
    { apply map_exists_related. intros k v Hk. destruct (Hm k v Hk) as [Hu Hv].
      destruct (IH k v Hk Hv) as (j & Hj). by exists j. }
    exists (JObject n). cbn [utf8_do json_marshal]. split_and!.
    + rewrite (proj2 (sequence_map_Ok (json_marshal <$> (utf8_do <$> m)) n)); [done|].
      rewrite <- map_fmap_compose. apply (map_related_fmap_Ok (json_marshal ∘ utf8_do)). intros k.
      specialize (Hn k). destruct (m !! k), (n !! k); naive_solver.
    + apply json_utf8_map. intros k j Hk.
      destruct (map_related_Some_r _ _ _ _ _ Hn Hk) as (v & _ & ?); naive_solver.
    + cbn [json_unmarshal]. f_equal. apply map_eq. intros k. rewrite lookup_fmap. specialize (Hn k).
      destruct (m !! k), (n !! k); naive_solver.
Qed.

(** Without functions and resolvers nothing changes. *)
Lemma tree_kept v r :
  expression_tree v → evaluate json_tree_evaluator v (-1) = Ok r → Value r = v.
Proof.
  revert r. induction v as [v IH] using value_strong_ind. intros r Ht Ho.
  destruct (is_leaf v) eqn:Hv.
  { rewrite evaluate_leaf in Ho by done. unfold check_supported in Ho. cbn in Ho.
    destruct (supported v); [|done]. by injection Ho as <-. }
  destruct v as [| | | | | | | | |l|m| | |]; try discriminate Hv.
  - apply evaluate_slice_Ok in Ho as (rs & Hrs & ->); [|done..]. cbn. f_equal.
    assert (Hl : ∀ v, v ∈ l → expression_tree v) by (by inversion Ht).
    apply list_eq_Forall2, Forall2_fmap_l, Forall2_flip, Forall2_same_length_lookup.
    split; [by eapply Forall2_length|]. intros i y r Hy Hx. unfold flip.
    assert (y ∈ l) by (by eapply list_elem_of_lookup_2).
    apply IH; [by apply vsize_slice|by apply Hl|].
    rewrite <- (evaluate_negative json_tree_evaluator y (-1 - 1)) by done.
    apply (Forall2_lookup_lr _ _ _ _ _ _ Hrs Hy Hx).
  - assert (He : m !! "$encoding" = None) by (by inversion Ht).
    assert (Hm : ∀ k v, m !! k = Some v → utf8_valid k = true ∧ expression_tree v) by (by inversion Ht).
    rewrite evaluate_map in Ho by done. destruct (map_shape m) as [| |key arg|] eqn:Hs.
    + inv_ok. unfold check_supported in Ho. destruct (supported (Value a)); [|done].
      injection Ho as <-. destruct (evaluateType_cases _ _ _ Ho0) as [Hr|Hr]; [|done].
      rewrite Hr in Ho0. apply evaluateType_values in Ho0 as [Hw|[Hw _]]; [exfalso|done].
      unfold resolves_to in Hw. cbn in Hw. naive_solver.
    + apply map_shape_encoding in Hs as [_ [x Hx]]. congruence.
    + inv_ok. unfold check_supported in Ho. destruct (supported (Value a)); [|done].
      injection Ho as <-. apply map_shape_invocation in Hs as [-> _].
      unfold evaluateInvocation in Ho0. rewrite last_entry_singleton in Ho0. inv_ok.
      destruct (Unresolvable.Complete a0); cbn [negb] in Ho0.
      * destruct (Value a0); cbn in Ho0; by injection Ho0 as <-.
      * injection Ho0 as <-. cbn. do 2 f_equal. assert (Hk := lookup_singleton_eq (M:=gmap string) key arg).
        apply IH; [by eapply vsize_map|by apply (Hm key)|done].
    + rewrite decide_False in Ho by (by intros []).
      apply evaluate_children_Ok in Ho as (n & Hn & [Hval _ _]). rewrite Hval. f_equal.
      apply map_eq. intros k. rewrite lookup_fmap. specialize (Hn k).
      destruct (m !! k) as [v|] eqn:Hk, (n !! k); try done. cbn. f_equal.
      rewrite evaluate_negative in Hn by done.
      apply IH; [by eapply vsize_map|by apply (Hm k)|done].
Qed.

(** A tree that evaluates without an error is written, and reads back the same. *)
Lemma json_tree_reads_back v r :
  expression_tree v → evaluate json_tree_evaluator v (-1) = Ok r →
  ∃ j, json_tree v = Ok j ∧ json_utf8 j = true ∧ JSONTree_UnmarshalJSON j = v.
Proof.
  intros Ht He. assert (Hk := tree_kept v r Ht He). destruct (tree_marshal v Ht) as (j & Hj & Hu & Hb).
  exists j. split; [|done]. unfold json_tree, JSONTree_MarshalJSON, EvaluateAll, Evaluate.
  rewrite He. cbn [mbind outcome_bind].
  change (resultMapper json_tree_evaluator) with (JSONResultMapper_MapResult (NewJSONResultMapper [])).
  unfold JSONResultMapper_MapResult, NewJSONResultMapper, UTF8SafeResultMapper.
  cbn [encoder mbind outcome_bind Value Unresolvables]. rewrite Hk, Hj. cbn. by rewrite json_parse_print.
Qed.
End tree_lemmas.

(** ** Fields *)
Fixpoint assoc {A} (k : string) (l : list (string * A)) : option A :=
  match l with
  | [] => None
  | (k', a) :: l => if String.eqb k k' then Some a else assoc k l
  end.
Lemma lookup_assoc {A} (l : list (string * A)) k : (list_to_map l : gmap string A) !! k = assoc k l.
Proof.
  induction l as [|[k' a] l IH]; [done|]. cbn.
  destruct (String.eqb_spec k k') as [->|Hne]; [by rewrite lookup_insert_eq|].
  by rewrite lookup_insert_ne by done.
Qed.
Lemma assoc_app {A} k (l1 l2 : list (string * A)) :
  assoc k (l1 ++ l2) = match assoc k l1 with Some a => Some a | None => assoc k l2 end.
Proof. induction l1 as [|[k' a] l1 IH]; [done|]. cbn. by destruct (String.eqb k k'). Qed.
Lemma assoc_omit k k' v :
  assoc k (omit_empty k' v)
  = if String.eqb k k' then (if String.eqb v "" then None else Some (JString v)) else None.
Proof. unfold omit_empty. by destruct (String.eqb v ""), (String.eqb k k') eqn:E; cbn; rewrite ?E. Qed.
Lemma assoc_list_field {A} k k' (f : A → json) l :
  assoc k (list_field k' f l)
  = if String.eqb k k' then (match l with [] => None | _ => Some (JArray (f <$> l)) end) else None.
Proof. unfold list_field. destruct l; cbn; by destruct (String.eqb k k'). Qed.

Lemma struct_field_assoc l k v :
  assoc k l = Some (JString v) ∨ (assoc k l = None ∧ v = "") → struct_field (list_to_map l) k = Ok v.
Proof. unfold struct_field. rewrite lookup_assoc. by intros [->|[-> ->]]. Qed.
Lemma strings_read_back ss : mapM element_string (JString <$> ss) = Ok ss.
Proof. apply mapM_Ok. induction ss; constructor; done. Qed.
Lemma strings_field_assoc l k ss :
  assoc k l = Some (JArray (JString <$> ss))
  ∨ ((assoc k l = None ∨ assoc k l = Some JNull) ∧ ss = []) →
  strings_field (list_to_map l) k = Ok ss.
Proof.
  unfold strings_field. rewrite lookup_assoc. intros [->|[[->| ->] ->]]; [|done..].
  apply strings_read_back.
Qed.

Definition fields_utf8 (l : list (string * json)) : Prop :=
  Forall (λ kj, utf8_valid kj.1 = true ∧ json_utf8 kj.2 = true) l.
Lemma object_utf8 l : fields_utf8 l → json_utf8 (json_object l) = true.
Proof.
  intros Hl. apply json_utf8_map. intros k j. rewrite lookup_assoc.
  induction Hl as [|[k' j'] l Hk _ IH]; [done|]. cbn.
  destruct (String.eqb_spec k k') as [->|_]; [by intros [= <-]|done].
Qed.
Lemma omit_utf8 k v : utf8_valid k = true → utf8_valid v = true → fields_utf8 (omit_empty k v).
Proof. intros. unfold omit_empty. destruct (String.eqb v ""); repeat constructor; done. Qed.
Lemma strings_utf8 ss :
  Forall (λ s, utf8_valid s = true) ss → json_utf8 (JArray (JString <$> ss)) = true.
Proof. intros Hs. cbn. apply forallb_Forall, Forall_fmap. exact Hs. Qed.
Lemma list_field_utf8 k ss :
  utf8_valid k = true → Forall (λ s, utf8_valid s = true) ss → fields_utf8 (list_field k JString ss).
Proof.
  intros Hk Hs. unfold list_field. destruct ss as [|s ss]; [constructor|]. repeat constructor; [done|].
  by apply strings_utf8.
Qed.

(** What is known of the fields in the context, and the rest by computing. *)
Ltac look :=
  unfold json_field; rewrite ?assoc_app; cbn [assoc];
  repeat match goal with E : assoc _ _ = None |- _ => rewrite E end;
  rewrite ?assoc_app, ?assoc_omit, ?assoc_list_field;
  repeat match goal with E : ∀ k, k ≠ _ → assoc k _ = None |- _ => rewrite !E by done end;
  cbn.

Section written.
Context `{JSONText}.
(** An empty map is left out, and read back as none. *)
Definition read_trees (m : option (gmap string value)) : option (gmap string value) :=
  match m with Some m => if decide (m = ∅) then None else Some m | None => None end.
Definition written_by (f : value → result json) (m : option (gmap string value)) : Prop :=
  ∀ m0, m = Some m0 → map_Forall (λ k v, utf8_valid k = true
    ∧ ∃ j, f v = Ok j ∧ json_utf8 j = true ∧ json_unmarshal j = v) m0.

Lemma trees_written f k m :
  utf8_valid k = true → written_by f m →
  ∃ l, trees_to f k m = Ok l ∧ fields_utf8 l ∧ (∀ k', k' ≠ k → assoc k' l = None)
       ∧ ∀ l', assoc k l' = assoc k l → trees_field (list_to_map l') k = Ok (read_trees m).
Proof.
  intros Hk Hm. destruct m as [m|]; cbn [trees_to read_trees].
  2:{ exists []. split_and!; [done|constructor|done|]. intros l' E.
      unfold trees_field. by rewrite lookup_assoc, E. }
  specialize (Hm m eq_refl). case_decide as He.
  { exists []. split_and!; [done|constructor|done|]. intros l' E.
    unfold trees_field. by rewrite lookup_assoc, E. }
  assert (∃ n, map_related (λ k v j, utf8_valid k = true ∧ f v = Ok j ∧ json_utf8 j = true
      ∧ json_unmarshal j = v) m n) as [n Hn].
  { apply map_exists_related. intros k' v Hv. destruct (Hm k' v Hv) as (? & j & ?). by exists j. }
  exists [(k, JObject n)]. split_and!.
  - rewrite (proj2 (sequence_map_Ok (f <$> m) n)); [done|]. apply map_related_fmap_Ok.
    intros k'. specialize (Hn k'). destruct (m !! k'), (n !! k'); naive_solver.
  - repeat constructor; [done|]. apply json_utf8_map. intros k' j Hj.
    destruct (map_related_Some_r _ _ _ _ _ Hn Hj) as (v & _ & ?); naive_solver.
  - intros k' Hne. cbn. by destruct (String.eqb_spec k' k).
  - intros l' E. unfold trees_field. rewrite lookup_assoc, E. cbn. rewrite String.eqb_refl.
    do 2 f_equal. apply map_eq. intros k'. rewrite lookup_fmap. specialize (Hn k').
    destruct (m !! k'), (n !! k'); naive_solver.
Qed.

End written.

Section containers.
Context `{GoRuntimeLaws, GoFmt, JSONTextLaws, Markdown}.

(** An expression that can be written. *)
Definition writable (v : value) : Prop :=
  expression_tree v ∧ ∃ r, evaluate json_tree_evaluator v (-1) = Ok r.

Record container_text (c : ContainerMixin) : Prop := {
  text_image : utf8_valid (Mixin_Image c) = true;
  text_file : utf8_valid (Mixin_InputFile c) = true;
  text_input : Forall (λ s, utf8_valid s = true) (Mixin_Input c);
  text_command : utf8_valid (Mixin_Command c) = true;
  text_args : Forall (λ s, utf8_valid s = true) (Mixin_Args c);
  text_spec : ∀ m, Mixin_Spec c = Some m →
    map_Forall (λ k v, utf8_valid k = true ∧ writable v) m }.
Lemma spec_written c : container_text c → written_by json_tree (Mixin_Spec c).
Proof.
  intros Hc m Hm k v Hk. destruct (text_spec c Hc m Hm k v Hk) as [Hu [Ht [r He]]].
  split; [done|]. by apply (json_tree_reads_back v r).
Qed.
Definition read_container (c : ContainerMixin) : ContainerMixin :=
  MkContainerMixin (Mixin_Image c) (read_trees (Mixin_Spec c)) (Mixin_InputFile c) (Mixin_Input c)
    (Mixin_Command c) (Mixin_Args c) false.

Definition container_keys : list string := ["image"; "spec"; "inputFile"; "input"; "command"; "args"].
Lemma container_written c l0 :
  container_text c → Forall (λ k, assoc k l0 = None) container_keys →
  ∃ l, container_fields c = Ok l ∧ fields_utf8 l ∧ container_of (list_to_map (l0 ++ l)) = Ok (read_container c)
       ∧ ∀ k, k ∉ container_keys → assoc k l = None.
Proof.
  intros Hc Hl0. assert (Hspec := spec_written c Hc). destruct Hc as [Himg Hfile Hin Hcmd Hargs _].
  destruct (trees_written json_tree "spec" (Mixin_Spec c) eq_refl Hspec) as (sp & Esp & Husp & Hother & Hback).
  unfold container_fields. rewrite Esp. cbn [mbind outcome_bind]. eexists. split; [done|].
  unfold container_keys in Hl0. rewrite !Forall_cons in Hl0. destruct Hl0 as (? & ? & ? & ? & ? & ? & _). split_and!.
  - constructor; [by cbn|]. repeat (apply Forall_app_2);
      try done; try (by apply omit_utf8); by apply list_field_utf8.
  - unfold container_of.
    rewrite (struct_field_assoc _ "image" (Mixin_Image c)) by (left; look; done).
    cbn [mbind outcome_bind]. rewrite Hback by (look; by destruct (assoc "spec" sp)).
    cbn [mbind outcome_bind].
    rewrite (struct_field_assoc _ "inputFile" (Mixin_InputFile c))
      by (look; destruct (String.eqb_spec (Mixin_InputFile c) ""); auto).
    cbn [mbind outcome_bind].
    rewrite (strings_field_assoc _ "input" (Mixin_Input c)) by (look; destruct (Mixin_Input c); auto).
    cbn [mbind outcome_bind].
    rewrite (struct_field_assoc _ "command" (Mixin_Command c))
      by (look; destruct (String.eqb_spec (Mixin_Command c) ""); auto).
    cbn [mbind outcome_bind].
    by rewrite (strings_field_assoc _ "args" (Mixin_Args c)) by (look; destruct (Mixin_Args c); auto).
  - intros k Hk. unfold container_keys in Hk. rewrite !not_elem_of_cons in Hk.
    destruct Hk as (Hk1 & Hk2 & Hk3 & Hk4 & Hk5 & Hk6 & _).
    unfold json_field. cbn [assoc]. rewrite !assoc_app, !assoc_omit, !assoc_list_field, Hother by done.
    apply String.eqb_neq in Hk1, Hk3, Hk4, Hk5, Hk6. by rewrite Hk1, Hk3, Hk4, Hk5, Hk6.
Qed.

(** ** Steps *)
Record step_text (ws : WorkflowDataStep) : Prop := {
  text_name : utf8_valid (data_step_Name ws) = true;
  text_depends : Forall (λ s, utf8_valid s = true) (data_step_DependsOn ws);
  text_variant : match Variant ws with
                 | ContainerWorkflowStep c => container_text c
                 | ApprovalWorkflowStep => True
                 end }.
(** What is kept of a step: everything but its condition. *)
Definition read_step (ws : WorkflowDataStep) : WorkflowDataStep :=
  MkWorkflowDataStep (data_step_Name ws) (data_step_DependsOn ws) VNil
    (match Variant ws with
     | ContainerWorkflowStep c => ContainerWorkflowStep (read_container c)
     | ApprovalWorkflowStep => ApprovalWorkflowStep
     end).

Lemma object_of_print l : fields_utf8 l → object_of (json_print (json_object l)) = Ok (list_to_map l).
Proof. intros Hl. unfold object_of. by rewrite json_parse_print by (by apply object_utf8). Qed.

Lemma json_tree_nil : json_tree VNil = Ok JNull.
Proof.
  destruct (json_tree_reads_back VNil (complete_result VNil)) as (j & Hj & _ & Hb).
  - by apply (tree_leaf VNil JNull).
  - by rewrite evaluate_leaf.
  - rewrite Hj. by destruct j.
Qed.

Lemma common_utf8 name type deps :
  utf8_valid name = true → utf8_valid type = true → Forall (λ s, utf8_valid s = true) deps →
  fields_utf8 (common_fields name type deps JNull).
Proof.
  intros. repeat constructor; try done. cbn [snd]. destruct deps as [|d deps]; [done|].
  by apply (strings_utf8 (d :: deps)).
Qed.

Lemma common_read name type deps l :
  (∀ k, k ∈ ["name"; "type"; "depends_on"; "when"] → assoc k l = None) →
  let m := list_to_map (common_fields name type deps JNull ++ l) in
  struct_field m "name" = Ok name ∧ struct_field m "type" = Ok type
  ∧ strings_field m "depends_on" = Ok deps ∧ tree_field m "when" = VNil.
Proof.
  intros Hl. cbv zeta. split_and!.
  - apply struct_field_assoc. by left.
  - apply struct_field_assoc. by left.
  - apply strings_field_assoc. cbn. destruct deps; auto.
  - unfold tree_field. by rewrite lookup_assoc.
Qed.

(** C34: A workflow step is written as JSON and read back as it was, except for its condition:
    the name, the dependencies, the kind and, of a container, the image, the expressions
    of the specification, the input, the command and the arguments are kept whenever
    their text is UTF-8 and the expressions can be written; the condition is lost. *)
Theorem json_step_roundtrip ws :
  step_text ws →
  ∃ text, WorkflowStep_MarshalJSON ws = Ok text ∧ WorkflowStep_UnmarshalJSON text = Ok (read_step ws).
Proof.
  intros [Hn Hd Hv]. unfold WorkflowStep_MarshalJSON. rewrite json_tree_nil. cbn [mbind outcome_bind].
  unfold WorkflowStep_UnmarshalJSON, read_step. destruct (Variant ws) as [c|].
  - destruct (container_written c (common_fields (data_step_Name ws) "container" (data_step_DependsOn ws) JNull)
      Hv) as (l & -> & Hu & Hc & Hother); [by repeat constructor|].
    cbn [mbind outcome_bind]. eexists. split; [done|]. rewrite object_of_print.
    2:{ apply Forall_app_2; [by apply common_utf8|done]. }
    cbn [mbind outcome_bind].
    edestruct (common_read (data_step_Name ws) "container" (data_step_DependsOn ws) l) as (-> & -> & -> & ->).
    { intros k Hk. apply Hother. set_solver. }
    cbn [mbind outcome_bind String.eqb]. change (String.eqb "container" WorkflowStepTypeApproval) with false.
    cbn iota. by rewrite Hc.
  - cbn [mbind outcome_bind]. eexists. split; [done|]. rewrite object_of_print by (by apply common_utf8).
    cbn [mbind outcome_bind].
    edestruct (common_read (data_step_Name ws) "approval" (data_step_DependsOn ws) []) as (E1 & E2 & E3 & E4).
    { done. }
    rewrite app_nil_r in E1, E2, E3, E4. by rewrite E1, E2, E3, E4.
Qed.

(** ** Trigger sources *)
Definition source_text (v : WorkflowTriggerSourceVariant) : Prop :=
  match v with
  | PushWorkflowTriggerSource schema => written_by json_marshal schema
  | ScheduleWorkflowTriggerSource schedule => utf8_valid schedule = true
  | WebhookWorkflowTriggerSource c => container_text c
  end.
Definition read_source (v : WorkflowTriggerSourceVariant) : WorkflowTriggerSourceVariant :=
  match v with
  | PushWorkflowTriggerSource schema => PushWorkflowTriggerSource (read_trees schema)
  | ScheduleWorkflowTriggerSource schedule => ScheduleWorkflowTriggerSource schedule
  | WebhookWorkflowTriggerSource c => WebhookWorkflowTriggerSource (read_container c)
  end.

(** The type of a source is read back from its variant, whatever it was. *)
Lemma json_source_roundtrip t v :
  source_text v →
  ∃ text, WorkflowTriggerSource_MarshalJSON (MkWorkflowTriggerSource t (Some v)) = Ok text
    ∧ WorkflowTriggerSource_UnmarshalJSON text
      = Ok (MkWorkflowTriggerSource (TriggerSourceType v) (Some (read_source v))).
Proof.
  intros Hv. unfold WorkflowTriggerSource_MarshalJSON. cbn [wts_Variant].
  set (l0 := [json_field "type" (TriggerSourceType v)]).
  assert (∃ l, source_fields v = Ok l ∧ fields_utf8 l ∧ assoc "type" l = None
    ∧ match v with
      | PushWorkflowTriggerSource m => trees_field (list_to_map (l0 ++ l)) "schema" = Ok (read_trees m)
      | ScheduleWorkflowTriggerSource s => struct_field (list_to_map (l0 ++ l)) "schedule" = Ok s
      | WebhookWorkflowTriggerSource c => container_of (list_to_map (l0 ++ l)) = Ok (read_container c)
      end) as (l & -> & Hu & Ht & Hr).
  { destruct v as [m|sch|c]; cbn in Hv.
    - destruct (trees_written json_marshal "schema" m eq_refl Hv) as (l & El & Hu & Ho & Hb).
      exists l. split_and!; [done|done|by apply Ho|]. apply Hb. by look.
    - exists (omit_empty "schedule" sch). split_and!; [done|by apply omit_utf8|by rewrite assoc_omit|].
      apply struct_field_assoc. look. destruct (String.eqb_spec sch ""); auto.
    - destruct (container_written c l0 Hv) as (l & El & Hu & Hc & Ho); [by repeat constructor|].
      exists l. split_and!; [done..| |done]. apply Ho. unfold container_keys. set_solver. }
  cbn [mbind outcome_bind]. eexists. split; [done|]. unfold WorkflowTriggerSource_UnmarshalJSON.
  change (json_field "type" (TriggerSourceType v) :: l) with (l0 ++ l).
  rewrite object_of_print.
  2:{ apply Forall_app_2; [|done]. repeat constructor. by destruct v. }
  cbn [mbind outcome_bind].
  rewrite (struct_field_assoc _ "type" (TriggerSourceType v)) by (by left).
  cbn [mbind outcome_bind]. destruct v; cbn [TriggerSourceType]; cbn -[l0 list_to_map app]; by rewrite Hr.
Qed.
End containers.

(** ** A step with a condition *)
Definition json_sample_step : WorkflowDataStep :=
  MkWorkflowDataStep "deploy" ["build"] (VSlice [fn_call "equals" [ref_parameter "env"; VString "prod"]])
    (ContainerWorkflowStep (MkContainerMixin "alpine"
       (Some {["token" := ref_secret "token"; "greeting" := fn_call "concat" [VString "hi "; ref_parameter "who"]]})
       "" ["echo hi"] "" [] false)).
#[local] Existing Instances forward_runtime sample_fmt tree_json tree_json_laws sample_markdown.

Lemma json_step_roundtrip_witness :
  ∃ text, WorkflowStep_MarshalJSON json_sample_step = Ok text
    ∧ WorkflowStep_UnmarshalJSON text
      = Ok (MkWorkflowDataStep "deploy" ["build"] VNil (Variant json_sample_step)).
Proof.
  apply (json_step_roundtrip json_sample_step). split; [done|by repeat constructor|].
  split; try done; [by repeat constructor|].
  intros m0 [= <-] k v Hk. apply lookup_insert_Some in Hk as [[<- <-]|[_ Hk]];
    [|apply lookup_singleton_Some in Hk as [<- <-]];
    (split; [reflexivity|split; [apply text_tree_expression; vm_compute; reflexivity|]]);
    eexists; vm_compute; reflexivity.
Defined.

(** ** Unstructured objects: the values that were put in, also after a round trip *)
Lemma insert_each_fmap {A B} (f : A → B) (m : gmap string A) :
  map_fold (λ k v out, <[k := f v]> out) ∅ m = f <$> m.
Proof.
  apply (map_fold_weak_ind (λ out m, out = f <$> m)); [by rewrite fmap_empty|].
  intros k x m' out Hk ->. by rewrite fmap_insert.
Qed.
Lemma unstructured_values m : UnstructuredObject_Value (NewUnstructuredObject m) = m.
Proof.
  etransitivity; [apply (insert_each_fmap Unstructured_Value)|]. unfold NewUnstructuredObject.
  etransitivity; [apply f_equal, (insert_each_fmap AsUnstructured)|].
  rewrite <- map_fmap_compose. apply map_fmap_id.
Qed.
Lemma unstructured_roundtrip `{JSONTextLaws} v :
  json_faithful v = true →
  ∃ j, Unstructured_MarshalJSON (AsUnstructured v) = Ok j
       ∧ Unstructured_UnmarshalJSON j = Ok (AsUnstructured v).
Proof.
  intros (j & Hj & _ & Hb)%ji_roundtrip. exists j. split; [done|].
  unfold Unstructured_UnmarshalJSON. by rewrite Hb.
Qed.

(** * Validation (pkg/util/typeutil, pkg/workflow/types/v1/validate.go)

    The schema and its library, and the two YAML libraries, are parameters. *)
Record FieldValidationError := MkFieldValidationError {
  FieldContext : string; Field : string; Description : string; Type_ : string }.

(** What the library reports: a result is valid without errors. *)
Record SchemaResult := MkSchemaResult { Errors_ : list FieldValidationError }.
Definition Valid (r : SchemaResult) : bool := match Errors_ r with [] => true | _ => false end.

Record VersionKind := MkVersionKind { APIVersion : string; Kind : string }.

Inductive typeutil_error : Type :=
| InvalidVersionKindError (expected got : VersionKind)
| ValidationError (fields : list FieldValidationError)
| ForeignError (message : string).

Definition FieldValidationError_Error (e : FieldValidationError) : string :=
  Field e +:+ ": " +:+ Description e.

Section messages.
Context `{GoFmt}.

Definition version_text (vk : VersionKind) : string :=
  "version " +:+ quote (APIVersion vk) +:+ " with kind " +:+ quote (Kind vk).
Definition typeutil_Error (e : typeutil_error) : string :=
  match e with
  | InvalidVersionKindError expected got =>
      "typeutil: expected " +:+ version_text expected
      +:+ (if String.eqb (APIVersion got) "" && String.eqb (Kind got) "" then ""
           else ", but got " +:+ version_text got)
  | ValidationError [] => "typeutil: general validation error"
  | ValidationError fields =>
      "typeutil: validation error:" +:+ String "010" "* "
      +:+ join (String "010" "* ") (FieldValidationError_Error <$> fields)
  | ForeignError message => message
  end.
End messages.

(** Errors about the schema's own combinators; another one says what is wrong. *)
Definition excludedResultErrorTypes : list string :=
  ["number_any_of"; "number_one_of"; "number_all_of"; "number_not"; "condition_then";
   "condition_else"].

Definition ValidationErrorFromResult (r : SchemaResult) : outcome typeutil_error unit :=
  if Valid r then Ok tt
  else Err (ValidationError (filter (λ e, Type_ e ∉ excludedResultErrorTypes) (Errors_ r))).

Section validation.
Context {Schema Document : Type}.
Context (yaml_Unmarshal : string → outcome string Document).
Context (json_Marshal : Document → outcome string string).
Context (Validate_ : Schema → string → outcome string SchemaResult).

Definition ValidateYAMLString (schema : Schema) (data : string) : outcome typeutil_error unit :=
  root ← map_err ForeignError (yaml_Unmarshal data);
  b ← map_err ForeignError (json_Marshal root);
  r ← map_err ForeignError (Validate_ schema b);
  ValidationErrorFromResult r.

(** A document is accepted when it is read and the schema has nothing against it; what the
    schema has against it is reported in its order, less what is said elsewhere. *)
Lemma ValidateYAMLString_spec schema data root b r :
  yaml_Unmarshal data = Ok root → json_Marshal root = Ok b → Validate_ schema b = Ok r →
  (ValidateYAMLString schema data = Ok tt ↔ Errors_ r = []) ∧
  ∀ fields, ValidateYAMLString schema data = Err (ValidationError fields) ↔
    Errors_ r ≠ [] ∧ fields = filter (λ e, Type_ e ∉ excludedResultErrorTypes) (Errors_ r).
Proof.
  intros Hy Hb Hr. unfold ValidateYAMLString. rewrite Hy. cbn. rewrite Hb. cbn. rewrite Hr. cbn.
  unfold ValidationErrorFromResult, Valid. destruct (Errors_ r) as [|e l]; naive_solver.
Qed.
End validation.

(** The YAML library's error of a value of another type than the field. *)
Inductive yaml_outcome : Type :=
| YAMLRead (vk : VersionKind)
| YAMLTypeError
| YAMLError (message : string).

(** [VersionKindExpectation.NewFromYAMLString]: what was read is what was expected. *)
Definition NewFromYAMLString (yaml : string → yaml_outcome) (expected : VersionKind) (data : string)
    : outcome typeutil_error VersionKind :=
  match yaml data with
  | YAMLTypeError => Err (InvalidVersionKindError expected (MkVersionKind "" ""))
  | YAMLError m => Err (ForeignError m)
  | YAMLRead vk =>
      if negb (String.eqb (APIVersion vk) (APIVersion expected))
         || negb (String.eqb (Kind vk) (Kind expected))
      then Err (InvalidVersionKindError expected vk) else Ok vk
  end.

Lemma NewFromYAMLString_Ok yaml expected data vk :
  NewFromYAMLString yaml expected data = Ok vk ↔ yaml data = YAMLRead expected ∧ vk = expected.
Proof.
  unfold NewFromYAMLString. destruct (yaml data) as [got| |]; [|naive_solver..].
  destruct got as [v k], expected as [v' k']. cbn.
  destruct (String.eqb_spec v v'), (String.eqb_spec k k'); cbn; naive_solver.
Qed.
