(* ===== verification/NetworkPolicy.v ===== *)
(** * Network policies (pkg/obj/networkpolicy.go)

    The policies of tenants, runs and triggers: a tenant's pods have no traffic at all, and
    the pods of a run or a trigger may reach the metadata API and the public internet. *)
From S2P Require Import Prelude GoStd GoStrings Values Errors Model ObjUtil KubeObjects.

(** ** The fields of [networkingv1.NetworkPolicySpec] the code sets *)
Notation LabelSelector := (gmap string string).
Record IPBlock := MkIPBlock { CIDR : string; Except : list string }.

(** A peer is a block of addresses, or the pods a selector picks in the namespaces another
    does; [None] is a nil selector. *)
Inductive NetworkPolicyPeer : Type :=
| PeerIPBlock (b : IPBlock)
| PeerSelectors (namespaces pods : option LabelSelector).

Record NetworkPolicyRule := MkRule { Peers : list NetworkPolicyPeer; Ports : list (string * Z) }.

Record NetworkPolicySpec := MkNetworkPolicySpec {
  PodSelector : LabelSelector; PolicyTypes : list string;
  Ingress : list NetworkPolicyRule; Egress : list NetworkPolicyRule }.

Definition zero_policy : NetworkPolicySpec := MkNetworkPolicySpec ∅ [] [] [].
Definition NewNetworkPolicy (key : ObjectKey) : Keyed NetworkPolicySpec :=
  (key, MkKube zero_meta zero_policy).

Definition PolicyTypeIngress : string := "Ingress".
Definition PolicyTypeEgress : string := "Egress".
Definition ProtocolTCP : string := "TCP".

Definition DefaultNetworkPolicyDeniedIPBlocks : list string :=
  ["0.0.0.0/8"; "10.0.0.0/8"; "100.64.0.0/10"; "169.254.0.0/16"; "172.16.0.0/12"; "192.0.0.0/24";
   "192.0.2.0/24"; "192.31.196.0/24"; "192.52.193.0/24"; "192.168.0.0/16"; "192.175.48.0/24";
   "198.18.0.0/15"; "198.51.100.0/24"; "203.0.113.0/24"; "240.0.0.0/4"].

(** ** Options *)
Record networkPolicyOptions := MkNetworkPolicyOptions {
  deniedIPBlocks : list string;
  systemNamespaceSelector : LabelSelector;
  metadataAPIPodSelector : LabelSelector;
  metadataAPIPort : Z }.

Definition NetworkPolicyOption : Type := networkPolicyOptions → networkPolicyOptions.

Definition NetworkPolicyWithDeniedIPBlocks (blocks : list string) : NetworkPolicyOption := λ o,
  MkNetworkPolicyOptions blocks (systemNamespaceSelector o) (metadataAPIPodSelector o)
    (metadataAPIPort o).
Definition NetworkPolicyWithSystemNamespaceSelector (selector : LabelSelector)
    : NetworkPolicyOption := λ o,
  MkNetworkPolicyOptions (deniedIPBlocks o) selector (metadataAPIPodSelector o) (metadataAPIPort o).
Definition NetworkPolicyWithMetadataAPIPodSelector (selector : LabelSelector)
    : NetworkPolicyOption := λ o,
  MkNetworkPolicyOptions (deniedIPBlocks o) (systemNamespaceSelector o) selector (metadataAPIPort o).
Definition NetworkPolicyWithMetadataAPIPort (port : Z) : NetworkPolicyOption := λ o,
  MkNetworkPolicyOptions (deniedIPBlocks o) (systemNamespaceSelector o) (metadataAPIPodSelector o)
    port.

Definition default_options : networkPolicyOptions :=
  MkNetworkPolicyOptions DefaultNetworkPolicyDeniedIPBlocks
    {["nebula.puppet.com/network-policy.tasks" := "true"]}
    (<["app.kubernetes.io/name" := "nebula-system"]>
      {["app.kubernetes.io/component" := "metadata-api"]})
    7000.

Definition baseTenantWorkloadNetworkPolicySpec (podSelector : LabelSelector)
    (opts : list NetworkPolicyOption) : NetworkPolicySpec :=
  let npo := foldl (λ o opt, opt o) default_options opts in
  MkNetworkPolicySpec podSelector [PolicyTypeIngress; PolicyTypeEgress] []
    [MkRule [PeerIPBlock (MkIPBlock "0.0.0.0/0" (deniedIPBlocks npo))] [];
     MkRule [PeerSelectors (Some (systemNamespaceSelector npo)) (Some (metadataAPIPodSelector npo))]
       [(ProtocolTCP, metadataAPIPort npo)]].

(** ** The three policies *)
Definition with_policy (spec : NetworkPolicySpec) (np : Keyed NetworkPolicySpec)
    : Keyed NetworkPolicySpec := (np.1, with_Spec spec np.2).

Definition ConfigureNetworkPolicyForTenant : Keyed NetworkPolicySpec → Keyed NetworkPolicySpec :=
  with_policy (MkNetworkPolicySpec ∅ [PolicyTypeIngress; PolicyTypeEgress] [] []).

Definition RelayControllerWorkflowRunIDLabel : string := "controller.relay.sh/run-id".
Definition RelayControllerWebhookTriggerIDLabel : string := "controller.relay.sh/webhook-trigger-id".

(** [PodSelector] of a run and of a trigger, by the name of the object. *)
Definition WorkflowRun_PodSelector (name : string) : LabelSelector :=
  {[RelayControllerWorkflowRunIDLabel := name]}.
Definition WebhookTrigger_PodSelector (name : string) : LabelSelector :=
  {[RelayControllerWebhookTriggerIDLabel := name]}.

Definition ConfigureNetworkPolicyForWorkflowRun (name : string) (opts : list NetworkPolicyOption)
    : Keyed NetworkPolicySpec → Keyed NetworkPolicySpec :=
  with_policy (baseTenantWorkloadNetworkPolicySpec (WorkflowRun_PodSelector name) opts).

Definition webhook_gateway : LabelSelector :=
  {["nebula.puppet.com/network-policy.webhook-gateway" := "true"]}.

Definition ConfigureNetworkPolicyForWebhookTrigger (name : string) (opts : list NetworkPolicyOption)
    : Keyed NetworkPolicySpec → Keyed NetworkPolicySpec :=
  let base := baseTenantWorkloadNetworkPolicySpec (WebhookTrigger_PodSelector name) opts in
  with_policy (MkNetworkPolicySpec (PodSelector base) (PolicyTypes base)
    (Ingress base ++ [MkRule [PeerSelectors (Some webhook_gateway) None] []]) (Egress base)).

(** * What the network policies let through

    The meaning of a policy is the documented one of Kubernetes: a pod that some policy
    selects for a direction has only the traffic that one of those policies allows. *)
Local Open Scope Z_scope.

(** ** Addresses *)
Definition octets (a b c d : Z) : Z := ((a * 256 + b) * 256 + c) * 256 + d.

Definition digit (c : ascii) : option Z :=
  let n := Z.of_nat (nat_of_ascii c) - 48 in
  if (0 <=? n) && (n <=? 9) then Some n else None.
Fixpoint decimal_from (acc : Z) (s : string) : option Z :=
  match s with
  | EmptyString => Some acc
  | String c s' => n ← digit c; decimal_from (acc * 10 + n) s'
  end.
Definition decimal : string → option Z := decimal_from 0.

(** The first address of a block and the number of addresses. *)
Definition parse_cidr (s : string) : option (Z * Z) :=
  match split_on "/"%char s with
  | [ip; len] =>
      match split_on "."%char ip with
      | [a; b; c; d] =>
          a ← decimal a; b ← decimal b; c ← decimal c; d ← decimal d; l ← decimal len;
          Some (octets a b c d, 2 ^ (32 - l))
      | _ => None
      end
  | _ => None
  end.

(** The addresses with the prefix of the block. *)
Definition in_cidr (s : string) (addr : Z) : bool :=
  match parse_cidr s with
  | Some (first, n) => addr / n =? first / n
  | None => false
  end.

(** ** Traffic *)
Inductive endpoint : Type :=
| Address (addr : Z)
| Pod (namespace_labels pod_labels : gmap string string).

Definition selects (s : LabelSelector) (labels : gmap string string) : bool :=
  bool_decide (s ⊆ labels).
Definition selects_opt (s : option LabelSelector) (labels : gmap string string) : bool :=
  match s with Some s => selects s labels | None => true end.

Definition peer_matches (p : NetworkPolicyPeer) (e : endpoint) : bool :=
  match p, e with
  | PeerIPBlock b, Address a => in_cidr (CIDR b) a && negb (existsb (λ s, in_cidr s a) (Except b))
  | PeerSelectors ns pod, Pod nl pl => selects_opt ns nl && selects_opt pod pl
  | _, _ => false
  end.

(** A rule without peers, or without ports, allows them all. *)
Definition rule_allows (r : NetworkPolicyRule) (e : endpoint) (port : string * Z) : bool :=
  (match Peers r with [] => true | l => existsb (λ p, peer_matches p e) l end)
  && (match Ports r with [] => true | l => bool_decide (port ∈ l) end).

Inductive direction : Type := In | Out.
Definition policy_type (d : direction) : string := match d with In => "Ingress" | Out => "Egress" end.
Definition policy_rules (d : direction) (s : NetworkPolicySpec) : list NetworkPolicyRule :=
  match d with In => Ingress s | Out => Egress s end.

(** The traffic of a pod with those labels under the policies of its namespace. *)
Definition allowed (policies : list NetworkPolicySpec) (labels : gmap string string) (d : direction)
    (e : endpoint) (port : string * Z) : bool :=
  let mine := filter (λ s, selects (PodSelector s) labels
                           && bool_decide (policy_type d ∈ PolicyTypes s)) policies in
  match mine with
  | [] => true
  | _ => existsb (λ s, existsb (λ r, rule_allows r e port) (policy_rules d s)) mine
  end.

(** ** Blocks are intervals *)
Lemma in_cidr_interval s first n addr :
  parse_cidr s = Some (first, n) → 0 < n → first mod n = 0 →
  in_cidr s addr = true ↔ first ≤ addr < first + n.
Proof.
  intros Hp Hn Hm. unfold in_cidr. rewrite Hp, Z.eqb_eq.
  pose proof (Z.div_mod first n). pose proof (Z.div_mod addr n).
  pose proof (Z.mod_pos_bound addr n Hn). split; [intros He; nia|].
  intros [Hlo Hhi]. assert (addr / n = first / n) as ->; [|done].
  symmetry. apply (Z.div_unique_pos addr n (first / n) (addr - first)); nia.
Qed.

(** The private and special-purpose addresses, as intervals. *)
Definition special : list (Z * Z) :=
  [(octets 0 0 0 0, octets 0 255 255 255); (octets 10 0 0 0, octets 10 255 255 255);
   (octets 100 64 0 0, octets 100 127 255 255); (octets 169 254 0 0, octets 169 254 255 255);
   (octets 172 16 0 0, octets 172 31 255 255); (octets 192 0 0 0, octets 192 0 0 255);
   (octets 192 0 2 0, octets 192 0 2 255); (octets 192 31 196 0, octets 192 31 196 255);
   (octets 192 52 193 0, octets 192 52 193 255); (octets 192 168 0 0, octets 192 168 255 255);
   (octets 192 175 48 0, octets 192 175 48 255); (octets 198 18 0 0, octets 198 19 255 255);
   (octets 198 51 100 0, octets 198 51 100 255); (octets 203 0 113 0, octets 203 0 113 255);
   (octets 240 0 0 0, octets 255 255 255 255)].
Definition is_special (addr : Z) : Prop := ∃ a b, (a, b) ∈ special ∧ a ≤ addr ≤ b.

Definition interval_of (s : string) (ab : Z * Z) : Prop :=
  parse_cidr s = Some (ab.1, ab.2 - ab.1 + 1) ∧ 0 < ab.2 - ab.1 + 1
  ∧ ab.1 mod (ab.2 - ab.1 + 1) = 0.

Lemma denied_intervals : Forall2 interval_of DefaultNetworkPolicyDeniedIPBlocks special.
Proof. repeat constructor; vm_compute; done. Qed.

Lemma denied_special addr :
  existsb (λ s, in_cidr s addr) DefaultNetworkPolicyDeniedIPBlocks = true ↔ is_special addr.
Proof.
  unfold is_special. generalize denied_intervals.
  generalize DefaultNetworkPolicyDeniedIPBlocks, special. intros bs sp Hf.
  induction Hf as [|s [a b] bs sp (Hp & Hn & Hm) _ IH].
  - split; [done|]. by intros (? & ? & ?%elem_of_nil & _).
  - cbn [existsb]. rewrite orb_true_iff, IH, (in_cidr_interval s _ _ addr Hp Hn Hm). cbn [fst snd] in *.
    setoid_rewrite elem_of_cons. split.
    + intros [Hi|(x & y & Hin & Hi)]; [|by eauto 6]. exists a, b. split; [by left|lia].
    + intros (x & y & [[= -> ->]|Hin] & Hi); [left; lia|right; eauto].
Qed.

Lemma everything addr : 0 ≤ addr < 2 ^ 32 → in_cidr "0.0.0.0/0" addr = true.
Proof.
  intros Ha. apply (in_cidr_interval "0.0.0.0/0" 0 (2 ^ 32)); [by vm_compute|lia|done|lia].
Qed.

(** ** The policies of a tenant's namespace *)
Definition spec_of (configure : Keyed NetworkPolicySpec → Keyed NetworkPolicySpec) (key : ObjectKey)
    : NetworkPolicySpec := Kube_Spec (configure (NewNetworkPolicy key)).2.

Definition namespace_policies (ns : string) (runs triggers : list string) : list NetworkPolicySpec :=
  spec_of ConfigureNetworkPolicyForTenant (ns, "tenant")
  :: ((λ n, spec_of (ConfigureNetworkPolicyForWorkflowRun n []) (ns, n)) <$> runs)
  ++ ((λ n, spec_of (ConfigureNetworkPolicyForWebhookTrigger n []) (ns, n)) <$> triggers).

(** A pod that a policy of one of these runs, or triggers, selects. *)
Definition labelled (label : string) (names : list string) (labels : gmap string string) : Prop :=
  ∃ n, n ∈ names ∧ labels !! label = Some n.

Lemma selects_singleton k v labels : selects {[k := v]} labels = true ↔ labels !! k = Some v.
Proof. unfold selects. by rewrite bool_decide_eq_true, map_singleton_subseteq_l. Qed.

Lemma existsb_elem {A} (p : A → bool) l : existsb p l = true ↔ ∃ x, x ∈ l ∧ p x = true.
Proof. rewrite existsb_exists. by setoid_rewrite <- list_elem_of_In. Qed.

(** Traffic is allowed by a policy that selects the pod, in a namespace where the tenant's
    policy selects them all. *)
Lemma allowed_iff ns runs triggers labels d e port :
  allowed (namespace_policies ns runs triggers) labels d e port = true ↔
  ∃ s r, s ∈ namespace_policies ns runs triggers ∧ selects (PodSelector s) labels = true
    ∧ policy_type d ∈ PolicyTypes s ∧ r ∈ policy_rules d s ∧ rule_allows r e port = true.
Proof.
  unfold allowed.
  set (p := λ s, selects (PodSelector s) labels && bool_decide (policy_type d ∈ PolicyTypes s)).
  assert (Hne : filter p (namespace_policies ns runs triggers) ≠ []).
  { unfold namespace_policies. rewrite filter_cons_True; [done|]. unfold p.
    destruct d; unfold selects; cbn; rewrite bool_decide_eq_true_2 by apply map_empty_subseteq; done. }
  assert (Hx : ∀ (l : list NetworkPolicySpec) (b : bool), l ≠ [] → match l with [] => true | _ => b end = b)
    by (by intros []).
  cbv zeta. rewrite Hx by exact Hne. clear Hx Hne.
  rewrite existsb_elem. setoid_rewrite existsb_elem. setoid_rewrite list_elem_of_filter.
  unfold p. split.
  - intros (s & [Hp Hs] & r & Hr & Ha). apply andb_prop_elim in Hp as [H1 H2].
    exists s, r. split_and!; try done; [by apply Is_true_eq_true|].
    eapply bool_decide_unpack, H2.
  - intros (s & r & Hs & H1 & H2 & Hr & Ha). exists s. split; [split; [|done]|by exists r].
    apply andb_prop_intro. split; [by apply Is_true_eq_left|by apply bool_decide_pack].
Qed.

(** The policy of a run, and of a trigger. *)
Lemma in_policies s ns runs triggers :
  s ∈ namespace_policies ns runs triggers ↔
  s = spec_of ConfigureNetworkPolicyForTenant (ns, "tenant")
  ∨ (∃ n, n ∈ runs ∧ s = spec_of (ConfigureNetworkPolicyForWorkflowRun n []) (ns, n))
  ∨ (∃ n, n ∈ triggers ∧ s = spec_of (ConfigureNetworkPolicyForWebhookTrigger n []) (ns, n)).
Proof.
  unfold namespace_policies. rewrite elem_of_cons, elem_of_app, !list_elem_of_fmap.
  f_equiv. f_equiv; f_equiv; intros n; tauto.
Qed.

Definition metadata_api (e : endpoint) : Prop :=
  match e with
  | Pod nl pl => systemNamespaceSelector default_options ⊆ nl ∧ metadataAPIPodSelector default_options ⊆ pl
  | Address _ => False
  end.
Definition public (e : endpoint) : Prop :=
  match e with Address a => ¬ is_special a | Pod _ _ => False end.
Definition gateway (e : endpoint) : Prop :=
  match e with Pod nl _ => webhook_gateway ⊆ nl | Address _ => False end.
Definition real (e : endpoint) : Prop :=
  match e with Address a => 0 ≤ a < 2 ^ 32 | Pod _ _ => True end.

Definition workload_rules : list NetworkPolicyRule :=
  Egress (baseTenantWorkloadNetworkPolicySpec ∅ []).

Lemma workload_egress e port :
  real e →
  (∃ r, r ∈ workload_rules ∧ rule_allows r e port = true) ↔
  public e ∨ (metadata_api e ∧ port = ("TCP", 7000)).
Proof.
  intros He. unfold workload_rules. cbn [Egress baseTenantWorkloadNetworkPolicySpec foldl].
  setoid_rewrite elem_of_cons. setoid_rewrite list_elem_of_singleton.
  assert (H1 : rule_allows (MkRule [PeerIPBlock (MkIPBlock "0.0.0.0/0" (deniedIPBlocks default_options))] [])
    e port = true ↔ public e).
  { destruct e as [a|nl pl]; unfold rule_allows; cbn -[in_cidr DefaultNetworkPolicyDeniedIPBlocks]; [|done].
    rewrite everything by done. cbn [andb]. rewrite andb_true_r, orb_false_r, negb_true_iff,
      <- denied_special. by destruct (existsb _ _). }
  assert (H2 : rule_allows (MkRule [PeerSelectors (Some (systemNamespaceSelector default_options))
      (Some (metadataAPIPodSelector default_options))] [(ProtocolTCP, metadataAPIPort default_options)])
    e port = true ↔ metadata_api e ∧ port = ("TCP", 7000)).
  { destruct e as [a|nl pl]; unfold rule_allows; cbn -[systemNamespaceSelector metadataAPIPodSelector];
      [naive_solver|].
    rewrite orb_false_r, !andb_true_iff, bool_decide_eq_true, list_elem_of_singleton.
    unfold selects. by rewrite !bool_decide_eq_true. }
  split.
  - intros (r & [->| ->] & Hr); [left; by apply H1|right; by apply H2].
  - intros [Hp%H1|Hm%H2]; eexists; (split; [|eassumption]); [by left|by right].
Qed.

(** C25: The isolation of tenant workloads: under the policies of a tenant's namespace, a
    pod reaches something only if it belongs to a run or a trigger, and then exactly the
    addresses outside the private and special-purpose blocks, and the metadata API on its
    port; and a pod is reached only if it belongs to a trigger, and only from the namespaces
    of the webhook gateway. *)
Theorem workload_isolated ns runs triggers labels e port :
  real e →
  let policies := namespace_policies ns runs triggers in
  let of_run := labelled RelayControllerWorkflowRunIDLabel runs labels in
  let of_trigger := labelled RelayControllerWebhookTriggerIDLabel triggers labels in
  (allowed policies labels Out e port = true ↔
     (of_run ∨ of_trigger) ∧ (public e ∨ (metadata_api e ∧ port = ("TCP", 7000))))
  ∧ (allowed policies labels In e port = true ↔ of_trigger ∧ gateway e).
Proof.
  intros He. cbv zeta. rewrite !allowed_iff. setoid_rewrite in_policies.
  rewrite <- (workload_egress e port He). split.
  - split.
    + intros (s & r & [->|[(n & Hn & ->)|(n & Hn & ->)]] & Hs & _ & Hr & Ha);
        [by apply elem_of_nil in Hr|..]; apply selects_singleton in Hs;
        (split; [|by exists r]); [left|right]; by exists n.
    + intros [[(n & Hn & Hl)|(n & Hn & Hl)] (r & Hr & Ha)]; eexists; exists r.
      * split; [right; left; by exists n|]. split_and!; [by apply selects_singleton| |done..].
        right; left.
      * split; [right; right; by exists n|]. split_and!; [by apply selects_singleton| |done..].
        right; left.
  - split.
    + intros (s & r & [->|[(n & Hn & ->)|(n & Hn & ->)]] & Hs & _ & Hr & Ha);
        [by apply elem_of_nil in Hr..|]. apply selects_singleton in Hs. split; [by exists n|].
      apply list_elem_of_singleton in Hr as ->. unfold rule_allows in Ha. cbn in Ha.
      destruct e as [a|nl pl]; [done|]. cbn in Ha.
      rewrite !andb_true_r, orb_false_r in Ha. by apply bool_decide_eq_true in Ha.
    + intros [(n & Hn & Hl) Hg]. eexists; eexists. split; [right; right; by exists n|].
      split_and!; [by apply selects_singleton|left|left|].
      destruct e as [a|nl pl]; [done|]. unfold rule_allows. cbn.
      rewrite !andb_true_r, orb_false_r. by apply bool_decide_eq_true.
Qed.

Lemma workload_isolated_witness :
  allowed (namespace_policies "ns" ["r1"] ["t1"]) {[RelayControllerWorkflowRunIDLabel := "r1"]} Out
    (Address (octets 8 8 8 8)) ("TCP", 443) = true.
Proof.
  refine (proj2 (proj1 (workload_isolated "ns" ["r1"] ["t1"]
    {[RelayControllerWorkflowRunIDLabel := "r1"]} (Address (octets 8 8 8 8)) ("TCP", 443) _)) _).
  - unfold real, octets. lia.
  - split; [left; exists "r1"; split; [left|reflexivity]|].
    left. intros Hs. apply denied_special in Hs. vm_compute in Hs. discriminate Hs.
Defined.
