(* ===== verification/TenantDeps.v ===== *)
(** * Tenants and what they depend on (pkg/obj: tenant.go, tenantdeps.go)

    A tenant has a namespace of its own, with a network policy and a limit range, when its
    template names one, and else uses the namespace it is in. *)
From S2P Require Import Prelude GoStd GoStrings Values Errors Transfer Model ConfigMaps ObjUtil.
From S2P Require Import Workflow KubeObjects NetworkPolicy.

Definition TenantNamespaceReady : string := "NamespaceReady".
Definition TenantEventSinkReady : string := "EventSinkReady".
Definition TenantToolInjectionReady : string := "ToolInjectionReady".
Definition TenantReady : string := "Ready".

Definition TenantStatusReasonNamespaceReady : string := "NamespaceReady".
Definition TenantStatusReasonNamespaceError : string := "NamespaceError".
Definition TenantStatusReasonEventSinkMissing : string := "EventSinkMissing".
Definition TenantStatusReasonEventSinkNotConfigured : string := "EventSinkNotConfigured".
Definition TenantStatusReasonEventSinkReady : string := "EventSinkReady".
Definition TenantStatusReasonToolInjectionMissing : string := "ToolInjectionMissing".
Definition TenantStatusReasonToolInjectionError : string := "ToolInjectionError".
Definition TenantStatusReasonReady : string := "Ready".
Definition TenantStatusReasonError : string := "Error".

Definition RelayControllerTenantWorkloadLabel : string := "controller.relay.sh/tenant-workload".

(** ** Tenants *)
Record TenantStatus := MkTenantStatus {
  ObservedGeneration : Z; Status_Namespace : string;
  Status_Conditions : list (string * StatusCondition) }.

(** The claim template of the tool injection: what its specification asks for. *)
Record VolumeClaimSpec := MkVolumeClaimSpec {
  AccessModes : list string; Resources : gmap string string; StorageClassName : option string;
  VolumeName : string }.

Record TenantSpec := MkTenantSpec {
  Generation : Z;
  Template : ObjectMeta;
  EventSink : option APITriggerEventSink;
  VolumeClaimTemplate : option VolumeClaimSpec;
  Tenant_Status : TenantStatus }.

(** The key a tenant was asked for by, and the object. *)
Definition TenantObject : Type := Keyed TenantSpec.
Definition NewTenant (key : ObjectKey) : TenantObject :=
  (key, MkKube zero_meta (MkTenantSpec 0 zero_meta None None (MkTenantStatus 0 "" []))).

Definition tenant_meta (t : TenantObject) : ObjectMeta := Kube_Meta t.2.
Definition tenant_spec (t : TenantObject) : TenantSpec := Kube_Spec t.2.
Definition tenant_status (t : TenantObject) : TenantStatus := Tenant_Status (tenant_spec t).
Definition with_tenant_status (st : TenantStatus) (t : TenantObject) : TenantObject :=
  let s := tenant_spec t in
  (t.1, with_Spec (MkTenantSpec (Generation s) (Template s) (EventSink s) (VolumeClaimTemplate s) st)
          t.2).

#[export] Instance Keyed_finalizable {S} : Finalizable (Keyed S) := {|
  finalizing := λ t, Finalizing (Kube_Meta t.2);
  add_finalizer := λ t name,
    let '(added, m) := AddFinalizer (Kube_Meta t.2) name in (added, (t.1, with_Meta m t.2));
  remove_finalizer := λ t name,
    let '(removed, m) := RemoveFinalizer (Kube_Meta t.2) name in (removed, (t.1, with_Meta m t.2)) |}.

Definition Managed (t : TenantObject) : bool :=
  negb (String.eqb (Meta_Name (Template (tenant_spec t))) "").

(** The first condition of the type. *)
Definition Ready (t : TenantObject) : bool :=
  match find (λ c, String.eqb c.1 TenantReady) (Status_Conditions (tenant_status t)) with
  | Some c => bool_decide (Cond_Status c.2 = ConditionTrue)
  | None => false
  end.

Definition TenantOwner (t : TenantObject) : Owner := MkOwner TenantKind (tenant_meta t).

(** ** Dependencies *)
Record EventSinkObject := MkEventSinkObject {
  Sink : APITriggerEventSink; TokenSecret : option (Keyed SecretData) }.

Definition NewAPITriggerEventSink (namespace : string) (sink : APITriggerEventSink)
    : EventSinkObject :=
  MkEventSinkObject sink
    match Sink_TokenFrom sink with
    | Some (Some ref) => Some (NewOpaqueSecret (namespace, ref.1))
    | _ => None
    end.

Definition sink_URL (tes : EventSinkObject) : string := Sink_URL (Sink tes).

(** The key of the reference the secret was made from. *)
Definition sink_Token (tes : EventSinkObject) : option string :=
  if negb (String.eqb (Sink_Token (Sink tes)) "") then Some (Sink_Token (Sink tes))
  else
    match TokenSecret tes, Sink_TokenFrom (Sink tes) with
    | Some s, Some (Some ref) => OpaqueSecret_Data s ref.2
    | _, _ => None
    end.

Record TenantDeps := MkTenantDeps {
  Td_Tenant : TenantObject;
  StaleNamespace : option Namespace;
  Td_Namespace : Namespace;
  Td_NetworkPolicy : option (Keyed NetworkPolicySpec);
  Td_LimitRange : option (Keyed (option LimitRangeSpec));
  Td_EventSink : option EventSinkObject;
  Td_VolumeClaimTemplate : option VolumeClaimSpec }.

Definition with_stale (n : option Namespace) (td : TenantDeps) : TenantDeps :=
  MkTenantDeps (Td_Tenant td) n (Td_Namespace td) (Td_NetworkPolicy td) (Td_LimitRange td)
    (Td_EventSink td) (Td_VolumeClaimTemplate td).
Definition with_namespace (n : Namespace) (td : TenantDeps) : TenantDeps :=
  MkTenantDeps (Td_Tenant td) (StaleNamespace td) n (Td_NetworkPolicy td) (Td_LimitRange td)
    (Td_EventSink td) (Td_VolumeClaimTemplate td).
Definition with_network_policy (np : option (Keyed NetworkPolicySpec)) (td : TenantDeps) : TenantDeps :=
  MkTenantDeps (Td_Tenant td) (StaleNamespace td) (Td_Namespace td) np (Td_LimitRange td)
    (Td_EventSink td) (Td_VolumeClaimTemplate td).
Definition with_limit_range (lr : option (Keyed (option LimitRangeSpec))) (td : TenantDeps)
    : TenantDeps :=
  MkTenantDeps (Td_Tenant td) (StaleNamespace td) (Td_Namespace td) (Td_NetworkPolicy td) lr
    (Td_EventSink td) (Td_VolumeClaimTemplate td).
Definition with_event_sink (s : option EventSinkObject) (td : TenantDeps) : TenantDeps :=
  MkTenantDeps (Td_Tenant td) (StaleNamespace td) (Td_Namespace td) (Td_NetworkPolicy td)
    (Td_LimitRange td) s (Td_VolumeClaimTemplate td).

(** The objects of a managed tenant have its name in its namespace. *)
Definition NewTenantDeps (t : TenantObject) : TenantDeps :=
  let spec := tenant_spec t in
  let sink := NewAPITriggerEventSink t.1.1 <$> EventSink spec in
  if Managed t then
    let ns := Meta_Name (Template spec) in
    MkTenantDeps t None (NewNamespace ns) (Some (NewNetworkPolicy (ns, t.1.2)))
      (Some (NewLimitRange (ns, t.1.2))) sink (VolumeClaimTemplate spec)
  else MkTenantDeps t None (NewNamespace t.1.1) None None sink (VolumeClaimTemplate spec).

(** The clients of the kinds of objects. *)
Record Clients (W : Type) := MkClients {
  namespaces : ObjectClient W unit;
  network_policies : ObjectClient W NetworkPolicySpec;
  limit_ranges : ObjectClient W (option LimitRangeSpec);
  secrets : ObjectClient W SecretData;
  tenants : ObjectClient W TenantSpec;
  tenants_StatusUpdate : Kube TenantSpec → io W (Kube TenantSpec) }.
Arguments namespaces {W}. Arguments network_policies {W}. Arguments limit_ranges {W}.
Arguments secrets {W}. Arguments tenants {W}. Arguments tenants_StatusUpdate {W}.

Section deps.
Context {W : Type} `{JSONText} (cl : Clients W).

Notation loader := (Loader W TenantDeps).
Notation persister := (Persister W TenantDeps).

Definition Tenant_Load (t : TenantObject) : io W (bool * TenantObject) := Keyed_Load (tenants cl) t.
Definition Tenant_Persist (t : TenantObject) : io W TenantObject :=
  '(_, t) ← Keyed_Persist (tenants cl) t; mret t.
Definition Tenant_PersistStatus (t : TenantObject) : io W TenantObject :=
  o ← tenants_StatusUpdate cl t.2; mret (t.1, o).

(** *** Loading *)
Definition EventSink_Load (tes : EventSinkObject) : io W (bool * EventSinkObject) :=
  match TokenSecret tes with
  | None => mret (true, tes)
  | Some s => '(ok, s) ← OpaqueSecret_Load (secrets cl) s; mret (ok, MkEventSinkObject (Sink tes) (Some s))
  end.

Definition load_event_sink : loader :=
  unless_nil true Td_EventSink (λ s, on (λ _, s) (λ s, with_event_sink (Some s)) EventSink_Load).
Definition load_namespace : loader := on Td_Namespace with_namespace (Namespace_Load (namespaces cl)).
Definition load_network_policy : loader :=
  unless_nil true Td_NetworkPolicy (λ np, on (λ _, np) (λ np, with_network_policy (Some np))
    (Keyed_Load (network_policies cl))).
Definition load_limit_range : loader :=
  unless_nil true Td_LimitRange (λ lr, on (λ _, lr) (λ lr, with_limit_range (Some lr))
    (Keyed_Load (limit_ranges cl))).
Definition load_stale : loader :=
  unless_nil true StaleNamespace (λ n, on (λ _, n) (λ n, with_stale (Some n))
    (Namespace_Load (namespaces cl))).

(** A namespace the tenant had and has no more. *)
Definition stale_namespace (td : TenantDeps) : option Namespace :=
  let ns := Status_Namespace (tenant_status (Td_Tenant td)) in
  if negb (String.eqb ns "") && negb (String.eqb ns (Td_Tenant td).1.1)
     && negb (String.eqb ns (Td_Namespace td).1)
  then Some (NewNamespace ns) else None.

Definition TenantDeps_Load : loader := λ '(w, td),
  let stale := stale_namespace td in
  let td := match stale with Some n => with_stale (Some n) td | None => td end in
  Loaders_Load
    (load_event_sink
     :: (if Managed (Td_Tenant td) then [load_namespace; load_network_policy; load_limit_range]
         else [RequiredLoader load_namespace])
     ++ match stale with Some _ => [load_stale] | None => [] end) (w, td).

(** *** Persisting: only the objects of a managed tenant *)
Definition persist_namespace : persister := on Td_Namespace with_namespace (Namespace_Persist (namespaces cl)).
Definition nil_pointer {A} : io (W * TenantDeps) A :=
  lift (Panic "invalid memory address or nil pointer dereference").
Definition persist_network_policy : persister := λ '(w, td),
  match Td_NetworkPolicy td with
  | Some np => on (λ _, np) (λ np, with_network_policy (Some np))
                 (Keyed_Persist (network_policies cl)) (w, td)
  | None => nil_pointer (w, td)
  end.
Definition persist_limit_range : persister := λ '(w, td),
  match Td_LimitRange td with
  | Some lr => on (λ _, lr) (λ lr, with_limit_range (Some lr))
                 (Keyed_Persist (limit_ranges cl)) (w, td)
  | None => nil_pointer (w, td)
  end.

Definition TenantDeps_Persist : persister := λ '(w, td),
  if negb (Managed (Td_Tenant td)) then (Ok tt, (w, td))
  else Persist_all [persist_namespace; persist_network_policy; persist_limit_range] (w, td).

(** *** Deleting: only a namespace that names the tenant as what it depends on *)
Definition delete_dependency (td : TenantDeps) (n : Namespace) : io W bool :=
  ok ← lift (IsDependencyOf (Namespace_Object n) (TenantOwner (Td_Tenant td)));
  if (ok : bool) then Namespace_Delete (namespaces cl) n else mret true.

Definition DeleteStale (td : TenantDeps) : io W bool :=
  match StaleNamespace td with
  | None => mret true
  | Some n => if String.eqb (Meta_UID (Namespace_Object n)) "" then mret true
              else delete_dependency td n
  end.

Definition TenantDeps_Delete (td : TenantDeps) : io W bool :=
  _ ← DeleteStale td;
  if negb (Managed (Td_Tenant td)) then mret true
  else if String.eqb (Meta_UID (Namespace_Object (Td_Namespace td))) "" then mret true
  else delete_dependency td (Td_Namespace td).

(** *** Configuring *)
Definition on_meta {S} (f : ObjectMeta → ObjectMeta) (o : Keyed S) : Keyed S :=
  (o.1, with_Meta (f (Kube_Meta o.2)) o.2).
Definition on_namespace (f : ObjectMeta → ObjectMeta) (n : Namespace) : Namespace :=
  (n.1, with_Meta (f (Namespace_Object n)) n.2).

(** The limit range is not given the annotation. *)
Definition ConfigureTenantDeps (td : TenantDeps) : TenantDeps :=
  if negb (Managed (Td_Tenant td)) then td
  else
    let owner := TenantOwner (Td_Tenant td) in
    let template := Template (tenant_spec (Td_Tenant td)) in
    let td := with_namespace (on_namespace (λ m,
                CopyLabelsAndAnnotations
                  (Label (SetDependencyOf m owner) RelayControllerTenantWorkloadLabel "true").2
                  template) (Td_Namespace td)) td in
    let td := with_network_policy ((λ np, ConfigureNetworkPolicyForTenant
                (on_meta (λ m, SetDependencyOf m owner) np)) <$> Td_NetworkPolicy td) td in
    with_limit_range (ConfigureLimitRange [] <$> Td_LimitRange td) td.

Definition ApplyTenantDeps (t : TenantObject) : io W TenantDeps := λ w,
  match TenantDeps_Load (w, NewTenantDeps t) with
  | (Ok _, (w, td)) =>
      match TenantDeps_Persist (w, ConfigureTenantDeps td) with
      | (Ok _, (w, td)) => (Ok td, w)
      | (Err e, (w, _)) => (Err e, w)
      | (Panic s, (w, _)) => (Panic s, w)
      end
  | (Err e, (w, _)) => (Err e, w)
  | (Panic s, (w, _)) => (Panic s, w)
  end.
End deps.

(** ** The status of a tenant *)
Inductive JobConditionType : Type := JobComplete | JobFailed | JobOther (s : string).
Record JobCondition := MkJobCondition { Job_Type : JobConditionType; Job_Status : ConditionStatus }.

Record TenantDepsResult := MkTenantDepsResult {
  Result_TenantDeps : option TenantDeps; Result_Error : option error }.
Definition AsTenantDepsResult (td : option TenantDeps) (err : option error) : TenantDepsResult :=
  MkTenantDepsResult td err.

(** The flags of the job, which later conditions of a type overwrite. *)
Definition job_flags (flags : bool * bool) (cond : JobCondition) : bool * bool :=
  match Job_Type cond, Job_Status cond with
  | JobComplete, ConditionTrue => (true, flags.2)
  | JobComplete, ConditionFalse => (false, flags.2)
  | JobFailed, ConditionTrue => (flags.1, true)
  | JobFailed, ConditionFalse => (flags.1, false)
  | _, _ => flags
  end.

Definition condition (st : ConditionStatus) (reason message : string) : StatusCondition :=
  MkStatusCondition st reason message None.
Definition unknown_condition : StatusCondition := condition ConditionUnknown "" "".

Section status.
Context `{GoFmt}.

Definition namespace_condition (td : TenantDepsResult) : StatusCondition :=
  match Result_Error td with
  | Some e => condition ConditionFalse TenantStatusReasonNamespaceError (Error e)
  | None =>
      match Result_TenantDeps td with
      | Some _ => condition ConditionTrue TenantStatusReasonNamespaceReady
                    "The tenant namespace is ready."
      | None => unknown_condition
      end
  end.

Definition event_sink_condition (td : TenantDepsResult) : StatusCondition :=
  match Result_TenantDeps td with
  | None => unknown_condition
  | Some deps =>
      match Td_EventSink deps with
      | Some sink =>
          if String.eqb (sink_URL sink) "" then
            condition ConditionFalse TenantStatusReasonEventSinkNotConfigured
              "The API trigger event sink is missing an endpoint URL."
          else
            match sink_Token sink with
            | None => condition ConditionFalse TenantStatusReasonEventSinkNotConfigured
                        "The API trigger event sink is missing a token."
            | Some _ => condition ConditionTrue TenantStatusReasonEventSinkReady
                          "The event sink is ready."
            end
      | None => condition ConditionTrue TenantStatusReasonEventSinkMissing
                  "The tenant does not have an event sink defined."
      end
  end.

(** A job that failed and is not complete leaves the condition unknown. *)
Definition tool_injection_condition (td : TenantDepsResult) (jcs : list JobCondition)
    : StatusCondition :=
  match Result_TenantDeps td with
  | None => unknown_condition
  | Some deps =>
      match Td_VolumeClaimTemplate deps with
      | Some _ =>
          let '(complete, failed) := foldl job_flags (false, false) jcs in
          if complete : bool then
            if failed : bool then
              condition ConditionFalse TenantStatusReasonToolInjectionError
                "Error processing tool injection."
            else condition ConditionTrue "" ""
          else unknown_condition
      | None => condition ConditionTrue TenantStatusReasonToolInjectionMissing
                  "The tenant does not have a tool injection defined."
      end
  end.

Definition ready_condition (conds : list StatusCondition) : StatusCondition :=
  match AggregateStatusConditions conds with
  | ConditionTrue => condition ConditionTrue TenantStatusReasonReady "The tenant is configured."
  | ConditionFalse => condition ConditionFalse TenantStatusReasonError
                        "One or more tenant components failed."
  | _ => unknown_condition
  end.

(** The conditions of the status, by type. *)
Record TenantConditions := MkTenantConditions {
  c_namespace : StatusCondition; c_event_sink : StatusCondition;
  c_tool_injection : StatusCondition; c_ready : StatusCondition }.
Definition zero_condition : StatusCondition := condition (ConditionOther "") "" "".

(** [*conds[cond.Type] = cond.Condition]: a type that is not in the map is a nil pointer. *)
Definition set_condition (conds : TenantConditions) (c : string * StatusCondition)
    : outcome error TenantConditions :=
  let '(ty, v) := c in
  let '(MkTenantConditions n e t r) := conds in
  if String.eqb ty TenantNamespaceReady then Ok (MkTenantConditions v e t r)
  else if String.eqb ty TenantEventSinkReady then Ok (MkTenantConditions n v t r)
  else if String.eqb ty TenantToolInjectionReady then Ok (MkTenantConditions n e v r)
  else if String.eqb ty TenantReady then Ok (MkTenantConditions n e t v)
  else Panic "invalid memory address or nil pointer dereference".

(** [UpdateStatusConditionIfTransitioned] on a condition that is there. *)
Definition transition (now : Z) (target nc : StatusCondition) : StatusCondition :=
  default target (UpdateStatusConditionIfTransitioned now (Some target) (λ _, nc)).

Definition ConfigureTenant (now : Z) (t : TenantObject) (td : TenantDepsResult)
    (jcs : list JobCondition) : outcome error TenantObject :=
  conds ← fold_outcome set_condition
            (MkTenantConditions zero_condition zero_condition zero_condition zero_condition)
            (Status_Conditions (tenant_status t));
  let n := transition now (c_namespace conds) (namespace_condition td) in
  let e := transition now (c_event_sink conds) (event_sink_condition td) in
  let ti := transition now (c_tool_injection conds) (tool_injection_condition td jcs) in
  let r := transition now (c_ready conds) (ready_condition [n; e; ti]) in
  match Result_TenantDeps td with
  | None => Panic "invalid memory address or nil pointer dereference"
  | Some deps =>
      Ok (with_tenant_status
            (MkTenantStatus (Generation (tenant_spec t)) (Td_Namespace deps).1
               [(TenantNamespaceReady, n); (TenantEventSinkReady, e);
                (TenantToolInjectionReady, ti); (TenantReady, r)]) t)
  end.
End status.
