(* ===== verification/TenantReconcile.v ===== *)
(** * The tenant reconciler (pkg/reconciler/tenant)

    A reconciliation loads a tenant and what it depends on, deletes what is stale, writes
    the rest and the tenant's status, and fills the volume of the tool injection. *)
From S2P Require Import Prelude GoStd GoStrings Values Errors Transfer Model ConfigMaps ObjUtil.
From S2P Require Import Workflow KubeObjects NetworkPolicy TenantDeps ErrMark.

Definition FinalizerName : string := "tenant.finalizers.controller.relay.sh".
Definition DefaultToolInjectionImage : string := "relaysh/relay-runtime-tools".
Definition ToolInjectionImagePath : string := "/relay/runtime/tools/.".
Definition ToolInjectionMountName : string := "relay-runtime-tools".
Definition ToolInjectionMountPath : string := "/var/lib/puppet/relay/".
Definition ToolInjectionVolumeClaimSuffixReadOnlyMany : string := "-volume-rox".
Definition ToolInjectionVolumeClaimSuffixReadWriteOnce : string := "-volume-rwo".

Definition ReadWriteOnce : string := "ReadWriteOnce".
Definition ReadOnlyMany : string := "ReadOnlyMany".
Definition ClaimBound : string := "Bound".

(** ** Volumes and jobs *)
Record PersistentVolumeClaim := MkClaim { Claim_Spec : VolumeClaimSpec; Phase : string }.
Record PersistentVolume := MkVolume {
  Volume_AccessModes : list string; Capacity : gmap string string; Volume_StorageClassName : string;
  GCEPersistentDisk : option string; HostPath : option string }.
Definition zero_volume : PersistentVolume := MkVolume [] ∅ "" None None.
Definition zero_claim : PersistentVolumeClaim := MkClaim (MkVolumeClaimSpec [] ∅ None "") "".

(** The pod of the job: one container that copies the tools, with the volume of a claim. *)
Record ToolPod := MkToolPod {
  Pod_Image : string; Pod_Command : list string; Pod_Args : list string;
  Pod_Mount : string * string; Pod_ClaimName : string; RestartPolicy : string }.
Record JobSpec := MkJobSpec {
  Job_Pod : option ToolPod; BackoffLimit : Z; Completions : Z; Parallelism : Z }.
Record Job := MkJob { Job_Spec : JobSpec; Job_Conditions : list JobCondition }.
Definition zero_job : Job := MkJob (MkJobSpec None 0 0 0) [].

Record VolumeClients (W : Type) := MkVolumeClients {
  claims : ObjectClient W PersistentVolumeClaim;
  volumes : ObjectClient W PersistentVolume;
  jobs : ObjectClient W Job }.
Arguments claims {W}. Arguments volumes {W}. Arguments jobs {W}.

(** [ApplyPersistentVolumeClaim], [ApplyPersistentVolume] and [ApplyJob]: the object is
    loaded; one that exists is only given a part of the new specification. *)
Section apply.
Context {W S : Type} (cl : ObjectClient W S).
Definition apply_object (zero : S) (update create : S → S) (key : ObjectKey) : io W (Keyed S) :=
  '(_, p) ← Keyed_Load cl (key, MkKube zero_meta zero);
  let '(exists_, obj) := Exists key p.2 in
  let spec := Kube_Spec obj in
  '(_, p) ← Keyed_Persist cl (key, with_Spec (if exists_ : bool then update spec else create spec) obj);
  mret p.
End apply.

Section reconcile.
Context {W : Type} `{JSONText, GoFmt} (cl : Clients W) (vcl : VolumeClients W).
Context (ToolInjectionImage : string) (now : Z).

Definition ApplyPersistentVolumeClaim (key : ObjectKey) (pvc : VolumeClaimSpec)
    : io W (Keyed PersistentVolumeClaim) :=
  apply_object (claims vcl) zero_claim
    (λ p, let s := Claim_Spec p in
          MkClaim (MkVolumeClaimSpec (AccessModes s) (Resources pvc) (StorageClassName s) (VolumeName s))
            (Phase p))
    (λ p, MkClaim pvc (Phase p)) key.

Definition ApplyPersistentVolume (key : ObjectKey) (pv : PersistentVolume)
    : io W (Keyed PersistentVolume) :=
  apply_object (volumes vcl) zero_volume
    (λ p, MkVolume (Volume_AccessModes p) (Capacity pv) (Volume_StorageClassName p)
            (GCEPersistentDisk p) (HostPath p))
    (λ _, pv) key.

Definition ApplyJob (key : ObjectKey) (job : JobSpec) : io W (Keyed Job) :=
  apply_object (jobs vcl) zero_job
    (λ j, let s := Job_Spec j in
          MkJob (MkJobSpec (Job_Pod job) (BackoffLimit s) (Completions s) (Parallelism s))
            (Job_Conditions j))
    (λ j, MkJob job (Job_Conditions j)) key.

(** ** Errors *)
Fixpoint marked_Error (e : marked error) : string :=
  match e with
  | EPlain e => Error e
  | ETransient d => "transient: " +:+ marked_Error d
  | EUser d => marked_Error d
  end.
Definition message (prefix : string) (e : marked error) : marked error :=
  EPlain (EText (prefix +:+ ": " +:+ marked_Error e)).

Notation reconciling A := (effect (merror error) W A).

(** A call whose error is returned, as it is or with a message. *)
Definition returning {A} (m : io W A) : reconciling A := λ w,
  let '(r, w') := m w in (map_err (λ e, Unmarked (EPlain e)) r, w').
Definition failing {A} (prefix : string) (m : io W A) : reconciling A := λ w,
  let '(r, w') := m w in (map_err (λ e, MapLast (Unmarked (EPlain e)) (message prefix)) r, w').

(** [ctrl.Result]: whether the request is queued again. *)
Definition Result : Type := bool.
Definition done_ : reconciling Result := mret false.
Definition requeue : reconciling Result := mret true.

(** [if err := Get(...); IsNotFound(err) { return err }]: any other error is dropped, and
    the object is left as it was. *)
Definition get_or {S} (c : ObjectClient W S) (key : ObjectKey) (zero : S) : reconciling S :=
  r ← returning (attempt (kube_Get c key));
  match r with
  | Ok o => mret (Kube_Spec o)
  | Err e => if is_not_found e then lift (Err (Unmarked (EPlain e))) else mret zero
  | Panic s => lift (Panic s)
  end.

(** ** The tool injection *)
Definition has_true (ty : JobConditionType) (c : JobCondition) : bool :=
  match ty, Job_Type c, Job_Status c with
  | JobComplete, JobComplete, ConditionTrue | JobFailed, JobFailed, ConditionTrue => true
  | _, _, _ => false
  end.

Definition injection_job (claim_name : string) : JobSpec :=
  let tii := if String.eqb ToolInjectionImage "" then DefaultToolInjectionImage else ToolInjectionImage in
  MkJobSpec (Some (MkToolPod tii ["cp"] ["-r"; ToolInjectionImagePath; ToolInjectionMountPath]
                     (ToolInjectionMountName, ToolInjectionMountPath) claim_name "Never")) 1 1 1.

(** [job] is nil after an error, which is returned unless it is AlreadyExists. *)
Definition applied_job (key : ObjectKey) (spec : JobSpec) : reconciling (Keyed Job) :=
  r ← returning (attempt (ApplyJob key spec));
  match r with
  | Ok job => mret job
  | Err (EAPI ReasonAlreadyExists _) =>
      lift (Panic "invalid memory address or nil pointer dereference")
  | Err e => lift (Err (Unmarked (EPlain e)))
  | Panic s => lift (Panic s)
  end.

Definition inject_tools (tn : TenantObject) (tdr : TenantDepsResult) (template : VolumeClaimSpec)
    : reconciling Result :=
  let name := Meta_Name (tenant_meta tn) in
  let ns := Meta_Name (Template (tenant_spec tn)) in
  let rwo := name +:+ ToolInjectionVolumeClaimSuffixReadWriteOnce in
  let rox := name +:+ ToolInjectionVolumeClaimSuffixReadOnlyMany in
  pvco ← returning (ApplyPersistentVolumeClaim (ns, rwo)
           (MkVolumeClaimSpec [ReadWriteOnce] (Resources template) (StorageClassName template) ""));
  let claim := Kube_Spec pvco.2 in
  if String.eqb (VolumeName (Claim_Spec claim)) "" || negb (String.eqb (Phase claim) ClaimBound)
  then requeue
  else
    pv ← get_or (volumes vcl) ("", VolumeName (Claim_Spec claim)) zero_volume;
    if negb (bool_decide (is_Some (GCEPersistentDisk pv)))
       && negb (bool_decide (is_Some (HostPath pv))) then requeue
    else
      let pvn := MkVolume [ReadOnlyMany] (Capacity pv) (Volume_StorageClassName pv)
                   (GCEPersistentDisk pv)
                   (match GCEPersistentDisk pv with Some _ => None | None => HostPath pv end) in
      _ ← returning (ApplyPersistentVolume ("", rox) pvn);
      let pvcn := MkVolumeClaimSpec [ReadOnlyMany] (Resources (Claim_Spec claim))
                    (StorageClassName (Claim_Spec claim)) "" in
      _ ← returning (ApplyPersistentVolumeClaim (ns, rox) pvcn);
      pvcn ← get_or (claims vcl) (ns, rox) (MkClaim pvcn "");
      if String.eqb (VolumeName (Claim_Spec pvcn)) "" then requeue
      else
        job ← applied_job (ns, rox) (injection_job (Meta_Name (Kube_Meta pvco.2)));
        let conds := Job_Conditions (Kube_Spec job.2) in
        if negb (existsb (has_true JobComplete) conds) && negb (existsb (has_true JobFailed) conds)
        then requeue
        else
          tn ← returning (lift (ConfigureTenant now tn tdr conds));
          tn ← returning (Tenant_PersistStatus cl tn);
          if Ready tn then done_ else requeue.

(** ** Reconcile

    The dependencies refer to the tenant object itself: what becomes of it shows in them. *)
Definition with_tenant (t : TenantObject) (td : TenantDeps) : TenantDeps :=
  MkTenantDeps t (StaleNamespace td) (Td_Namespace td) (Td_NetworkPolicy td) (Td_LimitRange td)
    (Td_EventSink td) (Td_VolumeClaimTemplate td).

(** Runs a call on the structure and keeps the structure, which a failed call has changed
    as far as it got. *)
Definition on_deps {A} (m : io (W * TenantDeps) A) (td : TenantDeps)
    : io W (result A * TenantDeps) := λ w,
  let '(r, (w', td')) := m (w, td) in (Ok (r, td'), w').
Definition load_deps (td : TenantDeps) : io W TenantDeps :=
  '(r, td) ← on_deps (TenantDeps_Load cl) td; _ ← lift r; mret td.

(** The error of a write is a result; a panic is none. *)
Definition error_of {A} (r : result A) : result (option error) :=
  match r with Ok _ => Ok None | Err e => Ok (Some e) | Panic s => Panic s end.

(** The part of the reconciliation that writes the dependencies and the status. *)
Definition settle (tn : TenantObject) (deps : TenantDeps)
    : reconciling (TenantObject * TenantDepsResult) :=
  '(r, deps) ← returning (on_deps (TenantDeps_Persist cl) (ConfigureTenantDeps deps));
  err ← returning (lift (error_of r));
  let tdr := AsTenantDepsResult (Some deps) err in
  tn ← returning (lift (ConfigureTenant now tn tdr []));
  tn ← returning (Tenant_PersistStatus cl tn);
  mret (tn, tdr).

(** What follows once the tenant was found. *)
Definition reconcile_tenant (tn : TenantObject) : reconciling Result :=
  deps ← failing "failed to load dependencies" (load_deps (NewTenantDeps tn));
  '(finalized, tn) ← returning (Finalize (Tenant_Persist cl) FinalizerName tn
                                  (_ ← TenantDeps_Delete cl deps; mret tt));
  if (finalized : bool) then done_
  else
    let deps := with_tenant tn deps in
    _ ← failing "failed to delete stale dependencies" (DeleteStale cl deps);
    '(tn, tdr) ← settle tn deps;
    match VolumeClaimTemplate (tenant_spec tn) with
    | None => if Ready tn then done_ else requeue
    | Some template => inject_tools tn tdr template
    end.

Definition Reconcile (req : Request) : reconciling Result :=
  '(ok, tn) ← failing "failed to load dependencies" (Tenant_Load cl (NewTenant req));
  if negb ok then done_ else reconcile_tenant tn.
End reconcile.
