(* ===== verification/Invariants.v ===== *)
(** * Invariants of calls

    [invariant P m] says that the call [m] keeps [P], whatever its outcome.  Invariants
    compose along the calls of a reconciliation. *)
From S2P Require Import Prelude GoStd GoStrings Values Errors Transfer ResultMapper Model.
From S2P Require Import ConfigMaps ObjUtil KubeObjects TenantDeps TenantReconcile ErrMark.

Create HintDb invariants.

(** The calls of a sequence. *)
Lemma bind_run {E W A B} (m : effect E W A) (f : A → effect E W B) w r w' :
  (m ≫= f) w = (r, w') →
  (∃ a w1, m w = (Ok a, w1) ∧ f a w1 = (r, w')) ∨ ∃ o, m w = (o, w') ∧ ∀ b, r ≠ Ok b.
Proof.
  rewrite effect_bind_run. destruct (m w) as [[a|e|x] w1]; [|intros [= <- <-]; right; by eexists..].
  intros E1. left. by exists a, w1.
Qed.

(** A sequence that succeeds: both of its calls did. *)
Lemma bind_ok {E W A B} (m : effect E W A) (f : A → effect E W B) w b w' :
  (m ≫= f) w = (Ok b, w') → ∃ a w1, m w = (Ok a, w1) ∧ f a w1 = (Ok b, w').
Proof.
  intros [H|(o & _ & Ho)]%bind_run; [exact H|by destruct (Ho b)].
Qed.
Lemma lift_ok {E W A} (o : outcome E A) (w : W) a w' : lift o w = (Ok a, w') → o = Ok a ∧ w' = w.
Proof. by intros [= -> ->]. Qed.

Definition invariant {E W A} (P : W → Prop) (m : effect E W A) : Prop :=
  ∀ w r w', P w → m w = (r, w') → P w'.

Section invariants.
Context {E W : Type} (P : W → Prop).

Lemma invariant_ret {A} (a : A) : invariant (E := E) P (mret a).
Proof. intros w r w' Hp [= _ <-]. done. Qed.
Lemma invariant_lift {A} (o : outcome E A) : invariant P (lift o).
Proof. intros w r w' Hp [= _ <-]. done. Qed.
Lemma invariant_bind {A B} (m : effect E W A) (f : A → effect E W B) :
  invariant P m → (∀ a, invariant P (f a)) → invariant P (m ≫= f).
Proof.
  intros Hm Hf w r w' Hp. rewrite effect_bind_run. destruct (m w) as [[a|e|x] w1] eqn:E1.
  - apply Hf. by eapply Hm.
  - intros [= _ <-]. by eapply Hm.
  - intros [= _ <-]. by eapply Hm.
Qed.
(** What follows may use that the call succeeded. *)
Lemma invariant_bind_ok {A B} (m : effect E W A) (f : A → effect E W B) :
  invariant P m → (∀ a w w', m w = (Ok a, w') → invariant P (f a)) → invariant P (m ≫= f).
Proof.
  intros Hm Hf w r w' Hp [(a & w1 & E1 & E2)|(o & E1 & _)]%bind_run; [|by eapply Hm].
  exact (Hf a w w1 E1 _ _ _ (Hm _ _ _ Hp E1) E2).
Qed.
Lemma invariant_attempt {A} (m : effect E W A) : invariant P m → invariant P (attempt m).
Proof.
  intros Hm w r w' Hp. unfold attempt. destruct (m w) as [[a|e|x] w1] eqn:E1; intros [= _ <-];
    by eapply Hm.
Qed.
Lemma invariant_each {A} (f : A → effect E W unit) l :
  Forall (λ x, invariant P (f x)) l → invariant P (each_effect f l).
Proof.
  intros Hl. induction Hl as [|x l Hx _ IH]; [apply invariant_ret|]. by apply invariant_bind.
Qed.
End invariants.

Lemma invariant_loaders {W D} (P : W * D → Prop) all (ls : list (Loader W D)) :
  Forall (invariant P) ls → invariant P (Loaders_from all ls).
Proof.
  intros Hl. revert all. induction Hl as [|l ls Hx _ IH]; intros all; [apply invariant_ret|].
  apply invariant_bind; [done|]. intros ok. apply IH.
Qed.

Section reconciling.
Context `{GoFmt} {W : Type} (P : W → Prop).
Lemma invariant_returning {A} (m : io W A) : invariant P m → invariant P (returning m).
Proof.
  intros Hm w r w' Hp. unfold returning. destruct (m w) as [o w1] eqn:E1. intros [= _ <-].
  by eapply Hm.
Qed.
Lemma invariant_failing {A} prefix (m : io W A) : invariant P m → invariant P (failing prefix m).
Proof.
  intros Hm w r w' Hp. unfold failing. destruct (m w) as [o w1] eqn:E1. intros [= _ <-].
  by eapply Hm.
Qed.
Lemma failing_Ok {A} prefix (m : io W A) w a w' :
  failing prefix m w = (Ok a, w') → m w = (Ok a, w').
Proof. unfold failing. destruct (m w) as [[]]; intros [=]; congruence. Qed.
Lemma returning_Ok {A} (m : io W A) w a w' : returning m w = (Ok a, w') → m w = (Ok a, w').
Proof. unfold returning. destruct (m w) as [[]]; intros [=]; congruence. Qed.
End reconciling.

#[export] Hint Resolve invariant_ret invariant_lift invariant_bind invariant_attempt
  invariant_returning invariant_failing : invariants.

(** Objects through a client whose calls keep [P]. *)
Class KeptBy {W S} (P : W → Prop) (c : ObjectClient W S) : Prop := {
  kept_get key : invariant P (kube_Get c key);
  kept_create o : invariant P (kube_Create c o);
  kept_update o : invariant P (kube_Update c o);
}.

Section kept.
Context {W S : Type} (P : W → Prop) (c : ObjectClient W S) `{!KeptBy P c}.

Lemma invariant_GetIgnoreNotFound key o : invariant P (GetIgnoreNotFound c key o).
Proof.
  apply invariant_bind; [apply invariant_attempt, kept_get|]. intros [o'|e|x];
    [apply invariant_ret| |apply invariant_lift].
  destruct (is_not_found e); [apply invariant_ret|apply invariant_lift].
Qed.
Lemma invariant_CreateOrUpdate key o : invariant P (CreateOrUpdate c key o).
Proof.
  unfold CreateOrUpdate, Exists. case_match; [apply kept_update|apply kept_create].
Qed.
Lemma invariant_Keyed_Load o : invariant P (Keyed_Load c o).
Proof.
  apply invariant_bind; [apply invariant_GetIgnoreNotFound|]. intros []. apply invariant_ret.
Qed.
Lemma invariant_Keyed_Persist o : invariant P (Keyed_Persist c o).
Proof. apply invariant_bind; [apply invariant_CreateOrUpdate|]. intros. apply invariant_ret. Qed.
Lemma invariant_apply zero update create key : invariant P (apply_object c zero update create key).
Proof.
  unfold apply_object. apply invariant_bind; [apply invariant_Keyed_Load|]. intros [ok p].
  destruct (Exists key p.2) as [b obj]. apply invariant_bind; [apply invariant_Keyed_Persist|].
  intros []. apply invariant_ret.
Qed.
Lemma invariant_get_or key zero : invariant P (get_or c key zero).
Proof.
  apply invariant_bind; [apply invariant_returning, invariant_attempt, kept_get|].
  intros [o|e|x]; [apply invariant_ret| |apply invariant_lift].
  destruct (is_not_found e); [apply invariant_lift|apply invariant_ret].
Qed.
End kept.
