(* ===== verification/TenantTheory.v ===== *)
(** * Theory of tenants: which namespaces a reconciliation removes, and its status *)
From S2P Require Import Prelude GoStd GoStrings Values Errors Transfer ResultMapper Model.
From S2P Require Import ConfigMaps ObjUtil Workflow KubeObjects NetworkPolicy TenantDeps.
From S2P Require Import TenantReconcile ErrMark Invariants.

(** ** Dependencies are read back *)
Lemma json_utf8_object fields :
  Forall (λ kj : string * json, utf8_valid kj.1 = true ∧ json_utf8 kj.2 = true) fields →
  json_utf8 (json_object fields) = true.
Proof.
  intros Hf. apply json_utf8_map. intros k j Hk%elem_of_list_to_map_2.
  rewrite Forall_forall in Hf. by apply (Hf (k, j)).
Qed.

Section dependencies.
Context `{JSONTextLaws}.

Definition dependency_utf8 (d : DependencyOf) : Prop :=
  Forall (λ s, utf8_valid s = true)
    [Dep_APIVersion d; Dep_Kind d; Dep_Namespace d; Dep_Name d; Dep_UID d].

Lemma dependency_roundtrip d :
  dependency_utf8 d → dependency_unmarshal (json_print (dependency_marshal d)) = Ok d.
Proof.
  destruct d as [v k ns n u]. intros Hd. unfold dependency_utf8 in Hd.
  repeat (apply Forall_cons in Hd as [? Hd]). unfold dependency_unmarshal, dependency_marshal.
  cbn [Dep_APIVersion Dep_Kind Dep_Namespace Dep_Name Dep_UID] in *.
  rewrite json_parse_print.
  - destruct (String.eqb_spec ns "") as [->|]; reflexivity.
  - apply json_utf8_object. destruct (String.eqb ns ""); repeat constructor; done.
Qed.

Definition owner_utf8 (o : Owner) : Prop := dependency_utf8 (dependency_on o).

Lemma print_not_empty j : json_utf8 j = true → json_print j ≠ "".
Proof. intros Hj%json_parse_print E. rewrite E, json_parse_empty in Hj. discriminate Hj. Qed.

Lemma annotated m name value :
  default "" (default ∅ (Annotations (Annotate m name value).2) !! name) = value.
Proof.
  unfold Annotate, set_key. destruct (Annotations m) as [a|]; cbn.
  - case_decide as Ha; cbn; [by rewrite Ha|by rewrite lookup_insert_eq].
  - by rewrite lookup_singleton_eq.
Qed.

Lemma dependency_of_spec m owner owner' :
  owner_utf8 owner →
  IsDependencyOf (SetDependencyOf m owner) owner'
  = Ok (bool_decide (dependency_on owner' = dependency_on owner)).
Proof.
  intros Hu. unfold IsDependencyOf, SetDependencyOf. rewrite annotated.
  assert (Hj : json_utf8 (dependency_marshal (dependency_on owner)) = true).
  { apply json_utf8_object. unfold owner_utf8, dependency_utf8 in Hu.
    repeat (apply Forall_cons in Hu as [? Hu]).
    destruct (String.eqb (Dep_Namespace _) ""); repeat constructor; done. }
  rewrite (proj2 (String.eqb_neq _ _)) by (by apply print_not_empty).
  rewrite dependency_roundtrip by done. cbn [mbind outcome_bind].
  destruct (dependency_on owner) as [v k ns n u], (dependency_on owner') as [v' k' ns' n' u'].
  cbn [Dep_APIVersion Dep_Kind Dep_Namespace Dep_Name Dep_UID].
  destruct (String.eqb_spec k' k) as [->|]; cbn [negb orb];
    [|f_equal; symmetry; apply bool_decide_eq_false; congruence].
  destruct (String.eqb_spec v' v) as [->|]; cbn [negb orb];
    [|f_equal; symmetry; apply bool_decide_eq_false; congruence].
  f_equal. apply eq_true_iff_eq.
  rewrite !andb_true_iff, !String.eqb_eq, bool_decide_eq_true. naive_solver.
Qed.
Lemma annotate_other m name value k :
  k ≠ name → default ∅ (Annotations (Annotate m name value).2) !! k = default ∅ (Annotations m) !! k.
Proof.
  intros Hk. unfold Annotate, set_key. destruct (Annotations m) as [a|]; cbn.
  - case_decide; cbn; [done|by rewrite lookup_insert_ne].
  - by rewrite lookup_singleton_ne.
Qed.
Lemma annotate_twice m name value :
  (Annotate (Annotate m name value).2 name value).2 = (Annotate m name value).2.
Proof.
  unfold Annotate, set_key. destruct (Annotations m) as [a|]; cbn.
  - case_decide as Ha; cbn; [by rewrite decide_True|].
    by rewrite lookup_insert_eq, decide_True.
  - by rewrite lookup_singleton_eq, decide_True.
Qed.
End dependencies.

(** ** The status *)
Section status.
Context `{GoFmt}.

(** What the last condition of a type that is true or false says. *)
Definition verdict (ty : JobConditionType) (c : JobCondition) : option bool :=
  match ty, Job_Type c, Job_Status c with
  | JobComplete, JobComplete, ConditionTrue | JobFailed, JobFailed, ConditionTrue => Some true
  | JobComplete, JobComplete, ConditionFalse | JobFailed, JobFailed, ConditionFalse => Some false
  | _, _, _ => None
  end.
Definition says (ty : JobConditionType) (jcs : list JobCondition) : bool :=
  default false (last (omap (verdict ty) jcs)).

Lemma says_snoc ty jcs c : says ty (jcs ++ [c]) = default (says ty jcs) (verdict ty c).
Proof.
  unfold says. rewrite omap_app. cbn. destruct (verdict ty c); cbn; [by rewrite last_snoc|].
  by rewrite app_nil_r.
Qed.
Lemma job_flags_say jcs :
  foldl job_flags (false, false) jcs = (says JobComplete jcs, says JobFailed jcs).
Proof.
  induction jcs as [|c jcs IH] using rev_ind; [done|].
  rewrite foldl_app, IH, !says_snoc. by destruct c as [[] []].
Qed.

Definition sink_configured (deps : TenantDeps) : Prop :=
  match Td_EventSink deps with
  | None => True
  | Some sink => sink_URL sink ≠ "" ∧ is_Some (sink_Token sink)
  end.
Definition tools_injected (deps : TenantDeps) (jcs : list JobCondition) : Prop :=
  Td_VolumeClaimTemplate deps = None ∨ (says JobComplete jcs = true ∧ says JobFailed jcs = false).

Lemma transition_status now c nc : Cond_Status (transition now c nc) = Cond_Status nc.
Proof.
  unfold transition, UpdateStatusConditionIfTransitioned. case_decide as E; cbn; [|done].
  by destruct (_ && _); cbn.
Qed.
Lemma transition_again now now' c nc : transition now' (transition now c nc) nc = transition now c nc.
Proof.
  unfold transition, UpdateStatusConditionIfTransitioned. case_decide as E; cbn.
  - destruct (_ && _) eqn:Eb; cbn; [rewrite decide_True by done; by rewrite Eb|].
    rewrite decide_True by done. by rewrite !String.eqb_refl.
  - rewrite decide_True by done. by rewrite !String.eqb_refl.
Qed.
Lemma all_true a b c :
  Cond_Status (ready_condition [a; b; c]) = ConditionTrue ↔
  Forall (λ d, Cond_Status d ≠ ConditionFalse ∧ Cond_Status d ≠ ConditionUnknown) [a; b; c].
Proof.
  rewrite !Forall_cons. unfold ready_condition. cbn.
  destruct (Cond_Status a), (Cond_Status b), (Cond_Status c); cbn; naive_solver.
Qed.

Lemma Ready_configured g ns n e ti r t :
  Ready (with_tenant_status (MkTenantStatus g ns
    [(TenantNamespaceReady, n); (TenantEventSinkReady, e); (TenantToolInjectionReady, ti);
     (TenantReady, r)]) t) = bool_decide (Cond_Status r = ConditionTrue).
Proof. reflexivity. Qed.
Lemma conditions_read z g ns n e ti r t :
  fold_outcome set_condition z (Status_Conditions (tenant_status (with_tenant_status
    (MkTenantStatus g ns [(TenantNamespaceReady, n); (TenantEventSinkReady, e);
       (TenantToolInjectionReady, ti); (TenantReady, r)]) t)))
  = Ok (MkTenantConditions n e ti r).
Proof. by destruct z. Qed.
Lemma namespace_status deps err :
  Cond_Status (namespace_condition (AsTenantDepsResult (Some deps) err))
  = match err with None => ConditionTrue | _ => ConditionFalse end.
Proof. by destruct err. Qed.
Lemma sink_status deps err :
  let s := Cond_Status (event_sink_condition (AsTenantDepsResult (Some deps) err)) in
  (s ≠ ConditionFalse ∧ s ≠ ConditionUnknown) ↔ sink_configured deps.
Proof.
  unfold event_sink_condition, sink_configured. cbn. destruct (Td_EventSink deps) as [sink|]; [|naive_solver].
  destruct (String.eqb_spec (sink_URL sink) ""); [naive_solver|].
  destruct (sink_Token sink); [naive_solver|].
  split; [naive_solver|]. by intros [_ [? [=]]].
Qed.
Lemma tools_status deps err jcs :
  let s := Cond_Status (tool_injection_condition (AsTenantDepsResult (Some deps) err) jcs) in
  (s ≠ ConditionFalse ∧ s ≠ ConditionUnknown) ↔ tools_injected deps jcs.
Proof.
  unfold tool_injection_condition, tools_injected. cbn.
  destruct (Td_VolumeClaimTemplate deps); [|naive_solver]. rewrite job_flags_say.
  destruct (says JobComplete jcs), (says JobFailed jcs); naive_solver.
Qed.
End status.

(** ** The namespaces a reconciliation leaves

    [view w n] is the metadata of the namespace [n]; the laws say what the calls of the
    clients do to it, when nobody else writes. *)
Definition View (W : Type) : Type := W → string → option ObjectMeta.
Definition same_view {W} (view : View W) (v : string → option ObjectMeta) (w : W) : Prop :=
  ∀ n, view w n = v n.

Class ReadOnlyFor {W S} (view : View W) (c : ObjectClient W S) : Prop :=
  read_only v :: KeptBy (same_view view v) c.

Class NamespaceClient {W} (view : View W) (c : ObjectClient W unit) : Prop := {
  ns_get v key : invariant (same_view view v) (kube_Get c key);
  ns_found n w o w' : kube_Get c ("", n) w = (Ok o, w') →
    view w n = Some (Kube_Meta o) ∧ Meta_Name (Kube_Meta o) = n;
  ns_missing n w e w' : kube_Get c ("", n) w = (Err e, w') → is_not_found e = true → view w n = None;
  ns_create o n : invariant (λ w, is_Some (view w n)) (kube_Create c o);
  ns_update o n : invariant (λ w, is_Some (view w n)) (kube_Update c o);
  ns_delete o n x : n ≠ Meta_Name (Kube_Meta o) → invariant (λ w, view w n = x) (kube_Delete c o);
}.

(** The identity of a tenant is the server's as it is the controller's. *)
Definition identity (o : ObjectMeta) : string * string * string :=
  (Meta_Namespace o, Meta_Name o, Meta_UID o).
Class TenantClient {W} (c : ObjectClient W TenantSpec) : Prop := {
  tenant_get key w o w' : kube_Get c key w = (Ok o, w') →
    (Meta_Namespace (Kube_Meta o), Meta_Name (Kube_Meta o)) = key ∧ Meta_UID (Kube_Meta o) ≠ "";
  tenant_update o w o' w' : kube_Update c o w = (Ok o', w') →
    identity (Kube_Meta o') = identity (Kube_Meta o);
}.

Section namespaces.
Context {W : Type} `{JSONText, GoFmt} (cl : Clients W) (vcl : VolumeClients W) (view : View W).
Context `{!NamespaceClient view (namespaces cl)}.
Context `{!ReadOnlyFor view (network_policies cl), !ReadOnlyFor view (limit_ranges cl)}.
Context `{!ReadOnlyFor view (secrets cl), !ReadOnlyFor view (tenants cl)}.
Context `{!ReadOnlyFor view (claims vcl), !ReadOnlyFor view (volumes vcl), !ReadOnlyFor view (jobs vcl)}.
Context (Hstatus : ∀ v o, invariant (same_view view v) (tenants_StatusUpdate cl o)).

(** A namespace that was loaded and exists is the one of the server. *)
Definition loaded_ok (v : string → option ObjectMeta) (n : Namespace) : Prop :=
  Meta_UID (Namespace_Object n) ≠ "" →
  v n.1 = Some (Namespace_Object n) ∧ Meta_Name (Namespace_Object n) = n.1.

Lemma namespace_load v n w r w' :
  same_view view v w → loaded_ok v n → Namespace_Load (namespaces cl) n w = (r, w') →
  same_view view v w' ∧ ∀ ok n', r = Ok (ok, n') → loaded_ok v n' ∧ n'.1 = n.1.
Proof.
  intros Hv Hn. unfold Namespace_Load, GetIgnoreNotFound. rewrite !effect_bind_run. unfold attempt.
  destruct (kube_Get (namespaces cl) ("", n.1) w) as [[o|e|x] w1] eqn:E.
  - intros [= <- <-]. split; [by eapply ns_get|]. intros ok n' [= <- <-].
    apply ns_found in E as [Ev En]. rewrite Hv in Ev. by split.
  - assert (Hv1 : same_view view v w1) by (by eapply ns_get). destruct (is_not_found e) eqn:Enf.
    + intros [= <- <-]. split; [done|]. intros ok n' [= <- <-]. split; [|done].
      intros Hu. cbn in Hu. destruct (Hn Hu) as [Hs _].
      assert (Hnone := ns_missing _ _ _ _ E Enf). rewrite Hv in Hnone. congruence.
    + intros [= <- <-]. by split.
  - intros [= <- <-]. split; [by eapply ns_get|done].
Qed.

Definition loaded (v : string → option ObjectMeta) (t : TenantObject) (ns : string) (st : option string)
    : W * TenantDeps → Prop := λ '(w, d),
  same_view view v w ∧ Td_Tenant d = t ∧ (loaded_ok v (Td_Namespace d) ∧ (Td_Namespace d).1 = ns)
  ∧ match StaleNamespace d with
    | Some n => loaded_ok v n ∧ st = Some n.1
    | None => st = None
    end.

(** A call on a field that is neither of the namespaces. *)
Lemma loaded_on {O A} v t ns st (f : TenantDeps → O) put (m : O → io W (A * O)) :
  (∀ o d, Td_Tenant (put o d) = Td_Tenant d ∧ Td_Namespace (put o d) = Td_Namespace d
          ∧ StaleNamespace (put o d) = StaleNamespace d) →
  (∀ o, invariant (same_view view v) (m o)) →
  invariant (loaded v t ns st) (on f put m).
Proof.
  intros Hput Hm [w d] r [w' d'] (Hv & Ht & Hns & Hst). unfold on.
  destruct (m (f d) w) as [[[a o]|e|x] w1] eqn:E; intros [= _ <- <-].
  - unfold loaded. destruct (Hput o d) as (-> & -> & ->).
    split_and!; try done; [by eapply Hm|by apply Hns..].
  - split_and!; try done; [by eapply Hm|by apply Hns..].
  - split_and!; try done; [by eapply Hm|by apply Hns..].
Qed.

Lemma loaded_unless {O A} v t ns st (nil : A) (f : TenantDeps → option O) m :
  (∀ o, invariant (loaded v t ns st) (m o)) → invariant (loaded v t ns st) (unless_nil nil f m).
Proof.
  intros Hm [w d] r s' Hp. unfold unless_nil. destruct (f d); [by apply Hm|]. by intros [= _ <-].
Qed.

Lemma load_namespace_ok v t ns st : invariant (loaded v t ns st) (load_namespace cl).
Proof.
  intros [w d] r [w' d'] (Hv & Ht & [Hns Hn1] & Hst). unfold load_namespace, on.
  destruct (Namespace_Load (namespaces cl) (Td_Namespace d) w) as [[[a o]|e|x] w1] eqn:E;
    apply (namespace_load v) in E as [Hv1 Ho]; try done; intros [= _ <- <-]; [|by split_and!..].
  destruct (Ho a o eq_refl) as [Ho1 Ho2]. split_and!; try done. cbn. congruence.
Qed.

Lemma load_stale_ok v t ns st : invariant (loaded v t ns st) (load_stale cl).
Proof.
  intros [w d] r [w' d'] (Hv & Ht & Hns & Hst). unfold load_stale, unless_nil.
  destruct (StaleNamespace d) as [n|] eqn:En.
  - unfold on. destruct Hst as [Hn ->].
    destruct (Namespace_Load (namespaces cl) n w) as [[[a o]|e|x] w1] eqn:E;
      apply (namespace_load v) in E as [Hv1 Ho]; try done; intros [= _ <- <-].
    + destruct (Ho a o eq_refl) as [Ho1 Ho2]. split_and!; try done; [by apply Hns..|]. cbn.
      split; [done|]. by rewrite Ho2.
    + split_and!; try done; [by apply Hns..|]. by rewrite En.
    + split_and!; try done; [by apply Hns..|]. by rewrite En.
  - intros [= _ <- <-]. split_and!; try done; [by apply Hns..|]. by rewrite En.
Qed.

Lemma load_event_sink_ok v t ns st : invariant (loaded v t ns st) (load_event_sink cl).
Proof.
  apply loaded_unless. intros s. apply loaded_on; [done|]. intros o. unfold EventSink_Load.
  destruct (TokenSecret o) as [sec|]; [|apply invariant_ret].
  apply invariant_bind; [|intros [ok s']; apply invariant_ret].
  unfold OpaqueSecret_Load, load_secret. apply invariant_bind; [apply invariant_Keyed_Load, _|].
  intros [ok s']. destruct (String.eqb _ _); [apply invariant_ret|apply invariant_lift].
Qed.

Lemma load_network_policy_ok v t ns st : invariant (loaded v t ns st) (load_network_policy cl).
Proof.
  apply loaded_unless. intros np. apply loaded_on; [done|]. intros o. apply invariant_Keyed_Load, _.
Qed.
Lemma load_limit_range_ok v t ns st : invariant (loaded v t ns st) (load_limit_range cl).
Proof.
  apply loaded_unless. intros np. apply loaded_on; [done|]. intros o. apply invariant_Keyed_Load, _.
Qed.

(** What a tenant's dependencies are after they were loaded. *)
Definition template_namespace (t : TenantObject) : string :=
  if Managed t then Meta_Name (Template (tenant_spec t)) else t.1.1.
Definition stale_name (t : TenantObject) : option string :=
  let ns := Status_Namespace (tenant_status t) in
  if negb (String.eqb ns "") && negb (String.eqb ns t.1.1)
     && negb (String.eqb ns (template_namespace t)) then Some ns else None.

Lemma NewTenantDeps_fields t :
  Td_Tenant (NewTenantDeps t) = t ∧ StaleNamespace (NewTenantDeps t) = None
  ∧ Td_Namespace (NewTenantDeps t) = NewNamespace (template_namespace t).
Proof. unfold NewTenantDeps, template_namespace. by destruct (Managed t). Qed.

Lemma new_loaded v name : loaded_ok v (NewNamespace name).
Proof. intros Hu. by destruct Hu. Qed.

Lemma deps_loaded v t w r w' d' :
  same_view view v w → TenantDeps_Load cl (w, NewTenantDeps t) = (r, (w', d')) →
  loaded v t (template_namespace t) (stale_name t) (w', d').
Proof.
  intros Hv. unfold TenantDeps_Load, Loaders_Load.
  destruct (NewTenantDeps_fields t) as (Ht & Hs & Hn).
  assert (Hst : stale_namespace (NewTenantDeps t) = NewNamespace <$> stale_name t).
  { unfold stale_namespace, stale_name. rewrite Ht, Hn. cbn [fst NewNamespace].
    by destruct (_ && _). }
  rewrite Hst. set (td := match NewNamespace <$> stale_name t with Some n => _ | None => _ end).
  assert (Htd : loaded v t (template_namespace t) (stale_name t) (w, td)).
  { unfold loaded, td. destruct (stale_name t) as [n|] eqn:En; cbn;
      rewrite ?Ht, ?Hn, ?Hs; split_and!; try done; apply new_loaded. }
  intros E. eapply invariant_loaders; [|exact Htd|exact E].
  constructor; [apply load_event_sink_ok|]. apply Forall_app. split.
  - destruct (Managed (Td_Tenant td)); repeat constructor; auto using load_namespace_ok,
      load_network_policy_ok, load_limit_range_ok.
    apply invariant_bind; [apply load_namespace_ok|]. intros [].
    + apply invariant_ret.
    + apply invariant_lift.
  - destruct (stale_name t); [apply Forall_singleton, load_stale_ok|constructor].
Qed.

(** *** Deletions *)
Lemma DeleteIgnoreNotFound_view n o x :
  n ≠ Meta_Name (Kube_Meta o) →
  invariant (λ w, view w n = x) (DeleteIgnoreNotFound (namespaces cl) o).
Proof.
  intros Hn. apply invariant_bind; [by apply invariant_attempt, ns_delete|].
  intros [|e|]; [apply invariant_ret| |apply invariant_lift].
  destruct (is_not_found e); [apply invariant_ret|apply invariant_lift].
Qed.

(** A namespace that is not the tenant's, or not the one to delete, stays. *)
Lemma delete_dependency_view v td n0 n x :
  loaded_ok v n0 → Meta_UID (Namespace_Object n0) ≠ "" →
  (∀ m, v n = Some m → n = n0.1 → IsDependencyOf m (TenantOwner (Td_Tenant td)) ≠ Ok true) →
  invariant (λ w, view w n = x) (delete_dependency cl td n0).
Proof.
  intros Hl Hu Hn w r w' Hw. destruct (Hl Hu) as [Hv Hname]. unfold delete_dependency.
  rewrite effect_bind_run. unfold lift.
  destruct (IsDependencyOf _ _) as [[]|e|y] eqn:E; [|by intros [= _ <-]..].
  apply DeleteIgnoreNotFound_view; [|done]. fold (Namespace_Object n0). rewrite Hname.
  intros ->. by apply (Hn _ Hv).
Qed.

(** The dependencies, whoever of the tenant's copies they refer to. *)
Definition deps_ok (v : string → option ObjectMeta) (t : TenantObject) (td : TenantDeps) : Prop :=
  (loaded_ok v (Td_Namespace td) ∧ (Td_Namespace td).1 = template_namespace t)
  ∧ match StaleNamespace td with
    | Some n => loaded_ok v n ∧ stale_name t = Some n.1
    | None => stale_name t = None
    end.

Definition dependent (td : TenantDeps) (m : ObjectMeta) : Prop :=
  IsDependencyOf m (TenantOwner (Td_Tenant td)) = Ok true.

Lemma DeleteStale_view v t td n x :
  deps_ok v t td → (∀ m, v n = Some m → stale_name t = Some n → ¬ dependent td m) →
  invariant (λ w, view w n = x) (DeleteStale cl td).
Proof.
  intros [_ Hs] Hn. unfold DeleteStale. destruct (StaleNamespace td) as [n0|]; [|apply invariant_ret].
  destruct (String.eqb_spec (Meta_UID (Namespace_Object n0)) ""); [apply invariant_ret|].
  destruct Hs as [Hl Hs]. apply (delete_dependency_view v); [done..|].
  intros m Hm ->. by apply Hn.
Qed.

Lemma TenantDeps_Delete_view v t td n x :
  deps_ok v t td → Td_Tenant td = t →
  (∀ m, v n = Some m → stale_name t = Some n ∨ (Managed t = true ∧ n = template_namespace t) →
        ¬ dependent td m) →
  invariant (λ w, view w n = x) (TenantDeps_Delete cl td).
Proof.
  intros Hok Ht Hn. apply invariant_bind.
  { apply (DeleteStale_view v t); [done|]. intros m Hm Hs. exact (Hn m Hm (or_introl Hs)). }
  intros _. destruct (Managed (Td_Tenant td)) eqn:Hmg; cbn [negb]; [|apply invariant_ret].
  destruct (String.eqb_spec (Meta_UID (Namespace_Object (Td_Namespace td))) ""); [apply invariant_ret|].
  destruct Hok as [[Hl Hname] _]. apply (delete_dependency_view v); [done..|].
  intros m Hm ->. apply (Hn m Hm). right. split; [by rewrite <- Ht|done].
Qed.

(** *** What only reads, or only writes, keeps the namespaces *)
Lemma read_only_kept {S} (c : ObjectClient W S) (P : W → Prop) `{!ReadOnlyFor view c} :
  (∀ w w', (∀ n, view w' n = view w n) → P w → P w') → KeptBy P c.
Proof.
  intros Hext. split; [intros key|intros o..]; intros w r w' Hp E;
    (apply (Hext w); [|done]); intros n.
  - exact (kept_get (P := same_view view (view w)) key w r w' (λ n, eq_refl) E n).
  - exact (kept_create (P := same_view view (view w)) o w r w' (λ n, eq_refl) E n).
  - exact (kept_update (P := same_view view (view w)) o w r w' (λ n, eq_refl) E n).
Qed.

Definition there (n : string) : W → Prop := λ w, is_Some (view w n).
Lemma there_ext n w w' : (∀ n, view w' n = view w n) → there n w → there n w'.
Proof. unfold there. by intros ->. Qed.

#[local] Instance there_kept {S} (c : ObjectClient W S) `{!ReadOnlyFor view c} n : KeptBy (there n) c.
Proof. apply read_only_kept; [done|]. apply there_ext. Qed.
#[local] Instance namespaces_kept n : KeptBy (there n) (namespaces cl).
Proof.
  split; [|intros o; apply ns_create|intros o; apply ns_update].
  intros key w r w' Hp E. apply (there_ext n w); [|done].
  exact (ns_get (view w) key w r w' (λ n, eq_refl) E).
Qed.

Lemma persist_status_there n t : invariant (there n) (Tenant_PersistStatus cl t).
Proof.
  apply invariant_bind; [|intros; apply invariant_ret]. intros w r w' Hp E.
  apply (there_ext n w); [|done]. exact (Hstatus (view w) t.2 w r w' (λ n, eq_refl) E).
Qed.

Lemma on_there {O A} n (f : TenantDeps → O) put (m : O → io W (A * O)) :
  (∀ o, invariant (there n) (m o)) → invariant (λ wd, there n wd.1) (on f put m).
Proof.
  intros Hm [w d] r [w' d'] Hp. unfold on. destruct (m (f d) w) as [[[a o]|e|x] w1] eqn:E;
    intros [= _ <- _]; by eapply Hm.
Qed.

Lemma TenantDeps_Persist_there n : invariant (λ wd, there n wd.1) (TenantDeps_Persist cl).
Proof.
  intros [w d] r [w' d'] Hp. unfold TenantDeps_Persist.
  destruct (Managed (Td_Tenant d)); cbn [negb]; [|by intros [= _ <- _]].
  assert (Hall : invariant (λ wd, there n wd.1) (Persist_all
    [persist_namespace cl; persist_network_policy cl; persist_limit_range cl])).
  { apply invariant_each. repeat constructor.
    - apply on_there. intros o. apply invariant_bind; [|intros; apply invariant_ret].
      apply invariant_CreateOrUpdate, _.
    - intros [w1 d1] r1 [w1' d1'] Hp1. unfold persist_network_policy.
      destruct (Td_NetworkPolicy d1); [|by intros [= _ <- _]].
      apply on_there; [|done]. intros o. apply invariant_Keyed_Persist, _.
    - intros [w1 d1] r1 [w1' d1'] Hp1. unfold persist_limit_range.
      destruct (Td_LimitRange d1); [|by intros [= _ <- _]].
      apply on_there; [|done]. intros o. apply invariant_Keyed_Persist, _. }
  by apply Hall.
Qed.

Lemma on_deps_there {A} n (m : io (W * TenantDeps) A) td :
  invariant (λ wd, there n wd.1) m → invariant (there n) (on_deps m td).
Proof.
  intros Hm w r w' Hp. unfold on_deps. destruct (m (w, td)) as [r1 [w1 td1]] eqn:E.
  intros [= _ <-]. exact (Hm (w, td) r1 (w1, td1) Hp E).
Qed.

Lemma settle_there now n tn td : invariant (there n) (settle cl now tn td).
Proof.
  apply invariant_bind; [apply invariant_returning, on_deps_there, TenantDeps_Persist_there|].
  intros [r deps]. apply invariant_bind; [apply invariant_returning, invariant_lift|]. intros err.
  apply invariant_bind; [apply invariant_returning, invariant_lift|]. intros tn'.
  apply invariant_bind; [apply invariant_returning, persist_status_there|]. intros.
  apply invariant_ret.
Qed.

Lemma applied_job_there n key spec : invariant (there n) (applied_job vcl key spec).
Proof.
  apply invariant_bind; [apply invariant_returning, invariant_attempt, invariant_apply, _|].
  intros [j|e|x]; [apply invariant_ret| |apply invariant_lift].
  destruct e; try apply invariant_lift. destruct reason; apply invariant_lift.
Qed.

Lemma inject_tools_there image now n tn tdr template :
  invariant (there n) (inject_tools cl vcl image now tn tdr template).
Proof.
  unfold inject_tools. cbv zeta.
  apply invariant_bind; [apply invariant_returning, invariant_apply, _|]. intros pvco.
  case_match; [apply invariant_ret|].
  apply invariant_bind; [apply invariant_get_or, _|]. intros pv. case_match; [apply invariant_ret|].
  apply invariant_bind; [apply invariant_returning, invariant_apply, _|]. intros _.
  apply invariant_bind; [apply invariant_returning, invariant_apply, _|]. intros _.
  apply invariant_bind; [apply invariant_get_or, _|]. intros pvcn. case_match; [apply invariant_ret|].
  apply invariant_bind; [apply applied_job_there|]. intros job. case_match; [apply invariant_ret|].
  apply invariant_bind; [apply invariant_returning, invariant_lift|]. intros tn1.
  apply invariant_bind; [apply invariant_returning, persist_status_there|]. intros tn2.
  case_match; apply invariant_ret.
Qed.
End namespaces.
