(* ===== verification/RunObjects.v ===== *)
(** * The objects of a run (pkg/obj: configmap.go, serviceaccount.go, role.go, rolebinding.go)

    The kinds of objects the run controller reads and writes, through one client for all
    kinds; service accounts are loaded with the secret of their token, which another
    controller adds some time after the account was created. *)
From S2P Require Import Prelude GoStd GoStrings Values Errors Transfer ResultMapper Model.
From S2P Require Import ConfigMaps ObjUtil Graph RunStatus RunConfig Workflow.
From S2P Require Import KubeObjects NetworkPolicy TenantDeps.

(** ** Kinds *)
Record ConfigMapData := MkConfigMapData {
  Map_Data : option (gmap string string); Map_ResourceVersion : string }.
Record ServiceAccountSpec := MkServiceAccountSpec {
  Sa_Secrets : list string; AutomountServiceAccountToken : option bool }.
Record PolicyRule := MkPolicyRule {
  APIGroups : list string; Rule_Resources : list string; ResourceNames : list string;
  Verbs : list string }.
Record RoleRef := MkRoleRef { RoleRef_Kind : string; RoleRef_APIGroup : string; RoleRef_Name : string }.
Record RoleSubject := MkRoleSubject {
  Subject_Kind : string; Subject_Namespace : string; Subject_Name : string }.
Record RoleBindingSpec := MkRoleBindingSpec {
  Binding_RoleRef : RoleRef; Binding_Subjects : list RoleSubject }.

(** A container of a task or a condition.  The pull policy is "always" where it is set. *)
Record Container := MkContainer {
  Container_Name : string; Container_Image : string; PullAlways : bool;
  Container_Env : list (string * string); AllowPrivilegeEscalation : option bool;
  Script : string; Container_Command : list string; Container_Args : list string }.

Record PipelineTask := MkPipelineTask {
  Task_Name : string; TaskRef_Name : string; RunAfter : list string;
  ConditionRefs : list string }.
Record PipelineRunSpec := MkPipelineRunSpec {
  ServiceAccountNames : list (string * string);   (* task and account *)
  PipelineRef_Name : string; PipelineRunSpec_Status : string }.
Record PipelineRunObject := MkPipelineRunObject {
  Pr_Spec : PipelineRunSpec; Pr_Status : PipelineRun;
  Pr_Pods : gmap string string   (* the pod of a task run *) }.

(** A workflow run, and the name of the tenant it refers to. *)
Record RunSpec := MkRunSpec { Spec_Run : WorkflowRun; Spec_TenantRef : option string }.

(** A webhook trigger. *)
Record TriggerStatus := MkTriggerStatus {
  Trigger_ObservedGeneration : Z; Trigger_Namespace : string; Trigger_URL : string;
  Trigger_Conditions : list (string * StatusCondition) }.
Record TriggerObjectSpec := MkTriggerObjectSpec {
  Trigger_Generation : Z; Spec_Trigger : WebhookTrigger; Trigger_Status : TriggerStatus }.

(** A Knative service: the template of its revisions, whether it is ready, and where. *)
Record ConfigVolume := MkConfigVolume {
  Volume_Name : string; Volume_ConfigMap : string;
  Volume_Items : list (string * string * Z)   (* key, path and mode *) }.
Record VolumeMount := MkVolumeMount {
  Mount_Name : string; Mount_ReadOnly : bool; Mount_Path : string }.
Record RevisionTemplate := MkRevisionTemplate {
  Template_Meta : ObjectMeta; Template_ServiceAccountName : string;
  Template_Volumes : list ConfigVolume; Template_Containers : list (Container * list VolumeMount) }.
Record ServiceSpec := MkServiceSpec {
  Service_Template : RevisionTemplate; Service_IsReady : bool; Service_URL : option string }.

Inductive Kind : Type :=
| KNamespace | KLimitRange | KNetworkPolicy | KConfigMap | KSecret | KServiceAccount | KRole
| KRoleBinding | KTask | KCondition | KPipeline | KPipelineRun | KWorkflowRun
| KTenant | KWebhookTrigger | KKnativeService.
#[export] Instance Kind_eq_dec : EqDecision Kind.
Proof. solve_decision. Defined.

Definition spec_of (k : Kind) : Type :=
  match k with
  | KNamespace => unit
  | KLimitRange => option LimitRangeSpec
  | KNetworkPolicy => NetworkPolicySpec
  | KConfigMap => ConfigMapData
  | KSecret => SecretData
  | KServiceAccount => ServiceAccountSpec
  | KRole => list PolicyRule
  | KRoleBinding => RoleBindingSpec
  | KTask => list Container
  | KCondition => option Container
  | KPipeline => list PipelineTask
  | KPipelineRun => PipelineRunObject
  | KWorkflowRun => RunSpec
  | KTenant => TenantSpec
  | KWebhookTrigger => TriggerObjectSpec
  | KKnativeService => ServiceSpec
  end.

(** [client.Client], and its status writer. *)
Record KubeClient (W : Type) := MkKubeClient {
  kube : ∀ k, ObjectClient W (spec_of k);
  kube_StatusUpdate : ∀ k, Kube (spec_of k) → io W (Kube (spec_of k)) }.
Arguments kube {W}. Arguments kube_StatusUpdate {W}.

(** Objects that are made from their key, with the zero value of their kind. *)
Notation object k := (Keyed (spec_of k)).
Definition zero_run : WorkflowRun :=
  MkWorkflowRun "" [] ∅ ∅ ∅ ∅ (MkRunStatus "" None None None None).
Definition zero_trigger : WebhookTrigger := MkWebhookTrigger "" "" "" "" [] "" [] ∅ ∅.
Definition zero_service : ServiceSpec :=
  MkServiceSpec (MkRevisionTemplate zero_meta "" [] []) false None.
Definition zero_spec (k : Kind) : spec_of k :=
  match k with
  | KNamespace => tt
  | KLimitRange => None
  | KNetworkPolicy => zero_policy
  | KConfigMap => MkConfigMapData None ""
  | KSecret => MkSecretData "" ∅
  | KServiceAccount => MkServiceAccountSpec [] None
  | KRole => []
  | KRoleBinding => MkRoleBindingSpec (MkRoleRef "" "" "") []
  | KTask => []
  | KCondition => None
  | KPipeline => []
  | KPipelineRun =>
      MkPipelineRunObject (MkPipelineRunSpec [] "" "") (MkPipelineRun (MkTektonStatus [] None None) ∅) ∅
  | KWorkflowRun => MkRunSpec zero_run None
  | KTenant => MkTenantSpec 0 zero_meta None None (MkTenantStatus 0 "" [])
  | KWebhookTrigger => MkTriggerObjectSpec 0 zero_trigger (MkTriggerStatus 0 "" "" [])
  | KKnativeService => zero_service
  end.
Definition NewObject (k : Kind) (key : ObjectKey) : object k := (key, MkKube zero_meta (zero_spec k)).
Definition on_object {S} (f : Kube S → Kube S) (o : Keyed S) : Keyed S := (o.1, f o.2).
Definition set_spec {S} (s : S) : Keyed S → Keyed S := on_object (with_Spec s).

(** The names of the kinds' Go types, which messages print. *)
Definition go_type (k : Kind) : string :=
  match k with
  | KNamespace => "*v1.Namespace" | KLimitRange => "*v1.LimitRange"
  | KNetworkPolicy => "*v1.NetworkPolicy" | KConfigMap => "*v1.ConfigMap"
  | KSecret => "*v1.Secret" | KServiceAccount => "*v1.ServiceAccount" | KRole => "*v1.Role"
  | KRoleBinding => "*v1.RoleBinding" | KTask => "*v1beta1.Task"
  | KCondition => "*v1alpha1.Condition" | KPipeline => "*v1beta1.Pipeline"
  | KPipelineRun => "*v1beta1.PipelineRun" | KWorkflowRun => "*v1.WorkflowRun"
  | KTenant => "*v1beta1.Tenant" | KWebhookTrigger => "*v1beta1.WebhookTrigger"
  | KKnativeService => "*v1.Service"
  end.
Definition key_string (key : ObjectKey) : string := key.1 +:+ "/" +:+ key.2.
Definition OwnerInOtherNamespace (owner target : Kind) (e : own_error) : error :=
  let '(OwnerInOtherNamespaceError o t) := e in
  EText ("obj: owner " +:+ go_type owner +:+ " " +:+ key_string o
         +:+ " is in a different namespace than " +:+ go_type target +:+ " " +:+ key_string t).

(** [Owned], [LabelAnnotateFrom] *)
Definition owned_by (owner_kind : Kind) (owner : Owner) (k : Kind) (o : object k)
    : result (object k) :=
  m ← map_err (OwnerInOtherNamespace owner_kind k) (Own (Kube_Meta o.2) owner);
  Ok (on_object (with_Meta m) o).
Definition LabelAnnotateFrom {S} (from : ObjectMeta) (o : Keyed S) : Keyed S :=
  on_object (λ k, with_Meta (CopyLabelsAndAnnotations (Kube_Meta k) from) k) o.

(** ** Retrying (pkg/util/retry) *)
Record RetryError := MkRetryError { Transient : bool; Cause : option error }.
Definition RetryPermanent (err : option error) : RetryError := MkRetryError false err.
Definition RetryTransient (err : option error) : RetryError := MkRetryError true err.

Definition DeadlineExceeded : error := EText "context deadline exceeded".

(** [rounds] is how often [fn] runs before the context ends. *)
Fixpoint retry_rounds {S} (rounds : nat) (last : option error) (fn : S → RetryError * S) (s : S)
    : option error * S :=
  match rounds with
  | O => (Some (default DeadlineExceeded last), s)
  | S rounds' =>
      let '(rt, s') := fn s in
      if negb (Transient rt) || negb (bool_decide (is_Some (Cause rt))) then (Cause rt, s')
      else retry_rounds rounds' (Cause rt) fn s'
  end.
Definition Retry {S} (rounds : nat) (fn : S → RetryError * S) (s : S) : option error * S :=
  retry_rounds rounds None fn s.

(** ** Service accounts *)
Record ServiceAccount := MkServiceAccount {
  Sa : object KServiceAccount; DefaultTokenSecret : option (object KSecret) }.
Definition NewServiceAccount (key : ObjectKey) : ServiceAccount :=
  MkServiceAccount (NewObject KServiceAccount key) None.
Definition on_account (f : object KServiceAccount → object KServiceAccount) (sa : ServiceAccount)
    : ServiceAccount := MkServiceAccount (f (Sa sa)) (DefaultTokenSecret sa).

Definition ErrServiceAccountMissingDefaultTokenSecret : error :=
  EText "obj: service account has no default token secret".

Section accounts.
Context {W : Type} (cl : KubeClient W).

(** The error of a call, and what has become of the object. *)
Definition load_required_secret (s : object KSecret) : io W (option error * object KSecret) := λ w,
  match Keyed_Load (kube cl KSecret) s w with
  | (Ok (ok, s), w) =>
      (Ok (if negb (String.eqb (Secret_Type (Kube_Spec s.2)) SecretTypeServiceAccountToken)
           then Some ErrNotServiceAccountTokenSecret
           else if negb ok then Some ErrRequired else None, s), w)
  | (Err e, w) => (Ok (Some e, s), w)
  | (Panic x, w) => (Panic x, w)
  end.

Definition loadDefaultTokenSecret (sa : ServiceAccount) : io W (option error * ServiceAccount) :=
  match Sa_Secrets (Kube_Spec (Sa sa).2) with
  | [] => mret (Some ErrServiceAccountMissingDefaultTokenSecret, sa)
  | name :: _ =>
      if String.eqb name "" then mret (Some ErrServiceAccountMissingDefaultTokenSecret, sa)
      else
        let key := ((Sa sa).1.1, name) in
        let s := default (NewServiceAccountTokenSecret key) (DefaultTokenSecret sa) in
        if bool_decide (s.1 = key) && negb (String.eqb (Meta_UID (Kube_Meta s.2)) "")
        then mret (None, MkServiceAccount (Sa sa) (Some s))
        else
          '(err, s) ← load_required_secret s;
          mret (err, MkServiceAccount (Sa sa) (Some s))
  end.

(** A round of [Load]: the state is the world, the account and whether it was loaded; a
    panic ends the rounds. *)
Definition load_round (st : W * (ServiceAccount * bool * option string))
    : RetryError * (W * (ServiceAccount * bool * option string)) :=
  let '(w, (sa, ok, _)) := st in
  match Keyed_Load (kube cl KServiceAccount) (Sa sa) w with
  | (Err e, w) => (RetryPermanent (Some e), (w, (sa, ok, None)))
  | (Panic x, w) => (RetryPermanent None, (w, (sa, ok, Some x)))
  | (Ok (found, o), w) =>
      let sa := on_account (λ _, o) sa in
      if negb found then (RetryPermanent None, (w, (sa, ok, None)))
      else
        match loadDefaultTokenSecret sa w with
        | (Ok (Some e, sa), w) => (RetryTransient (Some e), (w, (sa, ok, None)))
        | (Ok (None, sa), w) => (RetryPermanent None, (w, (sa, true, None)))
        | (Err e, w) => (RetryTransient (Some e), (w, (sa, ok, None)))
        | (Panic x, w) => (RetryPermanent None, (w, (sa, ok, Some x)))
        end
  end.

Definition ServiceAccount_Load (rounds : nat) (sa : ServiceAccount) : io W (bool * ServiceAccount) := λ w,
  match Retry rounds load_round (w, (sa, false, None)) with
  | (_, (w, (_, _, Some x))) => (Panic x, w)
  | (Some e, (w, _)) => (Err e, w)
  | (None, (w, (sa, ok, None))) => (Ok (ok, sa), w)
  end.

Definition ServiceAccount_Persist (rounds : nat) (sa : ServiceAccount) : io W (unit * ServiceAccount) :=
  '(_, o) ← Keyed_Persist (kube cl KServiceAccount) (Sa sa);
  '(ok, sa) ← ServiceAccount_Load rounds (on_account (λ _, o) sa);
  if (ok : bool) then mret (tt, sa) else lift (Err ErrRequired).
End accounts.

Definition no_automount : ServiceAccount → ServiceAccount :=
  on_account (on_object (λ o,
    with_Spec (MkServiceAccountSpec (Sa_Secrets (Kube_Spec o)) (Some false)) o)).
Definition ConfigureMetadataAPIServiceAccount : ServiceAccount → ServiceAccount := no_automount.
Definition ConfigureUntrustedServiceAccount : ServiceAccount → ServiceAccount := no_automount.

(** *** A field of a structure: how it is read and written back *)
Section fields.
Context {W D : Type} (cl : KubeClient W) (rounds : nat).

Definition load_field (k : Kind) (f : D → object k) (put : D → object k → D) : Loader W D :=
  on f (λ o d, put d o) (Keyed_Load (kube cl k)).
Definition persist_field (k : Kind) (f : D → object k) (put : D → object k → D) : Persister W D :=
  on f (λ o d, put d o) (Keyed_Persist (kube cl k)).
Definition load_optional (k : Kind) (f : D → option (object k))
    (put : D → option (object k) → D) : Loader W D :=
  unless_nil true f (λ o, on (λ _, o) (λ o d, put d (Some o)) (Keyed_Load (kube cl k))).
Definition persist_optional (k : Kind) (f : D → option (object k))
    (put : D → option (object k) → D) : Persister W D :=
  unless_nil tt f (λ o, on (λ _, o) (λ o d, put d (Some o)) (Keyed_Persist (kube cl k))).
Definition load_account (f : D → ServiceAccount) (put : D → ServiceAccount → D) : Loader W D :=
  on f (λ a d, put d a) (ServiceAccount_Load cl rounds).
Definition persist_account (f : D → ServiceAccount) (put : D → ServiceAccount → D) : Persister W D :=
  on f (λ a d, put d a) (ServiceAccount_Persist cl rounds).
End fields.

(** ** Roles *)
Definition ConfigureMetadataAPIRole (immutable mutable : ObjectKey) : object KRole → object KRole :=
  set_spec (S := spec_of KRole)
    [MkPolicyRule [""] ["configmaps"] [immutable.2] ["get"];
     MkPolicyRule [""] ["configmaps"] [mutable.2] ["get"; "update"]].

Definition ConfigureMetadataAPIRoleBinding (sa : ServiceAccount) (role : ObjectKey)
    : object KRoleBinding → object KRoleBinding :=
  set_spec (S := spec_of KRoleBinding)
    (MkRoleBindingSpec (MkRoleRef "Role" "rbac.authorization.k8s.io" role.2)
       [MkRoleSubject "ServiceAccount" (Sa sa).1.1 (Sa sa).1.2]).
