(* ===== verification/ServerTheory.v ===== *)
(** * One server for all kinds of objects

    What the run controller relies on of the API server when nobody else writes: a read
    gives what is there, a write is read back, and touches no other object.  A service
    account's secrets and a resource version are the server's own. *)
From S2P Require Import Prelude GoStd GoStrings Values Errors Transfer ResultMapper Model.
From S2P Require Import ConfigMaps ObjUtil Graph RunStatus RunConfig KubeObjects NetworkPolicy.
From S2P Require Import TenantDeps TenantReconcile RunObjects Invariants.

Definition object_key {S} (o : Kube S) : ObjectKey :=
  (Meta_Namespace (Kube_Meta o), Meta_Name (Kube_Meta o)).

(** What a write keeps of the rest of an object. *)
Definition spec_kept (k : Kind) : spec_of k → spec_of k → Prop :=
  match k with
  | KConfigMap => λ s s', Map_Data s' = Map_Data s
  | KServiceAccount => λ s s', AutomountServiceAccountToken s' = AutomountServiceAccountToken s
  | KWebhookTrigger => λ s s', Spec_Trigger s' = Spec_Trigger s
  | KKnativeService => λ s s', Service_Template s' = Service_Template s
  | _ => λ s s', s' = s
  end.

Definition Objects : Type := ∀ k, ObjectKey → option (Kube (spec_of k)).

Class ServerLaws {W} (view : W → Objects) (cl : KubeClient W) := {
  server_get k key w r w' : kube_Get (kube cl k) key w = (r, w') →
    (∀ k' key', view w' k' key' = view w k' key')
    ∧ match r with
      | Ok o => view w k key = Some o ∧ object_key o = key ∧ Meta_UID (Kube_Meta o) ≠ ""
      | Err e => is_not_found e = true → view w k key = None
      | Panic _ => True
      end;
  server_write k o w r w' :
    kube_Create (kube cl k) o w = (r, w') ∨ kube_Update (kube cl k) o w = (r, w') →
    (∀ k' key', (k', key') ≠ (k, object_key o) → view w' k' key' = view w k' key')
    ∧ (is_Some (view w k (object_key o)) → is_Some (view w' k (object_key o)))
    ∧ ∀ o', r = Ok o' →
      view w' k (object_key o) = Some o' ∧ object_key o' = object_key o
      ∧ (Meta_UID (Kube_Meta o) ≠ "" → Meta_UID (Kube_Meta o') = Meta_UID (Kube_Meta o))
      ∧ Annotations (Kube_Meta o') = Annotations (Kube_Meta o)
      ∧ spec_kept k (Kube_Spec o) (Kube_Spec o');
  server_status k o w r w' : kube_StatusUpdate cl k o w = (r, w') →
    ∀ k' key, k' ≠ k → view w' k' key = view w k' key;
  server_delete k o w r w' : kube_Delete (kube cl k) o w = (r, w') →
    ∀ k' key', (k', key') ≠ (k, object_key o) → view w' k' key' = view w k' key';
}.

(** The objects of all kinds but those in [ks] are [v]. *)
Definition agree {W} (view : W → Objects) (ks : list Kind) (v : Objects) (w : W) : Prop :=
  ∀ k key, k ∉ ks → view w k key = v k key.

(** A call on a field that succeeds, and its object. *)
Lemma on_Ok {W D O A} (f : D → O) put (m : O → io W (A * O)) w d a w' d' :
  on f put m (w, d) = (Ok a, (w', d')) → ∃ o, m (f d) w = (Ok (a, o), w') ∧ d' = put o d.
Proof. unfold on. destruct (m (f d) w) as [[[a1 o]|e|x] w1]; intros [=]; subst. by exists o. Qed.
Lemma each_ok {E W A} (f : A → effect E W unit) x l w w' :
  each_effect f (x :: l) w = (Ok tt, w') → ∃ w1, f x w = (Ok tt, w1) ∧ each_effect f l w1 = (Ok tt, w').
Proof. intros ([] & w1 & H)%bind_ok. by exists w1. Qed.

Section server.
Context {W : Type} (view : W → Objects) (cl : KubeClient W) `{!ServerLaws view cl}.
Notation agrees := (agree view).

Lemma agree_refl ks w : agrees ks (view w) w.
Proof. done. Qed.
Lemma agree_trans ks v w w' : agrees ks v w → agrees ks (view w) w' → agrees ks v w'.
Proof. intros H1 H2 k key Hk. by rewrite H2, H1. Qed.
Lemma agree_weaken ks ks' v w : (∀ k, k ∈ ks → k ∈ ks') → agrees ks v w → agrees ks' v w.
Proof. intros Hs H k key Hk. apply H. intros Hin. by apply Hk, Hs. Qed.

(** ** A call of the client *)
Lemma object_with_key {S} (o : Kube S) key : object_key (with_Meta (with_key key (Kube_Meta o)) o) = key.
Proof. by destruct key. Qed.

Lemma load_spec {k} (o : object k) w r w' :
  Keyed_Load (kube cl k) o w = (r, w') →
  agrees [] (view w) w'
  ∧ ∀ ok o', r = Ok (ok, o') →
    o'.1 = o.1 ∧ object_key o'.2 = o.1
    ∧ if ok : bool then view w k o.1 = Some o'.2
      else view w k o.1 = None ∧ o'.2 = with_Meta (with_key o.1 (Kube_Meta o.2)) o.2.
Proof.
  unfold Keyed_Load, GetIgnoreNotFound. rewrite !effect_bind_run. unfold attempt.
  destruct (kube_Get (kube cl k) o.1 w) as [[o1|e|x] w1] eqn:E; apply server_get in E as [Hv Hr].
  - intros [= <- <-]. split; [by intros k' key' _|]. intros ok o' [= <- <-]. cbn. naive_solver.
  - cbn. destruct (is_not_found e); intros [= <- <-].
    + split; [by intros k' key' _|]. intros ok o' [= <- <-]. cbn. rewrite object_with_key. auto.
    + by split; [intros k' key' _|].
  - intros [= <- <-]. by split; [intros k' key' _|].
Qed.

Lemma persist_spec {k} (o : object k) w r w' :
  Keyed_Persist (kube cl k) o w = (r, w') →
  (∀ k' key', (k', key') ≠ (k, o.1) → view w' k' key' = view w k' key')
  ∧ ∀ u o', r = Ok (u, o') →
    o'.1 = o.1 ∧ object_key o'.2 = o.1 ∧ view w' k o.1 = Some o'.2
    ∧ Annotations (Kube_Meta o'.2) = Annotations (Kube_Meta o.2)
    ∧ spec_kept k (Kube_Spec o.2) (Kube_Spec o'.2).
Proof.
  unfold Keyed_Persist, CreateOrUpdate, Exists. rewrite effect_bind_run.
  set (o1 := with_Meta (with_key o.1 (Kube_Meta o.2)) o.2).
  assert (Hk : object_key o1 = o.1) by apply object_with_key.
  intros H. destruct ((if negb (String.eqb (Meta_UID (Kube_Meta o1)) "")
      then kube_Update (kube cl k) o1 else kube_Create (kube cl k) o1) w) as [r1 w1] eqn:E.
  assert (Hw : kube_Create (kube cl k) o1 w = (r1, w1) ∨ kube_Update (kube cl k) o1 w = (r1, w1))
    by (destruct (negb _); auto).
  apply server_write in Hw as (Hv & _ & Hr). rewrite Hk in *.
  destruct r1 as [o2|e|x]; injection H as <- <-; (split; [done|]); [|done..].
  intros u o' [= _ <-]. destruct (Hr o2 eq_refl) as (H1 & H2 & _ & H3 & H4). by split_and!.
Qed.

Lemma load_agree ks v k (o : object k) : invariant (agrees ks v) (Keyed_Load (kube cl k) o).
Proof.
  intros w r w' Hv E. apply load_spec in E as [Hv' _]. eapply agree_trans; [exact Hv|].
  eapply agree_weaken; [|exact Hv']. intros k' Hk'. by apply elem_of_nil in Hk'.
Qed.
Lemma persist_agree ks v k (o : object k) :
  k ∈ ks → invariant (agrees ks v) (Keyed_Persist (kube cl k) o).
Proof.
  intros Hin w r w' Hv E k' key Hk'. apply persist_spec in E as [Hv' _].
  rewrite Hv'; [by apply Hv|]. intros [= -> _]. done.
Qed.

(** ** Service accounts *)
Lemma retry_rounds_keeps {S} (I : S → Prop) fn :
  (∀ s, I s → I (fn s).2) → ∀ rounds last s, I s → I (retry_rounds rounds last fn s).2.
Proof.
  intros Hfn rounds. induction rounds as [|n IH]; intros last s Hs; cbn; [done|].
  specialize (Hfn s Hs). destruct (fn s) as [rt s']. cbn in Hfn.
  destruct (_ || _); [done|]. by apply IH.
Qed.

Definition account_loaded (key : ObjectKey) (ks : list Kind) (v : Objects)
    (st : W * (ServiceAccount * bool * option string)) : Prop :=
  let '(w, (sa, ok, _)) := st in
  agrees ks v w ∧ (Sa sa).1 = key ∧ (ok = true → is_Some (DefaultTokenSecret sa)).

Lemma required_secret_agree ks v s : invariant (agrees ks v) (load_required_secret cl s).
Proof.
  intros w r w' Hv. unfold load_required_secret.
  destruct (Keyed_Load (kube cl KSecret) s w) as [[[ok s']|e|x] w1] eqn:E;
    apply (load_agree ks v KSecret s) in E; try done; intros [= _ <-]; done.
Qed.
Lemma token_secret_agree ks v sa w r w' :
  agrees ks v w → loadDefaultTokenSecret cl sa w = (r, w') →
  agrees ks v w' ∧ ∀ e sa', r = Ok (e, sa') → (Sa sa').1 = (Sa sa).1
    ∧ (e = None ∨ is_Some (DefaultTokenSecret sa) → is_Some (DefaultTokenSecret sa')).
Proof.
  intros Hv. unfold loadDefaultTokenSecret.
  destruct (Sa_Secrets _) as [|name names].
  { intros [= <- <-]. split; [done|]. intros e sa' [= <- <-]. split; [done|by intros [|]]. }
  destruct (String.eqb name "").
  { intros [= <- <-]. split; [done|]. intros e sa' [= <- <-]. split; [done|by intros [|]]. }
  cbv zeta. destruct (_ && _).
  { intros [= <- <-]. split; [done|]. intros e sa' [= <- <-]. by split. }
  rewrite effect_bind_run. destruct (load_required_secret cl _ w) as [[[e s']|e|x] w1] eqn:E;
    apply (required_secret_agree ks v) in E; try done; intros [= <- <-]; (split; [done|]); try done.
  intros e' sa' [= <- <-]. by split.
Qed.

Lemma round_keeps key ks v st :
  account_loaded key ks v st → account_loaded key ks v (load_round cl st).2.
Proof.
  destruct st as [w [[sa ok] p]]. intros (Hv & Hk & Ht). unfold load_round.
  destruct (Keyed_Load (kube cl KServiceAccount) (Sa sa) w) as [[[found o]|e|x] w1] eqn:E;
    [|apply (load_agree ks v) in E; by try split_and!..].
  assert (Hv1 := load_agree ks v _ _ _ _ _ Hv E). apply load_spec in E as [_ E].
  destruct (E found o eq_refl) as [Ho _]. assert (Hk1 := eq_trans Ho Hk).
  destruct found; cbn [negb]; [|by split_and!].
  destruct (loadDefaultTokenSecret cl (on_account (λ _, o) sa) w1) as [[[[e|] sa']|e|x] w2] eqn:E2;
    apply (token_secret_agree ks v) in E2 as [Hv2 Hr]; try done.
  - destruct (Hr _ _ eq_refl) as [Hs Hd]. split_and!; [done|exact (eq_trans Hs Hk1)|auto].
  - destruct (Hr _ _ eq_refl) as [Hs Hd]. split_and!; [done|exact (eq_trans Hs Hk1)|auto].
Qed.

Lemma account_load_spec ks v rounds sa w r w' :
  agrees ks v w → ServiceAccount_Load cl rounds sa w = (r, w') →
  agrees ks v w' ∧ ∀ ok sa', r = Ok (ok, sa') →
    (Sa sa').1 = (Sa sa).1 ∧ (ok = true → is_Some (DefaultTokenSecret sa')).
Proof.
  intros Hv. unfold ServiceAccount_Load, Retry.
  assert (Hi : account_loaded (Sa sa).1 ks v (w, (sa, false, None))) by by split_and!.
  assert (Hr := retry_rounds_keeps _ (load_round cl) (round_keeps _ ks v) rounds None _ Hi).
  destruct (retry_rounds _ _ _ _) as [e [w1 [[sa1 ok1] p]]]. destruct Hr as (Hv1 & Hk & Ht).
  destruct e as [e|], p as [x|]; try (intros [= <- <-]; by split).
  intros [= <- <-]. split; [done|]. by intros ok sa' [= <- <-].
Qed.
Lemma account_persist_spec ks v rounds sa w r w' :
  KServiceAccount ∈ ks → agrees ks v w → ServiceAccount_Persist cl rounds sa w = (r, w') →
  agrees ks v w' ∧ ∀ u sa', r = Ok (u, sa') →
    (Sa sa').1 = (Sa sa).1 ∧ is_Some (DefaultTokenSecret sa').
Proof.
  intros Hin Hv E. apply bind_run in E as [([u o] & w1 & E1 & E)|(o & E1 & Ho)].
  2: { split; [by eapply persist_agree|]. intros u sa' ->. by destruct (Ho (u, sa')). }
  assert (Hv1 := persist_agree ks v _ _ Hin _ _ _ Hv E1). apply persist_spec in E1 as [_ E1].
  destruct (E1 u o eq_refl) as [Hk _].
  apply bind_run in E as [([ok sa1] & w2 & E2 & E)|(o2 & E2 & Ho)].
  - apply (account_load_spec ks v) in E2 as [Hv2 E2]; [|done].
    destruct (E2 ok sa1 eq_refl) as [Hk2 Ht]. destruct ok; injection E as <- <-.
    + split; [done|]. intros u' sa' [= _ <-]. split; [exact (eq_trans Hk2 Hk)|auto].
    + by split.
  - apply (account_load_spec ks v) in E2 as [Hv2 _]; [|done]. split; [done|].
    intros u' sa' ->. by destruct (Ho (u', sa')).
Qed.

(** ** The fields of a structure *)
(** What persisting leaves on the server. *)
Definition on_server {k} (w : W) (o : object k) : Prop :=
  ∃ o', view w k o.1 = Some o' ∧ spec_kept k (Kube_Spec o.2) (Kube_Spec o')
        ∧ Annotations (Kube_Meta o') = Annotations (Kube_Meta o.2).

Lemma on_server_frame {k} w w' (o : object k) :
  view w' k o.1 = view w k o.1 → on_server w o → on_server w' o.
Proof. intros E (o' & H & Hk). exists o'. by rewrite E. Qed.

Lemma on_server_at {k} w (o : object k) key :
  on_server w o → o.1 = key →
  ∃ o', view w k key = Some o' ∧ spec_kept k (Kube_Spec o.2) (Kube_Spec o')
        ∧ Annotations (Kube_Meta o') = Annotations (Kube_Meta o.2).
Proof. intros (o' & H & Hs & Ha) <-. by exists o'. Qed.

Lemma persist_optional_spec {D} k f put w (d : D) w' d' :
  (∀ d, put d (f d) = d) →
  persist_optional cl k f put (w, d) = (Ok tt, (w', d')) →
  agrees [k] (view w) w' ∧ ∃ o, d' = put d o.
Proof.
  intros Hp. unfold persist_optional, unless_nil. destruct (f d) as [o|] eqn:Ef.
  - intros (o' & E & ->)%on_Ok. split; [|by exists (Some o')].
    eapply (persist_agree [k]); [by left|apply agree_refl|exact E].
  - intros [= <- <-]. split; [done|]. exists None. by rewrite <- Ef, Hp.
Qed.
Lemma persist_field_spec {D} k f put w (d : D) w' d' :
  persist_field cl k f put (w, d) = (Ok tt, (w', d')) →
  (∀ k' key', (k', key') ≠ (k, (f d).1) → view w' k' key' = view w k' key')
  ∧ on_server w' (f d) ∧ ∃ o, o.1 = (f d).1 ∧ d' = put d o.
Proof.
  unfold persist_field. intros (o & E & ->)%on_Ok.
  apply persist_spec in E as [Hv E]. destruct (E tt o eq_refl) as (H1 & _ & H2 & H3 & H4).
  split; [done|]. split; [by exists o.2|by exists o].
Qed.
Lemma persist_account_spec {D} rounds f put w (d : D) w' d' :
  persist_account cl rounds f put (w, d) = (Ok tt, (w', d')) →
  agrees [KServiceAccount] (view w) w'
  ∧ ∃ a, (Sa a).1 = (Sa (f d)).1 ∧ is_Some (DefaultTokenSecret a) ∧ d' = put d a.
Proof.
  unfold persist_account. intros (a & E & ->)%on_Ok.
  apply (account_persist_spec [KServiceAccount] (view w)) in E as [Hv E]; [|by left|done].
  destruct (E tt a eq_refl) as [H1 H2]. split; [done|]. by exists a.
Qed.
End server.

(** The calls of a sequence that succeeds, one by one. *)
Ltac persisted H w :=
  apply each_ok in H as ([w ?d] & ?E & H).
Ltac other_object := first [done | by rewrite list_elem_of_singleton | intros [=]; by congruence].
