(* ===== verification/SampleServer.v ===== *)
(** * Sample API servers, in memory

    [Cluster] holds what the reconciliation of a tenant reads and writes; [Server] keeps a
    store for every kind of object, gives every object a UID and every service account the
    name of a secret.  They show that the laws the theorems ask of the Kubernetes clients
    can hold, and run the controllers on concrete objects. *)
From S2P Require Import Prelude GoStd GoStrings Values Errors Transfer ResultMapper Model.
From S2P Require Import ConfigMaps ObjUtil Graph RunStatus Workflow KubeObjects NetworkPolicy.
From S2P Require Import TenantDeps TenantReconcile RunObjects Invariants TenantTheory ServerTheory.

(** ** The objects around a tenant *)
Notation store S := (gmap ObjectKey (Kube S)).

Record Cluster := MkCluster {
  k_namespaces : store unit; k_policies : store NetworkPolicySpec;
  k_limits : store (option LimitRangeSpec); k_secrets : store SecretData;
  k_tenants : store TenantSpec; k_claims : store PersistentVolumeClaim;
  k_volumes : store PersistentVolume; k_jobs : store Job }.

Definition put_namespaces s c := MkCluster s (k_policies c) (k_limits c) (k_secrets c) (k_tenants c) (k_claims c) (k_volumes c) (k_jobs c).
Definition put_policies s c := MkCluster (k_namespaces c) s (k_limits c) (k_secrets c) (k_tenants c) (k_claims c) (k_volumes c) (k_jobs c).
Definition put_limits s c := MkCluster (k_namespaces c) (k_policies c) s (k_secrets c) (k_tenants c) (k_claims c) (k_volumes c) (k_jobs c).
Definition put_secrets s c := MkCluster (k_namespaces c) (k_policies c) (k_limits c) s (k_tenants c) (k_claims c) (k_volumes c) (k_jobs c).
Definition put_tenants s c := MkCluster (k_namespaces c) (k_policies c) (k_limits c) (k_secrets c) s (k_claims c) (k_volumes c) (k_jobs c).
Definition put_claims s c := MkCluster (k_namespaces c) (k_policies c) (k_limits c) (k_secrets c) (k_tenants c) s (k_volumes c) (k_jobs c).
Definition put_volumes s c := MkCluster (k_namespaces c) (k_policies c) (k_limits c) (k_secrets c) (k_tenants c) (k_claims c) s (k_jobs c).
Definition put_jobs s c := MkCluster (k_namespaces c) (k_policies c) (k_limits c) (k_secrets c) (k_tenants c) (k_claims c) (k_volumes c) s.

(** An object is served under its key, with a UID. *)
Definition with_uid (m : ObjectMeta) : ObjectMeta :=
  if String.eqb (Meta_UID m) "" then
    MkObjectMeta (Meta_Namespace m) (Meta_Name m) ("uid-" +:+ Meta_Name m) (Annotations m) (Labels m)
      (Finalizers m) (OwnerReferences m) (DeletionTimestamp m)
  else m.
Definition served {S} (key : ObjectKey) (o : Kube S) : Kube S :=
  with_Meta (with_uid (with_key key (Kube_Meta o))) o.
Definition key_of {S} (o : Kube S) : ObjectKey := (Meta_Namespace (Kube_Meta o), Meta_Name (Kube_Meta o)).

Definition memory {S} (get : Cluster → store S) (put : store S → Cluster → Cluster)
    : ObjectClient Cluster S := {|
  kube_Get key w := match get w !! key with
                    | Some o => (Ok (served key o), w)
                    | None => (Err (EAPI ReasonNotFound "not found"), w)
                    end;
  kube_Create o w := match get w !! key_of o with
                     | Some _ => (Err (EAPI ReasonAlreadyExists "already exists"), w)
                     | None => (Ok (served (key_of o) o), put (<[key_of o := o]> (get w)) w)
                     end;
  kube_Update o w := match get w !! key_of o with
                     | Some _ => (Ok o, put (<[key_of o := o]> (get w)) w)
                     | None => (Err (EAPI ReasonNotFound "not found"), w)
                     end;
  kube_Delete o w := match get w !! key_of o with
                     | Some _ => (Ok tt, put (delete (key_of o) (get w)) w)
                     | None => (Err (EAPI ReasonNotFound "not found"), w)
                     end |}.

Definition memory_tenants : ObjectClient Cluster TenantSpec := memory k_tenants put_tenants.
Definition memory_clients : Clients Cluster := {|
  namespaces := memory k_namespaces put_namespaces;
  network_policies := memory k_policies put_policies;
  limit_ranges := memory k_limits put_limits;
  secrets := memory k_secrets put_secrets;
  tenants := memory_tenants;
  tenants_StatusUpdate := kube_Update memory_tenants |}.
Definition memory_volumes : VolumeClients Cluster := {|
  claims := memory k_claims put_claims; volumes := memory k_volumes put_volumes;
  jobs := memory k_jobs put_jobs |}.

(** The namespaces of the cluster, as they are served. *)
Definition cluster_view : View Cluster := λ w n,
  (λ o, Kube_Meta (served ("", n) o)) <$> k_namespaces w !! ("", n).

Lemma memory_read_only {S} (get : Cluster → store S) put :
  (∀ s w, k_namespaces (put s w) = k_namespaces w) → ReadOnlyFor cluster_view (memory get put).
Proof.
  intros Hput v.
  assert (Hsame : ∀ s w, same_view cluster_view v w → same_view cluster_view v (put s w))
    by (intros s w Hv n; unfold cluster_view; rewrite Hput; apply Hv).
  split; [intros key|intros o..]; intros w r w' Hv; cbn; case_match; intros E;
    injection E as _ <-; auto.
Qed.

#[export] Instance memory_namespaces : NamespaceClient cluster_view (namespaces memory_clients).
Proof.
  split; cbn.
  - intros v key w r w' Hv. case_match; intros E; by injection E as _ <-.
  - intros n w o w' E. unfold cluster_view.
    destruct (k_namespaces w !! ("", n)) as [o1|]; [|discriminate E].
    injection E as <- _. split; [done|]. cbn. unfold with_uid. cbn. by destruct (String.eqb _ _).
  - intros n w e w' E _. unfold cluster_view.
    destruct (k_namespaces w !! ("", n)) as [o1|]; [discriminate E|done].
  - intros o n w r w' Hs. unfold cluster_view in *. rewrite fmap_is_Some in *.
    destruct (k_namespaces w !! key_of o) eqn:E; intros Eq; injection Eq as _ <-; [done|]. cbn.
    destruct (decide (key_of o = ("", n))) as [->|]; [by rewrite lookup_insert_eq|].
    by rewrite lookup_insert_ne.
  - intros o n w r w' Hs. unfold cluster_view in *. rewrite fmap_is_Some in *.
    destruct (k_namespaces w !! key_of o) eqn:E; intros Eq; injection Eq as _ <-; [|done]. cbn.
    destruct (decide (key_of o = ("", n))) as [->|]; [by rewrite lookup_insert_eq|].
    by rewrite lookup_insert_ne.
  - intros o n x Hn w r w' Hx. unfold cluster_view in *.
    destruct (k_namespaces w !! key_of o) eqn:E; intros Eq; injection Eq as _ <-; [|done]. cbn.
    rewrite lookup_delete_ne; [done|]. intros [= _ Hk]. by apply Hn.
Qed.

#[export] Instance memory_tenant_client : TenantClient (tenants memory_clients).
Proof.
  split; cbn.
  - intros [ns name] w o w' E. destruct (k_tenants w !! (ns, name)) as [o1|]; [|discriminate E].
    injection E as <- _. cbn. unfold with_uid. cbn.
    destruct (String.eqb_spec (Meta_UID (Kube_Meta o1)) ""); by cbn.
  - intros o w o' w' E. destruct (k_tenants w !! key_of o); [|discriminate E]. by injection E as <- _.
Qed.

(** ** All kinds of objects *)
Definition Server : Type := ∀ k, store (spec_of k).
Definition put_store (k : Kind) (m : store (spec_of k)) (w : Server) : Server := λ k',
  match decide (k = k') with
  | left e => eq_rect k (λ k, store (spec_of k)) m k' e
  | right _ => w k'
  end.

Definition given_secret (k : Kind) : string → spec_of k → spec_of k :=
  match k with
  | KServiceAccount => λ name s,
      MkServiceAccountSpec [name +:+ "-token"] (AutomountServiceAccountToken s)
  | _ => λ _ s, s
  end.
(** What the server makes of an object. *)
Definition stored (k : Kind) (o : Kube (spec_of k)) : Kube (spec_of k) :=
  MkKube (with_uid (Kube_Meta o)) (given_secret k (Meta_Name (Kube_Meta o)) (Kube_Spec o)).
Definition write (k : Kind) (o : Kube (spec_of k)) (w : Server)
    : outcome error (Kube (spec_of k)) * Server :=
  (Ok (stored k o), put_store k (<[object_key o := stored k o]> (w k)) w).

Definition server_view : Server → Objects := λ w k key,
  o ← w k !! key; if decide (object_key o = key ∧ Meta_UID (Kube_Meta o) ≠ "") then Some o else None.

Definition server_client (k : Kind) : ObjectClient Server (spec_of k) := {|
  kube_Get key w := match server_view w k key with
                    | Some o => (Ok o, w)
                    | None => (Err (EAPI ReasonNotFound "not found"), w)
                    end;
  kube_Create o w := match server_view w k (object_key o) with
                     | Some _ => (Err (EAPI ReasonAlreadyExists "already exists"), w)
                     | None => write k o w
                     end;
  kube_Update o w := match server_view w k (object_key o) with
                     | Some _ => write k o w
                     | None => (Err (EAPI ReasonNotFound "not found"), w)
                     end;
  kube_Delete o w := (Ok tt, put_store k (delete (object_key o) (w k)) w) |}.
Definition server : KubeClient Server :=
  {| kube := server_client; kube_StatusUpdate k := kube_Update (server_client k) |}.

Lemma put_store_same k m w : put_store k m w k = m.
Proof.
  unfold put_store. destruct (decide (k = k)) as [e|]; [|done]. by rewrite (proof_irrel e eq_refl).
Qed.
Lemma put_store_other k m w k' : k' ≠ k → put_store k m w k' = w k'.
Proof. intros Hk. unfold put_store. by destruct (decide (k = k')) as [->|]. Qed.

Lemma stored_key k o : object_key (stored k o) = object_key o.
Proof. unfold stored, with_uid, object_key. by destruct (String.eqb _ _). Qed.
Lemma stored_uid k o : Meta_UID (Kube_Meta (stored k o)) ≠ "".
Proof. unfold stored, with_uid. by destruct (String.eqb_spec (Meta_UID (Kube_Meta o)) ""). Qed.
Lemma stored_same_uid k o :
  Meta_UID (Kube_Meta o) ≠ "" → Meta_UID (Kube_Meta (stored k o)) = Meta_UID (Kube_Meta o).
Proof. unfold stored, with_uid. by destruct (String.eqb_spec (Meta_UID (Kube_Meta o)) ""). Qed.
Lemma stored_annotations k o : Annotations (Kube_Meta (stored k o)) = Annotations (Kube_Meta o).
Proof. unfold stored, with_uid. by destruct (String.eqb _ _). Qed.
Lemma stored_spec k o : spec_kept k (Kube_Spec o) (Kube_Spec (stored k o)).
Proof. by destruct k. Qed.

Lemma view_write k o w r w' :
  write k o w = (r, w') →
  r = Ok (stored k o) ∧ server_view w' k (object_key o) = Some (stored k o)
  ∧ ∀ k' key', (k', key') ≠ (k, object_key o) → server_view w' k' key' = server_view w k' key'.
Proof.
  intros [= <- <-]. split_and!; [done| |].
  - unfold server_view. rewrite put_store_same, lookup_insert_eq. cbn.
    by rewrite decide_True by (split; [apply stored_key|apply stored_uid]).
  - intros k' key' Hne. unfold server_view. destruct (decide (k' = k)) as [->|Hk].
    + rewrite put_store_same, lookup_insert_ne; [done|]. intros <-. by apply Hne.
    + by rewrite put_store_other.
Qed.

Lemma view_delete k (o : Kube (spec_of k)) w k' key' :
  (k', key') ≠ (k, object_key o) →
  server_view (put_store k (delete (object_key o) (w k)) w) k' key' = server_view w k' key'.
Proof.
  intros Hne. unfold server_view. destruct (decide (k' = k)) as [->|Hk]; [|by rewrite put_store_other].
  rewrite put_store_same, lookup_delete_ne; [done|]. intros <-. by apply Hne.
Qed.

#[export] Instance server_laws : ServerLaws server_view server.
Proof.
  split.
  - intros k key w r w'. cbn. destruct (server_view w k key) as [o|] eqn:E; intros [= <- <-].
    + split; [done|]. split; [by rewrite ?E|]. unfold server_view in E.
      apply bind_Some in E as (o' & _ & E). case_decide as Hd; simplify_eq. by destruct Hd.
    + by split.
  - intros k o w r w' H. cbn in H.
    assert (Hw : write k o w = (r, w') ∨ ∃ e, (Err e : outcome error _, w) = (r, w'))
      by (destruct (server_view w k (object_key o)), H; eauto).
    destruct Hw as [E|[e [= <- <-]]]; [|by split].
    apply view_write in E as (-> & Hv & Hf). split; [done|]. split; [by rewrite Hv|].
    intros o' [= <-].
    split_and!; [done|apply stored_key|apply stored_same_uid|apply stored_annotations|apply stored_spec].
  - intros k o w r w' H k' key Hk. cbn in H. destruct (server_view w k (object_key o)).
    + apply view_write in H as (_ & _ & Hf). apply Hf. by intros [= -> _].
    + by injection H as _ <-.
  - intros k o w r w' H k' key' Hne. injection H as _ <-. by apply view_delete.
Qed.
