(* ===== verification/TenantProperties.v ===== *)
(** * Properties of the tenant reconciler *)
From S2P Require Import Prelude GoStd GoStrings Values Errors Transfer ResultMapper Model.
From S2P Require Import ConfigMaps ObjUtil Workflow KubeObjects NetworkPolicy TenantDeps.
From S2P Require Import TenantReconcile Invariants TenantTheory ErrMark Samples ServerTheory SampleServer.

Section safety.
Context {W : Type} `{JSONText, GoFmt} (cl : Clients W) (vcl : VolumeClients W) (view : View W).
Context `{!NamespaceClient view (namespaces cl), !TenantClient (tenants cl)}.
Context `{!ReadOnlyFor view (network_policies cl), !ReadOnlyFor view (limit_ranges cl)}.
Context `{!ReadOnlyFor view (secrets cl), !ReadOnlyFor view (tenants cl)}.
Context `{!ReadOnlyFor view (claims vcl), !ReadOnlyFor view (volumes vcl), !ReadOnlyFor view (jobs vcl)}.

(** The identity of a tenant that was loaded, and of its copy when it is written. *)
Lemma Tenant_Load_identity key w t w' :
  Tenant_Load cl (NewTenant key) w = (Ok (true, t), w') →
  t.1 = key ∧ (Meta_Namespace (tenant_meta t), Meta_Name (tenant_meta t)) = key
  ∧ Meta_UID (tenant_meta t) ≠ "".
Proof.
  unfold Tenant_Load, Keyed_Load, GetIgnoreNotFound. rewrite !effect_bind_run. unfold attempt.
  destruct (kube_Get (tenants cl) _ w) as [[o|e|x] w1] eqn:E; cbn.
  - intros [= <- <-]. split; [done|]. by apply tenant_get in E.
  - destruct (is_not_found e); by intros [=].
  - by intros [=].
Qed.

Lemma Tenant_Persist_identity t w t' w' :
  (Meta_Namespace (tenant_meta t), Meta_Name (tenant_meta t)) = t.1 → Meta_UID (tenant_meta t) ≠ "" →
  Tenant_Persist cl t w = (Ok t', w') → identity (tenant_meta t') = identity (tenant_meta t).
Proof.
  intros Hkey Hu. unfold Tenant_Persist, Keyed_Persist, CreateOrUpdate, Exists.
  rewrite !effect_bind_run. cbn [Kube_Meta with_Meta with_key Meta_UID]. fold (tenant_meta t).
  rewrite (proj2 (String.eqb_neq _ _) Hu). cbn [negb].
  destruct (kube_Update _ _ w) as [[o|e|x] w1] eqn:E; cbn; intros [=]; subst.
  apply tenant_update in E. unfold tenant_meta at 1. cbn [snd]. rewrite E. cbn.
  unfold identity. cbn. rewrite <- Hkey. done.
Qed.

Lemma dependency_identity t t' m :
  identity (tenant_meta t') = identity (tenant_meta t) →
  IsDependencyOf m (TenantOwner t') = IsDependencyOf m (TenantOwner t).
Proof.
  intros [= E1 E2 E3]. unfold IsDependencyOf.
  assert (E : dependency_on (TenantOwner t') = dependency_on (TenantOwner t)); [|by rewrite E].
  unfold dependency_on, TenantOwner. cbn. congruence.
Qed.

(** A tenant is identified by its kind, its namespace, its name and its UID. *)
Definition depends_on (m : ObjectMeta) (t : TenantObject) : Prop :=
  IsDependencyOf m (TenantOwner t) = Ok true.

(** What the finalizer of a tenant that is not being deleted leaves of the tenant. *)
Lemma Finalize_kept t run w o w' :
  finalizing t = false → (Meta_Namespace (tenant_meta t), Meta_Name (tenant_meta t)) = t.1 →
  Meta_UID (tenant_meta t) ≠ "" →
  Finalize (Tenant_Persist cl) FinalizerName t run w = (o, w') →
  same_view view (view w) w' ∧ ∀ b t', o = Ok (b, t') → identity (tenant_meta t') = identity (tenant_meta t).
Proof.
  intros Hf Hkey Hu. unfold Finalize. rewrite Hf. cbn [add_finalizer Keyed_finalizable].
  unfold AddFinalizer. fold (tenant_meta t). destruct (existsb _ _) eqn:Ex.
  - intros [= <- <-]. split; [done|]. by intros b t' [= <- <-].
  - intros E. apply bind_run in E as [(t1 & w1 & E & E1)|(o' & E & Ho)].
    + injection E1 as <- <-. assert (Hi := E). apply Tenant_Persist_identity in Hi; [|done..].
      split.
      * eapply (invariant_bind (same_view view (view w))); [| |done|exact E];
          [apply invariant_Keyed_Persist, _|intros []; apply invariant_ret].
      * intros b t' [= <- <-]. exact Hi.
    + split; [|intros b t' ->; by destruct (Ho (b, t'))].
      eapply (invariant_bind (same_view view (view w))); [| |done|exact E];
          [apply invariant_Keyed_Persist, _|intros []; apply invariant_ret].
Qed.

(** The finalizer of a tenant that is being deleted runs, and ends the reconciliation. *)
Lemma Finalize_ran (P : W → Prop) t run w o w' :
  finalizing t = true → invariant P run → KeptBy P (tenants cl) → P w →
  Finalize (Tenant_Persist cl) FinalizerName t run w = (o, w') →
  P w' ∧ ∀ b t', o = Ok (b, t') → b = true.
Proof.
  intros Hf Hrun Hk Hp. unfold Finalize. rewrite Hf. intros E. split.
  - revert E. apply (invariant_bind P run); [done| |done]. intros _.
    apply invariant_bind; [|intros; apply invariant_ret].
    apply invariant_bind; [by apply invariant_Keyed_Persist|]. intros []. apply invariant_ret.
  - intros b t' ->. apply bind_run in E as [(u & w1 & _ & E)|(o' & _ & Ho)];
      [|by destruct (Ho (b, t'))].
    apply bind_run in E as [(t1 & w2 & _ & E)|(o' & _ & Ho)]; [|by destruct (Ho (b, t'))].
    by injection E as <- _ _.
Qed.

(** The namespaces that may go. *)
Definition removable (t : TenantObject) (n : string) (m : ObjectMeta) : bool :=
  match IsDependencyOf m (TenantOwner t) with Ok true => true | _ => false end
  && (bool_decide (stale_name t = Some n)
      || (finalizing t && Managed t && String.eqb n (template_namespace t))).

Context (Hstatus : ∀ v o, invariant (same_view view v) (tenants_StatusUpdate cl o)).

Lemma load_deps_ok t w td w' :
  load_deps cl (NewTenantDeps t) w = (Ok td, w') →
  same_view view (view w) w' ∧ deps_ok (view w) t td ∧ Td_Tenant td = t.
Proof.
  unfold load_deps, on_deps. rewrite effect_bind_run.
  destruct (TenantDeps_Load cl (w, NewTenantDeps t)) as [r [w1 d1]] eqn:E. cbn.
  destruct r; [|by intros [=]..]. intros [= <- <-].
  apply (deps_loaded cl view (view w)) in E as (Hv & Ht & Hn & Hs); [|done]. by split_and!.
Qed.

Lemma load_deps_view t w r w' :
  load_deps cl (NewTenantDeps t) w = (r, w') → same_view view (view w) w'.
Proof.
  unfold load_deps, on_deps. rewrite effect_bind_run.
  destruct (TenantDeps_Load cl (w, NewTenantDeps t)) as [r1 [w1 d1]] eqn:E. cbn.
  apply (deps_loaded cl view (view w)) in E as (Hv & _); [|done].
  destruct r1; by intros [= _ <-].
Qed.

(** After the deletions the namespace is there, and stays. *)
Lemma reconcile_tail_there image now tn deps n :
  invariant (there view n)
    ('(tn, tdr) ← settle cl now tn deps;
     match VolumeClaimTemplate (tenant_spec tn) with
     | None => if Ready tn then done_ else requeue
     | Some template => inject_tools cl vcl image now tn tdr template
     end).
Proof.
  apply invariant_bind; [by apply settle_there|]. intros [tn' tdr].
  destruct (VolumeClaimTemplate _); [by apply inject_tools_there|].
  destruct (Ready tn'); apply invariant_ret.
Qed.

Lemma reconcile_tenant_there image now t w r w' n m :
  (Meta_Namespace (tenant_meta t), Meta_Name (tenant_meta t)) = t.1 → Meta_UID (tenant_meta t) ≠ "" →
  view w n = Some m → removable t n m = false →
  reconcile_tenant cl vcl image now t w = (r, w') → there view n w'.
Proof.
  intros Hid Hu Hm Hrem Hrun. unfold reconcile_tenant in Hrun.
  assert (Hthere : ∀ x, view x n = Some m → there view n x) by (intros x Hx; by exists m).
  apply bind_run in Hrun as [(deps & w2 & E & Hrun)|(o & E & _)].
  2: { apply Hthere. unfold failing in E. destruct (load_deps _ _ w) as [r1 w2] eqn:E1.
       injection E as _ <-. by rewrite (load_deps_view _ _ _ _ E1). }
  apply failing_Ok, load_deps_ok in E as (Hv & Hok & Ht).
  assert (Hm2 : view w2 n = Some m) by (by rewrite Hv).
  assert (Hdep : ∀ m', view w n = Some m' →
    stale_name t = Some n ∨ (finalizing t = true ∧ Managed t = true ∧ n = template_namespace t) →
    ¬ depends_on m' t).
  { intros m' Hm' Hor Hd. rewrite Hm in Hm'. injection Hm' as <-. unfold removable in Hrem.
    rewrite Hd in Hrem. cbn [andb] in Hrem. apply orb_false_iff in Hrem as [H1 H2].
    apply bool_decide_eq_false in H1. destruct Hor as [Hs|(Hf & Hmg & ->)]; [done|].
    rewrite Hf, Hmg, String.eqb_refl in H2. discriminate H2. }
  assert (Hkept : KeptBy (λ x, view x n = Some m) (tenants cl))
    by (apply (read_only_kept view); [apply _|intros x x' Hx <-; apply Hx]).
  assert (Hfin : ∀ o w3, Finalize (Tenant_Persist cl) FinalizerName t
      (_ ← TenantDeps_Delete cl deps; mret tt) w2 = (o, w3) → view w3 n = Some m
      ∧ ∀ b tn, o = Ok (b, tn) → b = false → identity (tenant_meta tn) = identity (tenant_meta t)).
  { intros o w3 Ef. destruct (finalizing t) eqn:Hf.
    - apply (Finalize_ran (λ x, view x n = Some m)) in Ef as [Hm3 Hb]; [|done| |done..].
      + split; [done|]. intros b tn Ho ->. by specialize (Hb _ _ Ho).
      + apply invariant_bind; [|intros; apply invariant_ret].
        apply (TenantDeps_Delete_view cl view (view w) t); [done..|]. intros m' Hm' Hor.
        unfold dependent. rewrite Ht. apply (Hdep m' Hm'). naive_solver.
    - apply Finalize_kept in Ef as [Hv3 Hi]; [|done..]. rewrite Hv3. split; [done|]. eauto. }
  apply bind_run in Hrun as [([fin tn] & w3 & E & Hrun)|(o & E & _)].
  2: { apply Hthere. unfold returning in E. destruct (Finalize _ _ _ _ w2) as [o1 w3'] eqn:Ef.
       injection E as _ <-. by destruct (Hfin _ _ eq_refl). }
  unfold returning in E. destruct (Finalize _ _ _ _ w2) as [[[b tn']|e|x] w3'] eqn:Ef;
    cbn in E; try discriminate E.
  injection E as -> -> ->. destruct (Hfin _ _ eq_refl) as [Hm3 Hi].
  destruct fin; [injection Hrun as _ <-; by apply Hthere|]. specialize (Hi _ _ eq_refl eq_refl).
  assert (Hstale : invariant (λ x, view x n = Some m) (DeleteStale cl (with_tenant tn deps))).
  { apply (DeleteStale_view cl view (view w) t); [done|]. intros m' Hm' Hs.
    change (¬ depends_on m' tn). unfold depends_on. rewrite (dependency_identity t tn m' Hi).
    apply (Hdep m' Hm'). by left. }
  apply bind_run in Hrun as [(b & w4 & E4 & Hrun)|(o4 & E4 & _)].
  - apply (reconcile_tail_there image now tn (with_tenant tn deps) n w4 r w'); [|exact Hrun].
    apply Hthere. apply failing_Ok in E4. exact (Hstale _ _ _ Hm3 E4).
  - apply Hthere. exact (invariant_failing _ _ _ Hstale _ _ _ Hm3 E4).
Qed.

(** C4: A reconciliation of a tenant removes a namespace only if the namespace names that
    tenant, by its UID, as what it depends on; and of those only the one the tenant had
    before its template changed, or the one of its template once the tenant itself is
    being deleted. *)
Theorem tenant_namespaces_safe image now req w r w' n m :
  Reconcile cl vcl image now req w = (r, w') →
  view w n = Some m → view w' n = None →
  ∃ t w1, Tenant_Load cl (NewTenant req) w = (Ok (true, t), w1) ∧ depends_on m t
    ∧ (stale_name t = Some n
       ∨ (finalizing t = true ∧ Managed t = true ∧ n = template_namespace t)).
Proof.
  intros Hrun Hm Hnone.
  assert (Hstop : ¬ there view n w') by (intros [y Hy]; congruence).
  assert (Hview : ∀ x, same_view view (view w) x → there view n x)
    by (intros x Hx; exists m; by rewrite Hx).
  unfold Reconcile in Hrun. apply bind_run in Hrun as [([ok t] & w1 & E & Hrun)|(o & E & _)].
  2: { destruct Hstop. apply Hview. eapply invariant_failing; [|done|exact E].
       apply (invariant_Keyed_Load _ (tenants cl)). }
  apply failing_Ok in E.
  assert (H1 : same_view view (view w) w1)
    by (eapply (invariant_Keyed_Load (same_view view (view w)) (tenants cl)); [done|exact E]).
  destruct ok; cbn [negb] in Hrun.
  2: { destruct Hstop. injection Hrun as _ <-. by apply Hview. }
  exists t, w1. split; [done|]. apply Tenant_Load_identity in E as (Hkey & Hid & Hu).
  rewrite <- Hkey in Hid. destruct (removable t n m) eqn:Hr.
  - unfold removable in Hr. apply andb_prop in Hr as [Hd Hr]. split.
    { unfold depends_on. by destruct (IsDependencyOf _ _) as [[]| |]. }
    apply orb_prop in Hr as [Hs%bool_decide_eq_true|Hr]; [by left|right].
    apply andb_prop in Hr as [Hr ->%String.eqb_eq]. by apply andb_prop in Hr as [-> ->].
  - destruct Hstop. by apply (reconcile_tenant_there image now t w1 r w' n m);
      rewrite ?H1.
Qed.
End safety.

(** ** A tenant that is being deleted, and its namespace *)
Definition deleted_tenant : Kube TenantSpec :=
  MkKube (MkObjectMeta "system" "t1" "uid-1" None None [FinalizerName] [] (Some 7%Z))
    (MkTenantSpec 1%Z (MkObjectMeta "" "t1-ns" "" None None [] [] None) None None
       (MkTenantStatus 1%Z "t1-ns" [])).
Definition tenant_namespace : Kube unit :=
  MkKube (@SetDependencyOf tree_json (MkObjectMeta "" "t1-ns" "uid-ns" None None [] [] None)
            (TenantOwner (("system", "t1"), deleted_tenant))) tt.
Definition other_namespace : Kube unit :=
  MkKube (MkObjectMeta "" "other" "uid-o" None None [] [] None) tt.
Definition tenant_cluster : Cluster :=
  MkCluster (<[("", "t1-ns") := tenant_namespace]> {[("", "other") := other_namespace]})
    ∅ ∅ ∅ {[("system", "t1") := deleted_tenant]} ∅ ∅ ∅.
Definition reconciled : outcome (merror error) Result * Cluster :=
  @Reconcile Cluster tree_json sample_fmt memory_clients memory_volumes "" 9%Z ("system", "t1")
    tenant_cluster.

Lemma tenant_namespaces_safe_witness :
  ∃ t w1, @Tenant_Load Cluster memory_clients (NewTenant ("system", "t1")) tenant_cluster
    = (Ok (true, t), w1) ∧ @depends_on tree_json (Kube_Meta tenant_namespace) t
    ∧ (stale_name t = Some "t1-ns"
       ∨ (finalizing t = true ∧ Managed t = true ∧ "t1-ns" = template_namespace t)).
Proof.
  refine (@tenant_namespaces_safe Cluster tree_json sample_fmt memory_clients memory_volumes
    cluster_view _ _ (memory_read_only _ _ _) (memory_read_only _ _ _) (memory_read_only _ _ _)
    (memory_read_only _ _ _) (memory_read_only _ _ _) (memory_read_only _ _ _)
    (memory_read_only _ _ _) _ "" 9%Z ("system", "t1") tenant_cluster reconciled.1 reconciled.2 "t1-ns"
    (Kube_Meta tenant_namespace) (surjective_pairing _) _ _); try reflexivity.
  intros v o. exact (@kept_update _ _ _ _ (memory_read_only k_tenants put_tenants (λ _ _, eq_refl) v) o).
Defined.

(** ** The status of a tenant *)
Section tenant_status.
Context `{GoFmt}.

(** After its dependencies were written, a tenant is ready exactly when the write did
    not fail, its event sink, if any, has an endpoint and a token, and its tool injection,
    if any, has a job that is complete and did not fail; and configuring it again, at any
    later time, changes nothing, the transition times included. *)
Theorem tenant_ready now t deps err jcs t' :
  ConfigureTenant now t (AsTenantDepsResult (Some deps) err) jcs = Ok t' →
  (Ready t' = true ↔ err = None ∧ sink_configured deps ∧ tools_injected deps jcs)
  ∧ ∀ now', ConfigureTenant now' t' (AsTenantDepsResult (Some deps) err) jcs = Ok t'.
Proof.
  unfold ConfigureTenant. intros E. apply bind_Ok in E as (conds & _ & [= <-]). split.
  - rewrite Ready_configured, bool_decide_eq_true, transition_status, all_true, !Forall_cons.
    rewrite !transition_status, sink_status, tools_status, namespace_status.
    destruct err; naive_solver.
  - intros now'. rewrite conditions_read.
    cbn [mbind outcome_bind c_namespace c_event_sink c_tool_injection c_ready].
    by rewrite !transition_again.
Qed.
End tenant_status.

Definition a_job (failed : bool) : list JobCondition :=
  [MkJobCondition JobComplete ConditionTrue;
   MkJobCondition JobFailed (if failed then ConditionTrue else ConditionFalse)].
Definition with_tools : TenantObject :=
  (("system", "t2"), MkKube (MkObjectMeta "system" "t2" "uid-2" None None [] [] None)
    (MkTenantSpec 3%Z (MkObjectMeta "" "t2-ns" "" None None [] [] None) None
       (Some (MkVolumeClaimSpec [] ∅ None "")) (MkTenantStatus 1%Z "" []))).
Definition with_tools_deps : TenantDeps := NewTenantDeps with_tools.

Lemma tenant_ready_witness :
  match @ConfigureTenant sample_fmt 5%Z with_tools (AsTenantDepsResult (Some with_tools_deps) None)
          (a_job false) with
  | Ok t => Ready t = true ↔ (None : option error) = None ∧ sink_configured with_tools_deps
                              ∧ tools_injected with_tools_deps (a_job false)
  | _ => False
  end.
Proof.
  exact (proj1 (@tenant_ready sample_fmt 5%Z with_tools with_tools_deps None (a_job false) _ eq_refl)).
Defined.

(** A job that failed and is not complete, as Kubernetes reports a job that failed: the
    tenant is not ready, and no condition says that the injection failed. *)
Lemma failed_job_unknown :
  match @ConfigureTenant sample_fmt 5%Z with_tools (AsTenantDepsResult (Some with_tools_deps) None)
          [MkJobCondition JobFailed ConditionTrue] with
  | Ok t => Ready t = false
      ∧ Cond_Status <$> (Status_Conditions (tenant_status t)).*2
        = [ConditionTrue; ConditionTrue; ConditionUnknown; ConditionUnknown]
  | _ => False
  end.
Proof. split; reflexivity. Qed.

(** Before the volumes are looked at, a tenant that was ready is made not ready again. *)
Lemma ready_is_reset :
  match @ConfigureTenant sample_fmt 5%Z with_tools (AsTenantDepsResult (Some with_tools_deps) None)
          (a_job false) with
  | Ok t => Ready t = true
      ∧ match @ConfigureTenant sample_fmt 6%Z t (AsTenantDepsResult (Some with_tools_deps) None) []
        with Ok t' => Ready t' = false | _ => False end
  | _ => False
  end.
Proof. split; reflexivity. Qed.

(** A condition of a type the controller does not know is a nil pointer. *)
Lemma unknown_condition_panics :
  let t := with_tenant_status (MkTenantStatus 1%Z "" [("Custom", zero_condition)]) with_tools in
  @ConfigureTenant sample_fmt 5%Z t (AsTenantDepsResult (Some with_tools_deps) None) []
  = Panic "invalid memory address or nil pointer dereference".
Proof. reflexivity. Qed.

(** ** Dependencies *)
(** An object that was marked as depending on an owner is recognised as a dependency
    of exactly the objects with the owner's kind, version, namespace, name and UID, and of
    no other, whatever annotations the object had; its other annotations stay. *)
Theorem dependency_readback `{JSONTextLaws} m owner owner' :
  owner_utf8 owner →
  IsDependencyOf (SetDependencyOf m owner) owner'
    = Ok (bool_decide (dependency_on owner' = dependency_on owner))
  ∧ (∀ k, k ≠ RelayControllerDependencyOfAnnotation →
     default ∅ (Annotations (SetDependencyOf m owner)) !! k = default ∅ (Annotations m) !! k)
  ∧ SetDependencyOf (SetDependencyOf m owner) owner = SetDependencyOf m owner.
Proof.
  intros Hu. split_and!; [by apply dependency_of_spec| |].
  - intros k Hk. by apply annotate_other.
  - apply annotate_twice.
Qed.

Lemma dependency_readback_witness :
  let owner := TenantOwner with_tools in
  @IsDependencyOf tree_json (@SetDependencyOf tree_json zero_meta owner) owner
  = Ok (bool_decide (dependency_on owner = dependency_on owner)).
Proof.
  refine (proj1 (@dependency_readback tree_json _ zero_meta (TenantOwner with_tools)
                   (TenantOwner with_tools) _)).
  repeat constructor.
Defined.
