(* ===== verification/RunDeps.v ===== *)
(** * What a run depends on (pkg/obj/workflowrundeps.go)

    The objects that exist before a run's pipeline: they are loaded, configured from the
    run and persisted; the calls act on the world and on the structure of the objects. *)
From S2P Require Import Prelude GoStd GoStrings Values Errors Transfer Unresolvable Fn.
From S2P Require Import ResultMapper Model ConfigMaps ObjUtil Graph RunStatus RunConfig.
From S2P Require Import Authenticate AuthKubernetes AuthIssue Workflow ErrMark.
From S2P Require Import KubeObjects NetworkPolicy TenantReconcile RunObjects.

Definition WorkflowRunKind : GroupVersionKind := MkGVK "nebula.puppet.com/v1" "WorkflowRun".

(** ** Runs *)
Definition RunObject : Type := object KWorkflowRun.
Definition NewWorkflowRun (key : ObjectKey) : RunObject := NewObject KWorkflowRun key.
Definition run_of (wr : RunObject) : WorkflowRun := Spec_Run (Kube_Spec wr.2).
Definition with_run (r : WorkflowRun) (wr : RunObject) : RunObject :=
  on_object (λ o, with_Spec (MkRunSpec r (Spec_TenantRef (Kube_Spec o))) o) wr.
Definition RunOwner (wr : RunObject) : Owner := MkOwner WorkflowRunKind (Kube_Meta wr.2).
Definition run_owns (wr : RunObject) (k : Kind) (o : object k) : result (object k) :=
  owned_by KWorkflowRun (RunOwner wr) k o.

(** ** The structure *)
Record WorkflowRunDeps := MkWorkflowRunDeps {
  Wrd_WorkflowRun : RunObject;
  Wrd_Namespace : Namespace;
  Wrd_LimitRange : option (object KLimitRange);
  Wrd_NetworkPolicy : option (object KNetworkPolicy);
  ImmutableConfigMap : object KConfigMap;
  MutableConfigMap : object KConfigMap;
  MetadataAPIURL : string;
  MetadataAPIServiceAccount : ServiceAccount;
  MetadataAPIRole : object KRole;
  MetadataAPIRoleBinding : object KRoleBinding;
  PipelineServiceAccount : ServiceAccount;
  UntrustedServiceAccount : ServiceAccount }.

Section setters.
Context (d : WorkflowRunDeps).
Definition put_Namespace n := MkWorkflowRunDeps (Wrd_WorkflowRun d) n (Wrd_LimitRange d) (Wrd_NetworkPolicy d) (ImmutableConfigMap d) (MutableConfigMap d) (MetadataAPIURL d) (MetadataAPIServiceAccount d) (MetadataAPIRole d) (MetadataAPIRoleBinding d) (PipelineServiceAccount d) (UntrustedServiceAccount d).
Definition put_LimitRange l := MkWorkflowRunDeps (Wrd_WorkflowRun d) (Wrd_Namespace d) l (Wrd_NetworkPolicy d) (ImmutableConfigMap d) (MutableConfigMap d) (MetadataAPIURL d) (MetadataAPIServiceAccount d) (MetadataAPIRole d) (MetadataAPIRoleBinding d) (PipelineServiceAccount d) (UntrustedServiceAccount d).
Definition put_NetworkPolicy n := MkWorkflowRunDeps (Wrd_WorkflowRun d) (Wrd_Namespace d) (Wrd_LimitRange d) n (ImmutableConfigMap d) (MutableConfigMap d) (MetadataAPIURL d) (MetadataAPIServiceAccount d) (MetadataAPIRole d) (MetadataAPIRoleBinding d) (PipelineServiceAccount d) (UntrustedServiceAccount d).
Definition put_Immutable c := MkWorkflowRunDeps (Wrd_WorkflowRun d) (Wrd_Namespace d) (Wrd_LimitRange d) (Wrd_NetworkPolicy d) c (MutableConfigMap d) (MetadataAPIURL d) (MetadataAPIServiceAccount d) (MetadataAPIRole d) (MetadataAPIRoleBinding d) (PipelineServiceAccount d) (UntrustedServiceAccount d).
Definition put_Mutable c := MkWorkflowRunDeps (Wrd_WorkflowRun d) (Wrd_Namespace d) (Wrd_LimitRange d) (Wrd_NetworkPolicy d) (ImmutableConfigMap d) c (MetadataAPIURL d) (MetadataAPIServiceAccount d) (MetadataAPIRole d) (MetadataAPIRoleBinding d) (PipelineServiceAccount d) (UntrustedServiceAccount d).
Definition put_Metadata_account a := MkWorkflowRunDeps (Wrd_WorkflowRun d) (Wrd_Namespace d) (Wrd_LimitRange d) (Wrd_NetworkPolicy d) (ImmutableConfigMap d) (MutableConfigMap d) (MetadataAPIURL d) a (MetadataAPIRole d) (MetadataAPIRoleBinding d) (PipelineServiceAccount d) (UntrustedServiceAccount d).
Definition put_Role r := MkWorkflowRunDeps (Wrd_WorkflowRun d) (Wrd_Namespace d) (Wrd_LimitRange d) (Wrd_NetworkPolicy d) (ImmutableConfigMap d) (MutableConfigMap d) (MetadataAPIURL d) (MetadataAPIServiceAccount d) r (MetadataAPIRoleBinding d) (PipelineServiceAccount d) (UntrustedServiceAccount d).
Definition put_Binding b := MkWorkflowRunDeps (Wrd_WorkflowRun d) (Wrd_Namespace d) (Wrd_LimitRange d) (Wrd_NetworkPolicy d) (ImmutableConfigMap d) (MutableConfigMap d) (MetadataAPIURL d) (MetadataAPIServiceAccount d) (MetadataAPIRole d) b (PipelineServiceAccount d) (UntrustedServiceAccount d).
Definition put_Pipeline_account a := MkWorkflowRunDeps (Wrd_WorkflowRun d) (Wrd_Namespace d) (Wrd_LimitRange d) (Wrd_NetworkPolicy d) (ImmutableConfigMap d) (MutableConfigMap d) (MetadataAPIURL d) (MetadataAPIServiceAccount d) (MetadataAPIRole d) (MetadataAPIRoleBinding d) a (UntrustedServiceAccount d).
Definition put_Untrusted_account a := MkWorkflowRunDeps (Wrd_WorkflowRun d) (Wrd_Namespace d) (Wrd_LimitRange d) (Wrd_NetworkPolicy d) (ImmutableConfigMap d) (MutableConfigMap d) (MetadataAPIURL d) (MetadataAPIServiceAccount d) (MetadataAPIRole d) (MetadataAPIRoleBinding d) (PipelineServiceAccount d) a.
End setters.

(** ** Options *)
Definition WorkflowRunDepsOption : Type := WorkflowRunDeps → WorkflowRunDeps.
Definition WorkflowRunDepsWithStandaloneMode (standalone : bool) : WorkflowRunDepsOption := λ d,
  if standalone then put_LimitRange (put_NetworkPolicy d None) None else d.

Definition NewWorkflowRunDeps (wr : RunObject) (metadataAPIURL : string)
    (opts : list WorkflowRunDepsOption) : WorkflowRunDeps :=
  let key := wr.1 in
  foldl (λ d opt, opt d)
    (MkWorkflowRunDeps wr (NewNamespace key.1)
       (Some (NewObject KLimitRange key)) (Some (NewObject KNetworkPolicy key))
       (NewObject KConfigMap (SuffixObjectKey key "immutable"))
       (NewObject KConfigMap (SuffixObjectKey key "mutable"))
       metadataAPIURL
       (NewServiceAccount (SuffixObjectKey key "metadata-api"))
       (NewObject KRole (SuffixObjectKey key "metadata-api"))
       (NewObject KRoleBinding (SuffixObjectKey key "metadata-api"))
       (NewServiceAccount (SuffixObjectKey key "pipeline"))
       (NewServiceAccount (SuffixObjectKey key "untrusted")))
    opts.

Section deps.
Context {W : Type} (cl : KubeClient W) (rounds : nat).
Notation loader := (Loader W WorkflowRunDeps).
Notation persister := (Persister W WorkflowRunDeps).

Definition run_loaders : list loader :=
  [RequiredLoader (on Wrd_Namespace (λ n d, put_Namespace d n) (Namespace_Load (kube cl KNamespace)));
   load_optional cl KLimitRange Wrd_LimitRange put_LimitRange;
   load_optional cl KNetworkPolicy Wrd_NetworkPolicy put_NetworkPolicy;
   load_field cl KConfigMap ImmutableConfigMap put_Immutable;
   load_field cl KConfigMap MutableConfigMap put_Mutable;
   load_account cl rounds MetadataAPIServiceAccount put_Metadata_account;
   load_field cl KRole MetadataAPIRole put_Role;
   load_field cl KRoleBinding MetadataAPIRoleBinding put_Binding;
   load_account cl rounds PipelineServiceAccount put_Pipeline_account;
   load_account cl rounds UntrustedServiceAccount put_Untrusted_account].
Definition WorkflowRunDeps_Load : loader := Loaders_Load run_loaders.

Definition WorkflowRunDeps_Persist : persister := Persist_all
  [persist_optional cl KLimitRange Wrd_LimitRange put_LimitRange;
   persist_optional cl KNetworkPolicy Wrd_NetworkPolicy put_NetworkPolicy;
   persist_field cl KConfigMap ImmutableConfigMap put_Immutable;
   persist_field cl KConfigMap MutableConfigMap put_Mutable;
   persist_account cl rounds MetadataAPIServiceAccount put_Metadata_account;
   persist_field cl KRole MetadataAPIRole put_Role;
   persist_field cl KRoleBinding MetadataAPIRoleBinding put_Binding;
   persist_account cl rounds PipelineServiceAccount put_Pipeline_account;
   persist_account cl rounds UntrustedServiceAccount put_Untrusted_account].

(** ** Tokens *)
Definition run_action_deps (d : WorkflowRunDeps) : ActionDeps :=
  MkActionDeps (Wrd_Namespace d).1 (Meta_UID (Namespace_Object (Wrd_Namespace d)))
    (ImmutableConfigMap d).1.2 (MutableConfigMap d).1.2
    (default ∅ (Annotations (Kube_Meta (Wrd_WorkflowRun d).2))) None.

(** [DefaultTokenSecret.Token()]; the secret is nil until the account was loaded. *)
Definition account_token (sa : ServiceAccount) : effect auth_error W string :=
  lift match DefaultTokenSecret sa with
       | None => Panic "invalid memory address or nil pointer dereference"
       | Some s => map_err AuthError (ServiceAccountToken s)
       end.

Definition Wrd_AnnotateStepToken (issuer : Issuer_ W) (now : Z) (d : WorkflowRunDeps)
    (target : ObjectMeta) (ws : WorkflowStep) : effect auth_error W ObjectMeta :=
  AnnotateStepToken issuer (account_token (MetadataAPIServiceAccount d)) (run_action_deps d)
    (ModelStep (run_of (Wrd_WorkflowRun d)) ws) now target.
End deps.

(** ** Configuring *)
Definition own_account (wr : RunObject) (sa : ServiceAccount) : result ServiceAccount :=
  o ← run_owns wr KServiceAccount (Sa sa); Ok (on_account (λ _, o) sa).
Definition own_optional (wr : RunObject) (k : Kind) (o : option (object k))
    : result (option (object k)) :=
  match o with None => Ok None | Some o => o ← run_owns wr k o; Ok (Some o) end.

Definition own_all (d : WorkflowRunDeps) : result WorkflowRunDeps :=
  let wr := Wrd_WorkflowRun d in
  im ← run_owns wr KConfigMap (ImmutableConfigMap d);
  mu ← run_owns wr KConfigMap (MutableConfigMap d);
  msa ← own_account wr (MetadataAPIServiceAccount d);
  ro ← run_owns wr KRole (MetadataAPIRole d);
  rb ← run_owns wr KRoleBinding (MetadataAPIRoleBinding d);
  psa ← own_account wr (PipelineServiceAccount d);
  usa ← own_account wr (UntrustedServiceAccount d);
  lr ← own_optional wr KLimitRange (Wrd_LimitRange d);
  np ← own_optional wr KNetworkPolicy (Wrd_NetworkPolicy d);
  Ok (MkWorkflowRunDeps wr (Wrd_Namespace d) lr np im mu (MetadataAPIURL d) msa ro rb psa usa).

Definition label_all (d : WorkflowRunDeps) : WorkflowRunDeps :=
  let from := Kube_Meta (Wrd_WorkflowRun d).2 in
  MkWorkflowRunDeps (Wrd_WorkflowRun d) (Wrd_Namespace d) (Wrd_LimitRange d) (Wrd_NetworkPolicy d)
    (LabelAnnotateFrom from (ImmutableConfigMap d)) (LabelAnnotateFrom from (MutableConfigMap d))
    (MetadataAPIURL d) (on_account (LabelAnnotateFrom from) (MetadataAPIServiceAccount d))
    (LabelAnnotateFrom from (MetadataAPIRole d)) (MetadataAPIRoleBinding d)
    (on_account (LabelAnnotateFrom from) (PipelineServiceAccount d))
    (on_account (LabelAnnotateFrom from) (UntrustedServiceAccount d)).

Section configure.
Context `{GoRuntime, GoFmt, JSONText, Markdown} (fuel : nat).

(** An error of the configuration as the reconciler has it. *)
Definition config_failure (e : config_error) : merror error :=
  match e with
  | UserError e => MarkUser (Unmarked (EPlain e))
  | PlainError e => Unmarked (EPlain e)
  end.

(** The configuration of a ConfigMap writes to the object in memory. *)
Definition core_of (cm : object KConfigMap) : CoreConfigMap :=
  let '(MkConfigMapData data version) := Kube_Spec cm.2 in
  MkCoreConfigMap (Meta_Namespace (Kube_Meta cm.2)) (Meta_Name (Kube_Meta cm.2))
    (Meta_UID (Kube_Meta cm.2)) version data.
Definition configure_map (m : config) (cm : object KConfigMap)
    : outcome (merror error) (object KConfigMap) :=
  match m (core_of cm) with
  | (Ok _, core) =>
      Ok (set_spec (S := spec_of KConfigMap)
            (MkConfigMapData (Cm_Data core) (Cm_ResourceVersion core)) cm)
  | (Err e, _) => Err (config_failure e)
  | (Panic x, _) => Panic x
  end.

Definition unmarked {A} (r : result A) : outcome (merror error) A :=
  map_err (λ e, Unmarked (EPlain e)) r.

Definition ConfigureWorkflowRunDeps (d : WorkflowRunDeps) : outcome (merror error) WorkflowRunDeps :=
  d ← unmarked (own_all d);
  let d := label_all d in
  let wr := run_of (Wrd_WorkflowRun d) in
  let d := put_LimitRange d (ConfigureLimitRange [] <$> Wrd_LimitRange d) in
  let d := put_NetworkPolicy d
    (ConfigureNetworkPolicyForWorkflowRun (Wrd_WorkflowRun d).1.2 [] <$> Wrd_NetworkPolicy d) in
  im ← configure_map (ConfigureImmutableConfigMapForWorkflowRun fuel wr) (ImmutableConfigMap d);
  mu ← configure_map (ConfigureMutableConfigMapForWorkflowRun fuel wr) (MutableConfigMap d);
  let msa := ConfigureMetadataAPIServiceAccount (MetadataAPIServiceAccount d) in
  let role := ConfigureMetadataAPIRole im.1 mu.1 (MetadataAPIRole d) in
  Ok (MkWorkflowRunDeps (Wrd_WorkflowRun d) (Wrd_Namespace d) (Wrd_LimitRange d)
        (Wrd_NetworkPolicy d) im mu (MetadataAPIURL d) msa role
        (ConfigureMetadataAPIRoleBinding msa role.1 (MetadataAPIRoleBinding d))
        (ConfigureUntrustedServiceAccount (PipelineServiceAccount d))
        (ConfigureUntrustedServiceAccount (UntrustedServiceAccount d))).

Context {W : Type} (cl : KubeClient W) (rounds : nat).

(** A call on the structure, which a failed call has changed as far as it got. *)
Definition on_structure {D A} (m : io (W * D) A) (d : D) : effect (merror error) W D := λ w,
  match m (w, d) with
  | (Ok _, (w, d)) => (Ok d, w)
  | (Err e, (w, _)) => (Err (Unmarked (EPlain e)), w)
  | (Panic x, (w, _)) => (Panic x, w)
  end.

Definition ApplyWorkflowRunDeps (wr : RunObject) (metadataAPIURL : string)
    (opts : list WorkflowRunDepsOption) : effect (merror error) W WorkflowRunDeps :=
  d ← on_structure (WorkflowRunDeps_Load cl rounds) (NewWorkflowRunDeps wr metadataAPIURL opts);
  d ← lift (ConfigureWorkflowRunDeps d);
  on_structure (WorkflowRunDeps_Persist cl rounds) d.
End configure.
