(* ===== verification/Metrics.v ===== *)
(** * The metrics of workflow runs (cmd/relay-metrics)

    A loop lists the workflow runs and publishes how many of them have the status pending,
    or none yet, and how long ago the oldest of these was created, in whole seconds.  Times are nanoseconds; the seconds are computed
    as Go's floating-point numbers, with their rounding. *)
From S2P Require Import Prelude GoStd GoStrings Values Errors Model ConfigMaps ObjUtil Graph.
From S2P Require Import Transfer ResultMapper RunStatus KubeObjects NetworkPolicy TenantReconcile.
From S2P Require Import RunObjects RunDeps Samples.

(** ** Durations ([time.Time.Sub], [time.Duration.Seconds]) *)
Definition min_int64 : Z := (-2^63)%Z.
Definition max_int64 : Z := (2^63 - 1)%Z.
Definition Sub (t u : Z) : Z := Z.max min_int64 (Z.min max_int64 (t - u)).

Definition float_of (n : Z) : spec_float := binary_normalize 53 1024 n 0 false.
Definition Seconds (d : Z) : spec_float :=
  let sec := Z.quot d 1000000000 in
  let nsec := Z.rem d 1000000000 in
  SFadd 53 1024 (float_of sec) (SFdiv 53 1024 (float_of nsec) (float_of 1000000000)).

(** The conversion to an integer drops the fraction. *)
Definition int_of (f : spec_float) : Z :=
  match f with
  | S754_finite s m e =>
      let n := match e with
               | Z.neg _ => Z.quot (Z.pos m) (2 ^ (- e))
               | _ => (Z.pos m * 2 ^ e)%Z
               end in
      if s then (- n)%Z else n
  | _ => 0%Z
  end.

Definition projectID : string := "nebula-235818".
Definition statusType : string := "custom.googleapis.com/relay/workflowruns/status".
Definition oldestType : string := "custom.googleapis.com/relay/workflowruns/oldest_pending".

Record workflowRunMetric := MkRunMetric {
  Metric_Name : string; Metric_Status : string; SecondsSinceStart : spec_float }.

(** A point of a time series, of a metric in an environment. *)
Record TimeSeries := MkTimeSeries {
  Series_Type : string; Series_Environment : string; Series_Project : string; EndTime : Z;
  Int64Value : Z }.

Section metrics.
Context {W : Type}.
(** Listing the runs with the times of their creation; publishing a request; a reading of
    the clock. *)
Context (List_ : io W (list (RunObject * Z))) (CreateTimeSeries : string → list TimeSeries → io W unit).
Context (clock : W → Z * W) (environment : string) (publish : bool).

Definition run_metric (now : Z) (item : RunObject * Z) : workflowRunMetric :=
  MkRunMetric (Meta_Name (Kube_Meta item.1.2)) (Status (WorkflowRun_Status (run_of item.1)))
    (Seconds (Sub now item.2)).

(** An error of the list is a panic. *)
Definition getStatuses `{GoFmt} : io W (list workflowRunMetric) := λ w,
  let '(now, w) := clock w in
  match List_ w with
  | (Ok items, w) => (Ok (run_metric now <$> items), w)
  | (Err e, w) => (Panic (Error e), w)
  | (Panic x, w) => (Panic x, w)
  end.

Definition pending (m : workflowRunMetric) : bool :=
  String.eqb (Metric_Status m) "pending" || String.eqb (Metric_Status m) "".

(** The body of the loop over the statuses: the count and the oldest so far. *)
Definition count_status (acc : Z * spec_float) (m : workflowRunMetric) : Z * spec_float :=
  let '(count, oldest) := acc in
  if pending m then
    (count + 1, if SFltb oldest (SecondsSinceStart m) then SecondsSinceStart m else oldest)%Z
  else (count, oldest).
Definition count_statuses (ms : list workflowRunMetric) : Z * spec_float :=
  foldl count_status (0%Z, S754_zero false) ms.

(** The time of a point is read when it is made. *)
Definition time_series (metricType : string) (value : Z) (now : Z) : TimeSeries :=
  MkTimeSeries metricType environment projectID (Z.div now 1000000000) value.
Definition makeTimeSeriesValue (metricType : string) (value : Z) : io W TimeSeries := λ w,
  let '(now, w) := clock w in (Ok (time_series metricType value now), w).

Definition writeTimeSeriesRequest `{GoFmt} (series : list TimeSeries) : io W unit :=
  r ← attempt (CreateTimeSeries ("projects/" +:+ projectID) series);
  match r with
  | Ok _ => mret tt
  | Err e => lift (Err (EText ("could not write time series value, " +:+ Error e +:+ " ")))
  | Panic x => lift (Panic x)
  end.

Definition panic_on_error `{GoFmt} {A} (m : io W A) : io W A := λ w,
  match m w with (Err e, w) => (Panic (Error e), w) | r => r end.

(** What a round reports; an error of the request is a panic. *)
Definition report `{GoFmt} (counted : Z * spec_float) : io W unit :=
  statusSeries ← makeTimeSeriesValue statusType counted.1;
  oldestSeries ← makeTimeSeriesValue oldestType (int_of counted.2);
  if publish then panic_on_error (writeTimeSeriesRequest [statusSeries; oldestSeries]) else mret tt.
Definition round `{GoFmt} : io W unit := statuses ← getStatuses; report (count_statuses statuses).
Fixpoint rounds `{GoFmt} (n : nat) : io W unit :=
  match n with O => mret tt | S n => _ ← round; rounds n end.
End metrics.

(** * Properties of the metrics *)

(** The order of floating-point numbers is transitive. *)
Lemma pos_compare_lt p q : Pos.compare_cont Eq p q = Lt ↔ (p < q)%positive.
Proof. reflexivity. Qed.
Definition float_rank (f : spec_float) : option (Z * Z * Z) :=
  match f with
  | S754_nan => None
  | S754_infinity s => Some (if s then (-2, 0, 0) else (2, 0, 0))%Z
  | S754_zero _ => Some (0, 0, 0)%Z
  | S754_finite s m e => Some (if s then (-1, - e, - Zpos m) else (1, e, Zpos m))%Z
  end.
Definition rank_lt (x y : Z * Z * Z) : Prop :=
  (x.1.1 < y.1.1 ∨ (x.1.1 = y.1.1 ∧ (x.1.2 < y.1.2 ∨ (x.1.2 = y.1.2 ∧ x.2 < y.2))))%Z.
Lemma SFltb_rank f g :
  SFltb f g = true ↔ ∃ x y, float_rank f = Some x ∧ float_rank g = Some y ∧ rank_lt x y.
Proof.
  assert (Hs : ∀ x y, (∃ x' y', Some x = Some x' ∧ Some y = Some y' ∧ rank_lt x' y') ↔ rank_lt x y)
    by naive_solver.
  destruct f as [s|s| |s m e], g as [s'|s'| |s' m' e']; unfold SFltb; cbn [float_rank SFcompare];
    try (split; [discriminate|naive_solver]); rewrite ?Hs; unfold rank_lt; cbn [fst snd];
    try (destruct s, s'; cbn; split; (discriminate || lia));
    try (destruct s; cbn; split; (discriminate || lia));
    try (destruct s'; cbn; split; (discriminate || lia));
    try (split; (discriminate || lia)).
  destruct s, s'; cbn; try (split; (discriminate || lia));
    destruct (Z.compare_spec e e') as [->|He|He]; cbn; try (split; (discriminate || lia));
    change (Pos.compare_cont Eq m m') with (Pos.compare m m');
    destruct (Pos.compare_spec m m') as [->|Hm|Hm]; cbn; split; (discriminate || lia).
Qed.
Lemma SFltb_trans f g h : SFltb f g = true → SFltb g h = true → SFltb f h = true.
Proof.
  rewrite !SFltb_rank. intros (x & y & Hf & Hg & H1) (y' & z & Hg' & Hh & H2). exists x, z.
  split_and!; [done..|]. assert (y' = y) as -> by congruence. unfold rank_lt in *. lia.
Qed.

(** The fold counts the pending runs and keeps the oldest of them. *)
Lemma count_statuses_spec ms :
  let '(count, oldest) := count_statuses ms in
  count = Z.of_nat (length (List.filter pending ms))
  ∧ (oldest = S754_zero false ∨ ∃ m, m ∈ ms ∧ pending m = true ∧ oldest = SecondsSinceStart m)
  ∧ ∀ m, m ∈ ms → pending m = true → SFltb oldest (SecondsSinceStart m) = false.
Proof.
  unfold count_statuses. induction ms as [|m ms IH] using rev_ind.
  { split_and!; [done|by left|]. intros m Hm. by apply elem_of_nil in Hm. }
  rewrite foldl_app. cbn [foldl]. destruct (foldl _ _ ms) as [count oldest].
  destruct IH as (-> & Ho & Hall). unfold count_status.
  rewrite List.filter_app, length_app. cbn [List.filter]. destruct (pending m) eqn:Ep.
  - split_and!; [cbn [length]; lia| |].
    + destruct (SFltb oldest (SecondsSinceStart m)).
      * right. exists m. split_and!; [|done..]. apply elem_of_app. right. left.
      * destruct Ho as [|(m' & Hm' & ?)]; [by left|]. right. exists m'. split; [|done].
        apply elem_of_app. by left.
    + intros m' Hm' Hp'. apply elem_of_app in Hm' as [Hm'| ->%list_elem_of_singleton].
      * specialize (Hall m' Hm' Hp'). destruct (SFltb oldest (SecondsSinceStart m)) eqn:E; [|done].
        apply not_true_is_false. intros E2. by rewrite (SFltb_trans _ _ _ E E2) in Hall.
      * destruct (SFltb oldest (SecondsSinceStart m)) eqn:E; [|done].
        apply not_true_is_false. intros E2. assert (E3 := E2). rewrite SFltb_rank in E3.
        destruct E3 as (x & y & Hx & Hy & H). assert (x = y) as -> by congruence.
        unfold rank_lt in H. lia.
  - split_and!; [cbn [length]; lia| |].
    + destruct Ho as [|(m' & Hm' & ?)]; [by left|]. right. exists m'. split; [|done].
      apply elem_of_app. by left.
    + intros m' Hm' Hp'. apply elem_of_app in Hm' as [Hm'| ->%list_elem_of_singleton]; [auto|congruence].
Qed.

Section published.
Context `{GoFmt} {W : Type}.
Context (List_ : io W (list (RunObject * Z))) (CreateTimeSeries : string → list TimeSeries → io W unit).
Context (clock : W → Z * W) (environment : string).

(** A run whose status says pending, or nothing yet; its age, since it was created. *)
Definition is_pending (item : RunObject * Z) : bool :=
  let s := Status (WorkflowRun_Status (run_of item.1)) in String.eqb s "pending" || String.eqb s "".
Definition age (now : Z) (item : RunObject * Z) : spec_float := Seconds (Sub now item.2).

Lemma pending_metrics now items :
  length (List.filter pending (run_metric now <$> items)) = length (List.filter is_pending items).
Proof.
  induction items as [|i items IH]; [done|]. cbn [fmap list_fmap List.filter].
  change (pending (run_metric now i)) with (is_pending i).
  destruct (is_pending i); cbn [length]; by rewrite ?IH.
Qed.

(** C40: A round that ends has published two points: the number of those of the listed
    workflow runs whose status is pending or empty, and the age of one of these, in whole
    seconds, than which none was older when they were listed, or zero if none has any age.
    The age is the time since the run was created, whether or not it has been started.
    Each point carries the time at which it was made, read after the list: the two can
    differ. *)
Theorem metrics_published w w' :
  round List_ CreateTimeSeries clock environment true w = (Ok tt, w') →
  ∃ now items t1 t2 w1 w2 w3 w4 oldest,
    clock w = (now, w1) ∧ List_ w1 = (Ok items, w2) ∧ clock w2 = (t1, w3) ∧ clock w3 = (t2, w4)
    ∧ CreateTimeSeries ("projects/" +:+ projectID)
        [time_series environment statusType (Z.of_nat (length (List.filter is_pending items))) t1;
         time_series environment oldestType (int_of oldest) t2] w4 = (Ok tt, w')
    ∧ (oldest = S754_zero false ∨ ∃ i, i ∈ items ∧ is_pending i = true ∧ oldest = age now i)
    ∧ ∀ i, i ∈ items → is_pending i = true → SFltb oldest (age now i) = false.
Proof.
  unfold round. rewrite effect_bind_run. unfold getStatuses.
  destruct (clock w) as [now w1] eqn:Et. destruct (List_ w1) as [[items|e|x] w2] eqn:El; [|done..].
  assert (Hc := count_statuses_spec (run_metric now <$> items)).
  destruct (count_statuses _) as [count oldest]. destruct Hc as (-> & Ho & Hall).
  unfold report, panic_on_error, writeTimeSeriesRequest, makeTimeSeriesValue. rewrite effect_bind_run.
  destruct (clock w2) as [t1 w3] eqn:E1. rewrite effect_bind_run.
  destruct (clock w3) as [t2 w4] eqn:E2. cbn [fst snd]. rewrite effect_bind_run. unfold attempt.
  rewrite pending_metrics.
  destruct (CreateTimeSeries _ _ w4) as [[[]|e|x] w5] eqn:Ec; [|done..].
  intros [= <-]. exists now, items, t1, t2, w1, w2, w3, w4, oldest. split_and!; [done..|exact Ec| |].
  - destruct Ho as [?|(m & Hm & Hp & ->)]; [by left|]. right.
    apply list_elem_of_fmap in Hm as (i & -> & Hi). by exists i.
  - intros i Hi Hp. by apply (Hall (run_metric now i) (list_elem_of_fmap_2 _ _ _ Hi)).
Qed.
End published.

(** Two pending runs and one that is done; a second passes at each reading of the clock. *)
Definition a_run (status : string) : RunObject :=
  let wr := NewWorkflowRun ("ns", status) in
  let r := run_of wr in
  with_run (with_run_status (MkRunStatus status None None None (Conditions (WorkflowRun_Status r))) r) wr.
Definition sample_runs : list (RunObject * Z) :=
  [(a_run "pending", 7000000000%Z); (a_run "success", 0%Z); (a_run "", 2500000000%Z)].
Record SampleWorld := MkSampleWorld { sample_time : Z; sample_points : list TimeSeries }.
Definition sample_clock : SampleWorld → Z * SampleWorld := λ w,
  (sample_time w, MkSampleWorld (sample_time w + 1000000000) (sample_points w)).
Definition sample_list : io SampleWorld (list (RunObject * Z)) := λ w, (Ok sample_runs, w).
Definition sample_create : string → list TimeSeries → io SampleWorld unit :=
  λ _ series w, (Ok tt, MkSampleWorld (sample_time w) (sample_points w ++ series)).
Definition sample_round : result unit * SampleWorld :=
  @round _ sample_list sample_create sample_clock "dev" true sample_fmt (MkSampleWorld 10000000000 []).

Lemma metrics_published_witness :
  sample_points sample_round.2
    = [time_series "dev" statusType 2 11000000000; time_series "dev" oldestType 7 12000000000]
  ∧ ∃ now items t1 t2 w1 w2 w3 w4 oldest,
      sample_clock (MkSampleWorld 10000000000 []) = (now, w1) ∧ sample_list w1 = (Ok items, w2)
      ∧ sample_clock w2 = (t1, w3) ∧ sample_clock w3 = (t2, w4)
      ∧ sample_create ("projects/" +:+ projectID)
          [time_series "dev" statusType (Z.of_nat (length (List.filter is_pending items))) t1;
           time_series "dev" oldestType (int_of oldest) t2] w4 = (Ok tt, sample_round.2)
      ∧ (oldest = S754_zero false ∨ ∃ i, i ∈ items ∧ is_pending i = true ∧ oldest = age now i)
      ∧ ∀ i, i ∈ items → is_pending i = true → SFltb oldest (age now i) = false.
Proof.
  split; [vm_compute; reflexivity|].
  apply (@metrics_published sample_fmt SampleWorld sample_list sample_create sample_clock "dev").
  vm_compute. reflexivity.
Defined.

(** A clock that is behind the time of the creation: the age is negative and not published. *)
Lemma future_run_has_no_age :
  int_of (Seconds (Sub 1 2500000000)) = (-2)%Z
  ∧ count_statuses [run_metric 1 (a_run "", 2500000000%Z)] = (1%Z, S754_zero false).
Proof. split; vm_compute; reflexivity. Qed.
