(* ===== verification/Pipeline.v ===== *)
(** * The pipeline of a run (pkg/obj: task.go, condition.go, pipeline.go, pipelinerun.go)

    A run becomes a Tekton pipeline with a task per step, a condition per step that has
    one, and a pipeline run that starts it. *)
From S2P Require Import Prelude GoStd GoStrings Values Errors Transfer Unresolvable Fn.
From S2P Require Import ResultMapper Model ConfigMaps ObjUtil Graph RunStatus RunConfig.
From S2P Require Import Authenticate AuthKubernetes AuthIssue Workflow ErrMark.
From S2P Require Import KubeObjects NetworkPolicy TenantReconcile RunObjects RunDeps.

Definition DefaultImage : string := "alpine:latest".
Definition RelayControllerToolsVolumeClaimAnnotation : string :=
  "controller.relay.sh/tools-volume-claim".

Definition ConditionImage : string := "relaysh/core:latest".
(** Written with a tilde for every double quote. *)
Fixpoint quotes (s : string) : string :=
  match s with
  | EmptyString => ""
  | String c s => String (if Ascii.eqb c "~"%char then "034"%char else c) (quotes s)
  end.
Definition ConditionScript : string := quotes
"#!/bin/bash
JQ=~${JQ:-jq}~

CONDITIONS_URL=~${CONDITIONS_URL:-conditions}~
VALUE_NAME=~${VALUE_NAME:-success}~
POLLING_INTERVAL=~${POLLING_INTERVAL:-5s}~
POLLING_ITERATIONS=~${POLLING_ITERATIONS:-1080}~

for i in $(seq ${POLLING_ITERATIONS}); do
	CONDITIONS=$(curl ~$METADATA_API_URL/${CONDITIONS_URL}~)
	VALUE=$(echo $CONDITIONS | $JQ --arg value ~$VALUE_NAME~ -r '.[$value]')
	if [ -n ~${VALUE}~ ]; then
	if [ ~$VALUE~ = ~true~ ]; then
		exit 0
	fi
	if [ ~$VALUE~ = ~false~ ]; then
		exit 1
	fi
	fi
	sleep ${POLLING_INTERVAL}
done

exit 1
".

(** ** The structure *)
Record Pipeline := MkPipeline {
  Pipeline_Deps : WorkflowRunDeps;
  Pipeline_Object : object KPipeline;
  Tasks : list (object KTask);
  Pipeline_Conditions : list (object KCondition);
  idx : gmap string nat   (* of the steps that have a condition *) }.

Definition put_Pipeline_object (o : object KPipeline) (p : Pipeline) : Pipeline :=
  MkPipeline (Pipeline_Deps p) o (Tasks p) (Pipeline_Conditions p) (idx p).
Definition put_tasks (ts : list (object KTask)) (p : Pipeline) : Pipeline :=
  MkPipeline (Pipeline_Deps p) (Pipeline_Object p) ts (Pipeline_Conditions p) (idx p).
Definition put_conditions (cs : list (object KCondition)) (p : Pipeline) : Pipeline :=
  MkPipeline (Pipeline_Deps p) (Pipeline_Object p) (Tasks p) cs (idx p).

Definition deps_run (d : WorkflowRunDeps) : WorkflowRun := run_of (Wrd_WorkflowRun d).
Definition deps_steps (d : WorkflowRunDeps) : list WorkflowStep := Workflow_Steps (deps_run d).

Definition step_key (d : WorkflowRunDeps) (ws : WorkflowStep) : ObjectKey :=
  ModelStepObjectKey (Wrd_WorkflowRun d).1 (ModelStep (deps_run d) ws).
Definition NewTasks (d : WorkflowRunDeps) : list (object KTask) :=
  (λ ws, NewObject KTask (step_key d ws)) <$> deps_steps d.

Definition has_condition (ws : WorkflowStep) : bool :=
  match When ws with VNil => false | _ => true end.

(** The loop of [NewConditions]. *)
Definition add_condition (d : WorkflowRunDeps) (cs : list (object KCondition) * gmap string nat)
    (ws : WorkflowStep) : list (object KCondition) * gmap string nat :=
  if has_condition ws then
    (cs.1 ++ [NewObject KCondition (step_key d ws)],
     <[WorkflowStep_Name ws := length cs.1]> cs.2)
  else cs.
Definition NewConditions (d : WorkflowRunDeps) : list (object KCondition) * gmap string nat :=
  foldl (add_condition d) ([], ∅) (deps_steps d).
Definition GetByStepName (idx : gmap string nat) (cs : list (object KCondition)) (name : string)
    : option (object KCondition) := i ← idx !! name; cs !! i.

Definition NewPipeline (d : WorkflowRunDeps) : Pipeline :=
  let '(cs, idx) := NewConditions d in
  MkPipeline d (NewObject KPipeline (Wrd_WorkflowRun d).1) (NewTasks d) cs idx.

(** ** Loading and persisting *)
Section lists.
Context {W : Type} (cl : KubeClient W).

Fixpoint load_list {k} (all : bool) (l : list (object k)) : io W (bool * list (object k)) :=
  match l with
  | [] => mret (all, [])
  | o :: l =>
      '(ok, o) ← Keyed_Load (kube cl k) o;
      '(all, l) ← load_list (if (ok : bool) then all else false) l;
      mret (all, o :: l)
  end.
Fixpoint persist_list {k} (l : list (object k)) : io W (list (object k)) :=
  match l with
  | [] => mret []
  | o :: l =>
      '(_, o) ← Keyed_Persist (kube cl k) o; l ← persist_list l; mret (o :: l)
  end.

Definition Pipeline_Load (p : Pipeline) : io W (bool * Pipeline) :=
  '(ok1, o) ← Keyed_Load (kube cl KPipeline) (Pipeline_Object p);
  '(ok2, ts) ← load_list true (Tasks p);
  '(ok3, cs) ← load_list true (Pipeline_Conditions p);
  mret (ok1 && (ok2 && ok3), put_Pipeline_object o (put_tasks ts (put_conditions cs p))).

Definition Pipeline_Persist (p : Pipeline) : io W Pipeline :=
  ts ← persist_list (Tasks p);
  cs ← persist_list (Pipeline_Conditions p);
  '(_, o) ← Keyed_Persist (kube cl KPipeline) (Pipeline_Object p);
  mret (put_Pipeline_object o (put_tasks ts (put_conditions cs p))).
End lists.

(** ** Configuring *)
Section configure.
Context `{GoFmt} {W : Type} (issuer : Issuer_ W) (now : Z).
Notation reconciling := (effect (merror error) W).

Definition auth_failure (e : auth_error) : error :=
  match e with AuthError e => e | _ => EText (auth_message Error e) end.
(** An error of the issuing of a token, as it is. *)
Definition issuing {A} (m : effect auth_error W A) : reconciling A := λ w,
  let '(r, w') := m w in (map_err (λ e, Unmarked (EPlain (auth_failure e))) r, w').

Definition metadata_url (url : string) : list (string * string) := [("METADATA_API_URL", url)].

Definition task_container (url : string) (ws : WorkflowStep) : Container :=
  let image := if String.eqb (Image ws) "" then DefaultImage else Image ws in
  match StepInput ws with
  | [] =>
      MkContainer "step" image true (metadata_url url) (Some false) ""
        (if String.eqb (Command ws) "" then [] else [Command ws]) (Args ws)
  | input => MkContainer "step" image true (metadata_url url) (Some false) (ScriptForInput input) [] []
  end.

Definition annotate_token (d : WorkflowRunDeps) (ws : WorkflowStep) {S} (o : Keyed S)
    : reconciling (Keyed S) :=
  m ← issuing (Wrd_AnnotateStepToken issuer now d (Kube_Meta o.2) ws);
  mret (on_object (with_Meta m) o).

Definition ConfigureTask (d : WorkflowRunDeps) (t : object KTask) (ws : WorkflowStep)
    : reconciling (object KTask) :=
  t ← annotate_token d ws t;
  let t := match Spec_TenantRef (Kube_Spec (Wrd_WorkflowRun d).2) with
           | None => t
           | Some tenant =>
               on_object (λ o, with_Meta (Annotate (Kube_Meta o) RelayControllerToolsVolumeClaimAnnotation
                 (tenant +:+ ToolInjectionVolumeClaimSuffixReadOnlyMany)).2 o) t
           end in
  mret (set_spec (S := spec_of KTask) [task_container (MetadataAPIURL d) ws] t).

Definition condition_container (url : string) : Container :=
  MkContainer "condition" ConditionImage false (metadata_url url) None ConditionScript [] [].
Definition ConfigureCondition (d : WorkflowRunDeps) (c : object KCondition) (ws : WorkflowStep)
    : reconciling (object KCondition) :=
  c ← annotate_token d ws c;
  mret (set_spec (S := spec_of KCondition) (Some (condition_container (MetadataAPIURL d))) c).

Definition own_list (wr : RunObject) {k} (l : list (object k)) : result (list (object k)) :=
  mapM (run_owns wr k) l.

(** The loop over the steps; a step without an index is left out. *)
Fixpoint configure_conditions (d : WorkflowRunDeps) (idx : gmap string nat)
    (cs : list (object KCondition)) (sts : list WorkflowStep) : reconciling (list (object KCondition)) :=
  match sts with
  | [] => mret cs
  | ws :: sts =>
      match i ← idx !! WorkflowStep_Name ws; c ← cs !! i; Some (i, c) with
      | None => configure_conditions d idx cs sts
      | Some (i, c) =>
          c ← ConfigureCondition d c ws;
          configure_conditions d idx (<[i := c]> cs) sts
      end
  end.
Definition ConfigureConditions (p : Pipeline) : reconciling Pipeline :=
  let d := Pipeline_Deps p in
  cs ← lift (unmarked (own_list (Wrd_WorkflowRun d) (Pipeline_Conditions p)));
  cs ← configure_conditions d (idx p) cs (deps_steps d);
  mret (put_conditions cs p).

(** The tasks are as many as the steps. *)
Fixpoint configure_tasks (d : WorkflowRunDeps) (ts : list (object KTask)) (sts : list WorkflowStep)
    : reconciling (list (object KTask)) :=
  match ts, sts with
  | t :: ts, ws :: sts =>
      t ← ConfigureTask d t ws; ts ← configure_tasks d ts sts; mret (t :: ts)
  | ts, _ => mret ts
  end.
Definition ConfigureTasks (p : Pipeline) : reconciling Pipeline :=
  let d := Pipeline_Deps p in
  ts ← lift (unmarked (own_list (Wrd_WorkflowRun d) (Tasks p)));
  ts ← configure_tasks d ts (deps_steps d);
  mret (put_tasks ts p).

Definition pipeline_task (p : Pipeline) (t : object KTask) (ws : WorkflowStep) : PipelineTask :=
  let wr := deps_run (Pipeline_Deps p) in
  MkPipelineTask (HexEncoding (step_hash (ModelStep wr ws))) t.1.2
    ((λ dep, HexEncoding (step_hash (ModelStepFromName (Run_Name wr) dep))) <$> DependsOn ws)
    match GetByStepName (idx p) (Pipeline_Conditions p) (WorkflowStep_Name ws) with
    | Some c => [c.1.2]
    | None => []
    end.

Definition ConfigurePipeline (p : Pipeline) : reconciling Pipeline :=
  let d := Pipeline_Deps p in
  o ← lift (unmarked (run_owns (Wrd_WorkflowRun d) KPipeline (Pipeline_Object p)));
  p ← ConfigureConditions (put_Pipeline_object o p);
  p ← ConfigureTasks p;
  mret (put_Pipeline_object (set_spec (S := spec_of KPipeline)
          (zip_with (pipeline_task p) (Tasks p) (deps_steps d)) (Pipeline_Object p)) p).

Context (cl : KubeClient W).

Definition ApplyPipeline (d : WorkflowRunDeps) : reconciling Pipeline :=
  '(_, p) ← returning (Pipeline_Load cl (NewPipeline d));
  let p := put_Pipeline_object
             (LabelAnnotateFrom (Kube_Meta (Wrd_WorkflowRun d).2) (Pipeline_Object p)) p in
  p ← ConfigurePipeline p;
  returning (Pipeline_Persist cl p).

(** ** Pipeline runs *)
Definition PipelineRunSpecStatusCancelled : string := "PipelineRunCancelled".

(** No account is named for the tasks. *)
Definition pipeline_run_spec (p : Pipeline) : PipelineRunSpec :=
  MkPipelineRunSpec
    ((λ pt, (Task_Name pt, "")) <$> Kube_Spec (Pipeline_Object p).2)
    (Pipeline_Object p).1.2
    (if IsCancelled (deps_run (Pipeline_Deps p)) then PipelineRunSpecStatusCancelled else "").

Definition ConfigurePipelineRun (p : Pipeline) (pr : object KPipelineRun)
    : result (object KPipelineRun) :=
  let wr := Wrd_WorkflowRun (Pipeline_Deps p) in
  pr ← run_owns wr KPipelineRun pr;
  let pr := on_object (λ o, with_Meta
              (Label (Kube_Meta o) RelayControllerWorkflowRunIDLabel wr.1.2).2 o) pr in
  let o := Kube_Spec pr.2 in
  Ok (set_spec (S := spec_of KPipelineRun)
        (MkPipelineRunObject (pipeline_run_spec p) (Pr_Status o) (Pr_Pods o)) pr).

Definition ApplyPipelineRun (p : Pipeline) : reconciling (object KPipelineRun) :=
  '(_, pr) ← returning (Keyed_Load (kube cl KPipelineRun)
                          (NewObject KPipelineRun (Pipeline_Object p).1));
  let pr := LabelAnnotateFrom (Kube_Meta (Pipeline_Object p).2) pr in
  pr ← lift (unmarked (ConfigurePipelineRun p pr));
  '(_, pr) ← returning (Keyed_Persist (kube cl KPipelineRun) pr);
  mret pr.
End configure.
