(* ===== verification/RunReconcile.v ===== *)
(** * The workflow run reconciler (pkg/reconciler/workflow)

    A reconciliation applies the dependencies of a run, its pipeline and its pipeline run,
    uploads the logs of the steps that are done, and writes the run's status. *)
From S2P Require Import Prelude GoStd GoStrings Values Errors Transfer Unresolvable Fn.
From S2P Require Import ResultMapper Model ConfigMaps ObjUtil Graph RunStatus RunConfig.
From S2P Require Import Authenticate Workflow ErrMark KubeObjects NetworkPolicy.
From S2P Require Import TenantReconcile RunObjects RunDeps Pipeline.

(** [TransientIfRequired]: the error is the variable [ErrRequired]. *)
Definition TransientIfRequired : TransientRule error := λ err,
  match err, ErrRequired with
  | EPlain (EText s), EText required => String.eqb s required
  | _, _ => false
  end.

Section reconcile.
Context `{GoRuntime, GoFmt, JSONText, Markdown} {W : Type} (cl : KubeClient W).
Context (issuer : Issuer_ W) (metadataAPIURL : string) (standalone : bool).
(** The logs of a container, and the storage they are put into. *)
Context (stream : string → string → string → io W string) (put_log : string → string → io W unit).
Context (fuel rounds : nat) (now : Z) (clock : io W Z).
Notation reconciling := (effect (merror error) W).

Definition wrapping {A} (prefix : string) (m : reconciling A) : reconciling A := λ w,
  let '(r, w') := m w in (map_err (λ e, MapLast e (message prefix)) r, w').
Definition marking {A} (rules : list (TransientRule error)) (m : reconciling A) : reconciling A := λ w,
  let '(r, w') := m w in (map_err (λ e, MarkTransient e rules) r, w').

Definition Run_PersistStatus (wr : RunObject) : io W RunObject :=
  o ← kube_StatusUpdate cl KWorkflowRun wr.2; mret (wr.1, o).

(** ** The objects of the run *)
Definition start_run (wr : RunObject) : reconciling (object KPipelineRun) :=
  deps ← wrapping "failed to apply dependencies" (marking [TransientIfRequired]
           (ApplyWorkflowRunDeps fuel cl rounds wr metadataAPIURL
              [WorkflowRunDepsWithStandaloneMode standalone]));
  pipeline ← wrapping "failed to apply Pipeline" (ApplyPipeline issuer now cl deps);
  wrapping "failed to apply Pipeline" (ApplyPipelineRun cl pipeline).

(** ** Logs *)
Definition uploadLog (namespace podName containerName : string) : io W string :=
  let key := namespace +:+ "/" +:+ podName +:+ "/" +:+ containerName in
  log ← stream namespace podName containerName;
  _ ← put_log key log;
  mret key.

(** The pods of the task runs that are done. *)
Definition is_done (tr : TaskRun) : bool :=
  match TaskRun_Status tr with
  | None => false
  | Some st =>
      match GetCondition ConditionSucceeded st with
      | None => false
      | Some c => negb (bool_decide (Tekton_Status c = ConditionUnknown))
      end
  end.
Definition pod_names (pr : PipelineRunObject) : gmap string string :=
  foldl (λ m entry, if is_done entry.2
                    then <[entry.1 := default "" (Pr_Pods pr !! entry.1)]> m else m)
    ∅ (range_map (TaskRuns (Pr_Status pr))).

(** The body of the loop over the steps; an upload that fails leaves no key. *)
Definition upload_step (pods : gmap string string) (namespace : string)
    (steps : gmap string WorkflowRunStatusSummary) (entry : string * WorkflowRunStatusSummary)
    : io W (gmap string WorkflowRunStatusSummary) :=
  let '(name, step) := entry in
  if negb (String.eqb (LogKey step) "") then mret steps
  else
    match pods !! Summary_Name step with
    | None => mret steps
    | Some pod =>
        r ← attempt (uploadLog namespace pod "step-step");
        match r with
        | Ok key => mret (<[name := with_log_key key step]> steps)
        | Err _ => mret (<[name := with_log_key "" step]> steps)
        | Panic x => lift (Panic x)
        end
    end.
Fixpoint upload_steps (pods : gmap string string) (namespace : string)
    (steps : gmap string WorkflowRunStatusSummary)
    (entries : list (string * WorkflowRunStatusSummary)) : io W (gmap string WorkflowRunStatusSummary) :=
  match entries with
  | [] => mret steps
  | e :: entries => steps ← upload_step pods namespace steps e; upload_steps pods namespace steps entries
  end.
Definition with_steps (steps : gmap string WorkflowRunStatusSummary) (wr : WorkflowRun) : WorkflowRun :=
  let st := WorkflowRun_Status wr in
  with_run_status (MkRunStatus (Status st) (StartTime st) (CompletionTime st) (Some steps)
                     (Conditions st)) wr.
Definition uploadLogs (wr : WorkflowRun) (pr : object KPipelineRun) : io W WorkflowRun :=
  match Steps (WorkflowRun_Status wr) with
  | None => mret wr
  | Some steps =>
      steps ← upload_steps (pod_names (Kube_Spec pr.2)) pr.1.1 steps (range_map steps);
      mret (with_steps steps wr)
  end.

(** ** Reconcile *)
Definition reconcile_run (wr : RunObject) : reconciling Result :=
  if Finalizing (Kube_Meta wr.2) then done_
  else
    match Workflow_Steps (run_of wr) with
    | [] =>
        _ ← returning (Complete (λ r, _ ← Run_PersistStatus (with_run r wr); mret tt) clock (run_of wr));
        done_
    | _ =>
        pr ← start_run wr;
        r ← returning (uploadLogs (run_of wr) pr);
        let r := ConfigureWorkflowRun r (Pr_Status (Kube_Spec pr.2)) in
        _ ← failing "failed to persist WorkflowRun" (Run_PersistStatus (with_run r wr));
        done_
    end.

Definition Run_Reconcile (req : Request) : reconciling Result :=
  '(ok, wr) ← failing "failed to load dependencies"
                (Keyed_Load (kube cl KWorkflowRun) (NewWorkflowRun req));
  if negb ok then done_ else reconcile_run wr.
End reconcile.
