(* ===== verification/RunTheory.v ===== *)
(** * Theory of the run controller: what a reconciliation leaves on the server *)
From S2P Require Import Prelude GoStd GoStrings Values Errors Transfer Unresolvable Fn.
From S2P Require Import ResultMapper Model ConfigMaps ObjUtil Graph RunStatus RunConfig.
From S2P Require Import Authenticate AuthKubernetes AuthIssue Workflow ErrMark.
From S2P Require Import KubeObjects NetworkPolicy TenantReconcile RunObjects RunDeps Pipeline.
From S2P Require Import RunReconcile Invariants ServerTheory.

(** ** The dependencies *)

(** The keys of the objects and what no call changes. *)
Definition same_keys (d d' : WorkflowRunDeps) : Prop :=
  Wrd_WorkflowRun d' = Wrd_WorkflowRun d ∧ MetadataAPIURL d' = MetadataAPIURL d
  ∧ (Wrd_Namespace d').1 = (Wrd_Namespace d).1
  ∧ (ImmutableConfigMap d').1 = (ImmutableConfigMap d).1
  ∧ (MutableConfigMap d').1 = (MutableConfigMap d).1
  ∧ (MetadataAPIRole d').1 = (MetadataAPIRole d).1
  ∧ (MetadataAPIRoleBinding d').1 = (MetadataAPIRoleBinding d).1
  ∧ (Sa (MetadataAPIServiceAccount d')).1 = (Sa (MetadataAPIServiceAccount d)).1.

Lemma same_keys_refl d : same_keys d d.
Proof. by unfold same_keys. Qed.
Lemma same_keys_trans d d' d'' : same_keys d d' → same_keys d' d'' → same_keys d d''.
Proof. unfold same_keys. intuition congruence. Qed.

Section deps.
Context {W : Type} (view : W → Objects) (cl : KubeClient W) `{!ServerLaws view cl}.
Notation agrees := (agree view).
Notation there := (on_server view).

Definition loaded_deps (ks : list Kind) (v : Objects) (d0 : WorkflowRunDeps)
    (wd : W * WorkflowRunDeps) : Prop := agrees ks v wd.1 ∧ same_keys d0 wd.2.

Lemma on_loaded {O A} ks v d0 (f : WorkflowRunDeps → O) put (m : O → io W (A * O)) :
  (∀ d w r w', agrees ks v w → m (f d) w = (r, w') →
     agrees ks v w' ∧ ∀ a o, r = Ok (a, o) → same_keys d (put o d)) →
  invariant (loaded_deps ks v d0) (on f put m).
Proof.
  intros Hm [w d] r [w' d'] [Hv Hk]. unfold on. cbn in *.
  destruct (m (f d) w) as [[[a o]|e|x] w1] eqn:E; apply Hm in E as [Hv1 Ho]; try done;
    intros [= _ <- <-]; split; try done.
  eapply same_keys_trans; [exact Hk|]. by eapply Ho.
Qed.

Lemma load_field_loaded ks v d0 k f put :
  (∀ d o, o.1 = (f d).1 → same_keys d (put d o)) →
  invariant (loaded_deps ks v d0) (load_field cl k f put).
Proof.
  intros Hp. apply on_loaded. intros d w r w' Hv E.
  assert (Hv' := load_agree view cl ks v k _ _ _ _ Hv E). split; [done|].
  intros a o ->. apply (load_spec view cl) in E as [_ E]. by apply Hp, (E a o eq_refl).
Qed.
Lemma load_optional_loaded ks v d0 k f put :
  (∀ d o, same_keys d (put d o)) → invariant (loaded_deps ks v d0) (load_optional cl k f put).
Proof.
  intros Hp [w d] r wd' Hi. unfold load_optional, unless_nil.
  destruct (f d) as [o|]; [|by intros [= _ <-]]. revert Hi. apply on_loaded.
  intros d1 w1 r1 w1' Hv E. split; [by eapply (load_agree view cl)|]. intros a o1 ->. apply Hp.
Qed.
Lemma load_account_loaded ks v d0 rounds f put :
  (∀ d a, (Sa a).1 = (Sa (f d)).1 → same_keys d (put d a)) →
  invariant (loaded_deps ks v d0) (load_account cl rounds f put).
Proof.
  intros Hp. apply on_loaded. intros d w r w' Hv E.
  apply (account_load_spec view cl ks v) in E as [Hv' E]; [|done]. split; [done|].
  intros a o ->. apply Hp, (E a o eq_refl).
Qed.

Lemma namespace_load_agree ks v n : invariant (agrees ks v) (Namespace_Load (kube cl KNamespace) n).
Proof.
  intros w r w' Hv E. apply (load_agree view cl ks v KNamespace (("", n.1), n.2) w
    match r with Ok (ok, n') => Ok (ok, (("", n.1), n'.2)) | Err e => Err e | Panic x => Panic x end w' Hv).
  revert E. unfold Namespace_Load, Keyed_Load. rewrite !effect_bind_run.
  destruct (GetIgnoreNotFound _ _ _ w) as [[[ok o]|e|x] w1]; by intros [= <- <-].
Qed.

Lemma run_loaders_loaded rounds v d :
  Forall (invariant (loaded_deps [] v d)) (run_loaders cl rounds).
Proof.
  repeat apply Forall_cons_2; [|apply load_optional_loaded; by unfold same_keys..
    |apply load_field_loaded; by unfold same_keys|apply load_field_loaded; by unfold same_keys
    |apply load_account_loaded; by unfold same_keys
    |apply load_field_loaded; by unfold same_keys|apply load_field_loaded; by unfold same_keys
    |apply load_account_loaded; by unfold same_keys|apply load_account_loaded; by unfold same_keys
    |apply Forall_nil_2].
  apply invariant_bind; [|intros []; [apply invariant_ret|apply invariant_lift]].
  apply on_loaded. intros d1 w1 r1 w1' Hv E1. assert (Hv' := namespace_load_agree [] _ _ _ _ _ Hv E1).
  split; [done|]. intros a n ->. unfold Namespace_Load in E1. apply bind_ok in E1 as ([ok o] & w2 & _ & E1).
  injection E1 as _ <- _. by unfold same_keys.
Qed.
Lemma deps_load_spec rounds d w r w' d' :
  WorkflowRunDeps_Load cl rounds (w, d) = (r, (w', d')) → agrees [] (view w) w' ∧ same_keys d d'.
Proof.
  intros E. assert (Hi : loaded_deps [] (view w) d (w', d')); [|exact Hi].
  refine (invariant_loaders _ true _ (run_loaders_loaded rounds (view w) d) (w, d) r (w', d') _ E).
  split; [done|apply same_keys_refl].
Qed.

(** A loader among others. *)
Lemma loaders_split ls1 l ls2 all (s s' : W * WorkflowRunDeps) b :
  Loaders_from all (ls1 ++ l :: ls2) s = (Ok b, s') →
  ∃ a s1 ok s2, Loaders_from all ls1 s = (Ok a, s1) ∧ l s1 = (Ok ok, s2)
    ∧ Loaders_from (if (ok : bool) then a else false) ls2 s2 = (Ok b, s').
Proof.
  revert all s. induction ls1 as [|l1 ls1 IH]; intros all s H.
  - apply bind_ok in H as (ok & s2 & H1 & H2). by exists all, s, ok, s2.
  - apply bind_ok in H as (ok1 & s1 & H1 & H2). apply IH in H2 as (a & s2 & ok & s3 & H2 & H3).
    exists a, s2, ok, s3. split; [|done]. cbn. by rewrite effect_bind_run, H1.
Qed.

(** The data of the ConfigMap that is there. *)
Definition stored_data (v : Objects) (key : ObjectKey) : option (gmap string string) :=
  v KConfigMap key ≫= λ o, Map_Data (Kube_Spec o).

Lemma load_immutable_spec w d b w' d' :
  Map_Data (Kube_Spec (ImmutableConfigMap d).2) = None →
  load_field cl KConfigMap ImmutableConfigMap put_Immutable (w, d) = (Ok b, (w', d')) →
  Map_Data (Kube_Spec (ImmutableConfigMap d').2) = stored_data (view w) (ImmutableConfigMap d).1.
Proof.
  intros Hz. unfold load_field. intros (o & E & ->)%on_Ok. apply (load_spec view cl) in E as [_ E].
  destruct (E b o eq_refl) as (_ & _ & Hb). unfold stored_data. cbn in *.
  destruct b; [by rewrite Hb|]. destruct Hb as [-> ->]. exact Hz.
Qed.

(** A loader of another field leaves that data. *)
Definition data_is (x : option (gmap string string)) (wd : W * WorkflowRunDeps) : Prop :=
  Map_Data (Kube_Spec (ImmutableConfigMap wd.2).2) = x.
Lemma on_data {O A} x (f : WorkflowRunDeps → O) put (m : O → io W (A * O)) :
  (∀ d o, ImmutableConfigMap (put o d) = ImmutableConfigMap d) →
  invariant (data_is x) (on f put m).
Proof.
  intros Hp [w d] r [w' d'] Hd. unfold on, data_is in *. cbn in *.
  destruct (m (f d) w) as [[[a o]|e|y] w1]; intros [= _ <- <-]; [|done..]. by rewrite Hp.
Qed.
Lemma unless_data {O A} x (nil : A) (f : WorkflowRunDeps → option O) m :
  (∀ o, invariant (data_is x) (m o)) → invariant (data_is x) (unless_nil nil f m).
Proof.
  intros Hm [w d] r s' Hp. unfold unless_nil. destruct (f d); [by apply Hm|]. by intros [= _ <-].
Qed.

Lemma deps_load_data rounds d w b w' d' :
  Map_Data (Kube_Spec (ImmutableConfigMap d).2) = None →
  WorkflowRunDeps_Load cl rounds (w, d) = (Ok b, (w', d')) →
  Map_Data (Kube_Spec (ImmutableConfigMap d').2) = stored_data (view w) (ImmutableConfigMap d).1.
Proof.
  intros Hz H. unfold WorkflowRunDeps_Load, Loaders_Load in H.
  assert (Hl := run_loaders_loaded rounds (view w) d).
  apply (loaders_split (take 3 (run_loaders cl rounds)) _ (drop 4 (run_loaders cl rounds))) in H
    as (a & [w1 d1] & ok & [w2 d2] & H1 & H2 & H3).
  apply (invariant_loaders (data_is None)) in H1 as Hn; [| |done].
  2: { repeat apply Forall_cons_2; [..|apply Forall_nil_2].
       - apply invariant_bind; [by apply on_data|]. intros []; [apply invariant_ret|apply invariant_lift].
       - apply unless_data. intros o. by apply on_data.
       - apply unless_data. intros o. by apply on_data. }
  apply (invariant_loaders (loaded_deps [] (view w) d)) in H1 as [Hv Hk];
    [|by apply Forall_take|split; [done|apply same_keys_refl]].
  apply load_immutable_spec in H2; [|exact Hn].
  apply (invariant_loaders (data_is (Map_Data (Kube_Spec (ImmutableConfigMap d2).2)))) in H3;
    [|by repeat apply Forall_cons_2; [by apply on_data..|apply Forall_nil_2]|done].
  etrans; [exact H3|]. rewrite H2. unfold stored_data. cbn in Hv, Hk.
  rewrite (Hv KConfigMap) by (by intros ?%elem_of_nil). unfold same_keys in Hk. by destruct Hk as (_ & _ & _ & -> & _).
Qed.

Definition deps_kinds : list Kind :=
  [KLimitRange; KNetworkPolicy; KConfigMap; KServiceAccount; KRole; KRoleBinding].

Lemma deps_persist_spec rounds d w w' d' :
  (MutableConfigMap d).1 ≠ (ImmutableConfigMap d).1 →
  WorkflowRunDeps_Persist cl rounds (w, d) = (Ok tt, (w', d')) →
  agrees deps_kinds (view w) w' ∧ same_keys d d'
  ∧ is_Some (DefaultTokenSecret (MetadataAPIServiceAccount d'))
  ∧ there w' (ImmutableConfigMap d) ∧ there w' (MutableConfigMap d)
  ∧ there w' (MetadataAPIRole d) ∧ there w' (MetadataAPIRoleBinding d).
Proof.
  intros Hne H. unfold WorkflowRunDeps_Persist, Persist_all in H.
  persisted H w1. apply (persist_optional_spec view cl) in E as [F1 [o1 ->]]; [|by intros []].
  persisted H w2. apply (persist_optional_spec view cl) in E as [F2 [o2 ->]]; [|by intros []].
  persisted H w3. apply (persist_field_spec view cl) in E as (F3 & S3 & o3 & K3 & ->).
  persisted H w4. apply (persist_field_spec view cl) in E as (F4 & S4 & o4 & K4 & ->).
  persisted H w5. apply (persist_account_spec view cl) in E as (F5 & a5 & K5 & T5 & ->).
  persisted H w6. apply (persist_field_spec view cl) in E as (F6 & S6 & o6 & K6 & ->).
  persisted H w7. apply (persist_field_spec view cl) in E as (F7 & S7 & o7 & K7 & ->).
  persisted H w8. apply (persist_account_spec view cl) in E as (F8 & a8 & K8 & T8 & ->).
  persisted H w9. apply (persist_account_spec view cl) in E as (F9 & a9 & K9 & T9 & ->).
  injection H as <- <-. cbn in *. split_and!.
  - intros k key Hk. unfold deps_kinds in Hk. rewrite !not_elem_of_cons in Hk.
    destruct Hk as (N1 & N2 & N3 & N4 & N5 & N6 & _).
    rewrite (F9 k key), (F8 k key), F7, F6, (F5 k key), F4, F3, (F2 k key), (F1 k key); try done;
      try (by rewrite list_elem_of_singleton); by intros [= -> _].
  - by unfold same_keys.
  - done.
  - revert S3. apply on_server_frame.
    rewrite (F9 KConfigMap), (F8 KConfigMap), F7, F6, (F5 KConfigMap), F4; other_object.
  - revert S4. apply on_server_frame.
    rewrite (F9 KConfigMap), (F8 KConfigMap), F7, F6, (F5 KConfigMap); other_object.
  - revert S6. apply on_server_frame. rewrite (F9 KRole), (F8 KRole), F7; other_object.
  - revert S7. apply on_server_frame. rewrite (F9 KRoleBinding), (F8 KRoleBinding); other_object.
Qed.
End deps.

(** ** Configuring *)
Lemma owned_by_Ok ok owner k (o o' : object k) :
  owned_by ok owner k o = Ok o' →
  o'.1 = o.1 ∧ Kube_Spec o'.2 = Kube_Spec o.2 ∧ Annotations (Kube_Meta o'.2) = Annotations (Kube_Meta o.2).
Proof.
  unfold owned_by. intros (m & Hm & [= <-])%bind_Ok. split_and!; [done..|]. cbn.
  apply map_err_Ok in Hm. unfold Own in Hm. destruct (negb _); [discriminate Hm|].
  destruct (own_loop _ _) as [[] os]; injection Hm as <-; done.
Qed.
Lemma own_account_Ok wr sa sa' : own_account wr sa = Ok sa' → (Sa sa').1 = (Sa sa).1.
Proof. intros (o & Ho & [= <-])%bind_Ok. by apply owned_by_Ok in Ho as [? _]. Qed.

Lemma own_all_Ok d d' :
  own_all d = Ok d' → same_keys d d'
  ∧ Kube_Spec (ImmutableConfigMap d').2 = Kube_Spec (ImmutableConfigMap d).2.
Proof.
  unfold own_all. intros (im & H1 & H)%bind_Ok. apply bind_Ok in H as (mu & H2 & H).
  apply bind_Ok in H as (msa & H3 & H). apply bind_Ok in H as (ro & H4 & H).
  apply bind_Ok in H as (rb & H5 & H). apply bind_Ok in H as (psa & H6 & H).
  apply bind_Ok in H as (usa & H7 & H). apply bind_Ok in H as (lr & H8 & H).
  apply bind_Ok in H as (np & H9 & [= <-]).
  apply owned_by_Ok in H1 as (? & ? & _), H2 as [? _], H4 as [? _], H5 as [? _].
  apply own_account_Ok in H3. by unfold same_keys.
Qed.

Section configuring.
Context `{GoRuntime, GoFmt, JSONText, Markdown} (fuel : nat).

(** What [ConfigureImmutableConfigMapForWorkflowRun] makes of the data of a ConfigMap. *)
Definition configured_data (wr : WorkflowRun) (old new : option (gmap string string)) : Prop :=
  ∃ core core', ConfigureImmutableConfigMapForWorkflowRun fuel wr core = (Ok tt, core')
    ∧ Cm_Data core = old ∧ Cm_Data core' = new.

Definition metadata_rules (d : WorkflowRunDeps) : list PolicyRule :=
  [MkPolicyRule [""] ["configmaps"] [(ImmutableConfigMap d).1.2] ["get"];
   MkPolicyRule [""] ["configmaps"] [(MutableConfigMap d).1.2] ["get"; "update"]].
Definition metadata_binding (d : WorkflowRunDeps) : RoleBindingSpec :=
  MkRoleBindingSpec (MkRoleRef "Role" "rbac.authorization.k8s.io" (MetadataAPIRole d).1.2)
    [MkRoleSubject "ServiceAccount" (Sa (MetadataAPIServiceAccount d)).1.1
       (Sa (MetadataAPIServiceAccount d)).1.2].

Lemma configure_map_Ok m cm cm' :
  configure_map m cm = Ok cm' →
  cm'.1 = cm.1 ∧ ∃ core', m (core_of cm) = (Ok tt, core') ∧ Map_Data (Kube_Spec cm'.2) = Cm_Data core'.
Proof.
  unfold configure_map. destruct (m (core_of cm)) as [[[]|e|x] core'] eqn:E; [|done..].
  intros [= <-]. split; [done|]. by exists core'.
Qed.
Lemma core_of_data cm : Cm_Data (core_of cm) = Map_Data (Kube_Spec cm.2).
Proof. unfold core_of. by destruct (Kube_Spec cm.2). Qed.

Lemma configure_deps_spec d d' :
  ConfigureWorkflowRunDeps fuel d = Ok d' →
  same_keys d d'
  ∧ Kube_Spec (MetadataAPIRole d').2 = metadata_rules d
  ∧ Kube_Spec (MetadataAPIRoleBinding d').2 = metadata_binding d
  ∧ configured_data (deps_run d) (Map_Data (Kube_Spec (ImmutableConfigMap d).2))
      (Map_Data (Kube_Spec (ImmutableConfigMap d').2)).
Proof.
  unfold ConfigureWorkflowRunDeps. intros (d1 & E1 & Ed)%bind_Ok. cbv zeta in Ed.
  apply bind_Ok in Ed as (im & E2 & Ed). apply bind_Ok in Ed as (mu & E3 & [= <-]).
  apply map_err_Ok, own_all_Ok in E1 as [Hk Hs].
  apply configure_map_Ok in E2 as (K2 & core' & E2 & D2), E3 as (K3 & _).
  destruct Hk as (K & U & N & I & M & R & B & A).
  assert (K2' : im.1 = (ImmutableConfigMap d).1) by exact (eq_trans K2 I).
  assert (K3' : mu.1 = (MutableConfigMap d).1) by exact (eq_trans K3 M). cbn in *.
  split_and!.
  - by unfold same_keys.
  - unfold metadata_rules. by rewrite K2', K3'.
  - unfold metadata_binding. by rewrite R, A.
  - eexists _, core'. split; [unfold deps_run; rewrite <- K; exact E2|].
    rewrite core_of_data, D2. cbn. by rewrite Hs.
Qed.
End configuring.


(** ** The dependencies of a run on the server *)
Section applied.
Context `{GoRuntime, GoFmt, JSONText, Markdown} (fuel rounds : nat).
Context {W : Type} (view : W → Objects) (cl : KubeClient W) `{!ServerLaws view cl}.

Lemma on_structure_ok {D A} (m : io (W * D) A) d w d' w' :
  on_structure m d w = (Ok d', w') → ∃ a, m (w, d) = (Ok a, (w', d')).
Proof.
  unfold on_structure. destruct (m (w, d)) as [[a|e|x] [w1 d1]]; intros [= <- <-]. by exists a.
Qed.

(** What the metadata service needs of a run: its account may read the immutable ConfigMap
    and write the mutable one, and the immutable one holds the configuration. *)
Definition served_run (old : Objects) (wr : RunObject) (w : W) : Prop :=
  let named s := SuffixObjectKey wr.1 s in
  (∃ o, view w KRole (named "metadata-api") = Some o
        ∧ Kube_Spec o = [MkPolicyRule [""] ["configmaps"] [(named "immutable").2] ["get"];
                         MkPolicyRule [""] ["configmaps"] [(named "mutable").2] ["get"; "update"]])
  ∧ (∃ o, view w KRoleBinding (named "metadata-api") = Some o
        ∧ Kube_Spec o = MkRoleBindingSpec
            (MkRoleRef "Role" "rbac.authorization.k8s.io" (named "metadata-api").2)
            [MkRoleSubject "ServiceAccount" (named "metadata-api").1 (named "metadata-api").2])
  ∧ (∃ o, view w KConfigMap (named "immutable") = Some o
        ∧ configured_data fuel (run_of wr) (stored_data old (named "immutable"))
            (Map_Data (Kube_Spec o))).

Lemma suffix_inj key s s' : SuffixObjectKey key s = SuffixObjectKey key s' → s = s'.
Proof. intros [= E]. by apply (inj (String.append "-")), (inj (String.append key.2)). Qed.

Lemma apply_deps_spec wr url standalone w d w' :
  ApplyWorkflowRunDeps fuel cl rounds wr url [WorkflowRunDepsWithStandaloneMode standalone] w
    = (Ok d, w') →
  agree view deps_kinds (view w) w' ∧ Wrd_WorkflowRun d = wr ∧ MetadataAPIURL d = url
  ∧ is_Some (DefaultTokenSecret (MetadataAPIServiceAccount d)) ∧ served_run (view w) wr w'.
Proof.
  unfold ApplyWorkflowRunDeps. intros (d1 & w1 & E1 & E)%bind_ok.
  apply bind_ok in E as (d2 & w2 & [E2 ->]%lift_ok & E3).
  apply on_structure_ok in E1 as [b E1], E3 as [[] E3].
  set (d0 := NewWorkflowRunDeps _ _ _) in E1.
  assert (Hd : same_keys (NewWorkflowRunDeps wr url []) d0)
    by (unfold d0; destruct standalone; by unfold same_keys).
  assert (Hz : Map_Data (Kube_Spec (ImmutableConfigMap d0).2) = None)
    by (unfold d0; by destruct standalone).
  assert (Hdata := deps_load_data view cl rounds _ _ _ _ _ Hz E1).
  apply (deps_load_spec view cl) in E1 as [Hv1 Hk1].
  apply configure_deps_spec in E2 as (Hk2 & Hrules & Hbinding & Hconf).
  assert (Hk : same_keys (NewWorkflowRunDeps wr url []) d1) by (by eapply same_keys_trans).
  assert (Hk' := same_keys_trans _ _ _ Hk Hk2).
  destruct Hk as (K & _ & _ & KI & KM & KR & KB & KA).
  destruct Hk' as (K' & U & _ & KI' & KM' & KR' & KB' & KA').
  apply (deps_persist_spec view cl) in E3 as (Hv3 & Hk3 & Ht & SI & _ & SR & SB).
  2: { intros Heq. rewrite KI', KM' in Heq. apply suffix_inj in Heq. discriminate Heq. }
  destruct Hk3 as (K3 & U3 & _). unfold served_run. cbv zeta. split_and!.
  - eapply agree_trans; [|exact Hv3]. eapply agree_weaken; [|exact Hv1]. by intros k ?%elem_of_nil.
  - by rewrite K3, K'.
  - by rewrite U3, U.
  - done.
  - destruct (on_server_at view _ _ _ SR KR') as (o & Ho & Hs & _). exists o. split; [exact Ho|].
    etrans; [exact Hs|]. etrans; [exact Hrules|]. unfold metadata_rules. by rewrite KI, KM.
  - destruct (on_server_at view _ _ _ SB KB') as (o & Ho & Hs & _). exists o. split; [exact Ho|].
    etrans; [exact Hs|]. etrans; [exact Hbinding|]. unfold metadata_binding. by rewrite KR, KA.
  - destruct (on_server_at view _ _ _ SI KI') as (o & Ho & Hs & _). exists o. split; [exact Ho|].
    destruct Hd as (_ & _ & _ & KI0 & _).
    assert (Hr : deps_run d1 = run_of wr) by (unfold deps_run; by rewrite K).
    rewrite Hr, Hdata, KI0 in Hconf. destruct Hconf as (core & core' & Hc & Ho1 & Ho2).
    exists core, core'. split_and!; [exact Hc|exact Ho1|]. etrans; [exact Ho2|]. symmetry. exact Hs.
Qed.
End applied.
