(* ===== verification/PipelineTheory.v ===== *)
(** * Theory of the pipeline of a run *)
From S2P Require Import Prelude GoStd GoStrings Values Errors Transfer Unresolvable Fn.
From S2P Require Import ResultMapper Model ConfigMaps ObjUtil Graph RunStatus RunConfig.
From S2P Require Import Authenticate AuthKubernetes AuthIssue Workflow ErrMark.
From S2P Require Import KubeObjects NetworkPolicy TenantReconcile RunObjects RunDeps Pipeline.
From S2P Require Import RunReconcile Invariants ServerTheory RunTheory.

#[local] Arguments spec_of : simpl never.

Definition step_name (d : WorkflowRunDeps) (ws : WorkflowStep) : string :=
  task_name (Run_Name (deps_run d)) (WorkflowStep_Name ws).
Lemma step_key_eq d ws : step_key d ws = ((Wrd_WorkflowRun d).1.1, step_name d ws).
Proof. done. Qed.

(** ** Conditions and their index *)
Lemma new_conditions_spec d l cs ix :
  NoDup (WorkflowStep_Name <$> l) → foldl (add_condition d) ([], ∅) l = (cs, ix) →
  cs = (λ ws, NewObject KCondition (step_key d ws)) <$> filter (λ ws, has_condition ws = true) l
  ∧ ∀ name i, ix !! name = Some i ↔
      ∃ ws, filter (λ ws, has_condition ws = true) l !! i = Some ws ∧ WorkflowStep_Name ws = name.
Proof.
  revert cs ix. induction l as [|ws l IH] using rev_ind; intros cs ix Hn H.
  { injection H as <- <-. split; [done|]. intros name i. rewrite lookup_empty. split; [done|].
    by intros (ws & E & _). }
  rewrite fmap_app, NoDup_app in Hn. destruct Hn as (Hn & Hnew & _).
  rewrite foldl_app in H. cbn in H. destruct (foldl _ _ l) as [cs1 ix1].
  destruct (IH cs1 ix1 Hn eq_refl) as [-> Hix]. clear IH.
  assert (Hfresh : ∀ i, ix1 !! WorkflowStep_Name ws ≠ Some i).
  { intros i (ws' & E & En)%Hix. apply (Hnew (WorkflowStep_Name ws)); [|by left].
    rewrite <- En. apply list_elem_of_fmap_2. apply list_elem_of_lookup_2 in E.
    by apply list_elem_of_filter in E as [_ ?]. }
  unfold add_condition in H. rewrite filter_app. cbn. destruct (has_condition ws) eqn:Hc.
  - rewrite decide_True by done. injection H as <- <-. rewrite fmap_app. split; [done|].
    intros name i. rewrite length_fmap. rewrite lookup_insert_Some. split.
    + intros [[<- <-]|[Hne (ws' & E & En)%Hix]].
      * exists ws. split; [|done]. by rewrite list_lookup_middle.
      * exists ws'. split; [|done]. by apply lookup_app_l_Some.
    + intros (ws' & E & En). apply lookup_app_Some in E as [E|[Hi E]].
      * right. split; [|apply Hix; by exists ws']. intros Heq.
        apply (Hfresh i), Hix. exists ws'. split; [done|congruence].
      * left. destruct (i - length _) as [|j] eqn:Ei; [|done]. injection E as <-. split; [done|lia].
  - rewrite decide_False by done. cbn. rewrite app_nil_r. injection H as <- <-. by split.
Qed.

(** ** Lists of objects *)
Section lists.
Context {W : Type} (view : W → Objects) (cl : KubeClient W) `{!ServerLaws view cl}.
Notation agrees := (agree view).
Notation keys l := (fst <$> l).

Lemma load_list_spec {k} all (l : list (object k)) w b l' w' :
  load_list cl all l w = (Ok (b, l'), w') →
  agrees [] (view w) w' ∧ Forall2 (λ o o', o'.1 = o.1
    ∧ (view w k o.1 = None → Kube_Spec o'.2 = Kube_Spec o.2
       ∧ Annotations (Kube_Meta o'.2) = Annotations (Kube_Meta o.2))) l l'.
Proof.
  revert all w b l'. induction l as [|o l IH]; intros all w b l' H.
  { injection H as <- <- <-. by split. }
  apply bind_ok in H as ([ok o1] & w1 & E & H). apply bind_ok in H as ([all1 l1] & w2 & E2 & H).
  injection H as <- <- <-. apply (load_spec view cl) in E as [Hv E].
  destruct (E ok o1 eq_refl) as (Ho & _ & Hr). apply IH in E2 as [Hv2 Hl]. split.
  - by eapply agree_trans.
  - constructor.
    + split; [done|]. intros Hnone. destruct ok; [congruence|]. destruct Hr as [_ Hr].
      rewrite Hr. done.
    + eapply Forall2_impl; [exact Hl|]. intros x y [Hk Hn]. split; [done|]. intros Hx. apply Hn.
      rewrite Hv; [done|by intros ?%elem_of_nil].
Qed.

Lemma persist_list_spec {k} (l : list (object k)) w l' w' :
  persist_list cl l w = (Ok l', w') →
  keys l' = keys l
  ∧ (∀ k' key, k' ≠ k ∨ key ∉ keys l → view w' k' key = view w k' key)
  ∧ (NoDup (keys l) → Forall (on_server view w') l).
Proof.
  revert w l'. induction l as [|o l IH]; intros w l' H.
  { injection H as <- <-. by split_and!. }
  apply bind_ok in H as ([u o1] & w1 & E & H). apply bind_ok in H as (l1 & w2 & E2 & H).
  injection H as <- <-. apply (persist_spec view cl) in E as [Hv E].
  destruct (E u o1 eq_refl) as (Ho & _ & H1 & H2 & H3). apply IH in E2 as (Hk & Hf & Hs).
  split_and!.
  - cbn. by rewrite Ho, Hk.
  - intros k' key Hne. rewrite fmap_cons, not_elem_of_cons in Hne.
    rewrite Hf by tauto. apply Hv. intros [= -> ->]. tauto.
  - intros [Hnew Hnd]%NoDup_cons. constructor; [|by apply Hs].
    exists o1.2. rewrite Hf by (by right). by split_and!.
Qed.
End lists.

(** ** Tokens *)
Definition annotations_of (m : ObjectMeta) : gmap string string := default ∅ (Annotations m).
Definition has_token (m : ObjectMeta) : Prop := is_Some (annotations_of m !! KubernetesTokenAnnotation).
Definition subject_of (m : ObjectMeta) : option string := annotations_of m !! KubernetesSubjectAnnotation.

Lemma annotate_lookup m name value k :
  annotations_of (Annotate m name value).2 !! k
  = if decide (k = name) then Some value else annotations_of m !! k.
Proof.
  unfold Annotate, set_key, annotations_of. destruct (Annotations m) as [a|]; cbn.
  - case_decide as Ha; case_decide as Hk; subst; cbn; [done|done|by rewrite lookup_insert_eq|].
    by rewrite lookup_insert_ne.
  - case_decide; subst; [by rewrite lookup_singleton_eq|by rewrite lookup_singleton_ne].
Qed.

Section configuring.
Context `{GoFmt} {W : Type} (issuer : Issuer_ W) (now : Z).
Context (view : W → Objects) (cl : KubeClient W) `{!ServerLaws view cl}.
Notation agrees := (agree view).
Context (Hissuer : ∀ ks v c, invariant (agrees ks v) (issuer c)).

Lemma issuing_agree {A} ks v (m : effect auth_error W A) :
  invariant (agrees ks v) m → invariant (agrees ks v) (issuing m).
Proof.
  intros Hm w r w' Hv. unfold issuing. destruct (m w) as [o w1] eqn:E. intros [= _ <-]. by eapply Hm.
Qed.

Lemma annotate_token_agree {S} ks v d ws (o : Keyed S) :
  invariant (agrees ks v) (annotate_token issuer now d ws o).
Proof.
  apply invariant_bind; [|intros; apply invariant_ret]. apply issuing_agree.
  unfold Wrd_AnnotateStepToken, AnnotateStepToken. case_match; [apply invariant_ret|].
  apply invariant_bind; [apply invariant_lift|]. intros tok.
  apply invariant_bind; [apply Hissuer|]. intros. apply invariant_ret.
Qed.
Lemma annotate_token_spec {S} d ws (o : Keyed S) w o' w' :
  annotate_token issuer now d ws o w = (Ok o', w') →
  o'.1 = o.1 ∧ Kube_Spec o'.2 = Kube_Spec o.2 ∧ has_token (Kube_Meta o'.2)
  ∧ (¬ has_token (Kube_Meta o.2) →
     subject_of (Kube_Meta o'.2) = Some (action_subject (AStep (ModelStep (deps_run d) ws)))).
Proof.
  unfold annotate_token. intros (m & w1 & E & H1)%bind_ok. injection H1 as <- <-.
  assert (Hm : has_token m ∧ (¬ has_token (Kube_Meta o.2) →
     subject_of m = Some (action_subject (AStep (ModelStep (deps_run d) ws))))).
  { unfold issuing in E. destruct (Wrd_AnnotateStepToken _ _ _ _ _ w) as [[m1|e|x] w2] eqn:E1; try done.
    injection E as <- <-. revert E1. unfold Wrd_AnnotateStepToken, AnnotateStepToken.
    destruct (default ∅ (Annotations (Kube_Meta o.2)) !! KubernetesTokenAnnotation) eqn:Ht.
    - intros [= <- <-]. assert (Hh : has_token (Kube_Meta o.2)) by (by eexists).
      split; [done|]. by intros [].
    - intros (tok & w3 & _ & E1)%bind_ok. apply bind_ok in E1 as (raw & w4 & _ & E1).
      injection E1 as <- <-. unfold put_token, has_token, subject_of.
      rewrite !annotate_lookup. cbn. split; [by eexists|done]. }
  destruct Hm as [Hm1 Hm2]. split_and!; [done|done|exact Hm1|exact Hm2].
Qed.

(** ** Tasks *)
Definition task_ready (d : WorkflowRunDeps) (ws : WorkflowStep) (t t' : object KTask) : Prop :=
  t'.1 = t.1 ∧ Kube_Spec t'.2 = [task_container (MetadataAPIURL d) ws] ∧ has_token (Kube_Meta t'.2)
  ∧ (¬ has_token (Kube_Meta t.2) →
     subject_of (Kube_Meta t'.2) = Some (action_subject (AStep (ModelStep (deps_run d) ws)))).

Lemma configure_task_spec d t ws w t' w' :
  ConfigureTask issuer now d t ws w = (Ok t', w') → task_ready d ws t t'.
Proof.
  intros (t1 & w1 & E & H1)%bind_ok. apply annotate_token_spec in E as (Hk & _ & Ht & Hs).
  injection H1 as <- <-. unfold task_ready. destruct (Spec_TenantRef _) as [tenant|]; [|by split_and!].
  cbn. unfold has_token, subject_of in *. rewrite !annotate_lookup. by split_and!.
Qed.
Lemma configure_tasks_spec d ts sts w ts' w' :
  length ts = length sts → configure_tasks issuer now d ts sts w = (Ok ts', w') →
  (fst <$> ts') = fst <$> ts ∧ ∀ i t ws, ts !! i = Some t → sts !! i = Some ws →
    ∃ t', ts' !! i = Some t' ∧ task_ready d ws t t'.
Proof.
  revert sts w ts'. induction ts as [|t ts IH]; intros [|ws sts] w ts' Hl Er; try done.
  { injection Er as <- <-. by split. }
  apply bind_ok in Er as (t1 & w1 & E & Er). apply bind_ok in Er as (ts1 & w2 & E2 & Er).
  injection Er as <- <-. apply configure_task_spec in E. injection Hl as Hl.
  apply IH in E2 as [Hk Hr]; [|done]. split; [by cbn; rewrite (proj1 E), Hk|].
  intros [|i] x y; cbn; [|apply Hr]. intros [= <-] [= <-]. by exists t1.
Qed.
Lemma configure_tasks_agree ks v d ts sts : invariant (agrees ks v) (configure_tasks issuer now d ts sts).
Proof.
  revert sts. induction ts as [|t ts IH]; intros [|ws sts]; cbn; try apply invariant_ret.
  apply invariant_bind.
  - apply invariant_bind; [apply annotate_token_agree|]. intros. apply invariant_ret.
  - intros t'. apply invariant_bind; [apply IH|]. intros. apply invariant_ret.
Qed.

(** ** Conditions *)
Definition condition_ready (d : WorkflowRunDeps) (c : object KCondition) : Prop :=
  Kube_Spec c.2 = Some (condition_container (MetadataAPIURL d)) ∧ has_token (Kube_Meta c.2).

Lemma configure_condition_spec d c ws w c' w' :
  ConfigureCondition issuer now d c ws w = (Ok c', w') → c'.1 = c.1 ∧ condition_ready d c'.
Proof.
  intros (c1 & w1 & E & H1)%bind_ok. apply annotate_token_spec in E as (Hk & _ & Ht & _).
  injection H1 as <- <-. by split.
Qed.
Lemma configure_conditions_spec d ix cs sts w cs' w' :
  configure_conditions issuer now d ix cs sts w = (Ok cs', w') →
  (fst <$> cs') = (fst <$> cs)
  ∧ (∀ i c c', cs !! i = Some c → cs' !! i = Some c' → condition_ready d c → condition_ready d c')
  ∧ (∀ ws i c', ws ∈ sts → ix !! WorkflowStep_Name ws = Some i → cs' !! i = Some c' →
     condition_ready d c').
Proof.
  revert cs w cs'. induction sts as [|ws sts IH]; intros cs w cs' Er.
  { injection Er as <- <-. split_and!; [done|congruence|]. by intros ws i c' ?%elem_of_nil. }
  cbn in Er. destruct (ix !! WorkflowStep_Name ws) as [i|] eqn:Ei; cbn in Er.
  2: { apply IH in Er as (Hk & Hp & Hs). split_and!; [done..|].
       intros ws' i c' [->|Hin]%elem_of_cons; [congruence|by apply Hs]. }
  destruct (cs !! i) as [c|] eqn:Ec; cbn in Er.
  2: { apply IH in Er as (Hk & Hp & Hs). split_and!; [done..|].
       intros ws' j c' [->|Hin]%elem_of_cons; [|by apply Hs]. intros Hj Hc'. exfalso.
       assert (j = i) as -> by congruence. assert (Hl : length cs' = length cs)
         by exact (eq_trans (eq_sym (length_fmap fst cs')) (eq_trans (f_equal length Hk) (length_fmap fst cs))).
       apply lookup_lt_Some in Hc'. apply lookup_ge_None in Ec. lia. }
  apply bind_ok in Er as (c1 & w1 & E & Er). apply configure_condition_spec in E as [Hk1 Hr1].
  apply IH in Er as (Hk & Hp & Hs).
  assert (Hi : i < length cs) by (by eapply lookup_lt_Some).
  split_and!.
  - etrans; [exact Hk|]. rewrite list_fmap_insert, Hk1. apply list_insert_id.
    rewrite list_lookup_fmap. exact (f_equal (fmap fst) Ec).
  - intros j x x' Hx Hx' Hr. destruct (decide (j = i)) as [->|Hne].
    + by apply (Hp i c1 x'); [apply list_lookup_insert_eq|..].
    + apply (Hp j x x'); [by rewrite list_lookup_insert_ne|done..].
  - intros ws' j x' [->|Hin]%elem_of_cons Hj Hx'; [|by eapply Hs].
    assert (j = i) as -> by congruence.
    by apply (Hp i c1 x'); [apply list_lookup_insert_eq|..].
Qed.
Lemma configure_conditions_agree ks v d ix cs sts :
  invariant (agrees ks v) (configure_conditions issuer now d ix cs sts).
Proof.
  revert cs. induction sts as [|ws sts IH]; intros cs; cbn; [apply invariant_ret|].
  destruct (ix !! _) as [i|]; cbn; [|apply IH]. destruct (cs !! i); cbn; [|apply IH].
  apply invariant_bind; [|intros; apply IH].
  apply invariant_bind; [apply annotate_token_agree|]. intros. apply invariant_ret.
Qed.
End configuring.

(** ** The pipeline on the server *)
Lemma own_list_Ok wr k (l l' : list (object k)) :
  own_list wr l = Ok l' → Forall2 (λ o o', o'.1 = o.1
    ∧ Annotations (Kube_Meta o'.2) = Annotations (Kube_Meta o.2)) l l'.
Proof.
  unfold own_list. intros E%mapM_Ok. eapply Forall2_impl; [exact E|].
  intros o o' (H1 & _ & H2)%owned_by_Ok. done.
Qed.
Lemma Forall2_keys {k} (R : object k → object k → Prop) l l' :
  (∀ o o', R o o' → o'.1 = o.1) → Forall2 R l l' → (fst <$> l') = fst <$> l.
Proof. intros HR. induction 1 as [|o o' l l' Ho _ IH]; [done|]. cbn. by rewrite (HR o o'), IH. Qed.

(** The task of a step: it runs after the tasks of the steps the step depends on. *)
Definition planned_task (wr : WorkflowRun) (ws : WorkflowStep) : PipelineTask :=
  let name := task_name (Run_Name wr) in
  MkPipelineTask (name (WorkflowStep_Name ws)) (name (WorkflowStep_Name ws))
    (name <$> DependsOn ws) (if has_condition ws then [name (WorkflowStep_Name ws)] else []).

Section pipeline.
Context `{GoFmt} {W : Type} (issuer : Issuer_ W) (now : Z).
Context (view : W → Objects) (cl : KubeClient W) `{!ServerLaws view cl}.
Notation agrees := (agree view).
Context (Hissuer : ∀ ks v c, invariant (agrees ks v) (issuer c)).

Definition step_object (d : WorkflowRunDeps) (ws : WorkflowStep) : ObjectKey :=
  ((Wrd_WorkflowRun d).1.1, step_name d ws).
Definition pipeline_kinds : list Kind := [KTask; KCondition; KPipeline].

Definition task_on (d : WorkflowRunDeps) (old : Objects) (w : W) (ws : WorkflowStep) : Prop :=
  ∃ o, view w KTask (step_object d ws) = Some o ∧ Kube_Spec o = [task_container (MetadataAPIURL d) ws]
    ∧ has_token (Kube_Meta o)
    ∧ (old KTask (step_object d ws) = None →
       subject_of (Kube_Meta o) = Some (action_subject (AStep (ModelStep (deps_run d) ws)))).
Definition condition_on (d : WorkflowRunDeps) (w : W) (ws : WorkflowStep) : Prop :=
  has_condition ws = true → ∃ o, view w KCondition (step_object d ws) = Some o
    ∧ Kube_Spec o = Some (condition_container (MetadataAPIURL d)) ∧ has_token (Kube_Meta o).

(** The objects as they are loaded. *)
Lemma pipeline_load_spec p w b p' w' :
  Pipeline_Load cl p w = (Ok (b, p'), w') →
  agrees [] (view w) w' ∧ Pipeline_Deps p' = Pipeline_Deps p ∧ idx p' = idx p
  ∧ (Pipeline_Object p').1 = (Pipeline_Object p).1
  ∧ (fst <$> Pipeline_Conditions p') = (fst <$> Pipeline_Conditions p)
  ∧ Forall2 (λ o o', o'.1 = o.1 ∧ (view w KTask o.1 = None →
       Annotations (Kube_Meta o'.2) = Annotations (Kube_Meta o.2))) (Tasks p) (Tasks p').
Proof.
  intros ([ok1 o] & w1 & E1 & E)%bind_ok. apply bind_ok in E as ([ok2 ts] & w2 & E2 & E).
  apply bind_ok in E as ([ok3 cs] & w3 & E3 & E). injection E as <- <- <-.
  apply (load_spec view cl) in E1 as [V1 E1]. destruct (E1 ok1 o eq_refl) as (K1 & _).
  apply (load_list_spec view cl) in E2 as [V2 L2], E3 as [V3 L3]. split_and!; try done.
  - by eapply agree_trans; [eapply agree_trans|].
  - eapply Forall2_keys; [|exact L3]. by intros x y [? _].
  - eapply Forall2_impl; [exact L2|]. intros x y [Hk Hn]. split; [done|]. intros Hx.
    apply Hn. by rewrite (V1 KTask) by (by intros ?%elem_of_nil).
Qed.

(** The tasks and conditions are those of the steps, in their order. *)
Notation conditional l := (filter (λ ws, has_condition ws = true) l).
Definition planned (p : Pipeline) : Prop :=
  let d := Pipeline_Deps p in
  (fst <$> Tasks p) = step_object d <$> deps_steps d
  ∧ (fst <$> Pipeline_Conditions p) = step_object d <$> conditional (deps_steps d)
  ∧ ∀ name i, idx p !! name = Some i ↔
      ∃ ws, conditional (deps_steps d) !! i = Some ws ∧ WorkflowStep_Name ws = name.

Lemma new_pipeline_planned d :
  NoDup (WorkflowStep_Name <$> deps_steps d) → planned (NewPipeline d).
Proof.
  intros Hn. unfold NewPipeline, planned. destruct (NewConditions d) as [cs ix] eqn:E.
  apply new_conditions_spec in E as [-> Hix]; [|done]. cbn. split_and!; [| |exact Hix].
  - unfold NewTasks. rewrite <- list_fmap_compose. by apply list_fmap_ext.
  - rewrite <- list_fmap_compose. by apply list_fmap_ext.
Qed.

(** The condition of a step is found exactly when the step has one. *)
Lemma planned_condition p ws :
  planned p → NoDup (WorkflowStep_Name <$> deps_steps (Pipeline_Deps p)) →
  ws ∈ deps_steps (Pipeline_Deps p) →
  match GetByStepName (idx p) (Pipeline_Conditions p) (WorkflowStep_Name ws) with
  | Some c => has_condition ws = true ∧ c.1 = step_object (Pipeline_Deps p) ws
  | None => has_condition ws = false
  end.
Proof.
  intros (_ & Hc & Hix) Hn Hin. unfold GetByStepName.
  destruct (idx p !! WorkflowStep_Name ws) as [i|] eqn:Ei; cbn.
  - apply Hix in Ei as (ws' & E & En).
    assert (Hin' : ws' ∈ conditional (deps_steps (Pipeline_Deps p)))
      by (by eapply list_elem_of_lookup_2).
    apply list_elem_of_filter in Hin' as [Hh Hin']. assert (ws' = ws) as ->.
    { apply list_elem_of_lookup_1 in Hin as [j Hj], Hin' as [j' Hj'].
      assert (j' = j) as ->; [|congruence].
      eapply NoDup_lookup; [exact Hn|rewrite list_lookup_fmap, Hj'; cbn; by rewrite En|].
      by rewrite list_lookup_fmap, Hj. }
    assert (Hk : fst <$> (Pipeline_Conditions p !! i) = Some (step_object (Pipeline_Deps p) ws)).
    { etrans; [exact (eq_sym (list_lookup_fmap fst (Pipeline_Conditions p) i))|].
      etrans; [exact (f_equal (.!! i) Hc)|]. by rewrite list_lookup_fmap, E. }
    destruct (Pipeline_Conditions p !! i) as [c|]; [|discriminate Hk]. by injection Hk as Hk.
  - destruct (has_condition ws) eqn:Hh; [|done].
    assert (Hw : ws ∈ conditional (deps_steps (Pipeline_Deps p))) by by apply list_elem_of_filter.
    apply list_elem_of_lookup_1 in Hw as [i Hi].
    assert (idx p !! WorkflowStep_Name ws = Some i) by (apply Hix; by exists ws). congruence.
Qed.

Lemma configure_conditions_ready p w p' w' :
  planned p → NoDup (WorkflowStep_Name <$> deps_steps (Pipeline_Deps p)) →
  ConfigureConditions issuer now p w = (Ok p', w') →
  agrees [] (view w) w' ∧ Pipeline_Deps p' = Pipeline_Deps p ∧ Pipeline_Object p' = Pipeline_Object p
  ∧ Tasks p' = Tasks p ∧ planned p' ∧ Forall (condition_ready (Pipeline_Deps p)) (Pipeline_Conditions p').
Proof.
  intros (Ht & Hc & Hix) Hn (cs1 & w1 & [E1 ->]%lift_ok & E)%bind_ok.
  apply bind_ok in E as (cs2 & w2 & E2 & E). injection E as <- <-.
  apply map_err_Ok, own_list_Ok in E1. apply Forall2_keys in E1; [|by intros x y [? _]].
  assert (Hv := configure_conditions_agree issuer now view Hissuer [] (view w) _ _ _ _ _ _ _
                  (agree_refl view [] w) E2).
  apply configure_conditions_spec in E2 as (Hk & _ & Hr).
  assert (Hkeys : (fst <$> cs2) = step_object (Pipeline_Deps p) <$> conditional (deps_steps (Pipeline_Deps p)))
    by exact (eq_trans Hk (eq_trans E1 Hc)).
  split_and!; try done. apply Forall_lookup. intros i c Hi.
  assert (Hl := f_equal (.!! i) Hkeys). rewrite !list_lookup_fmap in Hl.
  assert (Hl2 : Some c.1 = (step_object (Pipeline_Deps p) <$> conditional (deps_steps (Pipeline_Deps p)) !! i))
    by (etrans; [exact (eq_sym (f_equal (fmap (M:=option) fst) Hi))|exact Hl]). clear Hl.
  destruct (conditional (deps_steps (Pipeline_Deps p)) !! i) as [ws|] eqn:Ews; [|discriminate Hl2].
  apply (Hr ws i c); [|apply Hix; by exists ws|exact Hi].
  apply list_elem_of_lookup_2 in Ews. by apply list_elem_of_filter in Ews as [_ ?].
Qed.

Lemma planned_length p : planned p → length (Tasks p) = length (deps_steps (Pipeline_Deps p)).
Proof.
  intros (Ht & _). exact (eq_trans (eq_sym (length_fmap fst (Tasks p)))
    (eq_trans (f_equal length Ht) (length_fmap (step_object _) _))).
Qed.

Lemma configure_tasks_ready p w p' w' :
  planned p → ConfigureTasks issuer now p w = (Ok p', w') →
  agrees [] (view w) w' ∧ Pipeline_Deps p' = Pipeline_Deps p ∧ Pipeline_Object p' = Pipeline_Object p
  ∧ Pipeline_Conditions p' = Pipeline_Conditions p ∧ planned p'
  ∧ ∀ i t ws, Tasks p !! i = Some t → deps_steps (Pipeline_Deps p) !! i = Some ws →
      ∃ t', Tasks p' !! i = Some t' ∧ task_ready (Pipeline_Deps p) ws t t'.
Proof.
  intros Hp (ts1 & w1 & [E1 ->]%lift_ok & E)%bind_ok.
  apply bind_ok in E as (ts2 & w2 & E2 & E). injection E as <- <-.
  apply map_err_Ok, own_list_Ok in E1.
  assert (Hk1 : (fst <$> ts1) = fst <$> Tasks p)
    by (eapply Forall2_keys; [|exact E1]; by intros x y [? _]).
  assert (Hlen : length ts1 = length (deps_steps (Pipeline_Deps p)))
    by exact (eq_trans (eq_sym (Forall2_length _ _ _ E1)) (planned_length p Hp)).
  assert (Hv := configure_tasks_agree issuer now view Hissuer [] (view w) _ _ _ _ _ _
                  (agree_refl view [] w) E2).
  apply configure_tasks_spec in E2 as [Hk2 Hr]; [|done].
  assert (Hready : ∀ i t ws, Tasks p !! i = Some t → deps_steps (Pipeline_Deps p) !! i = Some ws →
      ∃ t', ts2 !! i = Some t' ∧ task_ready (Pipeline_Deps p) ws t t').
  { intros i t ws Ht Hws. destruct (Forall2_lookup_l _ _ _ _ _ E1 Ht) as (t1 & Ht1 & Hk & Ha).
    destruct (Hr i t1 ws Ht1 Hws) as (t' & Ht' & R1 & R2 & R3 & R4). exists t'. split; [done|].
    split_and!; [exact (eq_trans R1 Hk)|done..|]. intros Hno. apply R4. intros Hh. apply Hno.
    unfold has_token, annotations_of in *. by rewrite <- Ha. }
  split_and!; try done. destruct Hp as (Ht & Hc & Hix). split_and!; [|done..].
  exact (eq_trans Hk2 (eq_trans Hk1 Ht)).
Qed.

Definition configured_pipeline (d : WorkflowRunDeps) (old : Objects) (p : Pipeline) : Prop :=
  Pipeline_Deps p = d ∧ planned p ∧ (Pipeline_Object p).1 = (Wrd_WorkflowRun d).1
  ∧ Kube_Spec (Pipeline_Object p).2 = planned_task (deps_run d) <$> deps_steps d
  ∧ Forall (condition_ready d) (Pipeline_Conditions p)
  ∧ ∀ i ws, deps_steps d !! i = Some ws → ∃ t, Tasks p !! i = Some t ∧ t.1 = step_object d ws
      ∧ Kube_Spec t.2 = [task_container (MetadataAPIURL d) ws] ∧ has_token (Kube_Meta t.2)
      ∧ (old KTask (step_object d ws) = None →
         subject_of (Kube_Meta t.2) = Some (action_subject (AStep (ModelStep (deps_run d) ws)))).

Lemma planned_tasks p :
  planned p → NoDup (WorkflowStep_Name <$> deps_steps (Pipeline_Deps p)) →
  zip_with (pipeline_task p) (Tasks p) (deps_steps (Pipeline_Deps p))
  = planned_task (deps_run (Pipeline_Deps p)) <$> deps_steps (Pipeline_Deps p).
Proof.
  intros Hp Hn. assert (Hlen := planned_length p Hp). destruct (Hp) as (Ht & _).
  apply list_eq. intros i. rewrite lookup_zip_with, list_lookup_fmap.
  destruct (deps_steps (Pipeline_Deps p) !! i) as [ws|] eqn:Ews.
  - assert (Hk : fst <$> (Tasks p !! i) = Some (step_object (Pipeline_Deps p) ws)).
    { etrans; [exact (eq_sym (list_lookup_fmap fst (Tasks p) i))|].
      etrans; [exact (f_equal (.!! i) Ht)|]. by rewrite list_lookup_fmap, Ews. }
    destruct (Tasks p !! i) as [t|]; [|discriminate Hk]. injection Hk as Hk. cbn. f_equal.
    unfold pipeline_task, planned_task. rewrite Hk.
    assert (Hc := planned_condition p ws Hp Hn (list_elem_of_lookup_2 _ _ _ Ews)).
    destruct (GetByStepName _ _ _) as [c|]; [destruct Hc as [-> ->]|rewrite Hc]; done.
  - by destruct (Tasks p !! i).
Qed.

Lemma configure_pipeline_spec p w w0 p' w' :
  planned p → NoDup (WorkflowStep_Name <$> deps_steps (Pipeline_Deps p)) →
  (Pipeline_Object p).1 = (Wrd_WorkflowRun (Pipeline_Deps p)).1 →
  Forall2 (λ o o', o'.1 = o.1 ∧ (view w0 KTask o.1 = None →
      Annotations (Kube_Meta o'.2) = Annotations (Kube_Meta o.2)))
    (NewTasks (Pipeline_Deps p)) (Tasks p) →
  ConfigurePipeline issuer now p w = (Ok p', w') →
  agrees [] (view w) w' ∧ configured_pipeline (Pipeline_Deps p) (view w0) p'.
Proof.
  intros Hp Hn Hkey Hold (o & w1 & [E0 ->]%lift_ok & E)%bind_ok.
  apply bind_ok in E as (p1 & w2 & E1 & E). apply bind_ok in E as (p2 & w3 & E2 & E).
  injection E as <- <-. apply map_err_Ok, owned_by_Ok in E0 as (K0 & _).
  apply configure_conditions_ready in E1 as (V1 & D1 & O1 & T1 & P1 & C1); [|done..].
  cbn in D1, O1, T1, C1. apply configure_tasks_ready in E2 as (V2 & D2 & O2 & C2 & P2 & R2); [|done].
  assert (D : Pipeline_Deps p2 = Pipeline_Deps p) by (by rewrite D2).
  split; [by eapply agree_trans|]. unfold configured_pipeline. cbn [Pipeline_Deps put_Pipeline_object].
  split_and!; [done|exact P2| | | |].
  - cbn. rewrite O2, O1. exact (eq_trans K0 Hkey).
  - cbn. rewrite <- D. by apply planned_tasks; [|rewrite D].
  - cbn. by rewrite C2.
  - rewrite D1, T1 in R2. intros i ws Hws. cbn.
    assert (Hi : NewTasks (Pipeline_Deps p) !! i = Some (NewObject KTask (step_key (Pipeline_Deps p) ws)))
      by (unfold NewTasks; by rewrite list_lookup_fmap, Hws).
    destruct (Forall2_lookup_l _ _ _ _ _ Hold Hi) as (t & Ht & Hk & Hno).
    destruct (R2 i t ws Ht Hws) as (t' & Ht' & S1 & S2 & S3 & S4). exists t'.
    split_and!; [done|exact (eq_trans S1 Hk)|done..|]. intros Hnone. apply S4.
    unfold has_token, annotations_of. rewrite (Hno Hnone). cbn. by intros [].
Qed.

Lemma pipeline_persist_spec p w p' w' :
  NoDup (fst <$> Tasks p) → NoDup (fst <$> Pipeline_Conditions p) →
  Pipeline_Persist cl p w = (Ok p', w') →
  agrees pipeline_kinds (view w) w'
  ∧ Pipeline_Deps p' = Pipeline_Deps p ∧ (Pipeline_Object p').1 = (Pipeline_Object p).1
  ∧ Kube_Spec (Pipeline_Object p').2 = Kube_Spec (Pipeline_Object p).2
  ∧ Forall (on_server view w') (Tasks p) ∧ Forall (on_server view w') (Pipeline_Conditions p)
  ∧ on_server view w' (Pipeline_Object p).
Proof.
  intros Nt Nc (ts & w1 & E1 & E)%bind_ok. apply bind_ok in E as (cs & w2 & E2 & E).
  apply bind_ok in E as ([u o] & w3 & E3 & E). injection E as <- <-.
  apply (persist_list_spec view cl) in E1 as (_ & F1 & S1), E2 as (_ & F2 & S2).
  apply (persist_spec view cl) in E3 as [F3 E3]. destruct (E3 u o eq_refl) as (K3 & _ & H1 & H2 & H3).
  assert (Hf3 : ∀ k key, k ≠ KPipeline → view w3 k key = view w2 k key)
    by (intros k key Hk; apply F3; by intros [= -> _]).
  split_and!; [|done|exact K3|exact H3| | |by exists o.2].
  - intros k key Hk. unfold pipeline_kinds in Hk. rewrite !not_elem_of_cons in Hk.
    destruct Hk as (N1 & N2 & N3 & _). rewrite Hf3, F2, F1; auto.
  - eapply Forall_impl; [by apply S1|]. intros t. apply on_server_frame. rewrite Hf3, F2; auto.
  - eapply Forall_impl; [by apply S2|]. intros c. apply on_server_frame. by rewrite Hf3.
Qed.

Definition steps_distinct (wr : WorkflowRun) : Prop :=
  NoDup (WorkflowStep_Name <$> Workflow_Steps wr)
  ∧ NoDup (task_name (Run_Name wr) ∘ WorkflowStep_Name <$> Workflow_Steps wr).

Lemma step_objects_NoDup d l :
  NoDup (task_name (Run_Name (deps_run d)) ∘ WorkflowStep_Name <$> l) → NoDup (step_object d <$> l).
Proof.
  intros Hn. apply (NoDup_fmap_1 snd). rewrite <- list_fmap_compose. exact Hn.
Qed.
Lemma filter_NoDup_fmap {A B} (P : A → Prop) `{∀ x, Decision (P x)} (f : A → B) l :
  NoDup (f <$> l) → NoDup (f <$> filter P l).
Proof.
  induction l as [|x l IH]; [done|]. rewrite fmap_cons. intros [Hx Hl]%NoDup_cons.
  rewrite filter_cons. case_decide; [|by apply IH]. rewrite fmap_cons. apply NoDup_cons.
  split; [|by apply IH]. intros (y & Heq & [_ Hy]%list_elem_of_filter)%list_elem_of_fmap.
  apply Hx. rewrite Heq. by apply list_elem_of_fmap_2.
Qed.

Definition pipeline_on (d : WorkflowRunDeps) (old : Objects) (w : W) : Prop :=
  (∃ o, view w KPipeline (Wrd_WorkflowRun d).1 = Some o
        ∧ Kube_Spec o = planned_task (deps_run d) <$> deps_steps d)
  ∧ (∀ ws, ws ∈ deps_steps d → task_on d old w ws ∧ condition_on d w ws).

Lemma has_token_annotations m m' : Annotations m' = Annotations m → has_token m → has_token m'.
Proof. unfold has_token, annotations_of. by intros ->. Qed.

Lemma apply_pipeline_spec d w p w' :
  steps_distinct (deps_run d) → ApplyPipeline issuer now cl d w = (Ok p, w') →
  agrees pipeline_kinds (view w) w' ∧ Pipeline_Deps p = d
  ∧ (Pipeline_Object p).1 = (Wrd_WorkflowRun d).1
  ∧ Kube_Spec (Pipeline_Object p).2 = planned_task (deps_run d) <$> deps_steps d
  ∧ pipeline_on d (view w) w'.
Proof.
  intros [Hn Hh] ([b p0] & w1 & E1 & E)%bind_ok. apply returning_Ok in E1.
  apply bind_ok in E as (p1 & w2 & E2 & E3). apply returning_Ok in E3.
  assert (Hnew := new_pipeline_planned d Hn).
  assert (Hd0 : Pipeline_Deps (NewPipeline d) = d ∧ Tasks (NewPipeline d) = NewTasks d
                ∧ (Pipeline_Object (NewPipeline d)).1 = (Wrd_WorkflowRun d).1)
    by (unfold NewPipeline; by destruct (NewConditions d)).
  destruct Hd0 as (D0 & T0 & K0). apply pipeline_load_spec in E1 as (V1 & D1 & X1 & K1 & C1 & L1).
  rewrite D0 in D1. apply (configure_pipeline_spec _ w1 w) in E2.
  2: { unfold planned in *. cbn. rewrite D1, X1. rewrite D0, T0 in Hnew. destruct Hnew as (H1 & H2 & H3).
       split_and!; [|exact (eq_trans C1 H2)|exact H3]. etrans; [|exact H1].
       eapply Forall2_keys; [|rewrite <- T0; exact L1]. by intros x y [? _]. }
  2: { cbn. by rewrite D1. }
  2: { cbn. rewrite D1. exact (eq_trans K1 K0). }
  2: { cbn. rewrite D1, <- T0. exact L1. }
  cbn [Pipeline_Deps put_Pipeline_object] in E2. rewrite D1 in E2.
  destruct E2 as [V2 (D2 & P2 & K2 & S2 & C2 & T2)]. assert (P2' := P2). destruct P2' as (KT & KC & _).
  rewrite D2 in KT, KC. apply pipeline_persist_spec in E3 as (V3 & D3 & K3 & S3 & St & Sc & So).
  2: { rewrite KT. by apply step_objects_NoDup. }
  2: { rewrite KC. by apply step_objects_NoDup, filter_NoDup_fmap. }
  split_and!; [|congruence|congruence| |].
  - eapply agree_trans; [|exact V3]. eapply agree_weaken; [|by eapply agree_trans].
    by intros k ?%elem_of_nil.
  - exact (eq_trans S3 S2).
  - split.
    + destruct (on_server_at view _ _ _ So K2) as (o & Ho & Hs & _). exists o. split; [exact Ho|].
      exact (eq_trans Hs S2).
    + intros ws Hws. split.
      * apply list_elem_of_lookup_1 in Hws as [i Hi].
        destruct (T2 i ws Hi) as (t & Ht & Hk & Hs & Htok & Hsub).
        destruct (on_server_at view _ _ _ (Forall_lookup_1 _ _ _ _ St Ht) Hk) as (o & Ho & Hso & Hao).
        exists o. split_and!; [exact Ho|exact (eq_trans Hso Hs)|by eapply has_token_annotations|].
        intros Hnone. unfold subject_of, annotations_of in *. rewrite Hao. by apply Hsub.
      * intros Hc. assert (Hin : ws ∈ filter (λ ws, has_condition ws = true) (deps_steps d))
          by by apply list_elem_of_filter.
        apply list_elem_of_lookup_1 in Hin as [i Hi].
        assert (Hk : fst <$> (Pipeline_Conditions p1 !! i) = Some (step_object d ws)).
        { etrans; [exact (eq_sym (list_lookup_fmap fst (Pipeline_Conditions p1) i))|].
          etrans; [exact (f_equal (.!! i) KC)|]. by rewrite list_lookup_fmap, Hi. }
        destruct (Pipeline_Conditions p1 !! i) as [c|] eqn:Ec; [|discriminate Hk]. injection Hk as Hk.
        destruct (Forall_lookup_1 _ _ _ _ C2 Ec) as [Hcs Hct].
        destruct (on_server_at view _ _ _ (Forall_lookup_1 _ _ _ _ Sc Ec) Hk) as (o & Ho & Hso & Hao).
        exists o. split_and!; [exact Ho|exact (eq_trans Hso Hcs)|by eapply has_token_annotations].
Qed.
End pipeline.

(** ** A run on the server *)
Section run.
Context `{GoRuntime, GoFmt, JSONText, Markdown} {W : Type}.
Context (view : W → Objects) (cl : KubeClient W) `{!ServerLaws view cl}.
Context (issuer : Issuer_ W) (metadataAPIURL : string) (standalone : bool).
Context (fuel rounds : nat) (now : Z).
Notation agrees := (agree view).
Context (Hissuer : ∀ ks v c, invariant (agrees ks v) (issuer c)).

Lemma apply_pipeline_run_spec p w pr w' :
  ApplyPipelineRun cl p w = (Ok pr, w') →
  agrees [KPipelineRun] (view w) w'
  ∧ ∃ o, view w' KPipelineRun (Pipeline_Object p).1 = Some o
      ∧ Pr_Spec (Kube_Spec o) = pipeline_run_spec p.
Proof.
  intros ([b pr0] & w1 & E1 & E)%bind_ok. apply returning_Ok in E1.
  apply bind_ok in E as (pr1 & w2 & [E2 ->]%lift_ok & E).
  apply bind_ok in E as ([u pr2] & w3 & E3 & E). injection E as <- <-. apply returning_Ok in E3.
  apply (load_spec view cl) in E1 as [V1 E1]. destruct (E1 b pr0 eq_refl) as (K1 & _).
  apply map_err_Ok in E2. unfold ConfigurePipelineRun in E2.
  apply bind_Ok in E2 as (pr3 & E2 & [= <-]).
  assert (K2 := proj1 (owned_by_Ok _ _ KPipelineRun _ _ E2)).
  assert (V3 := persist_agree view cl [KPipelineRun] (view w1) _ _ (proj2 (list_elem_of_singleton _ _) eq_refl)
                  _ _ _ (agree_refl view _ w1) E3).
  apply (persist_spec view cl) in E3 as [_ E3]. destruct (E3 u pr2 eq_refl) as (_ & _ & P1 & _ & P3).
  split; [eapply agree_trans; [|exact V3]; eapply agree_weaken; [|exact V1]; by intros k ?%elem_of_nil|].
  assert (K : pr3.1 = (Pipeline_Object p).1) by exact (eq_trans K2 K1).
  exists pr2.2. split; [rewrite <- K; exact P1|]. exact (f_equal Pr_Spec P3).
Qed.

Lemma wrapping_Ok {A} prefix (m : effect (merror error) W A) w a w' :
  wrapping prefix m w = (Ok a, w') → m w = (Ok a, w').
Proof. unfold wrapping. destruct (m w) as [[]]; intros [=]; congruence. Qed.
Lemma marking_Ok {A} rules (m : effect (merror error) W A) w a w' :
  marking rules m w = (Ok a, w') → m w = (Ok a, w').
Proof. unfold marking. destruct (m w) as [[]]; intros [=]; congruence. Qed.

(** What a run is on the server once it was started. *)
Definition started (old : Objects) (wr : RunObject) (w : W) : Prop :=
  let r := run_of wr in
  let object_of ws := (wr.1.1, task_name (Run_Name r) (WorkflowStep_Name ws)) in
  served_run fuel view old wr w
  ∧ (∃ o, view w KPipeline wr.1 = Some o ∧ Kube_Spec o = planned_task r <$> Workflow_Steps r)
  ∧ (∃ o, view w KPipelineRun wr.1 = Some o
        ∧ PipelineRef_Name (Pr_Spec (Kube_Spec o)) = wr.1.2
        ∧ (PipelineRunSpec_Status (Pr_Spec (Kube_Spec o)) = PipelineRunSpecStatusCancelled
           ↔ IsCancelled r = true))
  ∧ ∀ ws, ws ∈ Workflow_Steps r →
      (∃ o, view w KTask (object_of ws) = Some o ∧ Kube_Spec o = [task_container metadataAPIURL ws]
        ∧ has_token (Kube_Meta o)
        ∧ (old KTask (object_of ws) = None →
           subject_of (Kube_Meta o) = Some (action_subject (AStep (ModelStep r ws)))))
      ∧ (has_condition ws = true →
         ∃ o, view w KCondition (object_of ws) = Some o
           ∧ Kube_Spec o = Some (condition_container metadataAPIURL) ∧ has_token (Kube_Meta o)).

Lemma served_run_agree ks old wr w w' :
  KRole ∉ ks → KRoleBinding ∉ ks → KConfigMap ∉ ks → agrees ks (view w) w' →
  served_run fuel view old wr w → served_run fuel view old wr w'.
Proof.
  intros N1 N2 N3 Hv. unfold served_run. cbv zeta.
  by rewrite (Hv KRole), (Hv KRoleBinding), (Hv KConfigMap).
Qed.

Lemma start_run_spec wr w pr w' :
  steps_distinct (run_of wr) →
  start_run cl issuer metadataAPIURL standalone fuel rounds now wr w = (Ok pr, w') →
  started (view w) wr w'.
Proof.
  intros Hn (d & w1 & E1 & E)%bind_ok. apply wrapping_Ok, marking_Ok in E1.
  apply bind_ok in E as (p & w2 & E2 & E3). apply wrapping_Ok in E2, E3.
  apply (apply_deps_spec fuel rounds view cl) in E1 as (V1 & D1 & U1 & _ & S1).
  assert (R1 : deps_run d = run_of wr) by (unfold deps_run; by rewrite D1).
  apply (apply_pipeline_spec issuer now view cl Hissuer) in E2 as (V2 & D2 & K2 & Sp2 & P2 & T2); [|by rewrite R1].
  apply apply_pipeline_run_spec in E3 as (V3 & o & Ho & Hs).
  assert (Hf : ∀ k key, k ≠ KPipelineRun → view w' k key = view w2 k key)
    by (intros k key Hk; apply V3; by intros ?%list_elem_of_singleton).
  unfold started. cbv zeta. split_and!.
  - eapply (served_run_agree [KPipelineRun]); [set_solver..|exact V3|].
    eapply (served_run_agree pipeline_kinds); [unfold pipeline_kinds; set_solver..|exact V2|exact S1].
  - destruct P2 as (x & Hx & Hxs). exists x. rewrite Hf by done. rewrite D1 in Hx.
    split; [exact Hx|]. etrans; [exact Hxs|]. unfold deps_steps. by rewrite R1.
  - exists o. rewrite K2, D1 in Ho. split; [exact Ho|]. rewrite Hs. cbn. rewrite K2, D1, D2, R1.
    split; [done|]. by destruct (IsCancelled (run_of wr)).
  - intros ws Hws. destruct (T2 ws) as [Ht Hc]; [unfold deps_steps; by rewrite R1|].
    unfold task_on, condition_on, step_object, step_name in *. rewrite R1, D1, U1 in *.
    rewrite !Hf by done. split; [|exact Hc]. destruct Ht as (t & H1' & H2' & H3' & H4').
    exists t. split_and!; [done..|]. intros Hnone. apply H4'. rewrite (V1 KTask); [exact Hnone|].
    unfold deps_kinds. set_solver.
Qed.
End run.
