(* ===== verification/TriggerDeps.v ===== *)
(** * What a webhook trigger depends on (pkg/obj/webhooktriggerdeps.go)

    The objects of a trigger are in the namespace of its tenant, while the trigger is in
    another: they belong to a ConfigMap in their namespace, the owner, which is marked as
    depending on the trigger and is deleted with it. *)
From S2P Require Import Prelude GoStd GoStrings Values Errors Transfer Unresolvable Fn.
From S2P Require Import ResultMapper Model ConfigMaps ObjUtil Graph RunStatus RunConfig.
From S2P Require Import Authenticate AuthKubernetes AuthIssue Workflow ErrMark.
From S2P Require Import KubeObjects NetworkPolicy TenantDeps TenantReconcile RunObjects RunDeps.

Definition WebhookTriggerKind : GroupVersionKind := MkGVK "relay.sh/v1beta1" "WebhookTrigger".
Definition ConfigMapKind : GroupVersionKind := MkGVK "v1" "ConfigMap".

(** ** Triggers *)
Definition TriggerObject : Type := object KWebhookTrigger.
Definition NewWebhookTrigger (key : ObjectKey) : TriggerObject := NewObject KWebhookTrigger key.
Definition trigger_spec (wt : TriggerObject) : TriggerObjectSpec := Kube_Spec wt.2.
Definition trigger_status (wt : TriggerObject) : TriggerStatus := Trigger_Status (trigger_spec wt).
Definition with_trigger_status (st : TriggerStatus) (wt : TriggerObject) : TriggerObject :=
  on_object (λ o, let s := Kube_Spec o in
    with_Spec (MkTriggerObjectSpec (Trigger_Generation s) (Spec_Trigger s) st) o) wt.
(** The trigger is known by the name it was asked for by. *)
Definition trigger_of (wt : TriggerObject) : WebhookTrigger :=
  let t := Spec_Trigger (trigger_spec wt) in
  MkWebhookTrigger wt.1.2 (TenantRef t) (WebhookTrigger_Name t) (TriggerImage t) (TriggerInput t)
    (TriggerCommand t) (TriggerArgs t) (TriggerSpec t) (TriggerEnv t).
Definition ModelTrigger (wt : TriggerObject) : Trigger :=
  ModelWebhookTrigger (WebhookTrigger_Name (trigger_of wt)) wt.1.2.
Definition TriggerOwner (wt : TriggerObject) : Owner := MkOwner WebhookTriggerKind (Kube_Meta wt.2).

(** [ConfigMap.Own] *)
Definition map_owns (cm : object KConfigMap) (k : Kind) (o : object k) : result (object k) :=
  owned_by KConfigMap (MkOwner ConfigMapKind (Kube_Meta cm.2)) k o.

(** ** The structure *)
Record TriggerObjects := MkTriggerObjects {
  To_Owner : object KConfigMap;
  To_NetworkPolicy : object KNetworkPolicy;
  To_Immutable : object KConfigMap;
  To_Mutable : object KConfigMap;
  To_Account : ServiceAccount;
  To_Role : object KRole;
  To_Binding : object KRoleBinding;
  To_Knative : ServiceAccount }.

Section setters.
Context (t : TriggerObjects).
Definition put_to_Owner o := MkTriggerObjects o (To_NetworkPolicy t) (To_Immutable t) (To_Mutable t) (To_Account t) (To_Role t) (To_Binding t) (To_Knative t).
Definition put_to_NetworkPolicy o := MkTriggerObjects (To_Owner t) o (To_Immutable t) (To_Mutable t) (To_Account t) (To_Role t) (To_Binding t) (To_Knative t).
Definition put_to_Immutable o := MkTriggerObjects (To_Owner t) (To_NetworkPolicy t) o (To_Mutable t) (To_Account t) (To_Role t) (To_Binding t) (To_Knative t).
Definition put_to_Mutable o := MkTriggerObjects (To_Owner t) (To_NetworkPolicy t) (To_Immutable t) o (To_Account t) (To_Role t) (To_Binding t) (To_Knative t).
Definition put_to_Account o := MkTriggerObjects (To_Owner t) (To_NetworkPolicy t) (To_Immutable t) (To_Mutable t) o (To_Role t) (To_Binding t) (To_Knative t).
Definition put_to_Role o := MkTriggerObjects (To_Owner t) (To_NetworkPolicy t) (To_Immutable t) (To_Mutable t) (To_Account t) o (To_Binding t) (To_Knative t).
Definition put_to_Binding o := MkTriggerObjects (To_Owner t) (To_NetworkPolicy t) (To_Immutable t) (To_Mutable t) (To_Account t) (To_Role t) o (To_Knative t).
Definition put_to_Knative o := MkTriggerObjects (To_Owner t) (To_NetworkPolicy t) (To_Immutable t) (To_Mutable t) (To_Account t) (To_Role t) (To_Binding t) o.
End setters.

(** The tenant's dependencies and the objects are nil until they are loaded. *)
Record WebhookTriggerDeps := MkWebhookTriggerDeps {
  Wtd_Trigger : TriggerObject;
  Wtd_Tenant : TenantObject;
  Wtd_TenantDeps : option TenantDeps;
  StaleOwnerConfigMap : option (object KConfigMap);
  Wtd_Objects : option TriggerObjects;
  Wtd_MetadataAPIURL : string }.

Definition with_trigger (wt : TriggerObject) (d : WebhookTriggerDeps) : WebhookTriggerDeps :=
  MkWebhookTriggerDeps wt (Wtd_Tenant d) (Wtd_TenantDeps d) (StaleOwnerConfigMap d) (Wtd_Objects d)
    (Wtd_MetadataAPIURL d).
Definition with_objects (objs : TriggerObjects) (d : WebhookTriggerDeps) : WebhookTriggerDeps :=
  MkWebhookTriggerDeps (Wtd_Trigger d) (Wtd_Tenant d) (Wtd_TenantDeps d) (StaleOwnerConfigMap d)
    (Some objs) (Wtd_MetadataAPIURL d).

Definition NewWebhookTriggerDeps (wt : TriggerObject) (metadataAPIURL : string) : WebhookTriggerDeps :=
  MkWebhookTriggerDeps wt (NewTenant (wt.1.1, TenantRef (trigger_of wt))) None None None metadataAPIURL.

(** The owner of the objects in a namespace. *)
Definition owner_key (namespace : string) (wt : TriggerObject) : ObjectKey :=
  SuffixObjectKey (namespace, wt.1.2) "owner".
Definition NewTriggerObjects (namespace : string) (wt : TriggerObject) : TriggerObjects :=
  let key := (namespace, wt.1.2) in
  MkTriggerObjects (NewObject KConfigMap (owner_key namespace wt))
    (NewObject KNetworkPolicy key)
    (NewObject KConfigMap (SuffixObjectKey key "immutable"))
    (NewObject KConfigMap (SuffixObjectKey key "mutable"))
    (NewServiceAccount (SuffixObjectKey key "metadata-api"))
    (NewObject KRole (SuffixObjectKey key "metadata-api"))
    (NewObject KRoleBinding (SuffixObjectKey key "metadata-api"))
    (NewServiceAccount (SuffixObjectKey key "knative")).

Definition nil_objects {E A} : outcome E A := Panic "invalid memory address or nil pointer dereference".

Record WebhookTriggerDepsLoadResult := MkLoadResult { Upstream : bool; All : bool }.

Section deps.
Context {W : Type} (cl : KubeClient W) (rounds : nat).

(** The clients of a tenant. *)
Definition tenant_clients : Clients W := {|
  namespaces := kube cl KNamespace; network_policies := kube cl KNetworkPolicy;
  limit_ranges := kube cl KLimitRange; secrets := kube cl KSecret; tenants := kube cl KTenant;
  tenants_StatusUpdate := kube_StatusUpdate cl KTenant |}.

(** A call on a structure, which is kept when it succeeds. *)
Definition on_value {D A} (m : io (W * D) A) (d : D) : io W (A * D) := λ w,
  match m (w, d) with
  | (Ok a, (w, d)) => (Ok (a, d), w)
  | (Err e, (w, _)) => (Err e, w)
  | (Panic x, (w, _)) => (Panic x, w)
  end.

(** ** Loading *)

(** A stale owner, and the objects. *)
Notation loading := (option (object KConfigMap) * TriggerObjects)%type.
Definition put_2 {A B O} (put : B → O → B) (d : A * B) (o : O) : A * B := (d.1, put d.2 o).
Definition trigger_loaders : list (Loader W loading) :=
  [load_optional cl KConfigMap fst (λ d o, (o, d.2));
   load_field cl KConfigMap (To_Owner ∘ snd) (put_2 put_to_Owner);
   load_field cl KNetworkPolicy (To_NetworkPolicy ∘ snd) (put_2 put_to_NetworkPolicy);
   load_field cl KConfigMap (To_Immutable ∘ snd) (put_2 put_to_Immutable);
   load_field cl KConfigMap (To_Mutable ∘ snd) (put_2 put_to_Mutable);
   load_account cl rounds (To_Account ∘ snd) (put_2 put_to_Account);
   load_field cl KRole (To_Role ∘ snd) (put_2 put_to_Role);
   load_field cl KRoleBinding (To_Binding ∘ snd) (put_2 put_to_Binding);
   load_account cl rounds (To_Knative ∘ snd) (put_2 put_to_Knative)].

Definition WebhookTriggerDeps_Load (d : WebhookTriggerDeps)
    : io W (WebhookTriggerDepsLoadResult * WebhookTriggerDeps) :=
  let wt := Wtd_Trigger d in
  let status_ns := Trigger_Namespace (trigger_status wt) in
  '(ok, tn) ← Tenant_Load tenant_clients (Wtd_Tenant d);
  if negb ok then
    if negb (String.eqb status_ns "") then
      '(_, stale) ← Keyed_Load (kube cl KConfigMap) (NewObject KConfigMap (owner_key status_ns wt));
      mret (MkLoadResult false false,
            MkWebhookTriggerDeps wt tn None (Some stale) None (Wtd_MetadataAPIURL d))
    else mret (MkLoadResult false false,
               MkWebhookTriggerDeps wt tn None None None (Wtd_MetadataAPIURL d))
  else
    '(ok, td) ← on_value (TenantDeps_Load tenant_clients) (NewTenantDeps tn);
    if negb ok then
      mret (MkLoadResult false false,
            MkWebhookTriggerDeps wt tn (Some td) None None (Wtd_MetadataAPIURL d))
    else
      let ns := (Td_Namespace td).1 in
      let stale :=
        if negb (String.eqb status_ns "") && negb (String.eqb ns status_ns)
        then Some (NewObject KConfigMap (owner_key status_ns wt)) else None in
      '(ok, (stale, objs)) ← on_value (Loaders_Load trigger_loaders) (stale, NewTriggerObjects ns wt);
      mret (MkLoadResult true ok,
            MkWebhookTriggerDeps wt tn (Some td) stale (Some objs) (Wtd_MetadataAPIURL d)).

(** ** Deleting: only an owner that names the trigger as what it depends on *)
Section deleting.
Context `{JSONText}.
Definition delete_owner (wt : TriggerObject) (cm : option (object KConfigMap)) : io W bool :=
  match cm with
  | None => mret true
  | Some cm =>
      if String.eqb (Meta_UID (Kube_Meta cm.2)) "" then mret true
      else
        ok ← lift (IsDependencyOf (Kube_Meta cm.2) (TriggerOwner wt));
        if (ok : bool) then DeleteIgnoreNotFound (kube cl KConfigMap) cm.2 else mret true
  end.
Definition WebhookTriggerDeps_DeleteStale (d : WebhookTriggerDeps) : io W bool :=
  delete_owner (Wtd_Trigger d) (StaleOwnerConfigMap d).
Definition WebhookTriggerDeps_Delete (d : WebhookTriggerDeps) : io W bool :=
  _ ← WebhookTriggerDeps_DeleteStale d;
  delete_owner (Wtd_Trigger d) (To_Owner <$> Wtd_Objects d).

(** ** Persisting *)

(** All objects but the mutable ConfigMap are given the owner. *)
Definition own_objects (t : TriggerObjects) : result TriggerObjects :=
  let cm := To_Owner t in
  np ← map_owns cm KNetworkPolicy (To_NetworkPolicy t);
  im ← map_owns cm KConfigMap (To_Immutable t);
  sa ← map_owns cm KServiceAccount (Sa (To_Account t));
  ro ← map_owns cm KRole (To_Role t);
  rb ← map_owns cm KRoleBinding (To_Binding t);
  ka ← map_owns cm KServiceAccount (Sa (To_Knative t));
  Ok (MkTriggerObjects cm np im (To_Mutable t) (on_account (λ _, sa) (To_Account t)) ro rb
        (on_account (λ _, ka) (To_Knative t))).

Definition trigger_persisters : list (Persister W TriggerObjects) :=
  [persist_field cl KNetworkPolicy To_NetworkPolicy put_to_NetworkPolicy;
   persist_field cl KConfigMap To_Immutable put_to_Immutable;
   persist_field cl KConfigMap To_Mutable put_to_Mutable;
   persist_account cl rounds To_Account put_to_Account;
   persist_field cl KRole To_Role put_to_Role;
   persist_field cl KRoleBinding To_Binding put_to_Binding;
   persist_account cl rounds To_Knative put_to_Knative].

Definition WebhookTriggerDeps_Persist (d : WebhookTriggerDeps) : io W WebhookTriggerDeps :=
  _ ← WebhookTriggerDeps_DeleteStale d;
  objs ← lift match Wtd_Objects d with Some objs => Ok objs | None => nil_objects end;
  '(_, cm) ← Keyed_Persist (kube cl KConfigMap) (To_Owner objs);
  objs ← lift (own_objects (put_to_Owner objs cm));
  '(_, objs) ← on_value (Persist_all trigger_persisters) objs;
  mret (with_objects objs d).
End deleting.

(** ** Tokens *)

(** The largest time that Go and a token can have, in seconds. *)
Definition maxUsableTime : Z := 9223372036854775807 - 62135596800.

(** [url.Parse], with the text of the URL that was parsed. *)
Context (url_parse : string → option string).

Definition trigger_action_deps (d : WebhookTriggerDeps) (td : TenantDeps) (t : TriggerObjects)
    : ActionDeps :=
  MkActionDeps (Td_Namespace td).1 (Meta_UID (Namespace_Object (Td_Namespace td)))
    (To_Immutable t).1.2 (To_Mutable t).1.2
    (default ∅ (Annotations (Kube_Meta (Wtd_Trigger d).2)))
    (sink ← Td_EventSink td; u ← url_parse (sink_URL sink);
     Some (u, default "" (sink_Token sink))).

Definition Wtd_AnnotateTriggerToken `{JSONText} (issuer : Issuer_ W) (sha256 : string → string)
    (now : Z) (d : WebhookTriggerDeps)
    (td : TenantDeps) (t : TriggerObjects) (target : ObjectMeta) : effect auth_error W ObjectMeta :=
  AnnotateTriggerToken issuer (account_token (To_Account t)) sha256
    (trigger_action_deps d td t) (ModelTrigger (Wtd_Trigger d)) maxUsableTime now target.
End deps.

(** ** Configuring *)
Section configure.
Context `{GoRuntime, GoFmt, JSONText, Markdown} (fuel : nat).

Definition configure_objects (wt : TriggerObject) (t : TriggerObjects)
    : outcome (merror error) TriggerObjects :=
  let from := Kube_Meta wt.2 in
  let owner := on_object (λ o, with_Meta (SetDependencyOf (Kube_Meta o) (TriggerOwner wt)) o) (To_Owner t) in
  im ← configure_map (ConfigureImmutableConfigMapForWebhookTrigger fuel (trigger_of wt))
         (LabelAnnotateFrom from (To_Immutable t));
  let mu := LabelAnnotateFrom from (To_Mutable t) in
  let msa := ConfigureMetadataAPIServiceAccount (on_account (LabelAnnotateFrom from) (To_Account t)) in
  let role := ConfigureMetadataAPIRole im.1 mu.1 (LabelAnnotateFrom from (To_Role t)) in
  Ok (MkTriggerObjects owner
        (ConfigureNetworkPolicyForWebhookTrigger wt.1.2 [] (To_NetworkPolicy t)) im mu msa role
        (ConfigureMetadataAPIRoleBinding msa role.1 (To_Binding t))
        (ConfigureUntrustedServiceAccount (on_account (LabelAnnotateFrom from) (To_Knative t)))).

Definition ConfigureWebhookTriggerDeps (d : WebhookTriggerDeps)
    : outcome (merror error) WebhookTriggerDeps :=
  match Wtd_Objects d with
  | None => nil_objects
  | Some t => t ← configure_objects (Wtd_Trigger d) t; Ok (with_objects t d)
  end.

Definition ApplyWebhookTriggerDeps {W} (cl : KubeClient W) (rounds : nat) (wt : TriggerObject)
    (metadataAPIURL : string) : effect (merror error) W WebhookTriggerDeps :=
  '(loaded, d) ← returning (WebhookTriggerDeps_Load cl rounds (NewWebhookTriggerDeps wt metadataAPIURL));
  if negb (Upstream loaded) then lift (Err (Unmarked (EPlain ErrRequired)))
  else
    d ← lift (ConfigureWebhookTriggerDeps d);
    returning (WebhookTriggerDeps_Persist cl rounds d).
End configure.
