(* ===== verification/TriggerReconcile.v ===== *)
(** * The service of a trigger and its status (pkg/obj: knativeservice.go, webhooktrigger.go)

    A trigger runs as a Knative service in the namespace of its tenant. *)
From S2P Require Import Prelude GoStd GoStrings Values Errors Transfer Unresolvable Fn.
From S2P Require Import ResultMapper Model ConfigMaps ObjUtil Graph RunStatus RunConfig.
From S2P Require Import Authenticate AuthKubernetes AuthIssue Workflow ErrMark.
From S2P Require Import KubeObjects NetworkPolicy TenantDeps TenantReconcile RunObjects.
From S2P Require Import RunDeps Pipeline TriggerDeps RunReconcile.

Definition AmbassadorIDAnnotation : string := "getambassador.io/ambassador-id".
Definition ImmutableConfigMapResourceVersionAnnotation : string :=
  "controller.relay.sh/immutable-config-map-resource-version".
Definition KnativeServiceVisibilityLabel : string := "serving.knative.dev/visibility".
Definition AmbassadorID : string := "webhook".
Definition KnativeServiceVisibilityClusterLocal : string := "cluster-local".

Definition KnativeService : Type := object KKnativeService.
Definition NewKnativeService (key : ObjectKey) : KnativeService := NewObject KKnativeService key.

(** ** The template of the revisions *)
Definition config_volume (wt : TriggerObject) (im : object KConfigMap) : ConfigVolume :=
  MkConfigVolume "config" im.1.2
    [(scriptConfigMapKey (ATrigger (ModelTrigger wt)), "input-script", 493%Z)].
Definition config_mount : VolumeMount := MkVolumeMount "config" true "/var/run/puppet/relay/config".

Definition trigger_container (url : string) (wt : TriggerObject) : Container * list VolumeMount :=
  let t := trigger_of wt in
  let image := if String.eqb (TriggerImage t) "" then DefaultImage else TriggerImage t in
  let container command args :=
    MkContainer (Meta_Name (Kube_Meta wt.2)) image true (metadata_url url) None "" command args in
  match TriggerInput t with
  | [] => (container (if String.eqb (TriggerCommand t) "" then [] else [TriggerCommand t])
             (TriggerArgs t), [])
  | _ => (container ["/var/run/puppet/relay/config/input-script"] [], [config_mount])
  end.

(** The token of the template there was is kept, for as long as its hash fits. *)
Definition template_meta (wt : TriggerObject) (version : string) (old : ObjectMeta) : ObjectMeta :=
  let kept k := annotation k (default ∅ (Annotations old)) in
  MkObjectMeta "" "" ""
    (Some (<[ImmutableConfigMapResourceVersionAnnotation := version]>
           (<[RelayControllerTokenHashAnnotation := kept RelayControllerTokenHashAnnotation]>
            (<[KubernetesTokenAnnotation := kept KubernetesTokenAnnotation]>
             {[KubernetesSubjectAnnotation := kept KubernetesSubjectAnnotation]}))))
    (Some {[RelayControllerWebhookTriggerIDLabel := wt.1.2]}) [] [] None.

Section service.
Context `{JSONText, GoFmt} {W : Type} (cl : KubeClient W) (url_parse : string → option string).
Context (issuer : Issuer_ W) (sha256 : string → string).
Context (now : Z).

(** A call whose error is that of authentication. *)
Definition authenticating {A} (m : effect auth_error W A) : io W A := λ w,
  let '(r, w') := m w in (map_err auth_failure r, w').

Definition ConfigureKnativeService (s : KnativeService) (d : WebhookTriggerDeps) : io W KnativeService :=
  let wt := Wtd_Trigger d in
  let from := Kube_Meta wt.2 in
  let s := on_object (λ o, with_Meta (CopyLabelsAndAnnotations
             (Label (Annotate (Kube_Meta o) AmbassadorIDAnnotation AmbassadorID).2
                KnativeServiceVisibilityLabel KnativeServiceVisibilityClusterLocal).2 from) o) s in
  match Wtd_Objects d, Wtd_TenantDeps d with
  | Some t, Some td =>
      s ← lift (map_owns (To_Owner t) KKnativeService s);
      let s := on_object (λ o, with_Meta (SetDependencyOf (Kube_Meta o) (TriggerOwner wt)) o) s in
      let old := Template_Meta (Service_Template (Kube_Spec s.2)) in
      let volumes := match TriggerInput (trigger_of wt) with
                     | [] => [] | _ => [config_volume wt (To_Immutable t)] end in
      m ← authenticating (Wtd_AnnotateTriggerToken url_parse issuer sha256 now d td t
            (template_meta wt (Map_ResourceVersion (Kube_Spec (To_Immutable t).2)) old));
      let m := match VolumeClaimTemplate (tenant_spec (Wtd_Tenant d)) with
               | None => m
               | Some _ =>
                   (Annotate m RelayControllerToolsVolumeClaimAnnotation
                      (Meta_Name (tenant_meta (Wtd_Tenant d))
                       +:+ ToolInjectionVolumeClaimSuffixReadOnlyMany)).2
               end in
      let st := Kube_Spec s.2 in
      mret (set_spec (S := spec_of KKnativeService)
              (MkServiceSpec
                 (MkRevisionTemplate m (Sa (To_Knative t)).1.2 volumes
                    [trigger_container (Wtd_MetadataAPIURL d) wt])
                 (Service_IsReady st) (Service_URL st)) s)
  | _, _ => lift nil_objects
  end.

Definition ApplyKnativeService (d : WebhookTriggerDeps) : io W KnativeService :=
  match Wtd_TenantDeps d with
  | None => lift nil_objects
  | Some td =>
      '(_, s) ← Keyed_Load (kube cl KKnativeService)
                  (NewKnativeService ((Td_Namespace td).1, (Wtd_Trigger d).1.2));
      s ← ConfigureKnativeService s d;
      '(_, s) ← Keyed_Persist (kube cl KKnativeService) s;
      mret s
  end.
End service.

Record KnativeServiceResult := MkServiceResult {
  Result_KnativeService : option KnativeService; Service_Error : option error }.
Definition AsKnativeServiceResult (ks : option KnativeService) (err : option error)
    : KnativeServiceResult := MkServiceResult ks err.

(** ** The status of a trigger *)
Definition WebhookTriggerServiceReady : string := "ServiceReady".
Definition WebhookTriggerReady : string := "Ready".
Definition WebhookTriggerStatusReasonServiceReady : string := "ServiceReady".
Definition WebhookTriggerStatusReasonServiceError : string := "ServiceError".
Definition WebhookTriggerStatusReasonReady : string := "Ready".
Definition WebhookTriggerStatusReasonError : string := "Error".

Section status.
Context `{GoFmt}.

Definition is_ready (ks : KnativeService) : bool := Service_IsReady (Kube_Spec ks.2).

Definition service_condition (ksr : KnativeServiceResult) : StatusCondition :=
  match Service_Error ksr with
  | Some e => condition ConditionFalse WebhookTriggerStatusReasonServiceError (Error e)
  | None =>
      if match Result_KnativeService ksr with Some ks => is_ready ks | None => false end
      then condition ConditionTrue WebhookTriggerStatusReasonServiceReady
             "The service is ready to handle requests."
      else unknown_condition
  end.
Definition trigger_ready_condition (conds : list StatusCondition) : StatusCondition :=
  match AggregateStatusConditions conds with
  | ConditionTrue => condition ConditionTrue WebhookTriggerStatusReasonReady
                       "The webhook trigger is configured."
  | ConditionFalse => condition ConditionFalse WebhookTriggerStatusReasonError
                        "One or more webhook trigger components failed."
  | _ => unknown_condition
  end.

(** The conditions of the service and of the trigger; another type is a nil pointer. *)
Definition set_trigger_condition (conds : StatusCondition * StatusCondition)
    (c : string * StatusCondition) : outcome error (StatusCondition * StatusCondition) :=
  if String.eqb c.1 WebhookTriggerServiceReady then Ok (c.2, conds.2)
  else if String.eqb c.1 WebhookTriggerReady then Ok (conds.1, c.2)
  else Panic "invalid memory address or nil pointer dereference".

Definition service_place (ksr : KnativeServiceResult) : string * string :=
  match Result_KnativeService ksr with
  | None => ("", "")
  | Some ks => (ks.1.1, if is_ready ks then default "" (Service_URL (Kube_Spec ks.2)) else "")
  end.

Definition ConfigureWebhookTrigger (now : Z) (wt : TriggerObject) (ksr : KnativeServiceResult)
    : outcome error TriggerObject :=
  '(s, r) ← fold_outcome set_trigger_condition (zero_condition, zero_condition)
              (Trigger_Conditions (trigger_status wt));
  let s := transition now s (service_condition ksr) in
  let r := transition now r (trigger_ready_condition [s]) in
  let '(ns, url) := service_place ksr in
  Ok (with_trigger_status
        (MkTriggerStatus (Trigger_Generation (trigger_spec wt)) ns url
           [(WebhookTriggerServiceReady, s); (WebhookTriggerReady, r)]) wt).
End status.

(** The first condition of the type. *)
Definition Trigger_Ready (wt : TriggerObject) : bool :=
  match find (λ c, String.eqb c.1 WebhookTriggerReady) (Trigger_Conditions (trigger_status wt)) with
  | Some c => bool_decide (Cond_Status c.2 = ConditionTrue)
  | None => false
  end.

(** * The webhook trigger reconciler (pkg/reconciler/trigger) *)
Definition TriggerFinalizerName : string := "webhooktrigger.finalizers.controller.relay.sh".
Definition RelayControllerTenantNameLabel : string := "controller.relay.sh/tenant-name".

Section reconcile.
Context `{GoRuntime, GoFmt, JSONText, Markdown} {W : Type} (cl : KubeClient W).
Context (issuer : Issuer_ W) (metadataAPIURL : string) (url_parse : string → option string).
Context (sha256 : string → string).
Context (fuel rounds : nat) (now : Z).
Notation reconciling := (effect (merror error) W).

Definition Trigger_Persist (wt : TriggerObject) : io W TriggerObject :=
  '(_, wt) ← Keyed_Persist (kube cl KWebhookTrigger) wt; mret wt.
Definition Trigger_PersistStatus (wt : TriggerObject) : io W TriggerObject :=
  o ← kube_StatusUpdate cl KWebhookTrigger wt.2; mret (wt.1, o).

(** The label by which a change of the tenant finds its triggers. *)
Definition label_tenant (wt : TriggerObject) : reconciling TriggerObject :=
  let '(changed, m) := Label (Kube_Meta wt.2) RelayControllerTenantNameLabel
                         (TenantRef (trigger_of wt)) in
  let wt := on_object (with_Meta m) wt in
  if changed : bool then returning (Trigger_Persist wt) else mret wt.

(** An error of the service is a result and not an error. *)
Definition service_result (d : WebhookTriggerDeps) : io W KnativeServiceResult :=
  r ← attempt (ApplyKnativeService cl url_parse issuer sha256 now d);
  match r with
  | Ok ks => mret (AsKnativeServiceResult (Some ks) None)
  | Err e => mret (AsKnativeServiceResult None (Some e))
  | Panic x => lift (Panic x)
  end.

Definition waiting : merror error :=
  MarkTransient (Unmarked (EPlain (EText "waiting for dependencies to reconcile"))) [TransientAlways].

(** What follows once stale objects are gone and the tenant has settled. *)
Definition settle_trigger (wt : TriggerObject) (d : WebhookTriggerDeps) : reconciling Result :=
  d ← wrapping "failed to configure dependencies" (lift (ConfigureWebhookTriggerDeps fuel d));
  d ← wrapping "failed to apply dependencies" (marking [TransientIfRequired]
        (returning (WebhookTriggerDeps_Persist cl rounds d)));
  ksr ← returning (service_result d);
  wt ← returning (lift (ConfigureWebhookTrigger now wt ksr));
  wt ← returning (Trigger_PersistStatus wt);
  if Trigger_Ready wt then done_ else requeue.

(** The dependencies refer to the trigger object itself. *)
Definition reconcile_trigger (wt : TriggerObject) : reconciling Result :=
  '(loaded, d) ← failing "failed to load dependencies"
                   (WebhookTriggerDeps_Load cl rounds (NewWebhookTriggerDeps wt metadataAPIURL));
  '(finalized, wt) ← returning (Finalize Trigger_Persist TriggerFinalizerName wt
                                  (_ ← WebhookTriggerDeps_Delete cl d; mret tt));
  if (finalized : bool) then done_
  else
    wt ← label_tenant wt;
    let d := with_trigger wt d in
    _ ← failing "failed to delete stale dependencies" (WebhookTriggerDeps_DeleteStale cl d);
    if negb (Upstream loaded) then lift (Err waiting) else settle_trigger wt d.

Definition Trigger_Reconcile (req : Request) : reconciling Result :=
  '(ok, wt) ← failing "failed to load dependencies"
                (Keyed_Load (kube cl KWebhookTrigger) (NewWebhookTrigger req));
  if negb ok then done_ else reconcile_trigger wt.
End reconcile.
