(* ===== verification/RunReconcileProperties.v ===== *)
(** * Properties of the workflow run reconciler *)
From S2P Require Import Prelude GoStd GoStrings Values Errors Transfer Unresolvable Fn.
From S2P Require Import ResultMapper Model ConfigMaps ObjUtil Graph RunStatus RunConfig.
From S2P Require Import Authenticate AuthKubernetes AuthIssue Workflow ErrMark Samples.
From S2P Require Import KubeObjects NetworkPolicy TenantReconcile RunObjects RunDeps Pipeline.
From S2P Require Import RunReconcile Invariants ServerTheory RunTheory PipelineTheory.
From S2P Require Import SampleServer.

#[local] Arguments spec_of : simpl never.

Section run.
Context `{GoRuntime, GoFmt, JSONText, Markdown} {W : Type}.
Context (view : W → Objects) (cl : KubeClient W) `{!ServerLaws view cl}.
Context (issuer : Issuer_ W) (metadataAPIURL : string) (standalone : bool).
Context (stream : string → string → string → io W string) (put_log : string → string → io W unit).
Context (fuel rounds : nat) (now : Z) (clock : io W Z).
Notation agrees := (agree view).
(** Neither tokens nor logs are kept in the objects of the cluster. *)
Context (Hissuer : ∀ ks v c, invariant (agrees ks v) (issuer c)).
Context (Hstream : ∀ ks v ns pod c, invariant (agrees ks v) (stream ns pod c)).
Context (Hput : ∀ ks v key log, invariant (agrees ks v) (put_log key log)).

Lemma upload_steps_agree ks v pods ns entries steps :
  invariant (agrees ks v) (upload_steps stream put_log pods ns steps entries).
Proof.
  revert steps. induction entries as [|[name step] entries IH]; intros steps;
    [apply invariant_ret|]. apply invariant_bind; [|done]. unfold upload_step.
  destruct (negb _); [apply invariant_ret|]. destruct (pods !! _) as [pod|]; [|apply invariant_ret].
  apply invariant_bind; [|intros []; auto with invariants].
  apply invariant_attempt. unfold uploadLog.
  apply invariant_bind; [apply Hstream|]. intros log. apply invariant_bind; [apply Hput|].
  intros. apply invariant_ret.
Qed.
Lemma uploadLogs_agree ks v wr pr : invariant (agrees ks v) (uploadLogs stream put_log wr pr).
Proof.
  unfold uploadLogs. destruct (Steps _) as [steps|]; [|apply invariant_ret].
  apply invariant_bind; [apply upload_steps_agree|]. intros. apply invariant_ret.
Qed.
Lemma persist_status_agree v wr : invariant (agrees [KWorkflowRun] v) (Run_PersistStatus cl wr).
Proof.
  apply invariant_bind; [|intros; apply invariant_ret]. intros w r w' Hv E k key Hk.
  rewrite (server_status (view := view) _ _ _ _ _ E k key); [by apply Hv|].
  intros ->. apply Hk. by left.
Qed.

(** What was started stays when only the run and its logs change. *)
Lemma started_agree old wr w w' :
  agrees [KWorkflowRun] (view w) w' →
  started view metadataAPIURL fuel old wr w → started view metadataAPIURL fuel old wr w'.
Proof.
  intros Hv. unfold started. cbv zeta.
  assert (Hk : ∀ k key, k ≠ KWorkflowRun → view w' k key = view w k key)
    by (intros k key Hk; apply Hv; by rewrite list_elem_of_singleton).
  intros (Hs & Hp & Hr & Ht). split; [|split; [|split]].
  - eapply (served_run_agree view fuel [KWorkflowRun]); [set_solver..|exact Hv|exact Hs].
  - by rewrite Hk.
  - by rewrite Hk.
  - intros ws Hws. destruct (Ht ws Hws) as [H1' H2']. split; [by rewrite Hk|]. by rewrite Hk.
Qed.

Lemma started_before old old' wr w :
  (∀ k key, old k key = old' k key) →
  started view metadataAPIURL fuel old wr w → started view metadataAPIURL fuel old' wr w.
Proof.
  intros Ho. unfold started, served_run, stored_data. cbv zeta. rewrite Ho.
  intros (Hs & Hp & Hr & Ht). refine (conj Hs (conj Hp (conj Hr _))).
  intros ws Hws. rewrite <- Ho. by apply Ht.
Qed.

(** C2: A reconciliation that succeeds has started the run as it is on the server: the
    metadata service's account may read the run's immutable ConfigMap and write its mutable
    one and nothing else, and the immutable one holds the run's configuration; the pipeline
    has a task per step, after the tasks of the steps it depends on and under the condition
    of its step; every task and condition is there, with the step's container and a token,
    which names the step if the task is new; and the pipeline run refers to the pipeline,
    and is cancelled exactly when the run is. *)
Theorem run_reconciled req o w b w' :
  view w KWorkflowRun req = Some o → Finalizing (Kube_Meta o) = false →
  Workflow_Steps (Spec_Run (Kube_Spec o)) ≠ [] → steps_distinct (Spec_Run (Kube_Spec o)) →
  Run_Reconcile cl issuer metadataAPIURL standalone stream put_log fuel rounds now clock req w
    = (Ok b, w') →
  started view metadataAPIURL fuel (view w) (req, o) w'.
Proof.
  intros Ho Hf Hs Hd ([ok wr] & w1 & E1 & E)%bind_ok. apply failing_Ok in E1.
  assert (Hv1 := load_agree view cl [] (view w) _ _ _ _ _ (agree_refl view [] w) E1).
  apply (load_spec view cl) in E1 as [_ E1]. destruct (E1 ok wr eq_refl) as (K & _ & E2).
  assert (Hw : ok = true ∧ wr = (req, o)).
  { destruct wr as [k o1], ok; cbn in *; subst k; [|destruct E2; congruence].
    split; [done|]. f_equal. congruence. }
  destruct Hw as [-> ->]. cbn [negb] in E. unfold reconcile_run in E. cbn [snd] in E. rewrite Hf in E.
  change (run_of (req, o)) with (Spec_Run (Kube_Spec o)) in E.
  destruct (Workflow_Steps (Spec_Run (Kube_Spec o))) as [|st sts] eqn:Est; [done|]. clear Hs.
  apply bind_ok in E as (pr & w2 & E3 & E). apply bind_ok in E as (r & w3 & E4 & E).
  apply bind_ok in E as (x & w4 & E5 & E). injection E as _ <-.
  apply returning_Ok in E4. apply failing_Ok in E5.
  eapply start_run_spec in E3; [|done|exact Hissuer|exact Hd].
  apply (started_before (view w1)); [intros; by apply Hv1, not_elem_of_nil|].
  eapply started_agree; [|exact E3].
  apply (persist_status_agree (view w2) _ _ _ _ (uploadLogs_agree _ _ _ _ _ _ _ (agree_refl view _ w2) E4) E5).
Qed.
End run.

(** ** Before the namespace is there *)
Section awaiting.
Context `{GoRuntime, GoFmt, JSONText, Markdown} {W : Type} (cl : KubeClient W).
Context (issuer : Issuer_ W) (metadataAPIURL : string) (standalone : bool).
Context (stream : string → string → string → io W string) (put_log : string → string → io W unit).
Context (fuel rounds : nat) (now : Z) (clock : io W Z).

Definition reconciler : Reconciler (E := error) (W := W) (R := Result) :=
  Run_Reconcile cl issuer metadataAPIURL standalone stream put_log fuel rounds now clock.

Lemma namespace_missing (c : ObjectClient W unit) n w m w1 :
  kube_Get c ("", n.1) w = (Err (EAPI ReasonNotFound m), w1) →
  ∃ n', Namespace_Load c n w = (Ok (false, n'), w1).
Proof.
  intros E. unfold Namespace_Load, GetIgnoreNotFound, attempt. rewrite !effect_bind_run, E. by eexists.
Qed.
Lemma deps_await rounds' d w m w1 :
  kube_Get (kube cl KNamespace) ("", (Wrd_Namespace d).1) w = (Err (EAPI ReasonNotFound m), w1) →
  ∃ d', WorkflowRunDeps_Load cl rounds' (w, d) = (Err ErrRequired, (w1, d')).
Proof.
  intros [n E]%namespace_missing. unfold WorkflowRunDeps_Load, Loaders_Load, run_loaders.
  cbn [Loaders_from]. rewrite effect_bind_run. unfold RequiredLoader at 1. rewrite effect_bind_run.
  unfold on at 1. rewrite E. by eexists.
Qed.

(** An error that is marked as transient for what it is and then given messages is
    transient whatever else the filter looks for. *)
Lemma transient_resolved rules rules' prefix e :
  TransientAny rules' (EPlain e) = true →
  ∃ err, Resolve (MarkTransient (MapLast (MarkTransient (Unmarked (EPlain e)) rules') (message prefix))
                    rules) = ETransient (E := error) err.
Proof.
  intros Hr. unfold Resolve, MarkedError_Resolve. cbn [AsMarkedError MarkTransient MapFirst MapLast
    MarkedError_MapFirst MarkedError_MapLast Delegate Maps app foldl map_marked mark_transient].
  destruct (TransientAny rules (EPlain e)); cbn [map_marked mark_transient]; [|rewrite Hr; by eexists].
  rewrite Hr. by eexists.
Qed.

(** While the namespace of a run is missing, a reconciliation only reads the run and
    asks for the namespace; it ends with a transient error, so that it is tried again and
    the error is not reported, whatever the rules of the filter. *)
Theorem run_awaits_namespace capture rules req wr w w1 m w2 :
  Keyed_Load (kube cl KWorkflowRun) (NewWorkflowRun req) w = (Ok (true, wr), w1) →
  Finalizing (Kube_Meta wr.2) = false → Workflow_Steps (run_of wr) ≠ [] →
  kube_Get (kube cl KNamespace) ("", req.1) w1 = (Err (EAPI ReasonNotFound m), w2) →
  ∃ err, ErrorCapture_Reconcile capture rules reconciler req w = (Err (Unmarked (ETransient err)), w2).
Proof.
  intros E Hf Hs En. unfold ErrorCapture_Reconcile, reconciler, Run_Reconcile.
  rewrite effect_bind_run. unfold failing at 1. rewrite E. cbn [map_err negb].
  unfold reconcile_run. rewrite Hf. destruct (Workflow_Steps (run_of wr)); [done|].
  assert (K : wr.1 = req).
  { unfold Keyed_Load in E. apply bind_ok in E as ([b o] & w3 & _ & E). by injection E as _ <- _. }
  rewrite effect_bind_run. unfold start_run. rewrite effect_bind_run.
  unfold wrapping at 1, marking, ApplyWorkflowRunDeps. rewrite effect_bind_run. unfold on_structure at 1.
  destruct (deps_await rounds (NewWorkflowRunDeps wr metadataAPIURL
              [WorkflowRunDepsWithStandaloneMode standalone]) w1 m w2) as [d Hd].
  { rewrite <- En, <- K. by destruct standalone. }
  rewrite Hd. cbn [map_err].
  destruct (transient_resolved rules [TransientIfRequired] "failed to apply dependencies" ErrRequired)
    as [err Hr]; [done|].
  exists err. by rewrite Hr.
Qed.
End awaiting.

(** ** The token of a service account *)
Lemma token_read (s : Keyed SecretData) tok :
  Secret_Data (Kube_Spec s.2) !! "token" = Some tok → tok ≠ "" → ServiceAccountToken s = Ok tok.
Proof. intros Hd Ht. unfold ServiceAccountToken. rewrite Hd. cbn. by destruct (String.eqb_spec tok ""). Qed.

Section token.
Context {W : Type} (cl : KubeClient W) (ns name secret tok : string).
(** How often the account is still read before its token is there. *)
Context (left : W → nat).

(** Another controller adds the account's secret, and its token, in the meantime; the
    first secret of the account, once it has one, is that secret. *)
Record TokenController : Prop := {
  account_read w : ∃ o w', kube_Get (kube cl KServiceAccount) (ns, name) w = (Ok o, w')
    ∧ left w' ≤ pred (left w)
    ∧ (left w = 0 → head (Sa_Secrets (Kube_Spec o)) = Some secret)
    ∧ (∀ s, head (Sa_Secrets (Kube_Spec o)) = Some s → s = "" ∨ s = secret);
  secret_read w : ∃ r w', kube_Get (kube cl KSecret) (ns, secret) w = (r, w') ∧ left w' ≤ left w
    ∧ match r with
      | Ok o => Secret_Type (Kube_Spec o) = SecretTypeServiceAccountToken
                ∧ Secret_Data (Kube_Spec o) !! "token" = Some tok
      | Err e => left w ≠ 0
      | Panic _ => False
      end }.

Context (Hc : TokenController) (Hsecret : secret ≠ "").

Definition secret_ok (s : object KSecret) : Prop :=
  Secret_Data (Kube_Spec s.2) !! "token" = Some tok.
Definition account_ok (sa : ServiceAccount) : Prop :=
  (Sa sa).1 = (ns, name)
  ∧ ∀ s, DefaultTokenSecret sa = Some s →
      s.1 = (ns, secret) ∧ (Meta_UID (Kube_Meta s.2) ≠ "" → secret_ok s).
Definition has_secret (sa : ServiceAccount) : Prop :=
  ∃ s, DefaultTokenSecret sa = Some s ∧ secret_ok s.

Lemma required_secret_spec s w :
  s.1 = (ns, secret) → (Meta_UID (Kube_Meta s.2) ≠ "" → secret_ok s) →
  ∃ e s' w', load_required_secret cl s w = (Ok (e, s'), w') ∧ left w' ≤ left w
    ∧ s'.1 = (ns, secret) ∧ (Meta_UID (Kube_Meta s'.2) ≠ "" → secret_ok s')
    ∧ (e = None → secret_ok s') ∧ (e ≠ None → left w ≠ 0).
Proof.
  intros Hk Hs. unfold load_required_secret, Keyed_Load, GetIgnoreNotFound, attempt.
  rewrite !effect_bind_run, Hk.
  destruct (secret_read Hc w) as (r & w' & -> & Hl & Hr). destruct r as [o|e|x]; [|cbn|done].
  - destruct Hr as [Ht Hd]. cbn. rewrite Ht. cbn. by eexists _, _, _.
  - destruct (is_not_found e); cbn; [|by eexists _, _, _].
    eexists _, _, _. split; [done|]. split_and!; [done..| |done].
    repeat case_match; try done.
Qed.

Lemma token_round sa w :
  account_ok sa → ∃ e w' sa' ok, load_round cl (w, (sa, false, None)) = (e, (w', (sa', ok, None)))
    ∧ account_ok sa' ∧ ((e = RetryPermanent None ∧ ok = true ∧ has_secret sa')
       ∨ ((∃ x, e = RetryTransient (Some x)) ∧ ok = false ∧ left w' < left w)).
Proof.
  intros [Hk Hs]. unfold load_round, Keyed_Load, GetIgnoreNotFound, attempt.
  rewrite !effect_bind_run, Hk. destruct (account_read Hc w) as (o & w1 & -> & Hl & H0 & Hn).
  cbn [mret effect_ret negb]. unfold loadDefaultTokenSecret. cbn [on_account Sa snd fst].
  set (sa1 := on_account _ sa).
  assert (Ha : account_ok sa1) by by split.
  assert (Hmiss : head (Sa_Secrets (Kube_Spec o)) ≠ Some secret → left w1 < left w)
    by (intros Hh; assert (left w ≠ 0) by auto; lia).
  destruct (Sa_Secrets (Kube_Spec o)) as [|s names]; cbn in H0, Hn, Hmiss.
  { eexists _, _, _, _. split; [done|]. split; [done|]. right. by eauto. }
  destruct (String.eqb_spec s "") as [->|Hne].
  { eexists _, _, _, _. split; [done|]. split; [done|]. right. split_and!; eauto. apply Hmiss. congruence. }
  destruct (Hn s eq_refl) as [E|E]; [done|]. subst s. cbv zeta.
  match goal with |- context [default ?x (DefaultTokenSecret ?y)] =>
    set (s0 := default x (DefaultTokenSecret y)) end.
  assert (Hs0 : s0.1 = (ns, secret) ∧ (Meta_UID (Kube_Meta s0.2) ≠ "" → secret_ok s0)).
  { unfold s0. cbn. destruct (DefaultTokenSecret sa) as [s1|]; [by apply Hs|]. by split. }
  destruct (bool_decide _ && _) eqn:Hb.
  { apply andb_true_iff in Hb as [_ Hu]. eexists _, _, _, _. split; [done|].
    split; [split; [done|by intros ? [= <-]]|]. left. split_and!; [done..|].
    exists s0. split; [done|]. apply Hs0. by destruct (String.eqb_spec (Meta_UID (Kube_Meta s0.2)) ""). }
  rewrite effect_bind_run.
  destruct (required_secret_spec s0 w1) as (e & s' & w2 & -> & Hl2 & Hk' & Hu & He & He'); [apply Hs0..|].
  assert (Ha' : account_ok (MkServiceAccount ((ns, name), o) (Some s'))) by (split; [done|by intros ? [= <-]]).
  destruct e as [e|]; cbn; eexists _, _, _, _; (split; [done|]); (split; [exact Ha'|]).
  - right. split_and!; [by eexists|done|]. assert (left w1 ≠ 0) by by apply He'. lia.
  - left. split_and!; [done..|]. exists s'. by split; [|apply He].
Qed.

Lemma token_rounds rounds last sa w :
  account_ok sa → left w < rounds →
  ∃ w' sa', retry_rounds rounds last (load_round cl) (w, (sa, false, None))
            = (None, (w', (sa', true, None))) ∧ has_secret sa'.
Proof.
  revert last sa w. induction rounds as [|n IH]; intros last sa w Ha Hlt; [lia|]. cbn [retry_rounds].
  destruct (token_round sa w Ha) as (e & w' & sa' & ok & -> & Ha' & [(-> & -> & Hs)|([x ->] & -> & Hl)]).
  - by exists w', sa'.
  - cbn. apply IH; [done|lia].
Qed.

(** A service account whose token another controller adds is loaded with it, provided
    that the token is there within the rounds that are left to the retries. *)
Theorem account_token_awaited rounds w :
  left w < rounds → tok ≠ "" →
  ∃ sa w', ServiceAccount_Load cl rounds (NewServiceAccount (ns, name)) w = (Ok (true, sa), w')
    ∧ account_token (W := W) sa = lift (Ok tok).
Proof.
  intros Hl Ht. unfold ServiceAccount_Load, Retry.
  destruct (token_rounds rounds None (NewServiceAccount (ns, name)) w) as (w' & sa & -> & s & Hs & Hok);
    [by split|done|].
  exists sa, w'. split; [done|]. unfold account_token. rewrite Hs.
  by rewrite (token_read s _ Hok Ht).
Qed.
End token.

(** ** A run of two steps, the second after the first and under a condition *)
Definition sample_meta (ns name uid : string) : ObjectMeta :=
  MkObjectMeta ns name uid None None [] [] None.
Definition two_steps : WorkflowRun :=
  MkWorkflowRun "r1"
    [MkWorkflowStep "build" "" ∅ ["make"] "" [] ∅ VNil [];
     MkWorkflowStep "deploy" "alpine:3" ∅ [] "run" ["it"] ∅ (VBool true) ["build"]]
    ∅ ∅ ∅ ∅ (MkRunStatus "" None None None None).
Definition two_step_run : Kube (spec_of KWorkflowRun) :=
  MkKube (sample_meta "t1-ns" "r1" "uid-r1") (MkRunSpec two_steps (Some "t1")).
Definition token_secret (name : string) : Kube (spec_of KSecret) :=
  MkKube (sample_meta "t1-ns" name "uid-s")
    (MkSecretData SecretTypeServiceAccountToken {["token" := "tok"]}).
Definition run_server : Server := λ k,
  match k with
  | KNamespace => {[("", "t1-ns") := MkKube (sample_meta "" "t1-ns" "uid-ns") tt]}
  | KSecret => list_to_map ((λ name, (("t1-ns", name), token_secret name))
      <$> ["r1-metadata-api-token"; "r1-pipeline-token"; "r1-untrusted-token"])
  | KWorkflowRun => {[("t1-ns", "r1") := two_step_run]}
  | _ => ∅
  end.
Definition sample_issuer : Issuer_ Server := λ _ w, (Ok "signed", w).
Definition sample_stream : string → string → string → io Server string := λ _ _ _ w, (Ok "log", w).
Definition sample_put : string → string → io Server unit := λ _ _ w, (Ok tt, w).
Definition sample_clock : io Server Z := λ w, (Ok 9%Z, w).
Definition sample_reconciled (w : Server) : outcome (merror error) Result * Server :=
  @Run_Reconcile forward_runtime sample_fmt tree_json sample_markdown Server server sample_issuer
    "http://metadata" false sample_stream sample_put 5 3 9%Z sample_clock ("t1-ns", "r1") w.

Lemma run_reconciled_witness :
  (sample_reconciled run_server).1 = Ok false
  ∧ @started forward_runtime sample_fmt tree_json sample_markdown Server server_view
      "http://metadata" 5 (server_view run_server) (("t1-ns", "r1"), two_step_run)
      (sample_reconciled run_server).2.
Proof.
  assert (E : (sample_reconciled run_server).1 = Ok false) by (vm_compute; reflexivity).
  split; [exact E|].
  refine (@run_reconciled forward_runtime sample_fmt tree_json sample_markdown Server server_view
    server _ sample_issuer "http://metadata" false sample_stream sample_put 5 3 9%Z sample_clock _ _ _
    ("t1-ns", "r1") two_step_run run_server false _ _ eq_refl _ _ _).
  - intros ks v c w r w' Hw Er. injection Er as _ <-. exact Hw.
  - intros ks v ns pod c w r w' Hw Er. injection Er as _ <-. exact Hw.
  - intros ks v key log w r w' Hw Er. injection Er as _ <-. exact Hw.
  - vm_compute. reflexivity.
  - discriminate.
  - split; apply (bool_decide_unpack _); vm_compute; exact I.
  - exact (eq_trans (surjective_pairing _) (f_equal (λ r, (r, _)) E)).
Defined.

Definition no_namespace : Server := λ k, match k with KNamespace => ∅ | k => run_server k end.
Lemma run_awaits_namespace_witness :
  ∃ err, ErrorCapture_Reconcile (λ _ _, no_namespace) [TransientDefault]
    (@reconciler forward_runtime sample_fmt tree_json sample_markdown Server server sample_issuer
       "http://metadata" false sample_stream sample_put 5 3 9%Z sample_clock) ("t1-ns", "r1") no_namespace
    = (Err (Unmarked (ETransient err)), no_namespace).
Proof.
  refine (@run_awaits_namespace forward_runtime sample_fmt tree_json sample_markdown Server server
    sample_issuer "http://metadata" false sample_stream sample_put 5 3 9%Z sample_clock (λ _ _, no_namespace)
    [TransientDefault] ("t1-ns", "r1") (("t1-ns", "r1"), two_step_run) no_namespace no_namespace
    "not found" no_namespace _ _ _ _); try reflexivity.
  discriminate.
Defined.

(** A server of one account and one secret, and the number of reads before the first
    secret of the account is named. *)
Definition account_with (names : list string) : Kube (spec_of KServiceAccount) :=
  MkKube (sample_meta "ns" "a" "uid-a") (MkServiceAccountSpec names None).
Definition failing_client {W S} : ObjectClient W S :=
  let no {A} : io W A := λ w, (Err (EAPI ReasonNotFound "not found"), w) in
  MkObjectClient W S (λ _, no) (λ _, no) (λ _, no) (λ _, no).
Definition reads_only {W S} (get : ObjectKey → io W (Kube S)) : ObjectClient W S :=
  MkObjectClient W S get (kube_Create failing_client) (kube_Update failing_client)
    (kube_Delete failing_client).
Definition account_server {W} (account : io W (Kube ServiceAccountSpec)) (secret : Kube SecretData)
    : KubeClient W :=
  {| kube k := match k with
               | KServiceAccount => reads_only (λ _, account)
               | KSecret => reads_only (λ _ w, (Ok secret, w))
               | _ => failing_client
               end;
     kube_StatusUpdate k o w := (Ok o, w) |}.
Definition slow_server : KubeClient nat :=
  account_server (λ n, (Ok (account_with (if Nat.eqb n 0 then ["s"] else [])), pred n))
    (token_secret "s").

Lemma account_token_awaited_witness :
  ∃ sa w', ServiceAccount_Load slow_server 3 (NewServiceAccount ("ns", "a")) 2 = (Ok (true, sa), w')
    ∧ account_token (W := nat) sa = lift (Ok "tok").
Proof.
  refine (@account_token_awaited nat slow_server "ns" "a" "s" "tok" id _ _ 3 2 _ _); try discriminate.
  - split.
    + intros w. eexists _, _. split; [reflexivity|]. split; [apply le_n|].
      cbn. destruct w; cbn; split; try discriminate; [reflexivity|].
      intros s E. injection E as <-. right. reflexivity.
    + intros w. eexists _, _. split; [reflexivity|]. split; [apply le_n|]. split; reflexivity.
  - unfold id. lia.
Defined.

(** A secret of another type is refused when it is loaded, and taken for loaded, with the
    type it has, in the next round. *)
Definition opaque_secret : Kube SecretData :=
  MkKube (sample_meta "ns" "s" "uid-s") (MkSecretData SecretTypeOpaque {["token" := "other"]}).
Definition opaque_server : KubeClient unit :=
  account_server (λ w, (Ok (account_with ["s"]), w)) opaque_secret.
Lemma wrong_secret_on_retry :
  (ServiceAccount_Load opaque_server 1 (NewServiceAccount ("ns", "a")) tt).1
    = Err ErrNotServiceAccountTokenSecret
  ∧ match (ServiceAccount_Load opaque_server 2 (NewServiceAccount ("ns", "a")) tt).1 with
    | Ok (true, sa) => account_token (W := unit) sa = lift (Ok "other")
    | _ => False
    end.
Proof. split; reflexivity. Qed.
