(* ===== verification/TriggerProperties.v ===== *)
(** * When the token of a trigger is issued again ([AnnotateTriggerToken])

    The token of a trigger does not expire: it is kept until what it says, hashed, changes. *)
From S2P Require Import Prelude GoStrings Values Errors Transfer ResultMapper Model.
From S2P Require Import Authenticate AuthKubernetes ObjUtil AuthIssue KubeObjects Samples.
From S2P Require Import GoStd Unresolvable Fn ConfigMaps Graph RunStatus RunConfig.
From S2P Require Import Workflow ErrMark NetworkPolicy TenantDeps TenantReconcile.
From S2P Require Import RunObjects RunDeps Pipeline RunReconcile TriggerDeps.
From S2P Require Import TriggerReconcile Invariants TenantTheory ServerTheory RunTheory.
From S2P Require Import PipelineTheory SampleServer RunReconcileProperties.

Section rotation.
Context `{JSONTextLaws} (sha256 : string → string).

(** ** The token of a trigger *)
Definition identity_of (d : ActionDeps) (mt : Trigger) : list (string * list string) :=
  token_identity (issued_claims d "" (ATrigger mt) 0 0) (action_subject (ATrigger mt)).
Definition identity_hash (d : ActionDeps) (mt : Trigger) : string :=
  hex_encode (StructuredHash_Sum sha256 (set_all (identity_of d mt))).

(** The list is read back from the map. *)
Definition identity_list (sh : StructuredHash) : list (string * list string) :=
  ((λ k, (k, default [] (sh !! k))) <$> ["subject"; "parents"; "vault"])
  ++ match sh !! "event" with None => [] | Some l => [("event", l)] end.
Lemma identity_read_back s p v (e : option (list string)) :
  let l := [("subject", s); ("parents", p); ("vault", v)]
             ++ match e with None => [] | Some l => [("event", l)] end in
  identity_list (set_all l) = l.
Proof. by destruct e. Qed.
Lemma identity_of_list d mt : identity_list (set_all (identity_of d mt)) = identity_of d mt.
Proof.
  unfold identity_of, token_identity. cbn [RelayEventAPIURL issued_claims].
  destruct (deps_event_sink d) as [[u tok]|]; cbn [fmap option_fmap option_map fst];
    [apply (identity_read_back _ _ _ (Some _))|apply (identity_read_back _ _ _ None)].
Qed.

Context {W : Type} (issuer : Issuer_ W).
Definition annotated_with (k : string) (m : ObjectMeta) : string := annotation k (default ∅ (Annotations m)).

Lemma annotate_same m k v : annotated_with k (Annotate m k v).2 = v.
Proof.
  unfold annotated_with, annotation, Annotate, set_key. destruct (Annotations m) as [a|]; cbn.
  - case_decide as Ha; cbn; [by rewrite Ha|by rewrite lookup_insert_eq].
  - by rewrite lookup_singleton_eq.
Qed.
Lemma annotate_different m k v k' : k' ≠ k → annotated_with k' (Annotate m k v).2 = annotated_with k' m.
Proof.
  intros Hk. unfold annotated_with, annotation, Annotate, set_key. destruct (Annotations m) as [a|]; cbn.
  - case_decide as Ha; cbn; [done|by rewrite lookup_insert_ne].
  - by rewrite lookup_singleton_ne.
Qed.

(** What annotating leaves: the hash, and a new token with its subject or the old ones. *)
Lemma annotate_trigger_spec sat d mt max now target w m w' :
  AnnotateTriggerToken issuer sat sha256 d mt max now target w = (Ok m, w') →
  annotated_with RelayControllerTokenHashAnnotation m = identity_hash d mt
  ∧ (annotated_with RelayControllerTokenHashAnnotation target = identity_hash d mt → m = target)
  ∧ (annotated_with RelayControllerTokenHashAnnotation target ≠ identity_hash d mt →
     ∃ token w1 tok, sat w = (Ok token, w1)
       ∧ issuer (issued_claims d token (ATrigger mt) max now) w1 = (Ok tok, w')
       ∧ annotated_with KubernetesTokenAnnotation m = tok
       ∧ annotated_with KubernetesSubjectAnnotation m = action_subject (ATrigger mt)).
Proof.
  unfold AnnotateTriggerToken. rewrite effect_bind_run. destruct (sat w) as [[token|e|x] w1]; [|done..].
  cbv zeta. fold (identity_hash d mt).
  change (token_identity (issued_claims d token (ATrigger mt) max now) (action_subject (ATrigger mt)))
    with (identity_of d mt). fold (identity_hash d mt).
  fold (annotated_with RelayControllerTokenHashAnnotation target).
  destruct (String.eqb_spec (identity_hash d mt) (annotated_with RelayControllerTokenHashAnnotation target))
    as [E|Hne].
  - intros [= <- <-]. split_and!; [done|done|]. intros Hn. by destruct Hn.
  - rewrite effect_bind_run.
    destruct (issuer _ w1) as [[tok|e|x] w2] eqn:Ei; [|done..]. intros [= <- <-]. unfold put_token.
    rewrite !annotate_different by done. rewrite !annotate_same. split; [done|]. split; [congruence|].
    intros _. exists token, w1, tok. rewrite annotate_different, !annotate_same by done. done.
Qed.

(** The claims of a trigger's token that are hashed: its subject, domain, tenant, Vault
    paths and event sink.  Not among them are the account's token, the namespace, the names
    of the ConfigMaps and the times. *)
Definition hashed_claims (d : ActionDeps) (mt : Trigger)
    : string * (string * string) * (string * string * string) * option (string * string) :=
  (action_subject (ATrigger mt),
   (deps_annotation d RelayDomainIDAnnotation, deps_annotation d RelayTenantIDAnnotation),
   (deps_annotation d RelayVaultEngineMountAnnotation, deps_annotation d RelayVaultSecretPathAnnotation,
    deps_annotation d RelayVaultConnectionPathAnnotation), deps_event_sink d).
Lemma hashed_identity d mt d' mt' : identity_of d mt = identity_of d' mt' ↔ hashed_claims d mt = hashed_claims d' mt'.
Proof.
  unfold identity_of, token_identity, hashed_claims, issued_claims.
  cbn [RelayDomainID RelayTenantID RelayVaultEnginePath RelayVaultSecretPath RelayVaultConnectionPath
       RelayEventAPIURL RelayEventAPIToken].
  destruct (deps_event_sink d) as [[u t]|], (deps_event_sink d') as [[u' t']|];
    cbn [fmap option_fmap option_map fst snd default from_option app]; split; intros [=]; congruence.
Qed.

(** C26: The token of a webhook trigger is issued again exactly when its subject, domain,
    tenant, Vault paths or event sink change ([hashed_claims]).  Annotating once more,
    whatever the time and the account's token, keeps the annotations if all of them are
    the same, also where other claims have changed: a new token of the account is not
    taken over ([account_token_not_hashed]).  If one of them differs, and they are UTF-8
    text, a new token of the new claims replaces the old one, or SHA-256 has a collision. *)
Theorem trigger_token_rotates sat sat' d mt d' mt' max now now' target w m1 w1 m2 w2 :
  hash_utf8 (set_all (identity_of d mt)) → hash_utf8 (set_all (identity_of d' mt')) →
  AnnotateTriggerToken issuer sat sha256 d mt max now target w = (Ok m1, w1) →
  AnnotateTriggerToken issuer sat' sha256 d' mt' max now' m1 w1 = (Ok m2, w2) →
  (hashed_claims d' mt' = hashed_claims d mt → m2 = m1)
  ∧ (hashed_claims d' mt' ≠ hashed_claims d mt →
     (∃ s s', s ≠ s' ∧ sha256 s = sha256 s')
     ∨ ∃ token w' tok, sat' w1 = (Ok token, w')
         ∧ issuer (issued_claims d' token (ATrigger mt') max now') w' = (Ok tok, w2)
         ∧ annotated_with KubernetesTokenAnnotation m2 = tok
         ∧ annotated_with KubernetesSubjectAnnotation m2 = action_subject (ATrigger mt')).
Proof.
  intros Hu Hu' (Hh & _ & _)%annotate_trigger_spec (_ & Hkeep & Hnew)%annotate_trigger_spec.
  rewrite Hh in Hkeep, Hnew. rewrite <- hashed_identity. split.
  - intros E. apply Hkeep. unfold identity_hash. by rewrite E.
  - intros Hne. destruct (decide (identity_hash d mt = identity_hash d' mt')) as [E|Hn]; [|by right; apply Hnew].
    left. apply hex_encode_inj, (StructuredHash_inj _ _ _ Hu Hu') in E as [E|E]; [|exact E].
    destruct Hne. by rewrite <- (identity_of_list d mt), E, identity_of_list.
Qed.
End rotation.

(** ** A trigger whose Vault path changes *)
Definition trigger_deps (secret_path : string) : ActionDeps :=
  MkActionDeps "ns" "uid-ns" "hook-immutable" "hook-mutable"
    {[RelayVaultSecretPathAnnotation := secret_path]} (Some ("http://sink", "sink-token")).
Definition numbered_issuer : Issuer_ nat := λ _ n, (Ok (String.String (ascii_of_nat n) ""), S n).
Definition annotated_trigger (secret_path sat : string) (now : Z) (m : ObjectMeta) (n : nat)
    : outcome auth_error ObjectMeta * nat :=
  AnnotateTriggerToken (H := tree_json) numbered_issuer (λ n, (Ok sat, n)) id
    (trigger_deps secret_path) (MkTrigger "hook") 99%Z now m n.

Definition outcome_of {E A} (d : A) (o : outcome E A) : A := match o with Ok a => a | _ => d end.
Definition first_annotated : ObjectMeta := outcome_of zero_meta (annotated_trigger "a" "sat" 1%Z zero_meta 65).1.
Definition second_annotated : ObjectMeta :=
  outcome_of zero_meta (annotated_trigger "b" "sat" 2%Z first_annotated 66).1.

Lemma trigger_token_rotates_witness :
  annotated_with KubernetesTokenAnnotation first_annotated = "A"
  ∧ annotated_with KubernetesTokenAnnotation second_annotated = "B"
  ∧ ((∃ s s' : string, s ≠ s' ∧ id s = id s') ∨ ∃ token w' tok, (Ok "sat" : outcome auth_error string, 66) = (Ok token, w')
      ∧ numbered_issuer (issued_claims (trigger_deps "b") token (ATrigger (MkTrigger "hook")) 99 2) w' = (Ok tok, 67)
      ∧ annotated_with KubernetesTokenAnnotation second_annotated = tok
      ∧ annotated_with KubernetesSubjectAnnotation second_annotated = action_subject (ATrigger (MkTrigger "hook"))).
Proof.
  split; [vm_compute; reflexivity|]. split; [vm_compute; reflexivity|].
  refine (proj2 (@trigger_token_rotates tree_json tree_json_laws id nat numbered_issuer
    (λ n, (Ok "sat", n)) (λ n, (Ok "sat", n)) (trigger_deps "a") (MkTrigger "hook") (trigger_deps "b")
    (MkTrigger "hook") 99%Z 1%Z 2%Z zero_meta 65 first_annotated 66 second_annotated 67 _ _ _ _) _).
  - apply (bool_decide_unpack _); vm_compute; exact I.
  - apply (bool_decide_unpack _); vm_compute; exact I.
  - vm_compute; reflexivity.
  - vm_compute; reflexivity.
  - intros E. apply (f_equal (λ l, l.1.2.1.2)) in E. discriminate E.
Defined.

(** The token of the service account is not hashed: a new one is not taken over. *)
Lemma account_token_not_hashed :
  (annotated_trigger "a" "new-sat" 2%Z first_annotated 66).1 = Ok first_annotated.
Proof. vm_compute. reflexivity. Qed.

(** * Theory of webhook triggers: which objects a reconciliation removes, and the status *)
#[local] Arguments spec_of : simpl never.

Section triggers.
Context `{GoRuntime, GoFmt, JSONText, Markdown} {W : Type}.
Context (view : W → Objects) (cl : KubeClient W) `{!ServerLaws view cl}.
Notation agrees := (agree view).

(** ** Loading *)

(** An object that was loaded is the one that is there, if it has a UID. *)
Definition loaded_as (v : Objects) {k} (key : ObjectKey) (o : object k) : Prop :=
  o.1 = key
  ∧ (Meta_UID (Kube_Meta o.2) ≠ "" → v k key = Some o.2 ∧ object_key o.2 = key).

Lemma new_loaded_as v k key : loaded_as v key (NewObject k key).
Proof. by split. Qed.
Lemma keyed_load_as v {k} key (o : object k) w r w' :
  agrees [] v w → loaded_as v key o → Keyed_Load (kube cl k) o w = (r, w') →
  agrees [] v w' ∧ ∀ ok o', r = Ok (ok, o') → loaded_as v key o'.
Proof.
  intros Hv [Hk Ho] E. assert (Hv' := load_agree view cl [] v k o _ _ _ Hv E). split; [done|].
  intros ok o' ->. apply (load_spec view cl) in E as [_ E]. destruct (E ok o' eq_refl) as (K1 & K2 & E').
  split; [exact (eq_trans K1 Hk)|]. intros Hu. rewrite Hk in *. split; [|done].
  destruct ok.
  - rewrite (Hv k key) in E' by apply not_elem_of_nil. exact E'.
  - destruct E' as [Hn Eo]. rewrite Eo in Hu. destruct (Ho Hu) as [Hs _].
    rewrite (Hv k key) in Hn by apply not_elem_of_nil. congruence.
Qed.

(** The state while the objects are loaded. *)
Notation loading := (option (object KConfigMap) * TriggerObjects)%type.
Definition loading_ok (v : Objects) (sk : option ObjectKey) (key : ObjectKey) (wd : W * loading) : Prop :=
  agrees [] v wd.1
  ∧ match wd.2.1 with Some cm => ∃ k, sk = Some k ∧ loaded_as v k cm | None => sk = None end
  ∧ loaded_as v key (To_Owner wd.2.2).

Lemma load_other v sk key {O A} (f : loading → O) put (m : O → io W (A * O)) :
  (∀ d o, (put o d).1 = d.1 ∧ To_Owner (put o d).2 = To_Owner d.2) →
  (∀ o, invariant (agrees [] v) (m o)) →
  invariant (loading_ok v sk key) (on f put m).
Proof.
  intros Hp Hm [w d] r [w' d'] (Hv & Hs & Ho). unfold on.
  destruct (m (f d) w) as [[[a o]|e|x] w1] eqn:E; intros [= _ <- <-];
    assert (Hv1 := Hm _ _ _ _ Hv E); try exact (conj Hv1 (conj Hs Ho)).
  destruct (Hp d o) as [E1 E2]. unfold loading_ok. cbn in *. by rewrite E1, E2.
Qed.
Lemma account_agree ks v rounds sa : invariant (agrees ks v) (ServiceAccount_Load cl rounds sa).
Proof. intros w r w' Hv E. exact (proj1 (account_load_spec view cl ks v _ _ _ _ _ Hv E)). Qed.

Lemma load_stale_owner v sk key :
  invariant (loading_ok v sk key) (load_optional cl KConfigMap fst (λ d o, (o, d.2))).
Proof.
  intros [w [st objs]] r [w' d'] (Hv & Hs & Ho). unfold load_optional, unless_nil. cbn [fst].
  destruct st as [cm|]; [|by intros [= _ <- <-]]. destruct Hs as (k & -> & Hcm). unfold on.
  destruct (Keyed_Load (kube cl KConfigMap) cm w) as [[[a o]|e|x] w1] eqn:E;
    apply (keyed_load_as v k) in E as [Hv1 E]; try done; intros [= _ <- <-];
    (split; [exact Hv1|split; [exists k|exact Ho]]); (split; [done|]); [by eapply E|exact Hcm..].
Qed.
Lemma load_owner v sk key :
  invariant (loading_ok v sk key) (load_field cl KConfigMap (To_Owner ∘ snd) (put_2 put_to_Owner)).
Proof.
  intros [w [st objs]] r [w' d'] (Hv & Hs & Ho). unfold load_field, on. cbn [compose snd].
  destruct (Keyed_Load (kube cl KConfigMap) (To_Owner objs) w) as [[[a o]|e|x] w1] eqn:E;
    apply (keyed_load_as v key) in E as [Hv1 E]; try done; intros [= _ <- <-];
    (split; [exact Hv1|split; [exact Hs|]]); [by eapply E|exact Ho..].
Qed.
Lemma trigger_loaders_ok v sk key rounds :
  Forall (invariant (loading_ok v sk key)) (trigger_loaders cl rounds).
Proof.
  repeat apply Forall_cons_2; [apply load_stale_owner|apply load_owner|..|apply Forall_nil_2];
    (apply load_other; [done|]; intros o; first [apply (load_agree view cl)|apply account_agree]).
Qed.

(** The dependencies of the tenant are only read. *)
Lemma on_world {D O A} (P : W → Prop) (f : D → O) put (m : O → io W (A * O)) :
  (∀ o, invariant P (m o)) → invariant (λ wd, P wd.1) (on f put m).
Proof.
  intros Hm [w d] r [w' d'] Hp. unfold on.
  destruct (m (f d) w) as [[[a o]|e|x] w1] eqn:E; intros [= _ <- _]; by eapply Hm.
Qed.
Lemma unless_world {D O A} (P : W → Prop) (nil : A) (f : D → option O) m :
  (∀ o, invariant (λ wd, P wd.1) (m o)) → invariant (λ wd : W * D, P wd.1) (unless_nil nil f m).
Proof.
  intros Hm [w d] r s' Hp. unfold unless_nil. destruct (f d); [by apply Hm|]. by intros [= _ <-].
Qed.
Lemma event_sink_agree ks v s : invariant (agrees ks v) (EventSink_Load (tenant_clients cl) s).
Proof.
  unfold EventSink_Load. destruct (TokenSecret s) as [sec|]; [|apply invariant_ret].
  apply invariant_bind; [|intros []; apply invariant_ret]. unfold OpaqueSecret_Load, load_secret.
  apply invariant_bind; [apply (load_agree view cl ks v KSecret)|]. intros [ok s'].
  destruct (String.eqb _ _); [apply invariant_ret|apply invariant_lift].
Qed.
Lemma tenant_load_agree ks v : invariant (λ wd, agrees ks v wd.1) (TenantDeps_Load (tenant_clients cl)).
Proof.
  assert (Hns : ∀ n, invariant (agrees ks v) (Namespace_Load (namespaces (tenant_clients cl)) n))
    by (intros n; apply (namespace_load_agree view cl)).
  intros [w td] r wd' Hv. unfold TenantDeps_Load. cbv zeta.
  apply (invariant_loaders (λ wd, agrees ks v wd.1)); [|by destruct (stale_namespace td)].
  apply Forall_cons_2; [apply unless_world; intros s; apply on_world, event_sink_agree|].
  apply Forall_app_2.
  - destruct (Managed _); repeat apply Forall_cons_2; try apply Forall_nil_2.
    + by apply on_world.
    + apply unless_world. intros o. apply on_world, (load_agree view cl ks v KNetworkPolicy).
    + apply unless_world. intros o. apply on_world, (load_agree view cl ks v KLimitRange).
    + apply invariant_bind; [by apply on_world|]. intros []; [apply invariant_ret|apply invariant_lift].
  - destruct (stale_namespace td); [|apply Forall_nil_2]. apply Forall_singleton.
    apply unless_world. intros o. by apply on_world.
Qed.

(** What the load of a trigger's dependencies found. *)
Lemma on_value_run {D A} (P : W * D → Prop) (m : io (W * D) A) d w r w' :
  invariant P m → P (w, d) → on_value m d w = (r, w') →
  ∃ d', P (w', d') ∧ ∀ a d'', r = Ok (a, d'') → d'' = d'.
Proof.
  intros Hm Hp. unfold on_value. destruct (m (w, d)) as [r1 [w1 d1]] eqn:E.
  assert (P1 := Hm _ _ _ Hp E). destruct r1; intros [= <- <-]; exists d1; (split; [done|]);
    [by intros ? ? [= _ <-]|done..].
Qed.
Lemma on_value_invariant {D A} (P : W → Prop) (m : io (W * D) A) d :
  invariant (λ wd, P wd.1) m → invariant P (on_value m d).
Proof.
  intros Hm w r w' Hp E. destruct (on_value_run _ _ _ _ _ _ Hm Hp E) as (d' & Hd & _). exact Hd.
Qed.

Definition status_ns (wt : TriggerObject) : string := Trigger_Namespace (trigger_status wt).

(** The namespace of the trigger's tenant, if that is there. *)
Definition tenant_key (wt : TriggerObject) : ObjectKey := (wt.1.1, TenantRef (trigger_of wt)).
Definition tenant_ns (v : Objects) (wt : TriggerObject) : option string :=
  (λ t, template_namespace (tenant_key wt, t)) <$> v KTenant (tenant_key wt).

(** The namespace that the status names is not, or no longer, that of the tenant. *)
Definition moved_from (v : Objects) (wt : TriggerObject) : Prop :=
  status_ns wt ≠ "" ∧ tenant_ns v wt ≠ Some (status_ns wt).
Definition deps_loaded (v : Objects) (wt : TriggerObject) (d : WebhookTriggerDeps) : Prop :=
  Wtd_Trigger d = wt
  ∧ (∀ cm, StaleOwnerConfigMap d = Some cm →
      moved_from v wt ∧ loaded_as v (owner_key (status_ns wt) wt) cm)
  ∧ ∀ t, Wtd_Objects d = Some t →
      ∃ ns, tenant_ns v wt = Some ns ∧ loaded_as v (owner_key ns wt) (To_Owner t).

(** Loading the dependencies of a tenant keeps the name of its namespace. *)
Lemma on_keeps {D O A} (P : D → Prop) (f : D → O) put (m : O → io W (A * O)) :
  (∀ d w a o w', P d → m (f d) w = (Ok (a, o), w') → P (put o d)) →
  invariant (λ wd : W * D, P wd.2) (on f put m).
Proof.
  intros Hm [w d] r [w' d'] Hp. unfold on. cbn in Hp.
  destruct (m (f d) w) as [[[a o]|e|x] w1] eqn:E; intros [= _ <- <-]; [by eapply Hm|done..].
Qed.
Lemma tenant_load_namespace ns : invariant (λ wd, (Td_Namespace wd.2).1 = ns) (TenantDeps_Load (tenant_clients cl)).
Proof.
  assert (Hns : invariant (λ wd, (Td_Namespace wd.2).1 = ns)
                  (on Td_Namespace with_namespace (Namespace_Load (kube cl KNamespace)))).
  { apply (on_keeps (λ d, (Td_Namespace d).1 = ns)). intros d w a o w' Hd. unfold Namespace_Load.
    intros ([ok o1] & w1 & _ & [= _ <- _])%bind_ok. exact Hd. }
  assert (Hput : ∀ {O A} f put (m : O → io W (A * O)),
    (∀ o d, Td_Namespace (put o d) = Td_Namespace d) →
    invariant (λ wd, (Td_Namespace wd.2).1 = ns) (on f put m)).
  { intros O A f put m Hp. apply (on_keeps (λ d, (Td_Namespace d).1 = ns)). intros d w a o w' Hd _.
    by rewrite Hp. }
  assert (Hopt : ∀ {O} (f : TenantDeps → option O) m, (∀ o, invariant (λ wd, (Td_Namespace wd.2).1 = ns) (m o)) →
    invariant (λ wd : W * TenantDeps, (Td_Namespace wd.2).1 = ns) (unless_nil true f m)).
  { intros O f m Hm [w td] r s' Hp. unfold unless_nil. destruct (f td); [by apply Hm|]. by intros [= _ <-]. }
  intros [w td] r wd' Hv. unfold TenantDeps_Load. cbv zeta.
  apply (invariant_loaders (λ wd, (Td_Namespace wd.2).1 = ns)); [|by destruct (stale_namespace td)].
  apply Forall_cons_2; [by apply Hopt; intros; apply Hput|].
  apply Forall_app_2.
  - destruct (Managed _); repeat apply Forall_cons_2; try apply Forall_nil_2; [exact Hns|..].
    + by apply Hopt; intros; apply Hput.
    + by apply Hopt; intros; apply Hput.
    + apply invariant_bind; [exact Hns|]. intros []; [apply invariant_ret|apply invariant_lift].
  - destruct (stale_namespace td); [|apply Forall_nil_2]. apply Forall_singleton.
    by apply Hopt; intros; apply Hput.
Qed.

Lemma on_value_found {D A} (P : D → Prop) (m : io (W * D) A) d w a d' w' :
  invariant (λ wd, P wd.2) m → P d → on_value m d w = (Ok (a, d'), w') → P d'.
Proof.
  intros Hm Hp. unfold on_value. destruct (m (w, d)) as [[x|e|x] [w1 d1]] eqn:E; [|done..].
  intros [= _ <- _]. exact (Hm (w, d) _ _ Hp E).
Qed.

(** The tenant that was loaded says where its namespace is. *)
Lemma loaded_tenant_ns v wt url w ok tn w1 :
  agrees [] v w →
  Keyed_Load (kube cl KTenant) (Wtd_Tenant (NewWebhookTriggerDeps wt url)) w = (Ok (ok, tn), w1) →
  tenant_ns v wt = if ok : bool then Some (template_namespace tn) else None.
Proof.
  intros Hv E. apply (load_spec view cl) in E as [_ E]. destruct (E ok tn eq_refl) as (Hk & _ & Hr).
  change (NewWebhookTriggerDeps wt url).(Wtd_Tenant).1 with (tenant_key wt) in *.
  unfold tenant_ns. rewrite <- (Hv KTenant (tenant_key wt)) by apply not_elem_of_nil. destruct ok.
  - rewrite Hr. cbn. rewrite <- Hk. by destruct tn.
  - by rewrite (proj1 Hr).
Qed.

Lemma trigger_load_spec rounds wt url w r w' :
  WebhookTriggerDeps_Load cl rounds (NewWebhookTriggerDeps wt url) w = (r, w') →
  agrees [] (view w) w' ∧ ∀ res d, r = Ok (res, d) → deps_loaded (view w) wt d.
Proof.
  assert (Hv0 := agree_refl view [] w). revert Hv0. generalize (view w) as v.
  intros v Hv. unfold WebhookTriggerDeps_Load. cbv zeta. cbn [Wtd_Trigger NewWebhookTriggerDeps].
  fold (status_ns wt).
  assert (Hl : ∀ k (o : object k), invariant (agrees [] v) (Keyed_Load (kube cl k) o))
    by (intros; apply (load_agree view cl)).
  intros [([ok tn] & w1 & E1 & E)|(o & E1 & Ho)]%bind_run;
    [|split; [exact (Hl KTenant _ _ _ _ Hv E1)|intros ? ? ->; by destruct (Ho (res, d))]].
  assert (Hv1 : agrees [] v w1) by exact (Hl KTenant _ _ _ _ Hv E1).
  assert (Htn := loaded_tenant_ns _ _ _ _ _ _ _ Hv E1). clear E1 Hv w.
  destruct ok; cbn [negb] in E.
  2: { destruct (String.eqb_spec (status_ns wt) "") as [Hs|Hs]; cbn [negb] in E.
    { injection E as <- <-. split; [done|]. intros res d [= _ <-]. by split_and!. }
    apply bind_run in E as [([b st] & w2 & E2 & E)|(o & E2 & Ho)];
      apply (keyed_load_as v (owner_key (status_ns wt) wt)) in E2 as [Hv2 E2]; try done.
    - injection E as <- <-. split; [done|]. intros res d [= _ <-]. split_and!; [done| |done].
      intros cm [= <-]. split; [by split; [|rewrite Htn]|]. by eapply E2.
    - split; [done|]. intros ? ? ->. by destruct (Ho (res, d)). }
  apply bind_run in E as [([ok td] & w2 & E2 & E)|(o & E2 & Ho)];
    apply (on_value_invariant _ _ _ (tenant_load_agree [] v)) in E2 as Hv2; try done;
    [|split; [done|]; intros ? ? ->; by destruct (Ho (res, d))].
  apply (on_value_found (λ td, (Td_Namespace td).1 = template_namespace tn)) in E2 as Hns;
    [|apply tenant_load_namespace|by rewrite (proj2 (proj2 (NewTenantDeps_fields tn)))].
  rewrite <- Hns in Htn.
  destruct ok; cbn [negb] in E.
  2: { injection E as <- <-. split; [done|]. intros res d [= _ <-]. by split_and!. }
  set (sk := if negb (String.eqb (status_ns wt) "") && negb (String.eqb (Td_Namespace td).1 (status_ns wt))
             then Some (owner_key (status_ns wt) wt) else None).
  set (ns := (Td_Namespace td).1) in *.
  assert (Hsk : ∀ k, sk = Some k → moved_from v wt ∧ k = owner_key (status_ns wt) wt).
  { unfold sk, moved_from. rewrite Htn. intros k.
    destruct (String.eqb_spec (status_ns wt) ""), (String.eqb_spec ns (status_ns wt)); cbn; try done.
    intros [= <-]. split_and!; congruence. }
  apply bind_run in E as [([ok [stale objs]] & w3 & E3 & E)|(o & E3 & Ho)];
    (eapply (on_value_run (loading_ok v sk (owner_key ns wt))) in E3 as ([st' ob'] & Hi & Hr);
      [|apply invariant_loaders, trigger_loaders_ok
       |split; [exact Hv2|split; [|apply new_loaded_as]]; unfold sk; cbn;
        destruct (_ && _); [by eexists|done]]).
  - injection E as <- <-. destruct Hi as (Hv3 & Hs & Hown). split; [exact Hv3|].
    specialize (Hr _ _ eq_refl). injection Hr as -> ->. intros res d [= _ <-]. split_and!; [done| |].
    + intros cm Hc. cbn in Hc, Hs. subst st'. destruct Hs as (k & Hk & Hcm).
      destruct (Hsk k Hk) as [Hne ->]. done.
    + intros t [= <-]. by exists ns.
  - split; [apply Hi|]. intros ? ? ->. by destruct (Ho (res, d)).
Qed.
End triggers.

(** * Properties of the webhook trigger reconciler *)
#[local] Arguments spec_of : simpl never.

(** ** Which ConfigMaps a reconciliation removes *)
Section safety.
Context `{GoRuntime, GoFmt, JSONText, Markdown} {W : Type}.
Context (view : W → Objects) (cl : KubeClient W) `{!ServerLaws view cl}.
Context (issuer : Issuer_ W) (metadataAPIURL : string) (url_parse : string → option string).
Context (sha256 : string → string).
Context (fuel rounds : nat) (now : Z).
Notation agrees := (agree view).
(** Tokens are not kept in the objects of the cluster. *)
Context (Hissuer : ∀ ks v c, invariant (agrees ks v) (issuer c)).

Definition map_there (key : ObjectKey) (w : W) : Prop := is_Some (view w KConfigMap key).

Lemma reading_there {E A} key (m : effect E W A) :
  (∀ v, invariant (agrees [] v) m) → invariant (map_there key) m.
Proof.
  intros Hm w r w' Hw E0. assert (Hv := Hm (view w) w r w' (agree_refl view [] w) E0).
  unfold map_there. by rewrite (Hv KConfigMap key) by apply not_elem_of_nil.
Qed.

#[local] Instance map_there_kept key k : KeptBy (map_there key) (kube cl k).
Proof.
  assert (Hw : ∀ o w r w', map_there key w →
    kube_Create (kube cl k) o w = (r, w') ∨ kube_Update (kube cl k) o w = (r, w') → map_there key w').
  { intros o w r w' Hw (Hf & Hk & _)%(server_write (view := view)). unfold map_there in *.
    destruct (decide (k = KConfigMap)) as [->|Hne]; [|rewrite Hf; [done|congruence]].
    destruct (decide (key = object_key o)) as [->|Hne]; [by apply Hk|]. rewrite Hf; [done|congruence]. }
  split.
  - intros key' w r w' H' [Hf _]%(server_get (view := view)). unfold map_there. by rewrite Hf.
  - intros o w r w' H' E. eapply Hw; [done|by left].
  - intros o w r w' H' E. eapply Hw; [done|by right].
Qed.

Lemma wrapping_there {A} key prefix (m : effect (merror error) W A) :
  invariant (map_there key) m → invariant (map_there key) (wrapping prefix m).
Proof.
  intros Hm w r w' Hw. unfold wrapping. destruct (m w) as [o w1] eqn:E. intros [= _ <-]. by eapply Hm.
Qed.
Lemma marking_there {A} key rules (m : effect (merror error) W A) :
  invariant (map_there key) m → invariant (map_there key) (marking rules m).
Proof.
  intros Hm w r w' Hw. unfold marking. destruct (m w) as [o w1] eqn:E. intros [= _ <-]. by eapply Hm.
Qed.

(** *** The identity of the trigger *)
Lemma trigger_dependency wt wt' m :
  identity (Kube_Meta wt'.2) = identity (Kube_Meta wt.2) →
  IsDependencyOf m (TriggerOwner wt') = IsDependencyOf m (TriggerOwner wt).
Proof.
  intros [= E1 E2 E3]. unfold IsDependencyOf.
  assert (E : dependency_on (TriggerOwner wt') = dependency_on (TriggerOwner wt)); [|by rewrite E].
  unfold dependency_on, TriggerOwner. cbn. congruence.
Qed.
Definition known (wt : TriggerObject) : Prop :=
  object_key wt.2 = wt.1 ∧ Meta_UID (Kube_Meta wt.2) ≠ "".

Lemma Trigger_Persist_identity wt w wt' w' :
  known wt → Trigger_Persist cl wt w = (Ok wt', w') →
  identity (Kube_Meta wt'.2) = identity (Kube_Meta wt.2).
Proof.
  intros [Hk Hu]. unfold Trigger_Persist, Keyed_Persist, CreateOrUpdate, Exists.
  rewrite !effect_bind_run. cbn [Kube_Meta with_Meta with_key Meta_UID].
  rewrite (proj2 (String.eqb_neq _ _) Hu). cbn [negb].
  destruct (kube_Update _ _ w) as [[o|e|x] w1] eqn:E; cbn; intros [=]; subst.
  eapply or_intror in E. apply (server_write (view := view)) in E as (_ & _ & E).
  destruct (E o eq_refl) as (_ & Ko & Uo & _). specialize (Uo Hu).
  rewrite object_with_key, <- Hk in Ko. unfold identity. cbn in *. injection Ko as -> ->.
  by rewrite Uo.
Qed.
Lemma Trigger_Persist_there key wt : invariant (map_there key) (Trigger_Persist cl wt).
Proof.
  apply invariant_bind; [apply invariant_Keyed_Persist, _|]. intros []. apply invariant_ret.
Qed.

(** *** Deleting an owner *)
Definition names_trigger (wt : TriggerObject) (m : ObjectMeta) : Prop :=
  IsDependencyOf m (TriggerOwner wt) = Ok true.

Lemma delete_owner_there key wt cm :
  (∀ c, cm = Some c → Meta_UID (Kube_Meta c.2) ≠ "" → object_key c.2 = key →
     ¬ names_trigger wt (Kube_Meta c.2)) →
  invariant (map_there key) (delete_owner cl wt cm).
Proof.
  intros Hn. unfold delete_owner. destruct cm as [c|]; [|apply invariant_ret].
  destruct (String.eqb_spec (Meta_UID (Kube_Meta c.2)) "") as [|Hu]; [apply invariant_ret|].
  specialize (Hn c eq_refl Hu). unfold names_trigger in Hn.
  intros w r w' Hw. rewrite effect_bind_run. unfold lift.
  destruct (IsDependencyOf _ _) as [[]|e|x]; [|by intros [= _ <-]..].
  apply (invariant_bind (map_there key)); [|intros [|e|x]; [apply invariant_ret|case_match|]; auto with invariants|exact Hw].
  apply invariant_attempt. intros w1 r1 w1' H1' E1. unfold map_there.
  rewrite (server_delete (view := view) _ _ _ _ _ E1); [done|]. intros [= ->]. by destruct Hn.
Qed.

(** The ConfigMaps that may go: the owner in the namespace that the status names, unless
    that is the namespace of the trigger's tenant, and the owner there once the trigger is
    being deleted. *)
Definition stale_key (v : Objects) (wt : TriggerObject) (key : ObjectKey) : Prop :=
  moved_from v wt ∧ key = owner_key (status_ns wt) wt.
Definition deleted_key (v : Objects) (wt : TriggerObject) (key : ObjectKey) : Prop :=
  Finalizing (Kube_Meta wt.2) = true ∧ tenant_ns v wt = Some key.1 ∧ key = owner_key key.1 wt.

Section one_map.
Context (key : ObjectKey) (m : Kube (spec_of KConfigMap)) (v : Objects) (wt : TriggerObject).
Context (Hm : v KConfigMap key = Some m) (Hwt : known wt).
Context (Hsafe : names_trigger wt (Kube_Meta m) → ¬ (stale_key v wt key ∨ deleted_key v wt key)).
Notation there := (map_there key).

(** The dependencies, with the trigger as it is after it was persisted. *)
Definition deps_known (d : WebhookTriggerDeps) : Prop :=
  identity (Kube_Meta (Wtd_Trigger d).2) = identity (Kube_Meta wt.2)
  ∧ ∀ cm, StaleOwnerConfigMap d = Some cm →
      moved_from v wt ∧ loaded_as v (owner_key (status_ns wt) wt) cm.

Lemma loaded_safe wt' k cm :
  identity (Kube_Meta wt'.2) = identity (Kube_Meta wt.2) → loaded_as v k cm →
  (k = key → stale_key v wt key ∨ deleted_key v wt key) →
  invariant there (delete_owner cl wt' (Some cm)).
Proof.
  intros Hi [Hk Hl] Hor. apply delete_owner_there. intros c [= <-] Hu Hkey.
  destruct (Hl Hu) as [Hv Ho]. assert (k = key) by congruence. subst k.
  assert (cm.2 = m) as -> by congruence.
  unfold names_trigger. rewrite (trigger_dependency wt wt' _ Hi). intros Hd. by apply (Hsafe Hd), Hor.
Qed.
Lemma delete_stale_there d : deps_known d → invariant there (WebhookTriggerDeps_DeleteStale cl d).
Proof.
  intros [Hi Hs]. unfold WebhookTriggerDeps_DeleteStale.
  destruct (StaleOwnerConfigMap d) as [cm|]; [|apply invariant_ret].
  destruct (Hs cm eq_refl) as [Hne Hl]. apply (loaded_safe _ _ _ Hi Hl). intros <-. by left.
Qed.
Lemma deps_loaded_known d : deps_loaded v wt d → deps_known d.
Proof. intros (E & Hs & _). split; [by rewrite E|exact Hs]. Qed.
Lemma delete_there d :
  deps_loaded v wt d → finalizing wt = true → invariant there (WebhookTriggerDeps_Delete cl d).
Proof.
  intros Hd Hf. apply invariant_bind; [by apply delete_stale_there, deps_loaded_known|]. intros _.
  destruct Hd as (E & _ & Ho). destruct (Wtd_Objects d) as [t|]; [|apply invariant_ret].
  destruct (Ho t eq_refl) as (ns & Hns & Hl). cbn [fmap option_fmap option_map].
  apply (loaded_safe _ (owner_key ns wt)); [by rewrite E|exact Hl|]. intros <-. by right.
Qed.

(** The finalizer keeps the ConfigMap, and what the trigger is. *)
Lemma finalize_there d w o w' :
  deps_loaded v wt d → there w →
  Finalize (Trigger_Persist cl) TriggerFinalizerName wt (_ ← WebhookTriggerDeps_Delete cl d; mret tt) w
    = (o, w') →
  there w' ∧ ∀ wt', o = Ok (false, wt') →
    identity (Kube_Meta wt'.2) = identity (Kube_Meta wt.2) ∧ wt'.1 = wt.1.
Proof.
  intros Hd Hw. unfold Finalize. destruct (finalizing wt) eqn:Hf; intros E.
  - split.
    + revert E. apply (invariant_bind there (_ ← WebhookTriggerDeps_Delete cl d; mret tt)); [| |exact Hw].
      * apply invariant_bind; [by apply delete_there|]. intros. apply invariant_ret.
      * intros _. apply invariant_bind; [apply Trigger_Persist_there|]. intros. apply invariant_ret.
    + intros wt' ->. apply bind_ok in E as (? & ? & _ & E). apply bind_ok in E as (? & ? & _ & E).
      by injection E.
  - cbn [add_finalizer Keyed_finalizable] in E. destruct (AddFinalizer _ _) as [added o1] eqn:Ea.
    assert (Hi : identity o1 = identity (Kube_Meta wt.2) ∧ Meta_UID o1 = Meta_UID (Kube_Meta wt.2)).
    { revert Ea. unfold AddFinalizer. destruct (existsb _ _); by intros [= _ <-]. }
    destruct Hi as [Hi Hu1]. destruct added.
    + assert (Hw' : there w').
      { revert E. apply (invariant_bind there); [apply Trigger_Persist_there| |exact Hw].
        intros. apply invariant_ret. }
      split; [done|]. intros wt' ->. apply bind_ok in E as (wt1 & w1 & E & E1).
      injection E1 as <- <-. split.
      * rewrite <- Hi. apply (Trigger_Persist_identity _ _ _ _) in E; [exact E|].
        destruct Hwt as [Hk Hu]. split; cbn; [|congruence].
        rewrite <- Hk. unfold object_key, identity in *. cbn. congruence.
      * unfold Trigger_Persist, Keyed_Persist in E. apply bind_ok in E as ([u o2] & w2 & E & E2).
        injection E2 as <- _. apply bind_ok in E as (o3 & w3 & _ & E). by injection E as _ <- _.
    + injection E as <- <-. split; [done|]. by intros wt' [= <-].
Qed.

(** *** What follows *)
Lemma persist_there {D} k f put : invariant (λ wd : W * D, there wd.1) (persist_field cl k f put).
Proof. apply on_world. intros o. apply invariant_Keyed_Persist, _. Qed.
Lemma persist_account_there {D} f put :
  invariant (λ wd : W * D, there wd.1) (persist_account cl rounds f put).
Proof.
  apply on_world. intros sa. apply invariant_bind; [apply invariant_Keyed_Persist, _|]. intros [u o].
  apply invariant_bind; [apply reading_there; intros; by apply account_agree|].
  intros [[] sa']; [apply invariant_ret|apply invariant_lift].
Qed.
Lemma trigger_persist_there d : deps_known d → invariant there (WebhookTriggerDeps_Persist cl rounds d).
Proof.
  intros Hd. apply invariant_bind; [by apply delete_stale_there|]. intros _.
  apply invariant_bind; [apply invariant_lift|]. intros objs.
  apply invariant_bind; [apply invariant_Keyed_Persist, _|]. intros [u cm].
  apply invariant_bind; [apply invariant_lift|]. intros objs'.
  apply invariant_bind; [|intros [u' objs'']; apply invariant_ret].
  apply on_value_invariant, invariant_each.
  repeat (apply Forall_cons_2; [first [apply persist_there|apply persist_account_there]|]).
  apply Forall_nil_2.
Qed.

Lemma configure_service_there s d :
  invariant there (ConfigureKnativeService url_parse issuer sha256 now s d).
Proof.
  unfold ConfigureKnativeService. cbv zeta.
  destruct (Wtd_Objects d) as [t|], (Wtd_TenantDeps d) as [td|]; try apply invariant_lift.
  apply invariant_bind; [apply invariant_lift|]. intros s'.
  apply invariant_bind; [|intros; apply invariant_ret]. intros w r w' Hw. unfold authenticating.
  destruct (Wtd_AnnotateTriggerToken _ _ _ _ _ _ _ _ w) as [o w1] eqn:E. intros [= _ <-].
  revert E. apply (reading_there key); [|done]. clear - Hissuer. intros v'.
  unfold Wtd_AnnotateTriggerToken, AnnotateTriggerToken, account_token. cbv zeta.
  apply invariant_bind; [apply invariant_lift|]. intros tok.
  destruct (String.eqb _ _); [apply invariant_ret|].
  apply invariant_bind; [apply Hissuer|]. intros. apply invariant_ret.
Qed.
Lemma service_result_there d :
  invariant there (service_result cl issuer url_parse sha256 now d).
Proof.
  apply invariant_bind; [|intros [ks|e|x]; auto with invariants]. apply invariant_attempt.
  unfold ApplyKnativeService. destruct (Wtd_TenantDeps d) as [td|]; [|apply invariant_lift].
  apply invariant_bind; [apply invariant_Keyed_Load, _|]. intros [ok s].
  apply invariant_bind; [apply configure_service_there|]. intros s'.
  apply invariant_bind; [apply invariant_Keyed_Persist, _|]. intros []. apply invariant_ret.
Qed.
Lemma status_there wt' : invariant there (Trigger_PersistStatus cl wt').
Proof.
  apply invariant_bind; [|intros; apply invariant_ret]. intros w r w' Hw E. unfold map_there.
  by rewrite (server_status (view := view) _ _ _ _ _ E) by done.
Qed.

Lemma configured_known d d' :
  ConfigureWebhookTriggerDeps fuel d = Ok d' → deps_known d → deps_known d'.
Proof.
  unfold ConfigureWebhookTriggerDeps. destruct (Wtd_Objects d) as [t|]; [|done].
  cbn. destruct (configure_objects fuel (Wtd_Trigger d) t); cbn; [|done..]. by intros [= <-].
Qed.
Lemma settle_trigger_there wt' d : deps_known d →
  invariant there (settle_trigger cl issuer url_parse sha256 fuel rounds now wt' d).
Proof.
  intros Hd. apply invariant_bind_ok; [apply wrapping_there, invariant_lift|].
  intros d1 w w' E%wrapping_Ok. apply lift_ok in E as [E _]. apply configured_known in E; [|done].
  apply invariant_bind; [by apply wrapping_there, marking_there, invariant_returning,
    trigger_persist_there|]. intros d2.
  apply invariant_bind; [apply invariant_returning, service_result_there|]. intros ksr.
  apply invariant_bind; [apply invariant_returning, invariant_lift|]. intros wt1.
  apply invariant_bind; [apply invariant_returning, status_there|]. intros wt2.
  destruct (Trigger_Ready wt2); apply invariant_ret.
Qed.

Lemma label_tenant_known wt' w wt'' w' :
  identity (Kube_Meta wt'.2) = identity (Kube_Meta wt.2) → wt'.1 = wt.1 →
  label_tenant cl wt' w = (Ok wt'', w') → identity (Kube_Meta wt''.2) = identity (Kube_Meta wt.2).
Proof.
  intros Hi Hk. unfold label_tenant. destruct (Label _ _ _) as [changed o] eqn:E.
  assert (Ho : identity o = identity (Kube_Meta wt'.2)).
  { revert E. unfold Label. repeat case_match; by intros [= _ <-]. }
  destruct changed; [|intros [= <- _]; cbn; congruence].
  intros E1%returning_Ok. rewrite <- Hi, <- Ho. apply Trigger_Persist_identity in E1; [exact E1|].
  destruct Hwt as [Hn Hu]. unfold known, object_key, identity in *. cbn in *.
  split; [rewrite Hk, <- Hn|]; congruence.
Qed.
Lemma label_tenant_there wt' : invariant there (label_tenant cl wt').
Proof.
  unfold label_tenant. destruct (Label _ _ _) as [[] o]; [|apply invariant_ret].
  apply invariant_returning, Trigger_Persist_there.
Qed.

Lemma reconcile_trigger_there w r w' :
  v = view w →
  reconcile_trigger cl issuer metadataAPIURL url_parse sha256 fuel rounds now wt w = (r, w') →
  there w'.
Proof.
  intros Hv E. assert (Hw : there w) by (exists m; by rewrite <- Hv).
  apply bind_run in E as [([res d] & w1 & E1 & E)|(o & E1 & _)].
  2: { unfold failing in E1. destruct (WebhookTriggerDeps_Load _ _ _ w) as [r1 w1] eqn:E2.
       injection E1 as _ <-. apply trigger_load_spec with (view := view) in E2 as [Hv1 _]; [|exact _].
       unfold map_there. by rewrite (Hv1 KConfigMap key) by apply not_elem_of_nil. }
  apply failing_Ok in E1. apply trigger_load_spec with (view := view) in E1 as [Hv1 Hd]; [|exact _].
  specialize (Hd _ _ eq_refl). rewrite <- Hv in Hd.
  assert (Hw1 : there w1)
    by (unfold map_there; by rewrite (Hv1 KConfigMap key) by apply not_elem_of_nil).
  apply bind_run in E as [([fin wt1] & w2 & E2 & E)|(o & E2 & _)]; unfold returning in E2;
    destruct (Finalize _ _ _ _ w1) as [o1 w2'] eqn:Ef;
    destruct (finalize_there d w1 o1 w2' Hd Hw1 Ef) as [Hw2 Hi]; [|by injection E2 as _ <-].
  destruct o1 as [[b t']|e|x]; try discriminate E2. injection E2 as -> -> ->.
  destruct fin; [by injection E as _ <-|]. destruct (Hi _ eq_refl) as [Hi1 Hk1].
  revert E. refine ((λ H, H) (invariant_bind_ok there _ _ (label_tenant_there wt1) _ w2 r w' Hw2)).
  intros wt2 w3 w3' E3. apply (label_tenant_known _ _ _ _ Hi1 Hk1) in E3.
  assert (Hd2 : deps_known (with_trigger wt2 d)) by (split; [exact E3|apply Hd]).
  apply invariant_bind; [apply invariant_failing, delete_stale_there, Hd2|]. intros _.
  destruct (Upstream res); [by apply settle_trigger_there|apply invariant_lift].
Qed.
End one_map.

#[local] Instance tenant_ns_dec v wt ns : Decision (tenant_ns v wt = ns).
Proof. unfold tenant_ns. apply _. Qed.
#[local] Instance stale_key_dec v wt key : Decision (stale_key v wt key).
Proof. unfold stale_key, moved_from. apply _. Qed.
#[local] Instance deleted_key_dec v wt key : Decision (deleted_key v wt key).
Proof. unfold deleted_key. apply _. Qed.
Lemma tenant_ns_agree v w wt : agrees [] v w → tenant_ns (view w) wt = tenant_ns v wt.
Proof. intros Hv. unfold tenant_ns. by rewrite (Hv KTenant) by apply not_elem_of_nil. Qed.

(** C7: A reconciliation of a webhook trigger removes a ConfigMap only if the ConfigMap
    names that trigger, by its UID, as what it depends on, and is one of two: the owner in
    the namespace that the trigger's status names, where that is not the namespace of the
    trigger's tenant (the tenant is gone or has moved), or the owner in the namespace of the
    tenant, where the trigger itself is being deleted.  The current owner of a trigger that
    stays is never removed. *)
Theorem trigger_maps_safe req w r w' key m :
  Trigger_Reconcile cl issuer metadataAPIURL url_parse sha256 fuel rounds now req w = (r, w') →
  view w KConfigMap key = Some m → view w' KConfigMap key = None →
  ∃ wt w1, Keyed_Load (kube cl KWebhookTrigger) (NewWebhookTrigger req) w = (Ok (true, wt), w1)
    ∧ names_trigger wt (Kube_Meta m)
    ∧ (stale_key (view w) wt key ∨ deleted_key (view w) wt key).
Proof.
  intros Hrun Hm Hnone.
  assert (Hstop : ¬ map_there key w') by (unfold map_there; rewrite Hnone; by intros []).
  assert (Hread : ∀ x, agrees [] (view w) x → view x KConfigMap key = Some m)
    by (intros x Hx; by rewrite (Hx KConfigMap key) by apply not_elem_of_nil).
  apply bind_run in Hrun as [([ok wt] & w1 & E & Hrun)|(o & E & _)].
  2: { destruct Hstop. exists m. apply Hread. eapply invariant_failing; [|apply agree_refl|exact E].
       apply (load_agree view cl [] (view w) KWebhookTrigger). }
  apply failing_Ok in E. assert (Hv := proj1 (load_spec view cl _ _ _ _ E)).
  destruct ok; cbn [negb] in Hrun.
  2: { destruct Hstop. injection Hrun as _ <-. exists m. by apply Hread. }
  exists wt, w1. split; [done|].
  assert (Hwt : known wt).
  { unfold Keyed_Load, GetIgnoreNotFound, attempt in E. rewrite !effect_bind_run in E.
    destruct (kube_Get _ _ w) as [[o|e|x] w2] eqn:Eg; cbn in E; [|by destruct (is_not_found e)|done].
    injection E as <- _. apply (server_get (view := view)) in Eg as (_ & _ & Hk & Hu). by split. }
  assert (Hdec : ∀ P : Prop, Decision P → (¬ ¬ P → P)) by (intros P [|] Hn; [done|by destruct Hn]).
  assert (Hsafe : ¬ (names_trigger wt (Kube_Meta m) →
                     ¬ (stale_key (view w1) wt key ∨ deleted_key (view w1) wt key))).
  { intros Hsafe. apply Hstop.
    refine (reconcile_trigger_there key m (view w1) wt _ Hwt Hsafe w1 r w' eq_refl Hrun). by apply Hread. }
  assert (Hns := tenant_ns_agree _ _ wt Hv).
  unfold stale_key, deleted_key, moved_from in Hsafe. rewrite Hns in Hsafe.
  fold (moved_from (view w) wt) (stale_key (view w) wt key) (deleted_key (view w) wt key) in Hsafe.
  unfold names_trigger in *.
  destruct (IsDependencyOf (Kube_Meta m) (TriggerOwner wt)) as [[]|e|x];
    [|by destruct Hsafe..].
  split; [done|]. apply (Hdec _ _). naive_solver.
Qed.
End safety.

(** ** The status of a trigger *)
Section status.
Context `{GoFmt}.

Lemma conditions_known conds sr :
  (∃ sr', fold_outcome set_trigger_condition sr conds = Ok sr')
  ↔ Forall (λ c, c.1 = WebhookTriggerServiceReady ∨ c.1 = WebhookTriggerReady) conds.
Proof.
  revert sr. induction conds as [|c conds IH]; intros sr.
  - split; [by constructor|by eexists].
  - rewrite Forall_cons. cbn [fold_outcome].
    assert (Hc : set_trigger_condition sr c
      = if String.eqb c.1 WebhookTriggerServiceReady then Ok (c.2, sr.2)
        else if String.eqb c.1 WebhookTriggerReady then Ok (sr.1, c.2)
        else Panic "invalid memory address or nil pointer dereference") by done.
    rewrite Hc. destruct (String.eqb_spec c.1 WebhookTriggerServiceReady) as [E|E].
    { cbn. rewrite IH. naive_solver. }
    destruct (String.eqb_spec c.1 WebhookTriggerReady) as [E'|E']; cbn; [rewrite IH; naive_solver|].
    split; [by intros []|]. naive_solver.
Qed.

Lemma trigger_conditions_again s r :
  fold_outcome set_trigger_condition (zero_condition, zero_condition)
    [(WebhookTriggerServiceReady, s); (WebhookTriggerReady, r)] = Ok (s, r).
Proof. done. Qed.

(** What the service is to the status: ready, failed or neither. *)
Definition service_ready (ksr : KnativeServiceResult) : bool :=
  match Service_Error ksr, Result_KnativeService ksr with None, Some ks => is_ready ks | _, _ => false end.

(** The status of a webhook trigger is made for every service whenever the conditions
    it has are of the two known types.  It says that the trigger is ready exactly when its
    service was made without an error and is ready; it is of the trigger's generation; the
    namespace is that of the service, and the URL is given only while the service is ready;
    and making it again for the same service, at any later time, changes nothing. *)
Theorem trigger_status_spec now wt ksr :
  ((∃ wt', ConfigureWebhookTrigger now wt ksr = Ok wt')
   ↔ Forall (λ c, c.1 = WebhookTriggerServiceReady ∨ c.1 = WebhookTriggerReady)
       (Trigger_Conditions (trigger_status wt)))
  ∧ ∀ wt', ConfigureWebhookTrigger now wt ksr = Ok wt' →
    Trigger_Ready wt' = service_ready ksr
    ∧ Trigger_ObservedGeneration (trigger_status wt') = Trigger_Generation (trigger_spec wt)
    ∧ Trigger_Namespace (trigger_status wt')
      = default "" ((λ ks : KnativeService, ks.1.1) <$> Result_KnativeService ksr)
    ∧ (Service_Error ksr = None → Trigger_URL (trigger_status wt') ≠ "" → Trigger_Ready wt' = true)
    ∧ wt'.1 = wt.1 ∧ trigger_of wt' = trigger_of wt
    ∧ ∀ now', ConfigureWebhookTrigger now' wt' ksr = Ok wt'.
Proof.
  unfold ConfigureWebhookTrigger. split.
  { rewrite <- (conditions_known _ (zero_condition, zero_condition)).
    destruct (fold_outcome _ _ _) as [[s r]|e|x]; cbn; [|split; by intros []..].
    destruct (service_place ksr). split; by eexists. }
  intros wt'. destruct (fold_outcome _ _ _) as [[s r]|e|x]; cbn [mbind outcome_bind]; [|done..].
  set (s' := transition now s (service_condition ksr)).
  set (r' := transition now r (trigger_ready_condition [s'])).
  assert (Hr : bool_decide (Cond_Status r' = ConditionTrue) = service_ready ksr).
  { unfold r'. rewrite transition_status. unfold trigger_ready_condition. cbn [AggregateStatusConditions].
    unfold aggregate_from, s'. rewrite transition_status. unfold service_condition, service_ready.
    destruct (Service_Error ksr), (Result_KnativeService ksr) as [ks|]; try done.
    by destruct (is_ready ks). }
  assert (Hs' : ∀ n, transition n s' (service_condition ksr) = s') by (intros; apply transition_again).
  assert (Hr' : ∀ n, transition n r' (trigger_ready_condition [s']) = r')
    by (intros; apply transition_again).
  clearbody s' r'. destruct (service_place ksr) as [ns url] eqn:Ep. intros [= <-].
  split; [exact Hr|]. split; [done|].
  assert (Ep' := Ep). unfold service_place in Ep'. split.
  { destruct (Result_KnativeService ksr); injection Ep' as <- _; done. }
  split.
  { intros He Hu. change (bool_decide (Cond_Status r' = ConditionTrue) = true). rewrite Hr.
    unfold service_ready. rewrite He. destruct (Result_KnativeService ksr) as [ks|].
    - destruct (is_ready ks); [done|]. by injection Ep' as _ <-.
    - by injection Ep' as _ <-. }
  split; [done|]. split; [done|]. intros now'.
  change (Trigger_Conditions _) with [(WebhookTriggerServiceReady, s'); (WebhookTriggerReady, r')].
  rewrite trigger_conditions_again. cbn [mbind outcome_bind]. by rewrite Hs', Hr'.
Qed.
End status.

(** ** A trigger that is being deleted, and its owner ConfigMap *)
Definition hook : WebhookTrigger :=
  MkWebhookTrigger "hook" "t1" "hook" "" [] "" [] ∅ ∅.
Definition deleted_trigger (ns : string) : Kube (spec_of KWebhookTrigger) :=
  MkKube (MkObjectMeta "system" "hook" "uid-h" None None [TriggerFinalizerName] [] (Some 7%Z))
    (MkTriggerObjectSpec 1%Z hook (MkTriggerStatus 1%Z ns "" [])).
Definition trigger_owner (ns : string) : Kube (spec_of KConfigMap) :=
  MkKube (@SetDependencyOf tree_json (MkObjectMeta ns "hook-owner" "uid-cm" None None [] [] None)
            (TriggerOwner (("system", "hook"), deleted_trigger ns)))
    (Kube_Spec (NewObject KConfigMap (ns, "hook-owner")).2).
(** The tenant's template names another namespace, or the tenant has no template. *)
Definition hook_tenant (template : string) : Kube (spec_of KTenant) :=
  MkKube (sample_meta "system" "t1" "uid-t")
    (MkTenantSpec 1%Z (MkObjectMeta "" template "" None None [] [] None) None None
       (MkTenantStatus 1%Z "" [])).
Definition trigger_server (ns template : string) : Server := λ k,
  match k with
  | KNamespace => {[("", ns) := MkKube (sample_meta "" ns "uid-ns") tt]}
  | KTenant => {[("system", "t1") := hook_tenant template]}
  | KWebhookTrigger => {[("system", "hook") := deleted_trigger ns]}
  | KConfigMap => {[(ns, "hook-owner") := trigger_owner ns]}
  | _ => ∅
  end.
Definition trigger_reconciled (w : Server) : outcome (merror error) Result * Server :=
  @Trigger_Reconcile forward_runtime sample_fmt tree_json sample_markdown Server server sample_issuer
    "http://metadata" Some id 5 3 9%Z ("system", "hook") w.

Lemma trigger_maps_safe_witness :
  ∃ wt w1, Keyed_Load (kube server KWebhookTrigger) (NewWebhookTrigger ("system", "hook"))
      (trigger_server "system" "") = (Ok (true, wt), w1)
    ∧ @names_trigger tree_json wt (Kube_Meta (trigger_owner "system"))
    ∧ (stale_key (server_view (trigger_server "system" "")) wt ("system", "hook-owner")
       ∨ deleted_key (server_view (trigger_server "system" "")) wt ("system", "hook-owner")).
Proof.
  refine (@trigger_maps_safe forward_runtime sample_fmt tree_json sample_markdown Server server_view
    server _ sample_issuer "http://metadata" Some id 5 3 9%Z _ ("system", "hook")
    (trigger_server "system" "") (trigger_reconciled (trigger_server "system" "")).1
    (trigger_reconciled (trigger_server "system" "")).2 ("system", "hook-owner") _
    (surjective_pairing _) _ _); try (vm_compute; reflexivity).
  intros ks v c w r w' Hw Er. injection Er as _ <-. exact Hw.
Defined.

(** The objects of the tenant's own namespace are not all there yet: the finalizer of the
    trigger goes, and its owner ConfigMap stays, with everything that belongs to it. *)
Lemma trigger_deleted_unsettled :
  let '(r, w) := trigger_reconciled (trigger_server "t1-ns" "t1-ns") in
  r = Ok false
  ∧ (Finalizers ∘ Kube_Meta) <$> server_view w KWebhookTrigger ("system", "hook") = Some []
  ∧ server_view w KConfigMap ("t1-ns", "hook-owner") = Some (trigger_owner "t1-ns").
Proof. vm_compute. split_and!; reflexivity. Qed.

(** The mutable ConfigMap of a trigger is not given the owner, and is left behind as well. *)
Lemma mutable_map_unowned t t' : own_objects t = Ok t' → To_Mutable t' = To_Mutable t.
Proof.
  unfold own_objects. repeat match goal with
    |- (?o ≫= _) = Ok _ → _ => destruct o; cbn [mbind outcome_bind]; [|done..] end.
  by intros [= <-].
Qed.

(** ** A trigger whose service has become ready *)
Definition ready_service : KnativeServiceResult :=
  AsKnativeServiceResult (Some (("t1-ns", "hook"), MkKube (sample_meta "t1-ns" "hook" "uid-ks")
    (MkServiceSpec (MkRevisionTemplate zero_meta "" [] []) true (Some "http://hook")))) None.
Lemma trigger_status_spec_witness :
  ∃ wt', @ConfigureWebhookTrigger sample_fmt 9%Z (("system", "hook"), deleted_trigger "") ready_service
           = Ok wt'
    ∧ Trigger_Ready wt' = true ∧ Trigger_URL (trigger_status wt') = "http://hook"
    ∧ @ConfigureWebhookTrigger sample_fmt 12%Z wt' ready_service = Ok wt'.
Proof.
  destruct (@trigger_status_spec sample_fmt 9%Z (("system", "hook"), deleted_trigger "") ready_service)
    as [H1 H2].
  destruct (proj2 H1) as [wt' E]; [constructor|]. exists wt'. split; [exact E|].
  destruct (H2 wt' E) as (Hr & _ & _ & _ & _ & _ & Ha).
  split; [exact Hr|]. split; [|apply Ha]. vm_compute in E. injection E as <-. reflexivity.
Defined.
