(* ===== verification/Entrypoint.v ===== *)
(** * The entrypoint of a container (pkg/entrypoint, cmd/relay-runtime-tools)

    The command of a container is wrapped: a program of the runtime tools is given the
    command, which it runs with the signals it receives itself. *)
From S2P Require Import Prelude GoStd GoStrings Values Errors.

Definition EntrypointCommand : string := "entrypoint".
Definition EntrypointCommandFlag : string := "-entrypoint".
Definition EntrypointCommandArgSeparator : string := "--".
Record Entrypoint := MkEntrypoint { Entrypoint_Entrypoint : string; Entrypoint_Args : list string }.

(** ** The wrapped command *)

(** A command whose first word is not empty. *)
Definition has_command (command : list string) : bool :=
  match command with c :: _ => negb (String.eqb c "") | [] => false end.
Definition wrapped (command args : list string) : list string :=
  match command with
  | c :: rest => EntrypointCommandFlag :: c :: EntrypointCommandArgSeparator :: rest ++ args
  | [] => []
  end.

Section image.
(** [image.ImageData]: the entrypoint and the command of an image, from its registry. *)
Context (ImageData : string → result (list string * list string)).

Definition ImageEntrypoint (img : string) (command args : list string) : result Entrypoint :=
  if has_command command then Ok (MkEntrypoint EntrypointCommand (wrapped command args))
  else
    '(ep, cmd) ← ImageData img;
    Ok (MkEntrypoint EntrypointCommand
          (if has_command ep then wrapped ep (match args with [] => cmd | _ => args end)
           else if has_command cmd then wrapped cmd args
           else [])).
End image.

(** ** The program *)

(** [flag.Parse] with one string flag, [entrypoint]: the flag and the arguments that
    follow the flags. *)
Inductive flag_error : Type :=
| FlagBadSyntax (arg : string)
| FlagNeedsArgument
| FlagHelp
| FlagNotDefined (name : string).

Definition is_entrypoint_flag (name : string) : bool := String.eqb name "entrypoint".
(** [name=value]; the name is not empty. *)
Definition split_flag (name : string) : string * option string :=
  match cut "="%char name with Some (n, v) => (n, Some v) | None => (name, None) end.

Fixpoint flag_parse (ep : string) (args : list string) : outcome flag_error (string * list string) :=
  match args with
  | String "-" (String _ _ as name) :: rest =>
      if String.eqb name "-" then Ok (ep, rest)
      else
        let name := match name with String "-" n => n | n => n end in
        if has_prefix "-" name || has_prefix "=" name then Err (FlagBadSyntax name)
        else
          let '(name, value) := split_flag name in
          if is_entrypoint_flag name then
            match value, rest with
            | Some v, _ => flag_parse v rest
            | None, v :: rest => flag_parse v rest
            | None, [] => Err FlagNeedsArgument
            end
          else if String.eqb name "help" || String.eqb name "h" then Err FlagHelp
          else Err (FlagNotDefined name)
  | _ => Ok (ep, args)
  end.

Record Entrypointer := MkEntrypointer { Ep_Entrypoint : string; Ep_Args : list string }.

(** What waiting for a process gives: it ended, with a code, or it was not started. *)
Inductive run_error : Type :=
| ExitError (status : Z)
| StartError (msg : string).

Section program.
Context {W : Type}.
(** [exec.Command(name, args...)], started and waited for. *)
Context (exec : string → list string → effect run_error W unit).

Definition Runner_Run (args : list string) : effect run_error W unit :=
  match args with
  | [] => mret tt
  | name :: args => exec name args
  end.

Definition Entrypointer_Go (e : Entrypointer) : effect run_error W unit :=
  Runner_Run (if negb (String.eqb (Ep_Entrypoint e) "") then Ep_Entrypoint e :: Ep_Args e
              else Ep_Args e).

(** The program, as the code it exits with: flags that do not parse, and the help, exit
    with 2; [log.Fatalf] exits with 1. *)
Definition exit_code (r : outcome run_error unit) : Z :=
  match r with
  | Ok _ => 0
  | Err (ExitError status) => status
  | Err (StartError _) => 1
  | Panic _ => 2
  end.
Definition main (args : list string) (w : W) : Z * W :=
  match flag_parse "" args with
  | Err _ | Panic _ => (2%Z, w)
  | Ok (ep, rest) => let '(r, w') := Entrypointer_Go (MkEntrypointer ep rest) w in (exit_code r, w')
  end.
End program.

(** ** Signals while the command runs

    Signals go to a channel of one place, from which a goroutine forwards them to the
    process group of the command; the channel is closed when the command has ended. *)
Section signals.
Context {Signal : Type} `{!EqDecision Signal} (SIGCHLD : Signal).

Record Forwarding := MkForwarding {
  pending : option Signal; forwarded : list Signal; command_ended : bool }.
Definition started_forwarding : Forwarding := MkForwarding None [] false.

(** A signal that arrives while the place is taken is dropped. *)
Definition arrive (s : Signal) (f : Forwarding) : Forwarding :=
  match pending f with
  | None => MkForwarding (Some s) (forwarded f) (command_ended f)
  | Some _ => f
  end.
Definition kill_group (s : Signal) (f : Forwarding) : Forwarding :=
  if decide (s = SIGCHLD) then f
  else MkForwarding (pending f) (forwarded f ++ [s]) (command_ended f).
Definition forward (f : Forwarding) : Forwarding :=
  match pending f with
  | Some s => kill_group s (MkForwarding None (forwarded f) (command_ended f))
  | None => f
  end.

Inductive signal_event := Arrives (s : Signal) | Forwards | Ends.
Inductive forwards : Forwarding → signal_event → Forwarding → Prop :=
| forwards_arrives f s : command_ended f = false → forwards f (Arrives s) (arrive s f)
| forwards_forwards f : forwards f Forwards (forward f)
| forwards_ends f : command_ended f = false →
    forwards f Ends (MkForwarding (pending f) (forwarded f) true).
Inductive forwarding : list signal_event → Forwarding → Prop :=
| forwarding_start : forwarding [] started_forwarding
| forwarding_step l f e f' : forwarding l f → forwards f e f' → forwarding (l ++ [e]) f'.

(** The signals that arrived. *)
Definition arrived (l : list signal_event) : list Signal :=
  omap (λ e, match e with Arrives s => Some s | _ => None end) l.

(** Nothing but what arrived is forwarded, in that order, and no notice of a child. *)
Lemma forwarded_arrived l f :
  forwarding l f →
  (forwarded f ++ option_list (pending f)) `sublist_of` arrived l
  ∧ SIGCHLD ∉ forwarded f.
Proof.
  induction 1 as [|l f e f' _ IH Hs]; [split; [constructor|apply not_elem_of_nil]|].
  destruct IH as [IH Hn]. unfold arrived in *. rewrite omap_app.
  inversion Hs as [g s He|g|g He]; subst; cbn.
  - unfold arrive. destruct (pending f) as [s'|] eqn:Ep; cbn in *.
    + split; [|done]. rewrite Ep. by apply sublist_inserts_r.
    + rewrite app_nil_r in IH. split; [|done]. by apply sublist_app.
  - rewrite app_nil_r. unfold forward. destruct (pending f) as [s|] eqn:Ep; cbn in *; [|by rewrite Ep].
    unfold kill_group. case_decide as Hc; cbn; rewrite app_nil_r.
    + split; [|done]. etransitivity; [|exact IH]. by apply sublist_inserts_r.
    + split; [done|]. rewrite not_elem_of_app, list_elem_of_singleton. naive_solver.
  - by rewrite app_nil_r.
Qed.

(** A signal that arrives at an empty place is the next to be forwarded. *)
Lemma arrived_is_next s f :
  pending f = None → s ≠ SIGCHLD →
  forwarded (forward (arrive s f)) = forwarded f ++ [s] ∧ pending (forward (arrive s f)) = None.
Proof. intros Hp Hs. unfold arrive. rewrite Hp. unfold forward, kill_group. cbn. by case_decide. Qed.
End signals.

(** ** What is run *)

(** The command line of a container: its own command and arguments or the image's. *)
Definition command_line (image : list string * list string) (command args : list string)
    : list string :=
  if has_command command then command ++ args
  else if has_command image.1 then image.1 ++ (match args with [] => image.2 | _ => args end)
  else if has_command image.2 then image.2 ++ args
  else [].

Section run.
Context {W : Type} (exec : string → list string → effect run_error W unit).

Lemma parse_wrapped c rest args :
  flag_parse "" (wrapped (c :: rest) args) = Ok (c, rest ++ args).
Proof. reflexivity. Qed.

(** C37: The program of the runtime tools, given the arguments that the entrypoint of an
    image, a command and arguments were made into, runs exactly the command line: the
    command and the arguments as they are, whatever characters they hold, or those of the
    image; and it exits with the status the command exits with.  An image is asked for
    only if there is no command, and its error is the error. *)
Theorem entrypoint_runs_command ImageData img command args ep :
  ImageEntrypoint ImageData img command args = Ok ep →
  ∃ image, (has_command command = false → ImageData img = Ok image)
    ∧ ∀ w, main exec (Entrypoint_Args ep) w
         = match command_line image command args with
           | [] => (0%Z, w)
           | name :: rest => let '(r, w') := exec name rest w in (exit_code r, w')
           end.
Proof.
  assert (Hmain : ∀ cmd args w, has_command cmd = true →
    main exec (wrapped cmd args) w
    = match cmd ++ args with
      | [] => (0%Z, w)
      | name :: rest => let '(r, w') := exec name rest w in (exit_code r, w')
      end).
  { intros [|c rest] args' w Hc; [done|]. unfold main. rewrite parse_wrapped.
    unfold Entrypointer_Go. cbn [Ep_Entrypoint Ep_Args]. cbn in Hc. by rewrite Hc. }
  unfold ImageEntrypoint, command_line. destruct (has_command command) eqn:Hc.
  - intros [= <-]. exists ([], []). split; [done|]. intros w. by apply Hmain.
  - destruct (ImageData img) as [[iep icmd]|e|x]; cbn; [|done..]. intros [= <-].
    exists (iep, icmd). split; [done|]. intros w. cbn.
    destruct (has_command iep) eqn:He; [by apply Hmain|].
    destruct (has_command icmd) eqn:Hi; [by apply Hmain|done].
Qed.
End run.

Definition busybox (image : string) : result (list string * list string) :=
  if String.eqb image "busybox" then Ok ([], ["sh"]) else Err (EText "no such image").
Definition recorded (name : string) (args : list string) : effect run_error (list (list string)) unit :=
  λ w, (Err (ExitError 3), w ++ [name :: args]).
Lemma entrypoint_runs_command_witness :
  ∃ image, main recorded ["-entrypoint"; "sh"; "--"; "-c"; "--"] []
    = match command_line image [] ["-c"; "--"] with
      | [] => (0%Z, [])
      | name :: rest => let '(r, w') := recorded name rest [] in (exit_code r, w')
      end ∧ command_line image [] ["-c"; "--"] = ["sh"; "-c"; "--"].
Proof.
  destruct (entrypoint_runs_command recorded busybox "busybox" [] ["-c"; "--"]
    (MkEntrypoint EntrypointCommand ["-entrypoint"; "sh"; "--"; "-c"; "--"]) eq_refl)
    as (image & Hi & Hm).
  exists image. split; [exact (Hm [])|]. specialize (Hi eq_refl). cbn in Hi. injection Hi as <-.
  reflexivity.
Defined.

(** Where Kubernetes runs the arguments alone (an image without an entrypoint), they are
    given to the command of the image, or to nothing. *)
Lemma arguments_to_image_command args :
  command_line ([], ["sh"]) [] args = "sh" :: args ∧ command_line ([], []) [] args = [].
Proof. done. Qed.
