(* ===== verification/Admission.v ===== *)
(** * Admission of pods (pkg/admission)

    Two webhooks change the pods of tenants before they are created: one gives them the
    scheduling and the sandbox of customer workloads, and one mounts the runtime tools of
    the tenant in pods that name a volume claim. *)
From S2P Require Import Prelude GoStd GoStrings Values Errors Transfer Model ObjUtil.
From S2P Require Import TenantReconcile RunObjects Pipeline.

(** ** Pods

    [X] is what the handlers do not look at: what else a container, a volume, a pod's
    specification and a pod hold. *)
Record Toleration := MkToleration {
  Toleration_Key : string; Toleration_Operator : string; Toleration_Value : string;
  Toleration_Effect : string; TolerationSeconds : option Z }.
(** [corev1.PodDNSConfig]; an option of the resolver has a name and maybe a value. *)
Record DNSConfig := MkDNSConfig {
  Nameservers : list string; Searches : list string; DNSOptions : list (string * option string) }.

Section admission.
Context {X : Type}.

Record PodContainer := MkPodContainer { VolumeMounts : list VolumeMount; Container_Rest : X }.
Inductive VolumeSource :=
| PersistentVolumeClaimSource (ClaimName : string) (ReadOnly : bool)
| OtherSource (x : X).
Record PodVolume := MkPodVolume { PodVolume_Name : string; PodVolume_Source : VolumeSource }.
Record AdmittedPodSpec := MkAdmittedPodSpec {
  NodeSelector : gmap string string; Tolerations : list Toleration;
  DNSPolicy : string; Pod_DNSConfig : option DNSConfig;
  RuntimeClassName : option string;
  Pod_Containers : list PodContainer; Pod_Volumes : list PodVolume; PodSpec_Rest : X }.
Record AdmittedPod := MkAdmittedPod {
  Pod_Meta : ObjectMeta; Pod_Spec : AdmittedPodSpec; Pod_Rest : X }.

Definition with_pod_spec (s : AdmittedPodSpec) (p : AdmittedPod) : AdmittedPod :=
  MkAdmittedPod (Pod_Meta p) s (Pod_Rest p).

(** A request is the JSON text of an object; a response refuses it, lets it pass or patches
    the text to another. *)
Inductive Response :=
| Errored (status : Z) (err : error)
| Allowed
| PatchResponseFromRaw (original current : string).

Context (Decode : string → error + AdmittedPod) (Marshal : AdmittedPod → error + string).

Definition patched (raw : string) (pod : AdmittedPod) : Response :=
  match Marshal pod with
  | inr b => PatchResponseFromRaw raw b
  | inl e => Errored 500 e
  end.
Definition decoded (raw : string) (handle : AdmittedPod → Response) : Response :=
  match Decode raw with
  | inr pod => handle pod
  | inl e => Errored 400 e
  end.

(** ** Enforcement of scheduling *)
Definition PodNodeSelector : gmap string string :=
  {["nebula.puppet.com/scheduling.customer-ready" := "true"]}.
Definition TaintEffectNoSchedule : string := "NoSchedule".
Definition PodTolerations : list Toleration :=
  [MkToleration "nebula.puppet.com/scheduling.customer-workload" "" "true" TaintEffectNoSchedule None;
   MkToleration "sandbox.gke.io/runtime" "" "gvisor" TaintEffectNoSchedule None].
Definition PodDNSPolicy : string := "None".
Definition PodDNSConfig : DNSConfig := MkDNSConfig ["1.1.1.1"; "1.0.0.1"; "8.8.8.8"] [] [].
Definition PodSandboxRuntimeClassName : string := "gvisor".

Record PodEnforcementHandler := MkPodEnforcementHandler { sandboxed : bool; standalone : bool }.
Definition PodEnforcementHandlerOption : Type := PodEnforcementHandler → PodEnforcementHandler.
Definition PodEnforcementHandlerWithSandboxing (b : bool) : PodEnforcementHandlerOption :=
  λ h, MkPodEnforcementHandler b (standalone h).
Definition PodEnforcementHandlerWithStandaloneMode (b : bool) : PodEnforcementHandlerOption :=
  λ h, MkPodEnforcementHandler (sandboxed h) b.
Definition NewPodEnforcementHandler (opts : list PodEnforcementHandlerOption) : PodEnforcementHandler :=
  foldl (λ h opt, opt h) (MkPodEnforcementHandler false false) opts.

Definition enforce (h : PodEnforcementHandler) (s : AdmittedPodSpec) : AdmittedPodSpec :=
  MkAdmittedPodSpec PodNodeSelector PodTolerations
    (if standalone h then DNSPolicy s else PodDNSPolicy)
    (if standalone h then Pod_DNSConfig s else Some PodDNSConfig)
    (if sandboxed h then Some PodSandboxRuntimeClassName else RuntimeClassName s)
    (Pod_Containers s) (Pod_Volumes s) (PodSpec_Rest s).
Definition PodEnforcementHandler_Handle (h : PodEnforcementHandler) (raw : string) : Response :=
  decoded raw (λ pod, patched raw (with_pod_spec (enforce h (Pod_Spec pod)) pod)).

(** ** The volume of the runtime tools *)
Definition is_tools_mount (vm : VolumeMount) : bool := String.eqb (Mount_Name vm) ToolInjectionMountName.
Definition is_tools_volume (v : PodVolume) : bool := String.eqb (PodVolume_Name v) ToolInjectionMountName.
Definition has_tools_mount (c : PodContainer) : bool := existsb is_tools_mount (VolumeMounts c).
Definition tools_mount : VolumeMount := MkVolumeMount ToolInjectionMountName true ToolInjectionMountPath.
Definition tools_volume (claim : string) : PodVolume :=
  MkPodVolume ToolInjectionMountName (PersistentVolumeClaimSource claim true).

Definition mount_tools (c : PodContainer) : bool * PodContainer :=
  if has_tools_mount c then (false, c)
  else (true, MkPodContainer (VolumeMounts c ++ [tools_mount]) (Container_Rest c)).
Definition with_containers (cs : list PodContainer) (s : AdmittedPodSpec) : AdmittedPodSpec :=
  MkAdmittedPodSpec (NodeSelector s) (Tolerations s) (DNSPolicy s) (Pod_DNSConfig s)
    (RuntimeClassName s) cs (Pod_Volumes s) (PodSpec_Rest s).
Definition with_volumes (vs : list PodVolume) (s : AdmittedPodSpec) : AdmittedPodSpec :=
  MkAdmittedPodSpec (NodeSelector s) (Tolerations s) (DNSPolicy s) (Pod_DNSConfig s)
    (RuntimeClassName s) (Pod_Containers s) vs (PodSpec_Rest s).

(** Whether the pod was changed, and the pod. *)
Definition inject_tools_volume (claim : string) (s : AdmittedPodSpec) : bool * AdmittedPodSpec :=
  let mounted := mount_tools <$> Pod_Containers s in
  let updated := existsb fst mounted in
  let s := if updated then with_containers (snd <$> mounted) s else s in
  if existsb is_tools_volume (Pod_Volumes s) then (updated, s)
  else (true, with_volumes (Pod_Volumes s ++ [tools_volume claim]) s).

Definition VolumeClaimHandler_Handle (raw : string) : Response :=
  decoded raw (λ pod,
    match default ∅ (Annotations (Pod_Meta pod)) !! RelayControllerToolsVolumeClaimAnnotation with
    | None => Allowed
    | Some claim =>
        let '(updated, s) := inject_tools_volume claim (Pod_Spec pod) in
        if updated then patched raw (with_pod_spec s pod) else Allowed
    end).
End admission.
Arguments PodContainer : clear implicits. Arguments PodVolume : clear implicits.
Arguments AdmittedPodSpec : clear implicits. Arguments AdmittedPod : clear implicits.

(** * Properties of the admission webhooks *)
Section tools.
Context {X : Type}.
Notation TheSpec := (AdmittedPodSpec X).

Definition tools_mounted (s : TheSpec) : Prop :=
  Forall (λ c, has_tools_mount c = true) (Pod_Containers s)
  ∧ existsb is_tools_volume (Pod_Volumes s) = true.
(** What mounting adds: at the end of the mounts, and of the volumes, what is missing. *)
Definition mounts_added (c c' : PodContainer X) : Prop :=
  Container_Rest c' = Container_Rest c
  ∧ VolumeMounts c' = VolumeMounts c ++ (if has_tools_mount c then [] else [tools_mount]).
Definition only_mounted (claim : string) (s s' : TheSpec) : Prop :=
  Forall2 mounts_added (Pod_Containers s) (Pod_Containers s')
  ∧ Pod_Volumes s' = Pod_Volumes s
      ++ (if existsb is_tools_volume (Pod_Volumes s) then [] else [tools_volume claim])
  ∧ s' = with_volumes (Pod_Volumes s') (with_containers (Pod_Containers s') s).

Lemma tools_mount_found ms : existsb is_tools_mount (ms ++ [tools_mount]) = true.
Proof. rewrite existsb_app. apply orb_true_r. Qed.
Lemma mount_tools_spec (c : PodContainer X) :
  has_tools_mount (mount_tools c).2 = true ∧ mounts_added c (mount_tools c).2
  ∧ ((mount_tools c).1 = false ↔ has_tools_mount c = true)
  ∧ ((mount_tools c).1 = false → (mount_tools c).2 = c).
Proof.
  unfold mount_tools, mounts_added. destruct (has_tools_mount c) eqn:E; cbn.
  - split_and!; [done|done|by rewrite app_nil_r|done|done].
  - split_and!; [apply tools_mount_found|done|done|done|done].
Qed.
Lemma none_mounted (cs : list (PodContainer X)) :
  existsb fst (mount_tools <$> cs) = false →
  Forall (λ c, has_tools_mount c = true) cs ∧ snd <$> (mount_tools <$> cs) = cs.
Proof.
  induction cs as [|c cs IH]; [done|]. cbn. intros [H1 H2]%orb_false_iff.
  destruct (IH H2) as [H3 H4]. destruct (mount_tools_spec c) as (_ & _ & Hc & He).
  split; [constructor; [by apply Hc|done]|]. by rewrite He, H4.
Qed.
Lemma all_mounted (cs : list (PodContainer X)) :
  Forall (λ c, has_tools_mount c = true) cs → existsb fst (mount_tools <$> cs) = false.
Proof.
  induction 1 as [|c cs Hc _ IH]; [done|]. cbn. rewrite IH.
  by rewrite (proj2 (proj1 (proj2 (proj2 (mount_tools_spec c)))) Hc).
Qed.

(** The containers are those that mounting gives, whether one changed or not. *)
Lemma inject_spec claim (s : TheSpec) :
  (inject_tools_volume claim s).2
  = with_volumes (Pod_Volumes s ++ (if existsb is_tools_volume (Pod_Volumes s) then [] else [tools_volume claim]))
      (with_containers (snd <$> (mount_tools <$> Pod_Containers s)) s).
Proof.
  unfold inject_tools_volume.
  destruct (existsb fst _) eqn:Eu; [|apply none_mounted in Eu as [_ Eu]; rewrite Eu];
    destruct (existsb is_tools_volume _); cbn; rewrite ?app_nil_r; by destruct s.
Qed.
Lemma inject_updated claim (s : TheSpec) :
  (inject_tools_volume claim s).1 = false ↔ tools_mounted s.
Proof.
  unfold inject_tools_volume, tools_mounted.
  assert (Hm : existsb fst (mount_tools <$> Pod_Containers s) = false
    ↔ Forall (λ c, has_tools_mount c = true) (Pod_Containers s))
    by (split; [intros [H _]%none_mounted; exact H|apply all_mounted]).
  rewrite <- Hm. destruct (existsb fst _), (existsb is_tools_volume (Pod_Volumes s)) eqn:E; cbn;
    rewrite ?E; naive_solver.
Qed.
Lemma inject_mounted claim (s : TheSpec) :
  tools_mounted (inject_tools_volume claim s).2 ∧ only_mounted claim s (inject_tools_volume claim s).2.
Proof.
  rewrite inject_spec. unfold tools_mounted, only_mounted. cbn. split_and!; [| | |done|done].
  - rewrite <- list_fmap_compose, Forall_fmap. apply Forall_true. intros c.
    exact (proj1 (mount_tools_spec c)).
  - destruct (existsb is_tools_volume (Pod_Volumes s)) eqn:E; [by rewrite app_nil_r|].
    rewrite existsb_app. apply orb_true_r.
  - rewrite <- list_fmap_compose. apply Forall2_fmap_r, Forall_Forall2_diag, Forall_true.
    intros c. exact (proj1 (proj2 (mount_tools_spec c))).
Qed.

Context (Decode : string → error + AdmittedPod X) (Marshal : AdmittedPod X → error + string).
(** A pod is read back from the text it was written to. *)
Context (Hread : ∀ pod b, Marshal pod = inr b → Decode b = inr pod).
Notation Handle := (VolumeClaimHandler_Handle Decode Marshal).
Notation claim_of pod :=
  (default ∅ (Annotations (Pod_Meta pod)) !! RelayControllerToolsVolumeClaimAnnotation).

(** A pod that names a volume claim of the runtime tools is admitted with the tools
    mounted in each of its containers from a read-only volume of the claim, and nothing
    else of it changed; a pod that has them, or that names no claim, is left alone.  A pod
    that was patched is left alone when the webhook is called again. *)
Theorem tools_injected raw pod :
  Decode raw = inr pod →
  match Handle raw with
  | Allowed => claim_of pod = None ∨ tools_mounted (Pod_Spec pod)
  | PatchResponseFromRaw raw' b =>
      raw' = raw ∧ ¬ tools_mounted (Pod_Spec pod)
      ∧ ∃ claim s, claim_of pod = Some claim ∧ Decode b = inr (with_pod_spec s pod)
        ∧ tools_mounted s ∧ only_mounted claim (Pod_Spec pod) s ∧ Handle b = Allowed
  | Errored status e =>
      status = 500%Z ∧ ∃ claim, claim_of pod = Some claim
      ∧ Marshal (with_pod_spec (inject_tools_volume claim (Pod_Spec pod)).2 pod) = inl e
  end.
Proof.
  intros Hd. unfold VolumeClaimHandler_Handle, decoded. rewrite Hd.
  destruct (claim_of pod) as [claim|] eqn:Ec; [|by left].
  assert (Hu := inject_updated claim (Pod_Spec pod)).
  assert (Hm := inject_mounted claim (Pod_Spec pod)).
  destruct (inject_tools_volume claim (Pod_Spec pod)) as [[] s] eqn:Ei; [|right; by apply Hu].
  unfold patched. destruct (Marshal (with_pod_spec s pod)) as [e|b] eqn:Em.
  - split; [done|]. exists claim. by rewrite Ei.
  - split; [done|]. split; [intros H; by apply Hu in H|]. destruct Hm as [Hm1 Hm2].
    exists claim, s. rewrite (Hread _ _ Em). split_and!; [done..|]. cbn. rewrite Ec.
    apply (inject_updated claim) in Hm1. cbn in *. by destruct (inject_tools_volume claim s) as [[] s2].
Qed.

(** C38: The two webhooks settle in any order and however often they are called again: each
    changes a pod once, and the pod that both have changed is the same whichever was first. *)
Theorem webhooks_settle h claim (s : TheSpec) :
  enforce h (enforce h s) = enforce h s
  ∧ inject_tools_volume claim (inject_tools_volume claim s).2 = (false, (inject_tools_volume claim s).2)
  ∧ enforce h (inject_tools_volume claim s).2 = (inject_tools_volume claim (enforce h s)).2
  ∧ inject_tools_volume claim (enforce h (inject_tools_volume claim s).2)
    = (false, enforce h (inject_tools_volume claim s).2).
Proof.
  assert (Hagain : ∀ s : TheSpec, tools_mounted s → inject_tools_volume claim s = (false, s)).
  { intros t Ht. assert (Hu := proj2 (inject_updated claim t) Ht). destruct Ht as [H1 H2].
    assert (Hs := inject_spec claim t). rewrite H2, app_nil_r in Hs.
    apply all_mounted, none_mounted in H1 as [_ H1]. rewrite H1 in Hs.
    destruct (inject_tools_volume claim t) as [u t']. cbn in Hu, Hs. subst u t'. by destruct t. }
  split_and!.
  - unfold enforce. cbn. by destruct (standalone h), (sandboxed h).
  - apply Hagain, inject_mounted.
  - rewrite !inject_spec. done.
  - apply Hagain. apply (inject_mounted claim s).
Qed.
End tools.

(** ** A pod of one container, as its own text *)
Definition tools_pod (containers : list (PodContainer unit)) (vs : list (PodVolume unit)) : AdmittedPod unit :=
  MkAdmittedPod (MkObjectMeta "t1" "pod" "uid-p" (Some {[RelayControllerToolsVolumeClaimAnnotation := "t1-volume-rox"]})
    None [] [] None) (MkAdmittedPodSpec ∅ [] "" None None containers vs tt) tt.
Definition plain_pod : AdmittedPod unit := tools_pod [MkPodContainer [] tt] [].
Definition mounted_pod : AdmittedPod unit :=
  tools_pod [MkPodContainer [tools_mount] tt] [tools_volume "t1-volume-rox"].
(** The texts of these two pods. *)
#[local] Instance ObjectMeta_eq_dec : EqDecision ObjectMeta.
Proof. solve_decision. Defined.
#[local] Instance VolumeMount_eq_dec : EqDecision VolumeMount.
Proof. solve_decision. Defined.
#[local] Instance Toleration_eq_dec : EqDecision Toleration.
Proof. solve_decision. Defined.
#[local] Instance DNSConfig_eq_dec : EqDecision DNSConfig.
Proof. solve_decision. Defined.
#[local] Instance PodContainer_eq_dec : EqDecision (PodContainer unit).
Proof. solve_decision. Defined.
#[local] Instance VolumeSource_eq_dec : EqDecision (@VolumeSource unit).
Proof. solve_decision. Defined.
#[local] Instance PodVolume_eq_dec : EqDecision (PodVolume unit).
Proof. solve_decision. Defined.
#[local] Instance AdmittedPodSpec_eq_dec : EqDecision (AdmittedPodSpec unit).
Proof. solve_decision. Defined.
#[local] Instance AdmittedPod_eq_dec : EqDecision (AdmittedPod unit).
Proof. solve_decision. Defined.
Definition decode_pod (raw : string) : error + AdmittedPod unit :=
  if String.eqb raw "plain" then inr plain_pod
  else if String.eqb raw "mounted" then inr mounted_pod else inl EJSONSyntax.
Definition marshal_pod (pod : AdmittedPod unit) : error + string :=
  if decide (pod = plain_pod) then inr "plain"
  else if decide (pod = mounted_pod) then inr "mounted" else inl EJSONSyntax.

Lemma tools_injected_witness :
  VolumeClaimHandler_Handle decode_pod marshal_pod "plain" = PatchResponseFromRaw "plain" "mounted"
  ∧ VolumeClaimHandler_Handle decode_pod marshal_pod "mounted" = Allowed.
Proof.
  assert (Hread : ∀ pod b, marshal_pod pod = inr b → decode_pod b = inr pod).
  { intros pod b. unfold marshal_pod. destruct (decide (pod = plain_pod)) as [->|_].
    - intros E. injection E as <-. reflexivity.
    - destruct (decide (pod = mounted_pod)) as [->|_]; intros E; [|discriminate E].
      injection E as <-. reflexivity. }
  assert (H := tools_injected decode_pod marshal_pod Hread "plain" plain_pod eq_refl).
  assert (E : VolumeClaimHandler_Handle decode_pod marshal_pod "plain"
              = PatchResponseFromRaw "plain" "mounted") by (vm_compute; reflexivity).
  split; [exact E|]. rewrite E in H. destruct H as (_ & _ & claim & s & _ & _ & _ & _ & Ha). exact Ha.
Defined.
