(* ===== verification/EventHandlers.v ===== *)
(** * From watched objects to requests (pkg/controller/handler)

    A controller that watches objects of another kind turns their events into requests for
    its own: the owner that an annotation names, or the objects whose label has the name. *)
From S2P Require Import Prelude GoStd GoStrings Values Errors Transfer Model ObjUtil.
From S2P Require Import ErrMark KubeObjects TenantReconcile Unresolvable Fn ResultMapper.
From S2P Require Import ConfigMaps Graph RunStatus RunConfig Authenticate AuthKubernetes.
From S2P Require Import AuthIssue Workflow Samples NetworkPolicy TenantDeps.
From S2P Require Import RunObjects RunDeps Pipeline RunReconcile TriggerDeps.
From S2P Require Import TriggerReconcile Invariants TenantTheory.
From S2P Require Import ServerTheory SampleServer RunReconcileProperties.
From S2P Require Import TriggerProperties.

#[export] Instance GroupVersionKind_eq_dec : EqDecision GroupVersionKind.
Proof. solve_decision. Defined.

(** The events of a watched object.  The requests are added to a queue. *)
Inductive event : Type :=
| CreateEvent (Meta : ObjectMeta)
| UpdateEvent (MetaOld MetaNew : ObjectMeta)
| DeleteEvent (Meta : ObjectMeta)
| GenericEvent (Meta : ObjectMeta).
Definition queue : Type := list Request.

(** The objects of an event, in the order in which a handler adds them. *)
Definition event_targets (evt : event) : list ObjectMeta :=
  match evt with
  | CreateEvent m | DeleteEvent m | GenericEvent m => [m]
  | UpdateEvent old new => [old; new]
  end.

(** ** By annotation *)
Section annotated.
Context `{JSONText} (gvk : GroupVersionKind).

(** As in [IsDependencyOf], the group and version are compared as text. *)
Definition add_annotated (q : queue) (target : ObjectMeta) : queue :=
  let text := default "" (default ∅ (Annotations target) !! RelayControllerDependencyOfAnnotation) in
  if String.eqb text "" then q
  else
    match dependency_unmarshal text with
    | Ok dep =>
        if negb (String.eqb (GVK_Kind gvk) (Dep_Kind dep))
           || negb (String.eqb (GVK_APIVersion gvk) (Dep_APIVersion dep)) then q
        else q ++ [(Dep_Namespace dep, Dep_Name dep)]
    | _ => q
    end.
Definition EnqueueRequestForAnnotatedDependent (evt : event) (q : queue) : queue :=
  foldl add_annotated q (event_targets evt).
End annotated.

(** ** By label

    The client lists the objects of a kind in a namespace that have a label's value.  An
    error is a panic, so that the process is started again. *)
Section labelled.
Context `{GoFmt} {W : Type} (Label_ : string).
Context (List_ : string → string → string → io W (list ObjectMeta)).

Definition add_labelled (q : queue) (target : ObjectMeta) : io W queue := λ w,
  match List_ (Meta_Namespace target) Label_ (Meta_Name target) w with
  | (Ok items, w) => (Ok (q ++ ((λ m, (Meta_Namespace m, Meta_Name m)) <$> items)), w)
  | (Err e, w) => (Panic (Error e), w)
  | (Panic x, w) => (Panic x, w)
  end.
Fixpoint add_all (targets : list ObjectMeta) (q : queue) : io W queue :=
  match targets with
  | [] => mret q
  | m :: rest => q ← add_labelled q m; add_all rest q
  end.
Definition EnqueueRequestForReferencesByNameLabel (evt : event) (q : queue) : io W queue :=
  add_all (event_targets evt) q.
End labelled.

(** * Properties of the event handlers: no change of a dependent is missed *)
#[local] Arguments spec_of : simpl never.

Section annotated.
Context `{JSONText, !JSONTextLaws}.

(** An object that was marked enqueues the owner it was marked with, for its kind only. *)
Lemma marked_enqueues gvk q m owner :
  owner_utf8 owner →
  add_annotated gvk q (SetDependencyOf m owner)
  = if bool_decide (gvk = Owner_GVK owner)
    then q ++ [(Meta_Namespace (Owner_Object owner), Meta_Name (Owner_Object owner))] else q.
Proof.
  intros Hu. unfold add_annotated, SetDependencyOf. rewrite annotated.
  assert (Hj : json_utf8 (dependency_marshal (dependency_on owner)) = true).
  { apply json_utf8_object. unfold owner_utf8, dependency_utf8 in Hu.
    repeat (apply Forall_cons in Hu as [? Hu]).
    destruct (String.eqb (Dep_Namespace _) ""); repeat constructor; done. }
  rewrite (proj2 (String.eqb_neq _ _)) by (by apply print_not_empty).
  rewrite dependency_roundtrip by done. unfold dependency_on.
  destruct owner as [[v k] o], gvk as [v' k']. cbn.
  destruct (String.eqb_spec k' k) as [->|]; cbn; [|by rewrite bool_decide_eq_false_2 by congruence].
  destruct (String.eqb_spec v' v) as [->|]; cbn; [|by rewrite bool_decide_eq_false_2 by congruence].
  by rewrite bool_decide_eq_true_2.
Qed.

(** A queue only grows. *)
Lemma add_annotated_app gvk q m : add_annotated gvk q m = q ++ add_annotated gvk [] m.
Proof.
  unfold add_annotated. cbv zeta. repeat case_match; by rewrite ?app_nil_r.
Qed.
End annotated.

(** ** The service of a trigger *)
Section services.
Context `{JSONText, GoFmt, !JSONTextLaws} {W : Type} (url_parse : string → option string).
Context (issuer : Issuer_ W) (sha256 : string → string).
Context (now : Z).

(** The metadata of a configured service is marked with the trigger, whatever else follows. *)
Lemma configured_marked s d w s' w' :
  ConfigureKnativeService url_parse issuer sha256 now s d w = (Ok s', w') →
  ∃ m, Kube_Meta s'.2 = SetDependencyOf m (TriggerOwner (Wtd_Trigger d)).
Proof.
  unfold ConfigureKnativeService. cbv zeta.
  destruct (Wtd_Objects d) as [t|], (Wtd_TenantDeps d) as [td|]; try done.
  intros (s1 & w1 & _ & E)%bind_ok. apply bind_ok in E as (m & w2 & _ & E).
  injection E as <- _. by eexists.
Qed.

(** Whatever happens to the Knative service of a webhook trigger after it was
    configured, the trigger is reconciled: every event that has the service's metadata
    adds the trigger to the queue of the trigger controller, and to no other controller's;
    and what an event adds never removes what is in the queue. *)
Theorem service_events_enqueue s d w s' w' gvk evt q :
  owner_utf8 (TriggerOwner (Wtd_Trigger d)) →
  ConfigureKnativeService url_parse issuer sha256 now s d w = (Ok s', w') →
  Kube_Meta s'.2 ∈ event_targets evt →
  (∃ added, EnqueueRequestForAnnotatedDependent gvk evt q = q ++ added
    ∧ (gvk = WebhookTriggerKind → object_key (Wtd_Trigger d).2 ∈ added))
  ∧ (gvk ≠ WebhookTriggerKind → (∀ m, m ∈ event_targets evt → m = Kube_Meta s'.2) →
     EnqueueRequestForAnnotatedDependent gvk evt q = q).
Proof.
  intros Hu E Hin. apply configured_marked in E as [m Em]. rewrite Em in *. clear Em s' s w w'.
  set (owner := TriggerOwner (Wtd_Trigger d)) in *.
  assert (Ho := λ q, marked_enqueues gvk q m owner Hu).
  unfold EnqueueRequestForAnnotatedDependent. split.
  - clear Ho. revert q. induction (event_targets evt) as [|m' ms IH]; intros q.
    { by apply elem_of_nil in Hin. }
    cbn [foldl]. rewrite add_annotated_app.
    assert (Hgrow : ∀ q', ∃ added, foldl (add_annotated gvk) q' ms = q' ++ added).
    { clear. induction ms as [|m2 ms IH]; intros q'; [exists []; by rewrite app_nil_r|].
      cbn. destruct (IH (add_annotated gvk q' m2)) as [l ->]. rewrite add_annotated_app, <- app_assoc.
      by eexists. }
    apply elem_of_cons in Hin as [<-|Hin].
    + destruct (Hgrow (q ++ add_annotated gvk [] (SetDependencyOf m owner))) as [l ->].
      rewrite <- app_assoc. eexists. split; [done|]. intros ->.
      rewrite marked_enqueues, bool_decide_eq_true_2 by done. apply elem_of_app. left. by left.
    + destruct (IH Hin (q ++ add_annotated gvk [] m')) as (l & -> & Hl).
      rewrite <- app_assoc. eexists. split; [done|]. intros Hk. apply elem_of_app. auto.
  - intros Hg Hall. rewrite bool_decide_eq_false_2 in Ho by done. clear Hin.
    induction (event_targets evt) as [|m' ms IH]; [done|]. cbn.
    rewrite (Hall m'), Ho by (by left). apply IH. intros m2 Hm2. apply Hall. by right.
Qed.
End services.

(** A service of a trigger whose objects are all there. *)
Definition served_trigger : TriggerObject := (("system", "hook"), deleted_trigger "t1-ns").
Definition served_objects : TriggerObjects :=
  let t := NewTriggerObjects "t1-ns" served_trigger in
  put_to_Account (put_to_Owner t (("t1-ns", "hook-owner"), trigger_owner "t1-ns"))
    (MkServiceAccount (Sa (To_Account t)) (Some (("t1-ns", "s"), token_secret "s"))).
Definition served_deps : WebhookTriggerDeps :=
  let tn : TenantObject := (("system", "t1"), hook_tenant "t1-ns") in
  MkWebhookTriggerDeps served_trigger tn (Some (NewTenantDeps tn)) None (Some served_objects)
    "http://metadata".
Definition new_service : KnativeService :=
  (("t1-ns", "hook"), with_Meta (sample_meta "t1-ns" "hook" "") (NewKnativeService ("t1-ns", "hook")).2).
Definition served_service : outcome error KnativeService * Server :=
  @ConfigureKnativeService tree_json sample_fmt Server Some sample_issuer id 9%Z new_service
    served_deps (λ _, ∅).

Lemma service_events_enqueue_witness :
  ∃ s', served_service.1 = Ok s'
    ∧ ∃ added, @EnqueueRequestForAnnotatedDependent tree_json WebhookTriggerKind
                 (UpdateEvent zero_meta (Kube_Meta s'.2)) [("a", "b")] = [("a", "b")] ++ added
      ∧ ("system", "hook") ∈ added.
Proof.
  assert (Hok : match served_service.1 with Ok _ => true | _ => false end = true)
    by (vm_compute; reflexivity).
  destruct served_service.1 as [s'|e|x] eqn:E; [clear Hok|discriminate Hok..].
  exists s'. split; [reflexivity|].
  destruct (@service_events_enqueue tree_json sample_fmt tree_json_laws Server Some sample_issuer id
    9%Z new_service served_deps (λ _, ∅) s' served_service.2 WebhookTriggerKind
    (UpdateEvent zero_meta (Kube_Meta s'.2)) [("a", "b")]) as [(added & Ha & Hin) _].
  - repeat constructor.
  - exact (eq_trans (surjective_pairing _) (f_equal (λ r, (r, _)) E)).
  - right. left.
  - exists added. split; [exact Ha|]. exact (Hin eq_refl).
Defined.

(** ** The triggers of a tenant *)
Section labelled.
Context `{GoFmt} {W : Type} (Label_ : string) (List_ : string → string → string → io W (list ObjectMeta)).

(** All objects that are listed for a watched object are enqueued, and an error is never
    passed over: it ends the process. *)
Lemma labelled_enqueued targets q w r w' :
  add_all Label_ List_ targets q w = (r, w') →
  match r with
  | Ok q' => ∀ m, m ∈ targets → ∃ w1 items w2,
      List_ (Meta_Namespace m) Label_ (Meta_Name m) w1 = (Ok items, w2)
      ∧ ∀ o, o ∈ items → (Meta_Namespace o, Meta_Name o) ∈ q'
  | Err _ => False
  | Panic _ => True
  end ∧ (∀ q', r = Ok q' → ∀ x, x ∈ q → x ∈ q').
Proof.
  revert q w. induction targets as [|m ms IH]; intros q w.
  - intros [= <- <-]. split; [intros m Hm; by apply elem_of_nil in Hm|by intros q' [= <-]].
  - cbn [add_all]. rewrite effect_bind_run. unfold add_labelled at 1.
    destruct (List_ _ _ _ w) as [[items|e|x] w1] eqn:E; [|by intros [= <- <-]..].
    intros [H1 H2]%IH. split.
    + destruct r as [q'|e|x]; [|done..]. intros m' [->|Hm]%elem_of_cons; [|by apply H1].
      exists w, items, w1. split; [done|]. intros o Ho. apply (H2 _ eq_refl), elem_of_app. right.
      apply list_elem_of_fmap. by exists o.
    + intros q' -> x Hx. apply (H2 _ eq_refl), elem_of_app. by left.
Qed.
End labelled.
