(* ===== verification/Controllers.v ===== *)
(** * The controllers (pkg/controller, controller-runtime)

    Each of the three controllers watches the objects it reconciles and those that belong
    to them, and reconciles through the same filters. *)
From S2P Require Import Prelude GoStd GoStrings Values Errors Transfer Model ObjUtil.
From S2P Require Import ErrMark WorkQueue KubeObjects TenantReconcile Unresolvable Fn.
From S2P Require Import ResultMapper ConfigMaps Graph RunStatus RunConfig Authenticate.
From S2P Require Import AuthKubernetes AuthIssue Workflow Samples NetworkPolicy TenantDeps.
From S2P Require Import RunObjects RunDeps Pipeline RunReconcile TriggerDeps.
From S2P Require Import TriggerReconcile Invariants TenantTheory.
From S2P Require Import TenantProperties ServerTheory SampleServer RunReconcileProperties.
From S2P Require Import TriggerProperties EventHandlers.

(** ** Handlers of the library

    The object itself is enqueued, as it was and as it is. *)
Definition object_request (m : ObjectMeta) : Request := (Meta_Namespace m, Meta_Name m).
Definition EnqueueRequestForObject (evt : event) : list Request := object_request <$> event_targets evt.

(** An object's controller is the first owner that says so. *)
Definition GetControllerOf (m : ObjectMeta) : option OwnerReference :=
  find is_controller (OwnerReferences m).

(** [schema.ParseGroupVersion] *)
Definition ParseGroupVersion (gv : string) : outcome string (string * string) :=
  if String.eqb gv "" || String.eqb gv "/" then Ok ("", "")
  else
    match split_on slash gv with
    | [v] => Ok ("", v)
    | [g; v] => Ok (g, v)
    | _ => Err ("unexpected GroupVersion string: " +:+ gv)
    end.

Section owner.
(** The group and the kind of the owners; whether the kind is namespaced at a version. *)
Context (group kind : string) (RESTMapping : string * string → string → option bool).

Definition getOwnerReconcileRequest (m : ObjectMeta) : list Request :=
  match GetControllerOf m with
  | None => []
  | Some ref =>
      match ParseGroupVersion (Ref_APIVersion ref) with
      | Ok (g, v) =>
          if String.eqb (Ref_Kind ref) kind && String.eqb g group then
            match RESTMapping (group, kind) v with
            | Some namespaced => [(if namespaced : bool then Meta_Namespace m else "", Ref_Name ref)]
            | None => []
            end
          else []
      | _ => []
      end
  end.
Definition EnqueueRequestForOwner (evt : event) : list Request :=
  event_targets evt ≫= getOwnerReconcileRequest.
End owner.

(** An update is passed on if the generation, which counts the changes of the
    specification, is another; other events always are. *)
Definition GenerationChangedPredicate (gen_old gen_new : Z) (evt : event) : bool :=
  match evt with UpdateEvent _ _ => negb (Z.eqb gen_new gen_old) | _ => true end.

(** ** Adding the controllers to the manager *)
Section add.
Context {W : Type} (capture : marked error → W → W) (DynamicRBACBinding : bool) (ns : string).

Definition transientRules : list (TransientRule error) :=
  [TransientDefault; TransientPredicate TransientIfForbidden DynamicRBACBinding].
Definition filtered (r : Reconciler (E := error) (W := W) (R := TenantReconcile.Result)) : Reconciler :=
  ChainRight r [ErrorCapture_Reconcile (R := TenantReconcile.Result) capture transientRules;
                NamespaceFilter_Reconcile (R := TenantReconcile.Result) false ns].
End add.

(** What the informers tell: an event, and the generations of a tenant before and after. *)
Record TenantNotice := MkTenantNotice { Tenant_event : event; Generations : Z * Z }.
Inductive RunNotice := OfRun (evt : event) | OfPipelineRun (evt : event).
Inductive TriggerNotice := OfTrigger (evt : event) | OfTenant (evt : event) | OfService (evt : event).

Definition tenant_watch {W} (n : TenantNotice) (w : W) : option (list Request) :=
  Some (if GenerationChangedPredicate (Generations n).1 (Generations n).2 (Tenant_event n)
        then EnqueueRequestForObject (Tenant_event n) else []).

Definition WorkflowRunGroup : string := "nebula.puppet.com".
Definition run_watch {W} (RESTMapping : string * string → string → option bool) (n : RunNotice) (w : W)
    : option (list Request) :=
  Some match n with
       | OfRun evt => EnqueueRequestForObject evt
       | OfPipelineRun evt =>
           EnqueueRequestForOwner WorkflowRunGroup (GVK_Kind WorkflowRunKind) RESTMapping evt
       end.

(** The triggers of a tenant are listed; that the list fails is a panic. *)
Section trigger_watch.
Context `{GoFmt, JSONText} {W : Type} (List_ : string → string → string → io W (list ObjectMeta)).
Definition trigger_watch (n : TriggerNotice) (w : W) : option (list Request) :=
  match n with
  | OfTrigger evt => Some (EnqueueRequestForObject evt)
  | OfTenant evt =>
      match (EnqueueRequestForReferencesByNameLabel RelayControllerTenantNameLabel List_ evt [] w).1 with
      | Ok q => Some q
      | _ => None
      end
  | OfService evt => Some (EnqueueRequestForAnnotatedDependent WebhookTriggerKind evt [])
  end.
End trigger_watch.

(** * When a reconciliation settles

    A request is not added again exactly when the filtered reconciliation ends without an
    error and without asking for another. *)
Section filters.
Context {W : Type} (capture : marked error → W → W) (rbac : bool) (ns : string).

Lemma filtered_settles r req w w' :
  filtered capture rbac ns r req w = (Ok false, w') →
  (ns ≠ "" ∧ req.1 ≠ ns ∧ w' = w) ∨ r req w = (Ok false, w').
Proof.
  unfold filtered, ChainRight, ErrorCapture_Reconcile, NamespaceFilter_Reconcile. cbn.
  destruct (negb (String.eqb ns "") && negb (String.eqb req.1 ns)) eqn:Eb; cbn.
  - intros [= <-]. left. apply andb_true_iff in Eb as [E1 E2].
    by apply negb_true_iff, String.eqb_neq in E1, E2.
  - right. by destruct (r req w) as [[b|e|x] w1].
Qed.

(** From a notice on, a request is due until a reconciliation that began since settled. *)
Lemma notified_settles {N} (watch : N → W → option (list Request)) max r req reqs s tr s'
    (P : W → W → Prop) :
  (∀ w w', r req w = (Ok false, w') → P w w') → req ∈ reqs →
  WorkQueue.steps (filtered capture rbac ns r) watch max (notified reqs s) tr s' →
  due req s' tr
  ∨ ∃ w w', reconciled_since (filtered capture rbac ns r) req w w' tr
      ∧ ((ns ≠ "" ∧ req.1 ≠ ns ∧ w' = w) ∨ P w w').
Proof.
  intros Hp Hin Hs. apply (notified_owed _ _ _ _ _ _ _ _ Hin) in Hs.
  apply owed_due in Hs as [Hd|(w & w' & Hr)]; [by left|]. right. exists w, w'. split; [done|].
  destruct Hr as (_ & _ & _ & _ & _ & Hr). apply filtered_settles in Hr as [Hr|Hr]; auto.
Qed.
End filters.

Section settled.
Context {W : Type} `{JSONText, GoFmt} (cl : Clients W) (vcl : VolumeClients W).
Context (image : string) (now : Z).

(** The tenant is not there, it was deleted and is finalized, or it was written as ready. *)
Inductive tenant_settled (req : Request) (w w' : W) : Prop :=
| tenant_absent tn : Tenant_Load cl (NewTenant req) w = (Ok (false, tn), w') → tenant_settled req w w'
| tenant_finalized tn run tn' w1 :
    Finalize (Tenant_Persist cl) FinalizerName tn run w1 = (Ok (true, tn'), w') →
    tenant_settled req w w'
| tenant_is_ready tn tn' w1 :
    Tenant_PersistStatus cl tn w1 = (Ok tn', w') → Ready tn' = true → tenant_settled req w w'.

(** A tenant whose status was written as ready. *)
Definition written_ready (w' : W) : Prop :=
  ∃ tn tn' w1, Tenant_PersistStatus cl tn w1 = (Ok tn', w') ∧ Ready tn' = true.

Lemma settled_if (b : bool) (w w' : W) :
  (if b then done_ else requeue) w = (Ok false, w') → b = true ∧ w' = w.
Proof. destruct b; by intros [=]. Qed.

Lemma inject_tools_settles tn tdr template w w' :
  inject_tools cl vcl image now tn tdr template w = (Ok false, w') → written_ready w'.
Proof.
  unfold inject_tools. cbv zeta. intros (pvco & w1 & _ & E)%bind_ok.
  case_match; [discriminate E|]. apply bind_ok in E as (pv & w2 & _ & E).
  case_match; [discriminate E|]. apply bind_ok in E as (? & w3 & _ & E).
  apply bind_ok in E as (? & w4 & _ & E). apply bind_ok in E as (pvcn & w5 & _ & E).
  case_match; [discriminate E|]. apply bind_ok in E as (job & w6 & _ & E).
  case_match; [discriminate E|]. apply bind_ok in E as (tn1 & w7 & _ & E).
  apply bind_ok in E as (tn2 & w8 & E8 & E). apply settled_if in E as [Hr ->].
  apply returning_Ok in E8. by exists tn1, tn2, w7.
Qed.

Lemma settle_written tn deps w tn' tdr w' :
  settle cl now tn deps w = (Ok (tn', tdr), w') →
  ∃ tn0 w1, Tenant_PersistStatus cl tn0 w1 = (Ok tn', w').
Proof.
  unfold settle. intros ([r deps'] & w1 & _ & E)%bind_ok. apply bind_ok in E as (err & w2 & _ & E).
  apply bind_ok in E as (tn1 & w3 & _ & E). apply bind_ok in E as (tn2 & w4 & E4 & E).
  injection E as -> _ ->. apply returning_Ok in E4. by eexists _, _.
Qed.

Lemma tenant_reconcile_settles req w w' :
  Reconcile cl vcl image now req w = (Ok false, w') → tenant_settled req w w'.
Proof.
  unfold Reconcile. intros ([ok tn] & w1 & E1 & E)%bind_ok. apply failing_Ok in E1.
  destruct ok; cbn [negb] in E; [|injection E as ->; by eapply tenant_absent].
  unfold reconcile_tenant in E. apply bind_ok in E as (deps & w2 & _ & E).
  apply bind_ok in E as ([fin tn1] & w3 & E3 & E). apply returning_Ok in E3.
  destruct fin; [injection E as ->; by eapply tenant_finalized|].
  apply bind_ok in E as (? & w4 & _ & E). apply bind_ok in E as ([tn2 tdr] & w5 & E5 & E).
  destruct (VolumeClaimTemplate _).
  - apply inject_tools_settles in E as (? & ? & ? & ? & ?). by eapply tenant_is_ready.
  - apply settled_if in E as [Hr ->]. apply settle_written in E5 as (? & ? & ?).
    by eapply tenant_is_ready.
Qed.
End settled.

(** ** Runs and triggers *)
Section runs.
Context `{GoRuntime, GoFmt, JSONText, Markdown} {W : Type} (cl : KubeClient W).
Context (issuer : Issuer_ W) (metadataAPIURL : string) (standalone : bool).
Context (stream : string → string → string → io W string) (put_log : string → string → io W unit).
Context (fuel rounds : nat) (now : Z) (clock : io W Z).

(** The run is not there, it is being deleted, or its status was written. *)
Inductive run_settled (req : Request) (w w' : W) : Prop :=
| run_absent wr :
    Keyed_Load (kube cl KWorkflowRun) (NewWorkflowRun req) w = (Ok (false, wr), w') →
    run_settled req w w'
| run_deleted wr :
    Keyed_Load (kube cl KWorkflowRun) (NewWorkflowRun req) w = (Ok (true, wr), w') →
    Finalizing (Kube_Meta wr.2) = true → run_settled req w w'
| run_written wr wr' w1 : Run_PersistStatus cl wr w1 = (Ok wr', w') → run_settled req w w'.

Lemma run_reconcile_settles req w w' :
  Run_Reconcile cl issuer metadataAPIURL standalone stream put_log fuel rounds now clock req w
    = (Ok false, w') → run_settled req w w'.
Proof.
  unfold Run_Reconcile. intros ([ok wr] & w1 & E1 & E)%bind_ok. apply failing_Ok in E1.
  destruct ok; cbn [negb] in E; [|injection E as ->; by eapply run_absent].
  unfold reconcile_run in E. destruct (Finalizing _) eqn:Ef; [injection E as ->; by eapply run_deleted|].
  destruct (Workflow_Steps _).
  - apply bind_ok in E as (? & w2 & E2 & [= ->]). apply returning_Ok in E2.
    apply bind_ok in E2 as (? & w3 & _ & E2). apply bind_ok in E2 as (? & w3' & _ & E2).
    apply bind_ok in E2 as (? & w3'' & E3 & [= _ ->]). apply bind_ok in E3 as (wr' & w4 & E4 & [= _ ->]).
    by eapply run_written.
  - apply bind_ok in E as (? & w2 & _ & E). apply bind_ok in E as (? & w3 & _ & E).
    apply bind_ok in E as (wr' & w4 & E4 & [= ->]). apply failing_Ok in E4. by eapply run_written.
Qed.
End runs.

Section triggers.
Context `{GoRuntime, GoFmt, JSONText, Markdown} {W : Type} (cl : KubeClient W).
Context (issuer : Issuer_ W) (metadataAPIURL : string) (url_parse : string → option string).
Context (sha256 : string → string) (fuel rounds : nat) (now : Z).

Inductive trigger_settled (req : Request) (w w' : W) : Prop :=
| trigger_absent wt :
    Keyed_Load (kube cl KWebhookTrigger) (NewWebhookTrigger req) w = (Ok (false, wt), w') →
    trigger_settled req w w'
| trigger_finalized wt run wt' w1 :
    Finalize (Trigger_Persist cl) TriggerFinalizerName wt run w1 = (Ok (true, wt'), w') →
    trigger_settled req w w'
| trigger_is_ready wt wt' w1 :
    Trigger_PersistStatus cl wt w1 = (Ok wt', w') → Trigger_Ready wt' = true →
    trigger_settled req w w'.

Lemma trigger_reconcile_settles req w w' :
  Trigger_Reconcile cl issuer metadataAPIURL url_parse sha256 fuel rounds now req w = (Ok false, w') →
  trigger_settled req w w'.
Proof.
  unfold Trigger_Reconcile. intros ([ok wt] & w1 & E1 & E)%bind_ok. apply failing_Ok in E1.
  destruct ok; cbn [negb] in E; [|injection E as ->; by eapply trigger_absent].
  unfold reconcile_trigger in E. apply bind_ok in E as ([lr d] & w2 & _ & E).
  apply bind_ok in E as ([fin wt1] & w3 & E3 & E). apply returning_Ok in E3.
  destruct fin; [injection E as ->; by eapply trigger_finalized|].
  apply bind_ok in E as (wt2 & w4 & _ & E). apply bind_ok in E as (? & w5 & _ & E).
  destruct (Upstream lr); cbn [negb] in E; [|discriminate E]. unfold settle_trigger in E.
  apply bind_ok in E as (? & w6 & _ & E). apply bind_ok in E as (? & w7 & _ & E).
  apply bind_ok in E as (? & w8 & _ & E). apply bind_ok in E as (? & w9 & _ & E).
  apply bind_ok in E as (wt3 & w10 & E10 & E). apply returning_Ok in E10.
  apply settled_if in E as [Hr ->]. by eapply trigger_is_ready.
Qed.
End triggers.

(** ** The controller of a pipeline run *)
Lemma own_loop_first ref owners found os :
  is_controller ref = true → own_loop ref owners = (found, os) →
  find is_controller (if found then os else os ++ [ref]) = Some ref.
Proof.
  intros Hr. revert found os. induction owners as [|c rest IH]; intros found os; cbn [own_loop].
  - intros [= <- <-]. cbn. by rewrite Hr.
  - case_decide as Hc; [intros [= <- <-]; cbn; by rewrite Hc, Hr|].
    destruct (own_loop ref rest) as [f os'] eqn:E. intros [= <- <-]. specialize (IH _ _ eq_refl).
    destruct (is_controller c) eqn:Ec; destruct f; cbn; rewrite ?Ec; exact IH.
Qed.

(** An object that was given an owner is in the owner's namespace, and the owner is its
    controller, whichever it had before. *)
Lemma Own_controller m owner m' :
  Own m owner = Ok m' →
  Meta_Namespace m' = Meta_Namespace (Owner_Object owner)
  ∧ GetControllerOf m' = Some (NewControllerRef (Owner_Object owner) (Owner_GVK owner)).
Proof.
  unfold Own. destruct (String.eqb_spec (Meta_Namespace m) (Meta_Namespace (Owner_Object owner)))
    as [En|]; cbn [negb]; [|done].
  destruct (own_loop _ _) as [found os] eqn:E. cbn [with_Labels OwnerReferences] in E.
  apply own_loop_first in E; [|done]. destruct found; intros [= <-]; by split.
Qed.

(** * From a change to its reconciliation *)
Section tenants.
Context {W : Type} `{JSONText, GoFmt} (cl : Clients W) (vcl : VolumeClients W) (image : string).
Context (time_of : W → Z) (capture : marked error → W → W) (rbac : bool) (ns : string).
Context (MaxConcurrentReconciles : nat).

Definition TenantController : Reconciler (E := error) (W := W) (R := TenantReconcile.Result) :=
  filtered capture rbac ns (λ req w, Reconcile cl vcl image (time_of w) req w).
Notation tenant_steps := (WorkQueue.steps TenantController tenant_watch MaxConcurrentReconciles).

(** C5: No change of a tenant's specification is lost: once a tenant is created or
    deleted, or is updated with another generation, it is due (queued, to be added again
    later, or in a reconciliation that began since) until a reconciliation that began
    after the change has ended with the tenant gone, finalized, or written as ready,
    however often reconciliations fail and whatever else happens in between; only a
    tenant outside of the controller's namespace is left alone. *)
Theorem tenant_changes_settle s n m reqs tr s' :
  m ∈ event_targets (Tenant_event n) →
  GenerationChangedPredicate (Generations n).1 (Generations n).2 (Tenant_event n) = true →
  tenant_watch n (world s) = Some reqs →
  tenant_steps (notified reqs s) tr s' →
  let req := object_request m in
  due req s' tr
  ∨ ∃ w w', reconciled_since TenantController req w w' tr
      ∧ ((ns ≠ "" ∧ req.1 ≠ ns ∧ w' = w) ∨ tenant_settled cl req w w').
Proof.
  intros Hm Hg Hw Hs req. unfold tenant_watch in Hw. rewrite Hg in Hw. injection Hw as <-.
  assert (Hin : req ∈ EnqueueRequestForObject (Tenant_event n)) by 
    by (apply (list_elem_of_fmap_2 object_request), Hm).
  eapply notified_settles; [|exact Hin|exact Hs]. intros w w'. apply tenant_reconcile_settles.
Qed.
End tenants.

Section triggers_controller.
Context `{GoRuntime, GoFmt, JSONText, Markdown, !JSONTextLaws} {W : Type} (cl : KubeClient W).
Context (issuer : Issuer_ W) (metadataAPIURL : string) (url_parse : string → option string).
Context (sha256 : string → string) (fuel rounds : nat) (time_of : W → Z).
Context (capture : marked error → W → W) (rbac : bool) (ns : string).
Context (List_ : string → string → string → io W (list ObjectMeta)) (MaxConcurrentReconciles : nat).

Definition TriggerController : Reconciler (E := error) (W := W) (R := TenantReconcile.Result) :=
  filtered capture rbac ns (λ req w,
    Trigger_Reconcile cl issuer metadataAPIURL url_parse sha256 fuel rounds (time_of w) req w).
Notation trigger_steps := (WorkQueue.steps TriggerController (trigger_watch List_) MaxConcurrentReconciles).

(** What concerns a trigger: an event that has the metadata of the trigger itself, of its
    tenant, when the trigger is listed with the tenant's label, or of a service that was
    configured for it. *)
Definition concerns (n : TriggerNotice) (req : Request) : Prop :=
  match n with
  | OfTrigger evt => ∃ m, m ∈ event_targets evt ∧ req = object_request m
  | OfTenant evt => ∃ m, m ∈ event_targets evt ∧ ∀ w items w1,
      List_ (Meta_Namespace m) RelayControllerTenantNameLabel (Meta_Name m) w = (Ok items, w1) →
      req ∈ object_request <$> items
  | OfService evt => ∃ now s d w s' w',
      ConfigureKnativeService url_parse issuer sha256 now s d w = (Ok s', w')
      ∧ owner_utf8 (TriggerOwner (Wtd_Trigger d)) ∧ Kube_Meta s'.2 ∈ event_targets evt
      ∧ req = object_key (Wtd_Trigger d).2
  end.

Lemma concerns_watched n w req reqs :
  concerns n req → trigger_watch List_ n w = Some reqs → req ∈ reqs.
Proof.
  destruct n as [evt|evt|evt]; cbn.
  - intros (m & Hm & ->) [= <-]. by apply (list_elem_of_fmap_2 object_request).
  - intros (m & Hm & Hl). unfold EnqueueRequestForReferencesByNameLabel.
    destruct (add_all _ _ _ _ w) as [r w'] eqn:E. apply labelled_enqueued in E as [E _]. cbn.
    destruct r as [q|e|x]; [|done..]. intros [= <-].
    destruct (E m Hm) as (w1 & items & w2 & E1 & Hin). specialize (Hl _ _ _ E1).
    apply list_elem_of_fmap in Hl as (o & -> & Ho). by apply Hin.
  - intros (now & s & d & w0 & s' & w1 & E & Hu & Hm & ->) [= <-].
    destruct (service_events_enqueue url_parse issuer sha256 now s d w0 s' w1 WebhookTriggerKind evt []
                Hu E Hm) as [(added & -> & Hin) _]. by apply Hin.
Qed.

(** C8: No change that concerns a webhook trigger is lost: after an event that has the
    metadata of the trigger itself, of a service that the controller configured for it, or
    of a tenant whose triggers are listed with it, the trigger is due until a
    reconciliation that began after the event has ended with the trigger gone, finalized,
    or written as ready, whatever happens in between; only a trigger outside of the
    controller's namespace is left alone.  The request is found by the handlers: by the
    mark that the configuration leaves on the service, with the names of the trigger in
    UTF-8, and by the label of the tenant. *)
Theorem trigger_changes_settle s n req reqs tr s' :
  concerns n req →
  trigger_watch List_ n (world s) = Some reqs →
  trigger_steps (notified reqs s) tr s' →
  due req s' tr
  ∨ ∃ w w', reconciled_since TriggerController req w w' tr
      ∧ ((ns ≠ "" ∧ req.1 ≠ ns ∧ w' = w) ∨ trigger_settled cl req w w').
Proof.
  intros Hc Hw Hs. assert (Hin := concerns_watched _ _ _ _ Hc Hw).
  eapply notified_settles; [|exact Hin|exact Hs]. intros w w'. apply trigger_reconcile_settles.
Qed.
End triggers_controller.

Section runs_controller.
Context `{GoRuntime, GoFmt, JSONText, Markdown} {W : Type} (cl : KubeClient W).
Context (issuer : Issuer_ W) (metadataAPIURL : string) (standalone : bool).
Context (stream : string → string → string → io W string) (put_log : string → string → io W unit).
Context (fuel rounds : nat) (time_of : W → Z) (clock : io W Z).
Context (capture : marked error → W → W) (rbac : bool) (ns : string).
Context (RESTMapping : string * string → string → option bool) (MaxConcurrentReconciles : nat).

Definition RunController : Reconciler (E := error) (W := W) (R := TenantReconcile.Result) :=
  filtered capture rbac ns (λ req w,
    Run_Reconcile cl issuer metadataAPIURL standalone stream put_log fuel rounds (time_of w) clock req w).
Notation run_steps := (WorkQueue.steps RunController (run_watch RESTMapping) MaxConcurrentReconciles).

Lemma configured_controller p pr pr' :
  let run := Kube_Meta (Wrd_WorkflowRun (Pipeline_Deps p)).2 in
  ConfigurePipelineRun p pr = Ok pr' →
  Meta_Namespace (Kube_Meta pr'.2) = Meta_Namespace run
  ∧ GetControllerOf (Kube_Meta pr'.2) = Some (NewControllerRef run WorkflowRunKind).
Proof.
  cbv zeta. unfold ConfigurePipelineRun. intros (o & Ho & [= <-])%bind_Ok.
  unfold run_owns, owned_by in Ho. apply bind_Ok in Ho as (m & Hm & [= <-]).
  apply map_err_Ok, Own_controller in Hm as [Hn Hc]. unfold GetControllerOf in *. cbn.
  unfold Label. destruct (set_key _ _ _). cbn. by split.
Qed.

(** C3: Nothing that happens to the pipeline run of a workflow run goes unnoticed: the
    pipeline run is configured with the run as its one controller, whichever owners it
    had, so that after every event that has its metadata the run is due until a
    reconciliation that began after the event has ended with the run gone, being
    deleted, or its status written from what was read; only a run outside of the
    controller's namespace is left alone. *)
Theorem pipeline_events_settle p pr pr' evt reqs s tr s' :
  RESTMapping (WorkflowRunGroup, GVK_Kind WorkflowRunKind) "v1" = Some true →
  ConfigurePipelineRun p pr = Ok pr' →
  Kube_Meta pr'.2 ∈ event_targets evt →
  run_watch RESTMapping (OfPipelineRun evt) (world s) = Some reqs →
  run_steps (notified reqs s) tr s' →
  let req := object_request (Kube_Meta (Wrd_WorkflowRun (Pipeline_Deps p)).2) in
  due req s' tr
  ∨ ∃ w w', reconciled_since RunController req w w' tr
      ∧ ((ns ≠ "" ∧ req.1 ≠ ns ∧ w' = w) ∨ run_settled cl req w w').
Proof.
  intros Hmap [Hn Hc]%configured_controller Hm [= <-] Hs req.
  assert (Hin : req ∈ EnqueueRequestForOwner WorkflowRunGroup (GVK_Kind WorkflowRunKind) RESTMapping evt).
  { apply list_elem_of_bind. exists (Kube_Meta pr'.2). split; [|done].
    unfold getOwnerReconcileRequest. rewrite Hc. cbn [NewControllerRef Ref_APIVersion Ref_Kind Ref_Name].
    change (ParseGroupVersion (GVK_APIVersion WorkflowRunKind))
      with (Ok (E := string) (WorkflowRunGroup, "v1")). cbn -[WorkflowRunGroup] in Hmap |- *.
    rewrite Hmap. apply list_elem_of_singleton. unfold req, object_request. f_equal.
    symmetry. exact Hn. }
  eapply notified_settles; [|exact Hin|exact Hs]. intros w w'. apply run_reconcile_settles.
Qed.
End runs_controller.

(** ** A change of each kind, and the reconciliation that follows it *)
Definition sample_tenant_controller : Reconciler (E := error) (W := Cluster) (R := TenantReconcile.Result) :=
  @TenantController Cluster tree_json sample_fmt memory_clients memory_volumes "" (λ _, 9%Z)
    (λ _ w, w) false "system".
Definition tenant_after : Cluster := (sample_tenant_controller ("system", "t1") tenant_cluster).2.
Definition tenant_notice : TenantNotice :=
  MkTenantNotice (UpdateEvent (Kube_Meta deleted_tenant) (Kube_Meta deleted_tenant)) (0, 1)%Z.
Definition a_round {W} (req : Request) (w w' : W) : list (label error W) :=
  ([] ++ [LGet req]) ++ [LFinish req w (Ok false) w'].

Lemma tenant_changes_settle_witness :
  due ("system", "t1") (round_state ("system", "t1") tenant_after 9) (a_round ("system", "t1") tenant_cluster tenant_after)
  ∨ ∃ w w', reconciled_since sample_tenant_controller ("system", "t1") w w'
              (a_round ("system", "t1") tenant_cluster tenant_after)
      ∧ (("system" ≠ "" ∧ "system" ≠ "system" ∧ w' = w)
         ∨ @tenant_settled Cluster memory_clients ("system", "t1") w w').
Proof.
  refine (@tenant_changes_settle Cluster tree_json sample_fmt memory_clients memory_volumes ""
    (λ _, 9%Z) (λ _ w, w) false "system" 1 (initial tenant_cluster 9) tenant_notice
    (Kube_Meta deleted_tenant) [("system", "t1"); ("system", "t1")] _ _ _ eq_refl eq_refl _).
  - left.
  - refine (one_round sample_tenant_controller tenant_watch ("system", "t1") tenant_cluster tenant_after 9 _).
    vm_compute. reflexivity.
Defined.

(** The tenant of a trigger changes, which lists the trigger. *)
Definition sample_list : string → string → string → io Server (list ObjectMeta) :=
  λ _ _ _ w, (Ok [Kube_Meta (deleted_trigger "t1-ns")], w).
Definition sample_trigger_controller : Reconciler (E := error) (W := Server) (R := TenantReconcile.Result) :=
  @TriggerController forward_runtime sample_fmt tree_json sample_markdown Server server sample_issuer
    "http://metadata" Some id 5 3 (λ _, 9%Z) (λ _ w, w) false "".
Definition trigger_before : Server := trigger_server "t1-ns" "t1-ns".
Definition trigger_after : Server := (sample_trigger_controller ("system", "hook") trigger_before).2.

(** Its service changes, as it was configured, and its tenant, which lists it. *)
Definition marked_service : KnativeService :=
  match served_service.1 with Ok s => s | _ => new_service end.
Definition hook_notice (service : bool) : TriggerNotice :=
  if service then OfService (UpdateEvent zero_meta (Kube_Meta marked_service.2))
  else OfTenant (GenericEvent (sample_meta "system" "t1" "uid-t")).

Lemma trigger_changes_settle_witness :
  Forall (λ service,
    due ("system", "hook") (round_state ("system", "hook") trigger_after 9)
      (a_round ("system", "hook") trigger_before trigger_after)
    ∨ ∃ w w', reconciled_since sample_trigger_controller ("system", "hook") w w'
                (a_round ("system", "hook") trigger_before trigger_after)
        ∧ (("" ≠ "" ∧ "system" ≠ "" ∧ w' = w) ∨ @trigger_settled Server server ("system", "hook") w w'))
    [true; false].
Proof.
  assert (Er : (sample_trigger_controller ("system", "hook") trigger_before).1 = Ok false)
    by (vm_compute; reflexivity).
  assert (Es : served_service.1 = Ok marked_service) by (vm_compute; reflexivity).
  apply Forall_forall. intros service _.
  refine (@trigger_changes_settle forward_runtime sample_fmt tree_json sample_markdown _ Server server
    sample_issuer "http://metadata" Some id 5 3 (λ _, 9%Z) (λ _ w, w) false "" sample_list 1
    (initial trigger_before 9) (hook_notice service)
    ("system", "hook") [("system", "hook")] _ _ _ _ _).
  - destruct service; cbn [hook_notice concerns].
    + exists 9%Z, new_service, served_deps, (λ _, ∅), marked_service, served_service.2. split_and!.
      * exact (eq_trans (surjective_pairing _) (f_equal (λ r, (r, _)) Es)).
      * repeat constructor.
      * right. left.
      * reflexivity.
    + exists (sample_meta "system" "t1" "uid-t"). split; [left|]. intros w items w1 [= <- <-]. left.
  - destruct service; [|reflexivity]. vm_compute. reflexivity.
  - refine (one_round sample_trigger_controller (trigger_watch sample_list) ("system", "hook")
      trigger_before trigger_after 9 _).
    exact (eq_trans (surjective_pairing _) (f_equal (λ r, (r, _)) Er)).
Defined.

(** A pipeline run that had another controller. *)
Definition stolen_run : object KPipelineRun :=
  (("t1-ns", "r1"), with_Meta
     (MkObjectMeta "t1-ns" "r1" "uid-pr" None None []
        [MkOwnerReference "apps/v1" "Deployment" "d" "uid-d" (Some true) None] None)
     (NewObject KPipelineRun ("t1-ns", "r1")).2).
Definition sample_pipeline : Pipeline :=
  NewPipeline (NewWorkflowRunDeps (("t1-ns", "r1"), two_step_run) "http://metadata" []).
Definition namespaced : string * string → string → option bool := λ _ _, Some true.
Definition sample_run_controller : Reconciler (E := error) (W := Server) (R := TenantReconcile.Result) :=
  @RunController forward_runtime sample_fmt tree_json sample_markdown Server server sample_issuer
    "http://metadata" false sample_stream sample_put 5 3 (λ _, 9%Z) sample_clock (λ _ w, w) false "".
Definition run_after : Server := (sample_run_controller ("t1-ns", "r1") run_server).2.

Definition configured_run : object KPipelineRun :=
  match ConfigurePipelineRun sample_pipeline stolen_run with Ok pr => pr | _ => stolen_run end.

Lemma pipeline_events_settle_witness :
  ConfigurePipelineRun sample_pipeline stolen_run = Ok configured_run
  ∧ (due ("t1-ns", "r1") (round_state ("t1-ns", "r1") run_after 9)
       (a_round ("t1-ns", "r1") run_server run_after)
     ∨ ∃ w w', reconciled_since sample_run_controller ("t1-ns", "r1") w w'
                 (a_round ("t1-ns", "r1") run_server run_after)
         ∧ (("" ≠ "" ∧ "t1-ns" ≠ "" ∧ w' = w) ∨ @run_settled Server server ("t1-ns", "r1") w w')).
Proof.
  assert (Er : (sample_run_controller ("t1-ns", "r1") run_server).1 = Ok false)
    by (vm_compute; reflexivity).
  split; [reflexivity|].
  refine (@pipeline_events_settle forward_runtime sample_fmt tree_json sample_markdown Server server
    sample_issuer "http://metadata" false sample_stream sample_put 5 3 (λ _, 9%Z) sample_clock (λ _ w, w) false ""
    namespaced 1 sample_pipeline stolen_run configured_run
    (DeleteEvent (Kube_Meta configured_run.2)) [("t1-ns", "r1")] (initial run_server 9)
    _ _ eq_refl eq_refl _ _ _); [left|vm_compute; reflexivity|].
  refine (one_round sample_run_controller (run_watch namespaced) ("t1-ns", "r1")
    run_server run_after 9 _).
  exact (eq_trans (surjective_pairing _) (f_equal (λ r, (r, _)) Er)).
Defined.
