(* ===== verification/SampleMetadata.v ===== *)
(** * The configuration of the sample metadata server (pkg/metadataapi/opt)

    For demonstrations and tests the metadata service can be run without a cluster: its
    data is in configuration files. *)
From S2P Require Import Prelude GoStd GoStrings Values Errors Model ManagersMemory.
From S2P Require Import Transfer Metadata Authenticate AuthKubernetes AuthService.
From S2P Require Import AuthIssue.

(** ** The data

    Pointers in maps may be nil (a YAML null), and so may maps. *)
Record SampleConfigStep := MkSampleStep {
  Sample_Conditions : value;                      (* the tree; nil when there is none *)
  Sample_Env : option (gmap string value);
  Sample_Spec : option (gmap string value);
  Sample_Outputs : gmap string value;
  Sample_State : option (gmap string value) }.
Record SampleConfigRun := MkSampleRun {
  Sample_Parameters : gmap string value;
  Sample_Steps : gmap string (option SampleConfigStep) }.
Definition SampleConfigConnections : Type := gmap (string * string) (gmap string value).
Record SampleConfig := MkSampleConfig {
  Sample_Connections : SampleConfigConnections;
  Sample_Secrets : gmap string string;
  Sample_Runs : gmap string (option SampleConfigRun);
  Sample_Triggers : gmap string unit }.

(** [Interface]: a copy of a map of trees. *)
Definition Sample_Interface (sp : gmap string value) : gmap string value := copy_into sp ∅.

(** [AppendTo]: what is in [sc] replaces what is in [other]. *)
Definition AppendTo (sc other : SampleConfig) : SampleConfig :=
  MkSampleConfig
    (map_fold (λ k v m, <[k := v]> m) (Sample_Connections other) (Sample_Connections sc))
    (copy_into (Sample_Secrets sc) (Sample_Secrets other))
    (copy_into (Sample_Runs sc) (Sample_Runs other))
    (copy_into (Sample_Triggers sc) (Sample_Triggers other)).

(** ** Reading *)
Definition bad_connection_key : error :=
  EText "connection keys must be in the format `<type>/<name>`".

(** A file as the YAML library decodes it, before the keys of its connections are split. *)
Record RawSampleConfig := MkRawSample {
  Raw_Connections : gmap string (gmap string value); Raw_Config : SampleConfig }.

Section files.
Context `{GoRuntime, GoFmt} {W : Type}.

(** [UnmarshalYAML] of the connections *)
Definition add_connection (m : SampleConfigConnections) (kv : string * gmap string value)
    : result SampleConfigConnections :=
  match cut slash kv.1 with
  | None => Err bad_connection_key
  | Some (typ, name) => Ok (<[(typ, name) := kv.2]> m)
  end.
Definition SampleConfigConnections_UnmarshalYAML (m : gmap string (gmap string value))
    : result SampleConfigConnections := fold_outcome add_connection ∅ (range_map m).

Context (ReadFile : string → io W string) (yaml_Unmarshal : string → result RawSampleConfig).

Definition with_connections (cs : SampleConfigConnections) (sc : SampleConfig) : SampleConfig :=
  MkSampleConfig cs (Sample_Secrets sc) (Sample_Runs sc) (Sample_Triggers sc).
Definition parse_sample (b : string) : result SampleConfig :=
  raw ← yaml_Unmarshal b;
  cs ← SampleConfigConnections_UnmarshalYAML (Raw_Connections raw);
  Ok (with_connections cs (Raw_Config raw)).

Definition sample_error (what f : string) (e : error) : error :=
  EText ("opt: cannot " +:+ what +:+ " sample file " +:+ quote f +:+ ": " +:+ Error e).
Definition read_sample (f : string) : io W SampleConfig := λ w,
  match ReadFile f w with
  | (Ok b, w) => (map_err (sample_error "parse" f) (parse_sample b), w)
  | (Err e, w) => (Err (sample_error "read" f e), w)
  | (Panic x, w) => (Panic x, w)
  end.

Definition empty_sample : SampleConfig := MkSampleConfig ∅ ∅ ∅ ∅.
Fixpoint read_samples (files : list string) (sc : SampleConfig) : io W SampleConfig :=
  match files with
  | [] => mret sc
  | f :: files => tsc ← read_sample f; read_samples files (AppendTo tsc sc)
  end.
(** [Config.SampleConfig]: none without files. *)
Definition Config_SampleConfig (files : list string) : io W (option SampleConfig) :=
  match files with
  | [] => mret None
  | _ => sc ← read_samples files empty_sample; mret (Some sc)
  end.
End files.

(** * The sample metadata server (pkg/metadataapi/sample)

    Its authenticator serves the managers of the steps of a sample configuration, which
    are built once, so that what requests change is there for the next; its tokens are
    generated for the steps and triggers of the configuration. *)
(** ** The managers of the steps

    A step has its own condition, environment, specification and state; the steps of a run
    share their outputs and parameters. *)
Record StepState := MkStepState {
  st_condition : ConditionState; st_environment : EnvironmentState;
  st_spec : SpecState; st_state : StateState }.
Record SampleState := MkSampleState {
  run_outputs : gmap string StepOutputMap;
  run_params : gmap string ParameterState;
  step_states : gmap (string * string) StepState }.

Definition with_outputs (id : string) (m : StepOutputMap) (s : SampleState) : SampleState :=
  MkSampleState (<[id := m]> (run_outputs s)) (run_params s) (step_states s).
Definition with_params (id : string) (m : ParameterState) (s : SampleState) : SampleState :=
  MkSampleState (run_outputs s) (<[id := m]> (run_params s)) (step_states s).
Definition with_step (k : string * string) (st : StepState) (s : SampleState) : SampleState :=
  MkSampleState (run_outputs s) (run_params s) (<[k := st]> (step_states s)).

(** A call on a part of the state. *)
Definition on_part {S A} (get : SampleState → S) (put : S → SampleState → SampleState)
    (m : io S A) : io SampleState A := λ w, let '(r, s) := m (get w) in (r, put s w).
Definition no_step : StepState := MkStepState None None None ∅.

Section step.
Context (id name : string).
Definition my_step : Step := MkStep (MkRun id) name.
Definition my_outputs (s : SampleState) : StepOutputMap := default ∅ (run_outputs s !! id).
Definition my_params (s : SampleState) : ParameterState := default ∅ (run_params s !! id).
Definition mine (s : SampleState) : StepState := default no_step (step_states s !! (id, name)).

Definition on_condition {A} : io ConditionState A → io SampleState A :=
  on_part (st_condition ∘ mine) (λ c s, let st := mine s in
    with_step (id, name) (MkStepState c (st_environment st) (st_spec st) (st_state st)) s).
Definition on_environment {A} : io EnvironmentState A → io SampleState A :=
  on_part (st_environment ∘ mine) (λ e s, let st := mine s in
    with_step (id, name) (MkStepState (st_condition st) e (st_spec st) (st_state st)) s).
Definition on_spec {A} : io SpecState A → io SampleState A :=
  on_part (st_spec ∘ mine) (λ sp s, let st := mine s in
    with_step (id, name) (MkStepState (st_condition st) (st_environment st) sp (st_state st)) s).
Definition on_step_state {A} : io StateState A → io SampleState A :=
  on_part (st_state ∘ mine) (λ x s, let st := mine s in
    with_step (id, name) (MkStepState (st_condition st) (st_environment st) (st_spec st) x) s).
Definition on_params {A} : io ParameterState A → io SampleState A := on_part my_params (with_params id).
Definition on_outputs {A} : io StepOutputMap A → io SampleState A := on_part my_outputs (with_outputs id).

(** What the authenticator sets for a request of the step. *)
Definition step_managers (mb : MetadataBuilder SampleState) : MetadataBuilder SampleState :=
  SetStepOutputs {| StepOutput_Get sn n := on_outputs (output_get my_step sn n);
                    StepOutput_Set n v := on_outputs (output_set my_step n v) |}
    (SetState {| State_Get n := on_step_state (state_get n);
                 State_Set n v := on_step_state (state_set n v) |}
       (SetSpec {| Spec_Get := on_spec spec_get; Spec_Set v := on_spec (spec_set v) |}
          (SetParameters {| Parameter_Get n := on_params (parameter_get n);
                            Parameter_Set n v := on_params (parameter_set n v) |}
             (SetEnvironment {| Environment_Get := on_environment environment_get;
                                Environment_Set v := on_environment (environment_set v) |}
                (SetConditions {| Condition_Get := on_condition condition_get;
                                  Condition_Set v := on_condition (condition_set v) |} mb))))).
End step.

(** ** The authenticator *)
Record SampleAuthenticator (Key : Type) := MkSampleAuthenticator {
  sample_sc : SampleConfig; sample_key : Key; sample_mgrs : gmap Hash (string * string) }.
Arguments MkSampleAuthenticator {Key}. Arguments sample_sc {Key}. Arguments sample_key {Key}.
Arguments sample_mgrs {Key}.

Definition nil_config {E A} : outcome E A := Panic "invalid memory address or nil pointer dereference".

(** The options are given when there is something to give. *)
Definition initial_step (sc : SampleConfigStep) : StepState :=
  MkStepState
    (NewConditionManager (match Sample_Conditions sc with
                          | VNil => [] | v => [ConditionManagerWithInitialCondition v] end))
    (NewEnvironmentManager (match Sample_Env sc with
       | None => [] | Some e => [EnvironmentManagerWithInitialEnvironment (Sample_Interface e)] end))
    (NewSpecManager (match Sample_Spec sc with
       | None => [] | Some sp => [SpecManagerWithInitialSpec (Sample_Interface sp)] end))
    (NewStateManager (match Sample_State sc with
       | None => [] | Some st => [StateManagerWithInitialState st] end)).

Section new.
Context `{GoRuntime}.
Notation built := (gmap Hash (string * string) * SampleState)%type.

Definition set_outputs (step : Step) (outputs : gmap string value) (som : StepOutputMap) : StepOutputMap :=
  foldl (λ som nv, output_map_set step nv.1 nv.2 som) som (range_map outputs).
Definition put_step (b : built) (id name : string) (sc : SampleConfigStep) : built :=
  (<[step_hash (my_step id name) := (id, name)]> b.1,
   with_outputs id (set_outputs (my_step id name) (Sample_Outputs sc) (my_outputs id b.2))
     (with_step (id, name) (initial_step sc) b.2)).
Definition add_sample_step (id : string) (b : built) (kv : string * option SampleConfigStep)
    : outcome error built :=
  match kv.2 with None => nil_config | Some sc => Ok (put_step b id kv.1 sc) end.
Definition new_run (b : built) (id : string) (sc : SampleConfigRun) : built :=
  (b.1, with_outputs id NewStepOutputMap
          (with_params id (NewParameterManager
             [ParameterManagerWithInitialParameters (Sample_Parameters sc)]) b.2)).
Definition add_sample_run (b : built) (kv : string * option SampleConfigRun) : outcome error built :=
  match kv.2 with
  | None => nil_config
  | Some sc => fold_outcome (add_sample_step kv.1) (new_run b kv.1 sc) (range_map (Sample_Steps sc))
  end.
Definition NewSampleAuthenticator {Key} (sc : SampleConfig) (key : Key)
    : outcome error (SampleAuthenticator Key * SampleState) :=
  '(ms, st) ← fold_outcome add_sample_run (∅, MkSampleState ∅ ∅ ∅) (range_map (Sample_Runs sc));
  Ok (MkSampleAuthenticator sc key ms, st).
End new.

Section authenticate.
Context `{JWT}.
Notation Authenticator_ := (SampleAuthenticator Key).

(** Connections and secrets are those of the configuration, for every action. *)
Definition config_managers (sc : SampleConfig) (mb : MetadataBuilder SampleState)
    : MetadataBuilder SampleState :=
  let cs := ManagersMemory.NewConnectionManager (Sample_Connections sc) in
  let ss := ManagersMemory.NewSecretManager (Sample_Secrets sc) in
  SetSecrets {| Secret_Get n := lift (secret_get n ss).1 |}
    (SetConnections {| Connection_Get t n := lift (connection_get t n cs).1 |} mb).

Definition sample_injector (a : Authenticator_) : Injector (Service SampleState) := λ claims,
  _ ← set_managers (config_managers (sample_sc a));
  action ← lift (claims_action claims);
  match action with
  | None => mret tt
  | Some action =>
      set_managers (IfStep action (λ step mb,
        match sample_mgrs a !! step_hash step with
        | None => mb
        | Some (id, name) => step_managers id name mb
        end))
  end.

Definition sample_expectation : Expected := MkExpected "" "" [MetadataAPIAudienceV1] "" None.
Definition sample_authenticator (a : Authenticator_) (r : Request) : Authenticator (Service SampleState) :=
  NewAuthenticator (HTTPAuthorizationHeaderIntermediary (Authorization r))
    (NewKeyResolver (sample_key a) [KeyResolverWithExpectation sample_expectation])
    [AuthenticatorWithInjector (sample_injector a)].

Definition SampleAuthenticator_Authenticate (a : Authenticator_) (r : Request)
    : effect auth_error SampleState (option (Credential SampleState)) := λ w,
  let '(ok, s) := Authenticate (sample_authenticator a r)
                    (MkService w (SetEvents log_EventManager NewMetadataBuilder) []) in
  (match ok with
   | Err e => Err e
   | Panic x => Panic x
   | Ok false => Ok None
   | Ok true => Ok (Some (MkCredential (Build (mgrs s)) (tags s)))
   end, outside s).
End authenticate.

(** ** Tokens *)
Record TokenMap := MkTokenMap {
  tokens_steps : gmap (string * string) string; tokens_triggers : gmap string string }.
Definition ForStep (tm : TokenMap) (runID stepName : string) : option string :=
  tokens_steps tm !! (runID, stepName).
Definition ForTrigger (tm : TokenMap) (triggerName : string) : option string :=
  tokens_triggers tm !! triggerName.

Definition sample_claims_of (a : Action) : Claims := {|
  registered := Some (MkRegistered "" (action_subject a) [MetadataAPIAudienceV1] None None None "");
  KubernetesNamespaceName := ""; KubernetesNamespaceUID := ""; KubernetesServiceAccountToken := "";
  RelayDomainID := ""; RelayTenantID := "";
  RelayRunID := match a with AStep s => Run_ID (Step_Run s) | ATrigger _ => "" end;
  RelayName := match a with AStep s => Step_Name s | ATrigger t => Trigger_Name t end;
  RelayKubernetesImmutableConfigMapName := ""; RelayKubernetesMutableConfigMapName := "";
  RelayVaultEnginePath := ""; RelayVaultSecretPath := ""; RelayVaultConnectionPath := "";
  RelayEventAPIURL := None; RelayEventAPIToken := "" |}.

Section tokens.
Context `{GoRuntime} {W : Type} (issuer : Issuer_ W).

(** An error is logged, and the token is empty. *)
Definition issued_token (a : Action) : io W string := λ w,
  match issuer (sample_claims_of a) w with
  | (Ok tok, w) => (Ok tok, w)
  | (Err _, w) => (Ok "", w)
  | (Panic x, w) => (Panic x, w)
  end.

Fixpoint generate_steps (id : string) (names : list string) (m : TokenMap) : io W TokenMap :=
  match names with
  | [] => mret m
  | name :: names =>
      tok ← issued_token (AStep (my_step id name));
      generate_steps id names
        (MkTokenMap (<[(id, name) := tok]> (tokens_steps m)) (tokens_triggers m))
  end.
Fixpoint generate_runs (runs : list (string * option SampleConfigRun)) (m : TokenMap) : io W TokenMap :=
  match runs with
  | [] => mret m
  | (id, None) :: _ => lift nil_config
  | (id, Some sc) :: runs =>
      m ← generate_steps id (range_map (Sample_Steps sc)).*1 m; generate_runs runs m
  end.
Fixpoint generate_triggers (names : list string) (m : TokenMap) : io W TokenMap :=
  match names with
  | [] => mret m
  | name :: names =>
      tok ← issued_token (ATrigger (MkTrigger name));
      generate_triggers names
        (MkTokenMap (tokens_steps m) (<[name := tok]> (tokens_triggers m)))
  end.
Definition GenerateAll (sc : SampleConfig) : io W TokenMap :=
  m ← generate_runs (range_map (Sample_Runs sc)) (MkTokenMap ∅ ∅);
  generate_triggers (range_map (Sample_Triggers sc)).*1 m.
End tokens.
