(* ===== verification/SampleMetadataProperties.v ===== *)
(** * Properties of the sample metadata server *)
From S2P Require Import Prelude GoStd GoStrings Values Errors Transfer Model ManagersMemory.
From S2P Require Import Metadata Authenticate AuthKubernetes AuthService AuthIssue SampleMetadata.

(** ** What a fold that succeeds has established *)
Lemma fold_outcome_establishes {E A S} (f : S → A → outcome E S) (Q : S → Prop) l s s' :
  fold_outcome f s l = Ok s' →
  (∀ x s1 s2, x ∈ l → f s1 x = Ok s2 → Q s1 → Q s2) →
  (Q s ∨ ∃ x, x ∈ l ∧ ∀ s1 s2, f s1 x = Ok s2 → Q s2) → Q s'.
Proof.
  revert s. induction l as [|x l IH]; intros s E0 Hp Hq; cbn in E0.
  - injection E0 as <-. destruct Hq as [Hq|(x & Hx & _)]; [done|by apply elem_of_nil in Hx].
  - destruct (f s x) as [s1|e|y] eqn:Ex; cbn in E0; [|done..].
    apply (IH s1 E0); [intros x' s2 s3 Hx'; apply Hp; by right|].
    destruct Hq as [Hq|(x' & [->|Hx']%elem_of_cons & Hx)].
    + left. eapply Hp; [by left|exact Ex|exact Hq].
    + left. by eapply Hx.
    + right. by exists x'.
Qed.

Section new.
Context `{GoRuntimeLaws}.

Lemma set_outputs_get s outputs m s' n :
  output_map_get s' n (set_outputs s outputs m)
  = if decide (step_hash s' = step_hash s)
    then match outputs !! n with Some v => Some v | None => output_map_get s' n m end
    else output_map_get s' n m.
Proof.
  assert (Hd := range_map_NoDup outputs). assert (Hl := list_to_range_map outputs).
  unfold set_outputs. revert m Hd Hl. generalize (range_map outputs) as l. intros l m Hd <-. revert m.
  induction l as [|[k v] l IH]; intros m; cbn; [by case_decide|].
  cbn in Hd. apply NoDup_cons in Hd as [Hk Hd]. rewrite IH, output_map_get_set by done.
  destruct (decide (step_hash s' = step_hash s)) as [Eh|Hne]; [|by rewrite decide_False by congruence].
  destruct (decide (n = k)) as [->|Hn].
  - rewrite (not_elem_of_list_to_map_1 l) by done. rewrite lookup_insert_eq.
    by rewrite decide_True by congruence.
  - rewrite lookup_insert_ne by done. destruct (list_to_map l !! n); [done|].
    by rewrite decide_False by congruence.
Qed.

Section built.
Context (sc : SampleConfig) {Key : Type} (key : Key) (a : SampleAuthenticator Key) (st : SampleState).
Context (Hnew : NewSampleAuthenticator sc key = Ok (a, st)).
Context (id name : string) (run : SampleConfigRun) (step : SampleConfigStep).
Context (Hrun : Sample_Runs sc !! id = Some (Some run)) (Hstep : Sample_Steps run !! name = Some (Some step)).
(** The hashes of the steps of the configuration tell them apart. *)
Context (Hdistinct : ∀ id' run' name', Sample_Runs sc !! id' = Some (Some run') →
  is_Some (Sample_Steps run' !! name') →
  step_hash (my_step id' name') = step_hash (my_step id name) → id' = id ∧ name' = name).
Notation built := (gmap Hash (string * string) * SampleState)%type.

(** The loop over the steps of a run. *)
Lemma built_run (Q : built → Prop) :
  (∀ id' run' name' sc' b, Sample_Runs sc !! id' = Some (Some run') →
     Sample_Steps run' !! name' = Some (Some sc') → Q b → Q (put_step b id' name' sc')) →
  (∀ b id' run', Sample_Runs sc !! id' = Some (Some run') → id' ≠ id → Q b → Q (new_run b id' run')) →
  (∀ b, Q (new_run b id run) ∨ ∀ b', Q (put_step b' id name step)) →
  ∃ ms, sample_mgrs a = ms ∧ Q (ms, st).
Proof.
  intros Hput Hrun' Hest. unfold NewSampleAuthenticator in Hnew.
  destruct (fold_outcome add_sample_run _ _) as [[ms st']|e|x] eqn:E; cbn in Hnew; [|done..].
  injection Hnew as <- <-. exists ms. split; [done|].
  assert (Hinner : ∀ id' run' b b', Sample_Runs sc !! id' = Some (Some run') →
    fold_outcome (add_sample_step id') b (range_map (Sample_Steps run')) = Ok b' → Q b → Q b').
  { intros id' run' b b' Hr E1 Hb. eapply (fold_outcome_establishes _ Q); [exact E1| |by left].
    intros [n' [sc'|]] s1 s2 Hx%elem_of_range_map; cbn; [|done]. intros [= <-]. by eapply Hput. }
  assert (Hmine : ∀ b b', fold_outcome (add_sample_step id) (new_run b id run)
      (range_map (Sample_Steps run)) = Ok b' → Q b').
  { intros b b' E1. destruct (Hest b) as [Hb|Hb]; [by eapply Hinner|].
    eapply (fold_outcome_establishes _ Q); [exact E1| |].
    - intros [n' [sc'|]] s1 s2 Hx%elem_of_range_map; cbn; [|done]. intros [= <-]. by eapply Hput.
    - right. exists (name, Some step). split; [by apply elem_of_range_map|].
      intros s1 s2. cbn. by intros [= <-]. }
  eapply (fold_outcome_establishes _ Q); [exact E| |].
  - intros [id' [run'|]] s1 s2 Hx%elem_of_range_map; unfold add_sample_run; cbn; [|done].
    intros E1 Hq. destruct (decide (id' = id)) as [->|Hne].
    + assert (run' = run) as -> by congruence. by eapply Hmine.
    + eapply Hinner; [exact Hx|exact E1|]. by apply Hrun'.
  - right. exists (id, Some run). split; [by apply elem_of_range_map|].
    intros s1 s2. unfold add_sample_run. cbn. apply Hmine.
Qed.

(** The managers of the step's hash are those of the step. *)
Lemma built_managers : sample_mgrs a !! step_hash (my_step id name) = Some (id, name).
Proof.
  destruct (built_run (λ b, b.1 !! step_hash (my_step id name) = Some (id, name))) as (ms & -> & Hq);
    [..|exact Hq].
  - intros id' run' name' sc' b Hr Hs Hq. cbn.
    destruct (decide (step_hash (my_step id' name') = step_hash (my_step id name))) as [Eh|Hne].
    + destruct (Hdistinct id' run' name' Hr) as [-> ->]; [by eexists|exact Eh|]. by rewrite lookup_insert_eq.
    + by rewrite lookup_insert_ne.
  - intros b id' run' _ _ Hq. exact Hq.
  - intros b. right. intros b'. apply lookup_insert_eq.
Qed.
(** The step has what it was configured with. *)
Lemma built_step : mine id name st = initial_step step.
Proof.
  destruct (built_run (λ b, step_states b.2 !! (id, name) = Some (initial_step step))) as (ms & _ & Hq).
  - intros id' run' name' sc' b Hr Hs Hq. cbn.
    destruct (decide ((id', name') = (id, name))) as [E|Hne].
    + injection E as -> ->. assert (sc' = step) as -> by congruence. by rewrite lookup_insert_eq.
    + by rewrite lookup_insert_ne.
  - intros b id' run' _ _ Hq. exact Hq.
  - intros b. right. intros b'. apply lookup_insert_eq.
  - unfold mine. cbn in Hq. by rewrite Hq.
Qed.
(** The run has its parameters. *)
Lemma built_params : my_params id st = Sample_Parameters run.
Proof.
  destruct (built_run (λ b, run_params b.2 !! id = Some (Sample_Parameters run))) as (ms & _ & Hq).
  - intros id' run' name' sc' b _ _ Hq. exact Hq.
  - intros b id' run' _ Hne Hq. cbn. by rewrite lookup_insert_ne.
  - intros b. left. cbn. rewrite lookup_insert_eq. f_equal.
    unfold NewParameterManager, ParameterManagerWithInitialParameters. cbn.
    by rewrite copy_into_union, (right_id_L ∅ (∪)).
  - exact (f_equal (default ∅) Hq).
Qed.
(** The outputs of the step are those it was configured with. *)
Lemma built_outputs n :
  output_map_get (my_step id name) n (my_outputs id st) = Sample_Outputs step !! n.
Proof.
  destruct (built_run (λ b, output_map_get (my_step id name) n (my_outputs id b.2)
                            = Sample_Outputs step !! n)) as (ms & _ & Hq); [..|exact Hq].
  - intros id' run' name' sc' b Hr Hs Hq. cbn. unfold my_outputs at 1. cbn.
    destruct (decide (id' = id)) as [->|Hne].
    + rewrite lookup_insert_eq. cbn. rewrite set_outputs_get.
      destruct (decide (step_hash (my_step id name) = step_hash (my_step id name'))) as [Eh|]; [|exact Hq].
      destruct (Hdistinct id run' name' Hr) as [_ ->]; [by eexists|done|].
      assert (run' = run) as -> by congruence. assert (sc' = step) as -> by congruence.
      destruct (Sample_Outputs step !! n); [done|exact Hq].
    + rewrite lookup_insert_ne by done. exact Hq.
  - intros b id' run' _ Hne Hq. cbn. unfold my_outputs. cbn. by rewrite lookup_insert_ne.
  - intros b. destruct (Sample_Outputs step !! n) as [v|] eqn:Ev.
    + right. intros b'. cbn. unfold my_outputs at 1. cbn. rewrite lookup_insert_eq. cbn.
      rewrite set_outputs_get, decide_True by done. by rewrite Ev.
    + left. cbn. unfold my_outputs. cbn. rewrite lookup_insert_eq. apply output_map_get_new.
Qed.
End built.
End new.

(** ** Tokens *)
Section tokens.
Context `{GoRuntime, JWT} {W : Type} (key : Key).
Definition token_ok (k : string * string) (tok : string) : Prop :=
  tok = "" ∨ token_sign key (sample_claims_of (AStep (my_step k.1 k.2))) = Ok tok.
Definition tokens_ok (m : TokenMap) : Prop := map_Forall token_ok (tokens_steps m).
Notation issuer := (KeySignerIssuer (W := W) key).

Lemma issued_token_ok act w tok w' :
  issued_token issuer act w = (Ok tok, w') → tok = "" ∨ token_sign key (sample_claims_of act) = Ok tok.
Proof.
  unfold issued_token, KeySignerIssuer, lift.
  destruct (token_sign key (sample_claims_of act)); cbn; intros [= <- <-]; auto.
Qed.
Lemma generate_steps_ok id names m w m' w' :
  tokens_ok m → generate_steps issuer id names m w = (Ok m', w') → tokens_ok m'.
Proof.
  revert m w. induction names as [|n names IH]; intros m w Hm; cbn [generate_steps].
  - by intros [= <- _].
  - rewrite effect_bind_run. destruct (issued_token _ _ w) as [[tok|e|x] w1] eqn:E; [|done..].
    apply IH. apply map_Forall_insert_2; [|exact Hm]. exact (issued_token_ok _ _ _ _ E).
Qed.
Lemma generate_runs_ok runs m w m' w' :
  tokens_ok m → generate_runs issuer runs m w = (Ok m', w') → tokens_ok m'.
Proof.
  revert m w. induction runs as [|[id [sc|]] runs IH]; intros m w Hm; cbn [generate_runs]; [|..|done].
  - by intros [= <- _].
  - rewrite effect_bind_run. destruct (generate_steps _ _ _ _ w) as [[m1|e|x] w1] eqn:E; [|done..].
    apply IH. by eapply generate_steps_ok.
Qed.
Lemma generate_triggers_ok names m w m' w' :
  tokens_ok m → generate_triggers issuer names m w = (Ok m', w') → tokens_ok m'.
Proof.
  revert m w. induction names as [|n names IH]; intros m w Hm; cbn [generate_triggers].
  - by intros [= <- _].
  - rewrite effect_bind_run. destruct (issued_token _ _ w) as [[tok|e|x] w1]; [|done..]. by apply IH.
Qed.
Lemma GenerateAll_ok sc w m w' : GenerateAll issuer sc w = (Ok m, w') → tokens_ok m.
Proof.
  unfold GenerateAll. rewrite effect_bind_run.
  destruct (generate_runs _ _ _ w) as [[m1|e|x] w1] eqn:E; [|done..].
  apply generate_triggers_ok. eapply generate_runs_ok; [|exact E]. apply map_Forall_empty.
Qed.
End tokens.

(** ** A step is served *)
Section served.
Context `{GoRuntimeLaws, JWT}.
(** What was signed with a key is read back with it. *)
Context (Hsign : ∀ k c raw, token_sign k c = Ok raw → ∃ tok, ParseSigned raw = Ok tok ∧ token_Claims tok k = Ok c).

Lemma sample_claims_step id name :
  id ≠ "" → name ≠ "" → claims_action (sample_claims_of (AStep (my_step id name))) = Ok (Some (AStep (my_step id name))).
Proof. intros. by apply claims_action_subject. Qed.

Lemma bearer_header {W} tok (st : Authentication W * W) :
  HTTPAuthorizationHeaderIntermediary ("Bearer " +:+ tok) st = (Ok tok, st).
Proof.
  unfold HTTPAuthorizationHeaderIntermediary, basic_auth, parseBearerAuth, after_scheme.
  change ("Bearer " +:+ tok) with (String "B" (String "e" (String "a" (String "r" (String "e"
    (String "r" (String " " tok))))))).
  assert (Hs : String.substring 0 0 tok = "") by by destruct tok.
  cbn -[Nat.ltb]. rewrite Hs. rewrite !(proj2 (Nat.ltb_ge _ _)) by lia. done.
Qed.

(** The managers of a step, over those of the configuration. *)
Definition served_managers (sc : SampleConfig) (id name : string) : MetadataManagers SampleState :=
  Build (step_managers id name (config_managers sc (SetEvents log_EventManager NewMetadataBuilder))).

Lemma sample_authenticated (a : SampleAuthenticator Key) id name tok ip s :
  id ≠ "" → name ≠ "" →
  token_sign (sample_key a) (sample_claims_of (AStep (my_step id name))) = Ok tok →
  sample_mgrs a !! step_hash (my_step id name) = Some (id, name) →
  SampleAuthenticator_Authenticate a (MkRequest ip ("Bearer " +:+ tok)) s
  = (Ok (Some (MkCredential (served_managers (sample_sc a) id name) [])), s).
Proof.
  intros Hid Hname Htok Hm. destruct (Hsign _ _ _ Htok) as (t & Hp & Hc).
  unfold SampleAuthenticator_Authenticate, Authenticate, sample_authenticator.
  cbn [NewAuthenticator foldl AuthenticatorWithInjector intermediary resolver own_validators
       own_injectors app].
  unfold Authorization. rewrite bearer_header. unfold NewKeyResolver, KeyResolver. rewrite Hp, Hc.
  cbn [sample_claims_of registered].
  change (Validate _ _) with (@None error).
  cbn [foldl]. rewrite (sample_claims_step id name Hid Hname).
  cbn [validators injectors validate_all]. rewrite effect_bind_run, effect_ret_run.
  rewrite effect_bind_run. unfold inject_all. cbn [each_effect]. rewrite !effect_bind_run.
  unfold sample_injector. rewrite !effect_bind_run. unfold set_managers at 1, lift at 1.
  rewrite effect_bind_run.
  rewrite (sample_claims_step id name Hid Hname). cbn. rewrite Hm. done.
Qed.

Definition or_not_found {A} (o : option A) : result A :=
  match o with Some a => Ok a | None => Err ManagersMemory.not_found end.

(** C36: A request with the token that was generated for a step of the sample configuration
    is served that step's data: its condition, environment, specification and state, the
    parameters of its run, the outputs it was given and the connections and secrets of the
    configuration; what it was not given is not found.  (Steps are told apart by the
    hashes of their paths.) *)
Theorem sample_step_served sc key a st id name run step w tm w' tok ip s :
  NewSampleAuthenticator sc key = Ok (a, st) →
  Sample_Runs sc !! id = Some (Some run) → Sample_Steps run !! name = Some (Some step) →
  id ≠ "" → name ≠ "" →
  (∀ id' run' name', Sample_Runs sc !! id' = Some (Some run') →
     is_Some (Sample_Steps run' !! name') →
     step_hash (my_step id' name') = step_hash (my_step id name) → id' = id ∧ name' = name) →
  GenerateAll (W := unit) (KeySignerIssuer key) sc w = (Ok tm, w') →
  ForStep tm id name = Some tok → tok ≠ "" →
  ∃ m, SampleAuthenticator_Authenticate a (MkRequest ip ("Bearer " +:+ tok)) s
       = (Ok (Some (MkCredential m [])), s)
    ∧ (Condition_Get (Conditions m) st).1
      = or_not_found (match Sample_Conditions step with VNil => None | v => Some (MkCondition v) end)
    ∧ (Environment_Get (Environments m) st).1 = or_not_found (MkEnvironment <$> Sample_Env step)
    ∧ (Spec_Get (SpecOf m) st).1 = or_not_found (MkSpec ∘ VMap <$> Sample_Spec step)
    ∧ ∀ n, (State_Get (StateOf m) n st).1
           = or_not_found (MkState n <$> (default ∅ (Sample_State step) !! n))
    ∧ (Parameter_Get (Parameters m) n st).1 = or_not_found (MkParameter n <$> (Sample_Parameters run !! n))
    ∧ (StepOutput_Get (StepOutputs m) name n st).1
      = or_not_found (MkStepOutput (my_step id name) n <$> (Sample_Outputs step !! n))
    ∧ (Secret_Get (Secrets m) n st).1 = or_not_found (MkSecret n <$> (Sample_Secrets sc !! n))
    ∧ ∀ t, (Connection_Get (Connections m) t n st).1
           = or_not_found (MkConnection t n <$> (Sample_Connections sc !! (t, n))).
Proof.
  intros Hnew Hrun Hstep Hid Hname Hd Hg Ht Hne.
  assert (Hs : token_sign key (sample_claims_of (AStep (my_step id name))) = Ok tok).
  { apply GenerateAll_ok in Hg. destruct (Hg (id, name) tok Ht) as [|E]; [done|exact E]. }
  assert (Hm := built_managers sc key a st Hnew id name run step Hrun Hstep Hd).
  assert (Ha : sample_key a = key ∧ sample_sc a = sc).
  { unfold NewSampleAuthenticator in Hnew.
    destruct (fold_outcome _ _ _) as [[ms st']|e|x]; [|done..]. by injection Hnew as <- <-. }
  destruct Ha as [Hk Hc]. exists (served_managers sc id name). split.
  { rewrite <- Hc. apply sample_authenticated; [done|done|by rewrite Hk|done]. }
  assert (Hst := built_step sc key a st Hnew id name run step Hrun Hstep).
  assert (Hpa := built_params sc key a st Hnew id name run step Hrun Hstep).
  assert (Hou := built_outputs sc key a st Hnew id name run step Hrun Hstep Hd).
  assert (Hpart : ∀ S A (get : SampleState → S) put (c : io S A), (on_part get put c st).1 = (c (get st)).1)
    by (intros; unfold on_part; by destruct (c (get st))).
  cbn -[on_part output_get ManagersMemory.NewSecretManager].
  unfold on_condition, on_environment, on_spec, on_step_state, on_params, on_outputs.
  split_and!; rewrite ?Hpart; cbn [compose]; rewrite ?Hst.
  - unfold initial_step, condition_get. cbn. by destruct (Sample_Conditions step).
  - unfold initial_step, environment_get. cbn. destruct (Sample_Env step) as [e|]; [|done]. cbn.
    unfold Sample_Interface. by rewrite environment_trees_eq, copy_into_union, (right_id_L ∅ (∪)).
  - unfold initial_step, spec_get. cbn. destruct (Sample_Spec step) as [e|]; [|done]. cbn.
    unfold Sample_Interface. by rewrite copy_into_union, (right_id_L ∅ (∪)).
  - intros n. split_and!; rewrite ?Hpart; cbn [compose]; rewrite ?Hst, ?Hpa.
    + unfold initial_step, state_get. cbn. destruct (Sample_State step) as [e|]; cbn; [|done].
      unfold StateManagerWithInitialState. rewrite copy_into_union, (right_id_L ∅ (∪)). unfold StateState.
      by destruct (e !! n).
    + unfold parameter_get. unfold ParameterState. by destruct (Sample_Parameters run !! n).
    + unfold output_get. cbn [Step_Run my_step]. fold (my_step id name). rewrite Hou.
      by destruct (Sample_Outputs step !! n).
    + unfold secret_get, ManagersMemory.NewSecretManager. cbn. rewrite copy_into_union, (right_id_L ∅ (∪)).
      unfold SecretState. by destruct (Sample_Secrets sc !! n).
    + intros t. cbn. unfold connection_get, ManagersMemory.NewConnectionManager, ConnectionState, SampleConfigConnections.
      generalize (Sample_Connections sc). intros m0. unfold SampleConfigConnections in m0.
      by destruct (m0 !! (t, n)).
Qed.
End served.

(** ** Two steps of one run *)
Definition demo_step (v : value) : SampleConfigStep :=
  MkSampleStep VNil None (Some {["x" := v]}) {["o" := v]} None.
Definition demo_run : SampleConfigRun :=
  MkSampleRun {["p" := VBool true]} {["a" := Some (demo_step VNil); "b" := Some (demo_step (VBool true))]}.
Definition demo_config : SampleConfig :=
  MkSampleConfig {[("aws", "c") := ∅]} {["s" := "secret"]} {["r1" := Some demo_run]} {["t" := tt]}.
#[local] Instance RegisteredClaims_eq_dec : EqDecision RegisteredClaims.
Proof. solve_decision. Defined.
#[local] Instance Claims_eq_dec : EqDecision Claims.
Proof. solve_decision. Defined.
(** A library that signs the claims of these steps. *)
Definition demo_claims (name : string) : Claims := sample_claims_of (AStep (my_step "r1" name)).
Definition demo_jwt : JWT := {|
  Token := string; Key := unit;
  ParseSigned s := Ok s;
  token_Claims tok _ := if String.eqb tok "ta" then Ok (demo_claims "a")
                        else if String.eqb tok "tb" then Ok (demo_claims "b") else Err (EText "signature");
  token_UnsafeClaims _ := Err (EText "unsafe");
  token_sign _ c := if decide (c = demo_claims "a") then Ok "ta"
                    else if decide (c = demo_claims "b") then Ok "tb" else Err (EText "key") |}.
Definition demo_built : outcome error (SampleAuthenticator unit * SampleState) :=
  @NewSampleAuthenticator forward_runtime unit demo_config tt.
Definition demo_tokens : outcome error TokenMap * unit :=
  @GenerateAll forward_runtime unit (@KeySignerIssuer demo_jwt unit tt) demo_config tt.

Lemma sample_step_served_witness :
  ∃ a st m, demo_built = Ok (a, st)
    ∧ @SampleAuthenticator_Authenticate demo_jwt a (MkRequest "" ("Bearer " +:+ "tb")) st
      = (Ok (Some (MkCredential m [])), st)
    ∧ (Spec_Get (SpecOf m) st).1 = Ok (MkSpec (VMap {["x" := VBool true]})).
Proof.
  destruct demo_built as [[a st]|e|x] eqn:E; [|exfalso; vm_compute in E; discriminate E..].
  destruct demo_tokens as [[tm|e|x] []] eqn:Et; [|exfalso; vm_compute in Et; discriminate Et..].
  destruct (@sample_step_served forward_runtime _ demo_jwt) with (sc := demo_config) (key := tt)
    (a := a) (st := st) (id := "r1") (name := "b") (run := demo_run) (step := demo_step (VBool true))
    (w := tt) (tm := tm) (w' := tt) (tok := "tb") (ip := "") (s := st)
    as (m & Ha & _ & _ & Hs & _); [..|exists a, st, m; split; [reflexivity|]; split; [exact Ha|exact Hs]].
  - intros k c raw. cbn. destruct (decide (c = demo_claims "a")) as [->|_].
    + intros H'. injection H' as <-. exists "ta". split; reflexivity.
    + destruct (decide (c = demo_claims "b")) as [->|_]; intros H'; [|discriminate H'].
      injection H' as <-. exists "tb". split; reflexivity.
  - exact E.
  - reflexivity.
  - reflexivity.
  - discriminate.
  - discriminate.
  - intros id' run' name' Hr Hn Hh.
    change (Sample_Runs demo_config) with ({["r1" := Some demo_run]} : gmap string (option SampleConfigRun)) in Hr.
    apply lookup_singleton_Some in Hr as [<- Hr]. injection Hr as <-. split; [reflexivity|].
    destruct Hn as [o Hn].
    change (Sample_Steps demo_run) with ({["a" := Some (demo_step VNil);
      "b" := Some (demo_step (VBool true))]} : gmap string (option SampleConfigStep)) in Hn.
    apply lookup_insert_Some in Hn as [[<- _]|[_ Hn]];
      [exfalso; vm_compute in Hh; discriminate Hh|].
    apply lookup_singleton_Some in Hn as [<- _]. reflexivity.
  - exact Et.
  - assert (Hf : match demo_tokens.1 with Ok m => ForStep m "r1" "b" | _ => None end = Some "tb")
      by (vm_compute; reflexivity). rewrite Et in Hf. exact Hf.
  - discriminate.
Defined.
