(* ===== verification/Commands.v ===== *)
(** * The commands (cmd/relay-operator, cmd/relay-metadata-api, cmd/relay-metrics)

    What each program makes of its arguments and its environment, with the parts of the
    operator that are put together there (pkg/config, pkg/dependency, and the NewReconciler
    functions of pkg/reconciler).  The operator issues the tokens that the metadata service
    accepts: the theorem of this file follows one from its step to the request that has it. *)
From S2P Require Import Prelude GoStd GoStrings Values Errors Transfer Fn Model ConfigMaps.
From S2P Require Import Metadata ManagersMemory Authenticate AuthKubernetes AuthService AuthTheory.
From S2P Require Import ObjUtil AuthIssue APIErrors Service ApiTypes ErrMark KubeObjects TenantDeps TenantReconcile.
From S2P Require Import RunObjects RunDeps RunReconcile TriggerReconcile Metrics Controllers Admission.
From S2P Require Import PipelineTheory AuthProperties Samples ManagerSamples SampleMetadata.
From stdpp Require Import pretty.

(** ** Flags (the package flag)

    A set of flags has the current value of each, which starts with its default. *)
Inductive flag_value := FlagText (s : string) | FlagBool (b : bool) | FlagInt (n : Z).
Definition flags : Type := gmap string flag_value.
Inductive flag_error :=
| ErrHelp
| BadSyntax (arg : string)
| NotDefined (name : string)
| NeedsArgument (name : string)
| InvalidValue (name value : string).

Definition parse_bool (s : string) : option bool :=
  if ParseBool s then Some true
  else if existsb (String.eqb s) ["0"; "f"; "F"; "FALSE"; "false"; "False"] then Some false
  else None.
Definition set_value (v : flag_value) (s : string) : option flag_value :=
  match v with
  | FlagText _ => Some (FlagText s)
  | FlagBool _ => FlagBool <$> parse_bool s
  | FlagInt _ => FlagInt <$> ParseInt s
  end.
Definition set_flag (name s : string) (fs : flags) : outcome flag_error flags :=
  match fs !! name ≫= λ v, set_value v s with
  | Some v => Ok (<[name := v]> fs)
  | None => Err (InvalidValue name s)
  end.

(** What an argument is: a flag has one or two dashes, and may have its value. *)
Inductive argument := Positional | Terminator | Malformed | Named (name : string) (value : option string).
Definition read_argument (s : string) : argument :=
  match s with
  | "-" => Positional
  | "--" => Terminator
  | String "-" rest =>
      let name := match rest with String "-" r => r | _ => rest end in
      match name with
      | "" | String "-" _ | String "=" _ => Malformed
      | _ => match cut "=" name with Some (n, v) => Named n (Some v) | None => Named name None end
      end
  | _ => Positional
  end.

Fixpoint parse_flags (fs : flags) (args : list string) : outcome flag_error (flags * list string) :=
  match args with
  | [] => Ok (fs, [])
  | arg :: rest =>
      match read_argument arg with
      | Positional => Ok (fs, args)
      | Terminator => Ok (fs, rest)
      | Malformed => Err (BadSyntax arg)
      | Named name value =>
          match fs !! name with
          | None => Err (if String.eqb name "help" || String.eqb name "h" then ErrHelp else NotDefined name)
          | Some v =>
              match v, value, rest with
              | FlagBool _, _, _ => fs ← set_flag name (default "true" value) fs; parse_flags fs rest
              | _, Some s, _ => fs ← set_flag name s fs; parse_flags fs rest
              | _, None, s :: rest => fs ← set_flag name s fs; parse_flags fs rest
              | _, None, [] => Err (NeedsArgument name)
              end
          end
      end
  end.

Definition flag_text (fs : flags) (name : string) : string :=
  match fs !! name with Some (FlagText s) => s | _ => "" end.
Definition flag_bool (fs : flags) (name : string) : bool :=
  match fs !! name with Some (FlagBool b) => b | _ => false end.
Definition flag_int (fs : flags) (name : string) : Z :=
  match fs !! name with Some (FlagInt n) => n | _ => 0%Z end.

(** Why a command ends: its flags are wrong, it says why, or it is done. *)
Inductive exit :=
| UsageExit (e : flag_error)
| FatalExit (message : string) (cause : option error).
Notation command W A := (effect exit W A).
Section fatal.
Context {W A : Type}.
Definition or_fatal (message : string) (m : io W A) : command W A := λ w,
  let '(r, w) := m w in (map_err (λ e, FatalExit message (Some e)) r, w).
Definition fatal (message : string) : command W A := lift (Err (FatalExit message None)).
Definition or_panic `{GoFmt} (m : io W A) : command W A := λ w,
  match m w with
  | (Ok a, w) => (Ok a, w)
  | (Err e, w) => (Panic (Error e), w)
  | (Panic x, w) => (Panic x, w)
  end.
End fatal.
Definition parsed {W} (fs : flags) (args : list string) : command W flags :=
  lift (map_err UsageExit (r ← parse_flags fs args; Ok r.1)).

(** ** The configuration of the operator *)
Record WorkflowControllerConfig (Delegate : Type) := MkControllerConfig {
  Operator_Environment : string; Standalone : bool; Operator_Namespace : string;
  ImagePullSecret : string; MaxConcurrentReconciles : Z; Operator_MetadataAPIURL : string;
  Operator_TransitPath : string; Operator_TransitKey : string; WebhookServerPort : Z;
  WebhookServerKeyDir : string; DynamicRBACBinding : bool; ToolInjectionImage : string;
  AlertsDelegate : option Delegate }.
Arguments MkControllerConfig {Delegate}.
Arguments Operator_Environment {Delegate}. Arguments Standalone {Delegate}.
Arguments Operator_Namespace {Delegate}. Arguments ImagePullSecret {Delegate}.
Arguments MaxConcurrentReconciles {Delegate}. Arguments Operator_MetadataAPIURL {Delegate}.
Arguments Operator_TransitPath {Delegate}. Arguments Operator_TransitKey {Delegate}.
Arguments WebhookServerPort {Delegate}. Arguments WebhookServerKeyDir {Delegate}.
Arguments DynamicRBACBinding {Delegate}. Arguments ToolInjectionImage {Delegate}.
Arguments AlertsDelegate {Delegate}.

Definition SplitMetaNamespaceKey (key : string) : option (string * string) :=
  match split_on "/" key with
  | [name] => Some ("", name)
  | [namespace; name] => Some (namespace, name)
  | _ => None
  end.
Definition ImagePullSecretKey {Delegate} (c : WorkflowControllerConfig Delegate) : string * string :=
  let '(namespace, name) := default ("", ImagePullSecret c) (SplitMetaNamespaceKey (ImagePullSecret c)) in
  (if String.eqb namespace "" then Operator_Namespace c else namespace, name).

Definition operator_flags : flags := list_to_map [
  ("environment", FlagText "dev"); ("standalone", FlagBool false); ("kubeconfig", FlagText "");
  ("kube-master-url", FlagText ""); ("kube-namespace", FlagText ""); ("image-pull-secret", FlagText "");
  ("storage-addr", FlagText ""); ("num-workers", FlagInt 2); ("metrics-enabled", FlagBool false);
  ("metrics-server-bind-addr", FlagText "localhost:3050"); ("jwt-signing-key-file", FlagText "");
  ("vault-transit-path", FlagText "transit"); ("vault-transit-key", FlagText "metadata-api");
  ("metadata-api-url", FlagText ""); ("webhook-server-port", FlagInt 443);
  ("webhook-server-key-dir", FlagText ""); ("tenant-sandboxing", FlagBool false);
  ("sentry-dsn", FlagText ""); ("dynamic-rbac-binding", FlagBool false);
  ("tool-injection-image", FlagText "relaysh/relay-runtime-tools")].

Definition operator_config {Delegate} (fs : flags) (metadataAPIURL : string) (alerts : option Delegate)
    : WorkflowControllerConfig Delegate :=
  MkControllerConfig (flag_text fs "environment") (flag_bool fs "standalone")
    (flag_text fs "kube-namespace") (flag_text fs "image-pull-secret") (flag_int fs "num-workers")
    metadataAPIURL (flag_text fs "vault-transit-path") (flag_text fs "vault-transit-key")
    (flag_int fs "webhook-server-port") (flag_text fs "webhook-server-key-dir")
    (flag_bool fs "dynamic-rbac-binding") (flag_text fs "tool-injection-image") alerts.

Example flags_parsed :
  (λ r, (flag_bool r.1 "standalone", flag_int r.1 "num-workers", flag_text r.1 "vault-transit-path", r.2))
    <$> match parse_flags operator_flags
              ["-standalone"; "--num-workers=0x10"; "-vault-transit-path"; "a=b"; "rest"; "-x"] with
        | Ok r => Some r | _ => None end
  = Some (true, 16%Z, "a=b", ["rest"; "-x"]).
Proof. vm_compute. reflexivity. Qed.
Example flags_refused :
  (λ args, match parse_flags operator_flags args with Err e => Some e | _ => None end)
    <$> [["-h"]; ["--="]; ["-kubeconfig"]; ["-standalone=maybe"]; ["-num"]; ["--"; "-x"]]
  = [Some ErrHelp; Some (BadSyntax "--="); Some (NeedsArgument "kubeconfig");
     Some (InvalidValue "standalone" "maybe"); Some (NotDefined "num"); None].
Proof. vm_compute. reflexivity. Qed.
Example pull_secret_keys :
  (λ s, ImagePullSecretKey (Delegate := unit)
          (operator_config (<["image-pull-secret" := FlagText s]>
             (<["kube-namespace" := FlagText "system"]> operator_flags)) "" None))
    <$> ["pull"; "ns/pull"; "/pull"; "a/b/c"]
  = [("system", "pull"); ("ns", "pull"); ("system", "pull"); ("system", "a/b/c")].
Proof. vm_compute. reflexivity. Qed.

(** ** The dependencies of the operator (pkg/dependency)

    A manager gives the clients of its cluster: the objects, the tenants' with their
    volumes, the lists, and the scopes of kinds. *)
Definition SchemeBuilder_AddToScheme (sb : list (Scheme → result Scheme)) (s : Scheme) : result Scheme :=
  fold_outcome (λ s f, f s) s sb.
Definition dependency_SchemeBuilder (kubernetes tekton_v1alpha1 tekton_v1beta1 serving : Scheme → result Scheme)
    : list (Scheme → result Scheme) :=
  [kubernetes; λ s, Ok (nebula_AddToScheme s); λ s, Ok (relay_AddToScheme s);
   tekton_v1alpha1; tekton_v1beta1; serving].
(** The scheme is made when the program starts. *)
Definition dependency_init `{GoFmt} (sb : list (Scheme → result Scheme)) : outcome error Scheme :=
  match SchemeBuilder_AddToScheme sb ∅ with Ok s => Ok s | Err e => Panic (Error e) | Panic x => Panic x end.

Section operator.
Context `{GoRuntime, GoFmt, JSONText, Markdown, JWT} {W Delegate : Type}.

Record Manager := MkManager {
  GetClient : KubeClient W; Tenant_clients : Clients W; Volume_clients : VolumeClients W;
  Manager_List : string → string → string → io W (list ObjectMeta);
  RESTMapping : string * string → string → option bool }.
Record ManagerOptions := MkManagerOptions {
  Manager_Scheme : Scheme; MetricsBindAddress : string; Manager_Port : Z; CertDir : string }.

(** The logs of pods, Vault, the key of the signer and the storage of logs. *)
Record DependencyManager := MkDependencyManager {
  Dm_Manager : Manager; Dm_Config : WorkflowControllerConfig Delegate;
  Dm_KubeClient : string → string → string → io W string;
  Dm_VaultClient : VaultWrite W; Dm_JWTSigner : Key;
  Dm_StorageClient : string → string → io W unit }.

Section new.
Context (NewManager : RestConfig → ManagerOptions → io W Manager).
Context (NewForConfig : RestConfig → result (string → string → string → io W string)).
(** Without a manager the process ends; the error of its client is returned. *)
Definition NewDependencyManager (scheme : Scheme) (cfg : WorkflowControllerConfig Delegate)
    (kcc : RestConfig) (vc : VaultWrite W) (jwtSigner : Key) (bs : string → string → io W unit)
    : command W (result DependencyManager) :=
  mgr ← or_fatal "Unable to create new manager"
          (NewManager kcc (MkManagerOptions scheme "0" (WebhookServerPort cfg) (WebhookServerKeyDir cfg)));
  mret (kc ← NewForConfig kcc; Ok (MkDependencyManager mgr cfg kc vc jwtSigner bs)).
End new.

(** ** The issuer of the reconcilers

    A token is signed, and then encrypted for the namespace its claims name. *)
Definition transit_issuer (dm : DependencyManager) : Issuer_ W := λ claims,
  raw ← KeySignerIssuer (Dm_JWTSigner dm) claims;
  VaultTransitWrapper (Dm_VaultClient dm) (Operator_TransitPath (Dm_Config dm))
    (Operator_TransitKey (Dm_Config dm))
    (VaultTransitNamespaceContext (KubernetesNamespaceUID claims)) raw.

(** ** The reconcilers and their controllers

    The reconciliation of an object at a time, with the fuel of the model; [capture] is
    what the capturer of the configuration does with an error. *)
Context (url_parse : string → option string) (sha256 : string → string) (fuel retries : nat).
Context (time_of : W → Z) (clock : io W Z) (Capturer : option Delegate → string → marked error → W → W).
Notation TheReconciler := (Reconciler (E := error) (W := W) (R := TenantReconcile.Result)).

Definition Capturer_of (cfg : WorkflowControllerConfig Delegate) : marked error → W → W :=
  Capturer (AlertsDelegate cfg) (Operator_Environment cfg).

Definition workflow_NewReconciler (dm : DependencyManager) : TheReconciler := λ req w,
  Run_Reconcile (GetClient (Dm_Manager dm)) (transit_issuer dm)
    (Operator_MetadataAPIURL (Dm_Config dm)) (Standalone (Dm_Config dm)) (Dm_KubeClient dm)
    (Dm_StorageClient dm) fuel retries (time_of w) clock req w.
Definition trigger_NewReconciler (dm : DependencyManager) : TheReconciler := λ req w,
  Trigger_Reconcile (GetClient (Dm_Manager dm)) (transit_issuer dm)
    (Operator_MetadataAPIURL (Dm_Config dm)) url_parse sha256 fuel retries (time_of w) req w.
Definition tenant_NewReconciler (mgr : Manager) (cfg : WorkflowControllerConfig Delegate)
    : TheReconciler := λ req w,
  Reconcile (Tenant_clients mgr) (Volume_clients mgr) (ToolInjectionImage cfg) (time_of w) req w.

Definition add (r : TheReconciler) (cfg : WorkflowControllerConfig Delegate) : TheReconciler :=
  filtered (Capturer_of cfg) (DynamicRBACBinding cfg) (Operator_Namespace cfg) r.
Definition workflow_Add (dm : DependencyManager) : TheReconciler :=
  add (workflow_NewReconciler dm) (Dm_Config dm).
Definition trigger_Add (dm : DependencyManager) : TheReconciler :=
  add (trigger_NewReconciler dm) (Dm_Config dm).
Definition tenant_Add (mgr : Manager) (cfg : WorkflowControllerConfig Delegate) : TheReconciler :=
  add (tenant_NewReconciler mgr cfg) cfg.

(** These are the controllers whose properties are proved. *)
Lemma added_controllers dm :
  let cfg := Dm_Config dm in let mgr := Dm_Manager dm in
  workflow_Add dm
  = RunController (GetClient mgr) (transit_issuer dm) (Operator_MetadataAPIURL cfg) (Standalone cfg)
      (Dm_KubeClient dm) (Dm_StorageClient dm) fuel retries time_of clock (Capturer_of cfg)
      (DynamicRBACBinding cfg) (Operator_Namespace cfg)
  ∧ trigger_Add dm
    = TriggerController (GetClient mgr) (transit_issuer dm) (Operator_MetadataAPIURL cfg) url_parse sha256
        fuel retries time_of (Capturer_of cfg) (DynamicRBACBinding cfg) (Operator_Namespace cfg)
  ∧ tenant_Add mgr cfg
    = TenantController (Tenant_clients mgr) (Volume_clients mgr) (ToolInjectionImage cfg) time_of
        (Capturer_of cfg) (DynamicRBACBinding cfg) (Operator_Namespace cfg).
Proof. done. Qed.

(** ** The operator (cmd/relay-operator)

    What its manager runs: the controllers, with the number of their workers, and the
    webhooks; [Start] is the end of the library's work. *)
Context {X : Type} (Decode : string → error + AdmittedPod X) (Marshal : AdmittedPod X → error + string).
Record Operator := MkOperator {
  Operator_runs : TheReconciler; Operator_tenants : TheReconciler; Operator_triggers : TheReconciler;
  Operator_workers : Z; Operator_webhooks : list (string * (string → Response)) }.
Definition operator_of (fs : flags) (dm : DependencyManager) : Operator :=
  let cfg := Dm_Config dm in
  MkOperator (workflow_Add dm) (tenant_Add (Dm_Manager dm) cfg) (trigger_Add dm)
    (MaxConcurrentReconciles cfg)
    [("/mutate/pod-enforcement",
      PodEnforcementHandler_Handle Decode Marshal (NewPodEnforcementHandler
        [PodEnforcementHandlerWithSandboxing (flag_bool fs "tenant-sandboxing");
         PodEnforcementHandlerWithStandaloneMode (flag_bool fs "standalone")]));
     ("/mutate/volume-claim", VolumeClaimHandler_Handle Decode Marshal)].

Context (url_Parse : string → result string) (NewBlobStore : string → result (string → string → io W unit)).
Context (ClientConfig : string → string → result RestConfig) (vaultapi_NewClient : result (VaultWrite W)).
Context (ReadFile : string → io W string) (pem_Decode : string → option (string * string)).
Context (ParsePKCS1PrivateKey : string → result Key) (NewSigner : Key → result Key).
Context (DelegateToSentry : string → result Delegate).
Context (NewManager : RestConfig → ManagerOptions → io W Manager).
Context (NewForConfig : RestConfig → result (string → string → string → io W string)).
Context (scheme : Scheme) (Start : Operator → io W unit).

Definition signing_key (b : string) : command W Key :=
  match pem_Decode b with
  | None => fatal "Error parsing PEM"
  | Some (ty, bytes) =>
      if String.eqb ty "RSA PRIVATE KEY"
      then or_fatal "Error parsing RSA private key" (lift (ParsePKCS1PrivateKey bytes))
      else fatal "PEM file does not contain an RSA private key"
  end.

Definition operator_main (args : list string) : command W unit :=
  fs ← parsed operator_flags args;
  let text := flag_text fs in
  storageUrl ← or_fatal "Error parsing the -storage-addr" (lift (url_Parse (text "storage-addr")));
  metadataAPIURL ← or_fatal "Error parsing -metadata-api-url" (lift (url_Parse (text "metadata-api-url")));
  blobStore ← or_fatal "Error initializing the storage client from the -storage-addr"
                (lift (NewBlobStore storageUrl));
  _ ← (if String.eqb (text "webhook-server-key-dir") ""
       then fatal "The webhook server key directory -webhook-server-key-dir must be specified"
       else mret tt);
  kcc ← or_fatal "Error creating kubernetes config"
          (lift (ClientConfig (text "kubeconfig") (text "kube-master-url")));
  vc ← or_fatal "Error creating Vault client" (lift vaultapi_NewClient);
  jwtSigningKeyBytes ← or_fatal "Error reading JWT signing key file" (ReadFile (text "jwt-signing-key-file"));
  jwtSigningKey ← signing_key jwtSigningKeyBytes;
  jwtSigner ← or_fatal "Error creating signer for JWTs" (lift (NewSigner jwtSigningKey));
  alertsDelegate ← (if String.eqb (text "sentry-dsn") "" then mret None
                    else d ← or_fatal "Error initializing Sentry" (lift (DelegateToSentry (text "sentry-dsn")));
                         mret (Some d));
  let cfg := operator_config fs metadataAPIURL alertsDelegate in
  r ← NewDependencyManager NewManager NewForConfig scheme cfg kcc vc jwtSigner blobStore;
  dm ← or_fatal "Error creating controller dependency builder" (lift r);
  or_fatal "Manager exited non-zero" (Start (operator_of fs dm)).
End operator.
Arguments DependencyManager {JWT0} W Delegate : rename.

(** ** The metadata service (cmd/relay-metadata-api) *)
Section metadata.
Context `{GoRuntime, GoFmt, JWT} {W Delegate : Type} (Getenv : string → string).
Context (ReadFile : string → io W string) (NewPool : string → io W unit).

(** The clients that the libraries make of a configuration. *)
Record KubernetesClientset := MkClientset {
  Core_Pods : string → string → effect auth_error W (list Pod);
  Core_Namespaces : string → effect auth_error W string;
  Core_ConfigMaps : Client W }.
Context (kubernetes_NewForConfig : RestConfig → result KubernetesClientset)
  (tekton_NewForConfig : RestConfig → result (string → string → effect auth_error W (gmap string string))).
Definition NewKubernetesInterfaceForConfig (cfg : RestConfig) : result (KubernetesInterface W) :=
  kc ← kubernetes_NewForConfig cfg;
  tkc ← tekton_NewForConfig cfg;
  Ok (MkKubernetes W (Core_Pods kc) (Core_Namespaces kc) tkc).

(** A Vault client of an address, which is given its token. *)
Context (vaultapi_NewClient : string → result (string → VaultWrite W)).
Definition VaultTransitClient (c : Config) : result (VaultWrite W) :=
  client ← vaultapi_NewClient (VaultTransitURL c); Ok (client (VaultTransitToken c)).

Definition service_factory (c : Config) (token : string) : effect auth_error W (Client W) := λ w,
  let '(r, w) := (cfg ← KubernetesClientFactory Getenv NewPool c token;
                  kc ← lift (kubernetes_NewForConfig cfg);
                  mret (Core_ConfigMaps kc)) w in (map_err AuthError r, w).
Definition cluster_authenticator (c : Config) (kc : KubernetesInterface W) (vc : VaultWrite W)
    : KubernetesAuthenticator :=
  NewKubernetesAuthenticator (service_factory c)
    [KubernetesAuthenticatorWithKubernetesIntermediary kc;
     KubernetesAuthenticatorWithChainToVaultTransitIntermediary vc (Service.VaultTransitPath c)
       (Service.VaultTransitKey c);
     KubernetesAuthenticatorWithVaultResolver (VaultAuthURL c) (VaultAuthPath c) (VaultAuthRole c)].

(** *** Sample mode: its tokens are signed with a key that is given or random. *)
Context (yaml_Unmarshal : string → result RawSampleConfig).
Context (rand_Read : nat → io W string) (HS256_signer : string → result Key) (HS256_key : string → Key).
Record TokenGenerator := MkTokenGenerator { Tg_key : string; Tg_issuer : Issuer_ W }.
Definition NewHS256KeySignerIssuer (key : string) : result (Issuer_ W) :=
  signer ← HS256_signer key; Ok (KeySignerIssuer signer).
Definition NewHS256TokenGenerator (key : string) : io W TokenGenerator :=
  key ← (if String.eqb key "" then rand_Read 64 else mret key);
  issuer ← lift (NewHS256KeySignerIssuer key);
  mret (MkTokenGenerator key issuer).

Inductive Authenticated :=
| InSample (tokens : TokenMap) (auth : SampleAuthenticator Key) (state : SampleState)
| InCluster (auth : @KubernetesAuthenticator W _).

Definition prefixed {A} (text : string) (m : io W A) : io W A := λ w,
  let '(r, w) := m w in (map_err (λ e, EText (text +:+ Error e)) r, w).
Definition sample_mode (c : Config) (sc : SampleConfig) : io W Authenticated :=
  key ← (if String.eqb (SampleHS256SigningKey c) "" then mret ""
         else prefixed "could not decode signing key: " (lift (Base64.decode (SampleHS256SigningKey c))));
  tg ← prefixed "failed to create token generator: " (NewHS256TokenGenerator key);
  tokens ← GenerateAll (Tg_issuer tg) sc;
  auth ← lift (NewSampleAuthenticator sc (HS256_key (Tg_key tg)));
  mret (InSample tokens auth.1 auth.2).
Definition cluster_mode (c : Config) : io W Authenticated :=
  kc ← KubernetesClient Getenv NewPool ReadFile c;
  kc ← lift (NewKubernetesInterfaceForConfig kc);
  vc ← lift (VaultTransitClient c);
  mret (InCluster (cluster_authenticator c kc vc)).
Definition metadata_authenticator (c : Config) : io W Authenticated :=
  sc ← Config_SampleConfig ReadFile yaml_Unmarshal (SampleConfigFiles c);
  match sc with Some sc => sample_mode c sc | None => cluster_mode c end.

(** The server's options: what errors tell, who captures them, the proxies that are trusted. *)
Record Server := MkServer {
  errorSensitivity : ErrorSensitivity; capturer : option (Delegate * string); trustedProxyHops : Z }.
Definition ServerOption : Type := Server → Server.
Definition WithErrorSensitivity (sensitivity : ErrorSensitivity) : ServerOption := λ s,
  MkServer sensitivity (capturer s) (trustedProxyHops s).
Definition WithCapturer (c : Delegate * string) : ServerOption := λ s,
  MkServer (errorSensitivity s) (Some c) (trustedProxyHops s).
Definition WithTrustedProxyHops_option (n : Z) : ServerOption := λ s,
  MkServer (errorSensitivity s) (capturer s) n.
Definition new_server (opts : list ServerOption) : Server :=
  foldl (λ s opt, opt s) (MkServer ErrorSensitivityNone None 0) opts.

(** What is served, where, with which certificate and key. *)
Record Serving := MkServing {
  Serving_auth : Authenticated; Serving_server : Server; Serving_addr : string;
  Serving_TLS : option (string * string) }.
Context (DelegateToSentry : string → result Delegate) (ListenWaitHTTP : Serving → io W unit).
Definition server_options (c : Config) : result (list ServerOption) :=
  let debug := if Debug_ c then [WithErrorSensitivity ErrorSensitivityAll] else [] in
  if String.eqb (SentryDSN c) "" then Ok debug
  else
    delegate ← map_err (λ e, EText ("failed to initialize Sentry: " +:+ Error e))
                 (DelegateToSentry (SentryDSN c));
    Ok (debug ++ [WithCapturer (delegate, Environment c)]).
Definition metadata_main : io W unit :=
  let cfg := NewConfig Getenv in
  auth ← metadata_authenticator cfg;
  serverOpts ← lift (server_options cfg);
  ListenWaitHTTP (MkServing auth (new_server serverOpts) ("0.0.0.0:" +:+ pretty (ListenPort cfg))
    (if String.eqb (TLSKeyFile cfg) "" then None else Some (TLSCertificateFile cfg, TLSKeyFile cfg))).

(** The service tells what [server_sensitivity] says, and trusts no proxy. *)
Lemma served_options c opts :
  server_options c = Ok opts →
  errorSensitivity (new_server opts) = server_sensitivity c ∧ trustedProxyHops (new_server opts) = 0%Z
  ∧ (is_Some (capturer (new_server opts)) ↔ SentryDSN c ≠ "").
Proof.
  unfold server_options, server_sensitivity. destruct (String.eqb_spec (SentryDSN c) "") as [E|E].
  - intros [= <-]. destruct (Debug_ c); cbn; split_and!; try done; (split; [by intros []|done]).
  - destruct (DelegateToSentry _); [|done..]. cbn. intros [= <-].
    destruct (Debug_ c); cbn; split_and!; done.
Qed.
End metadata.

(** ** The metrics of runs (cmd/relay-metrics) *)
Definition metrics_flags (home : string) : flags := list_to_map [
  ("kubeconfig", FlagText (if String.eqb home "" then "" else path_join [home; ".kube"; "config"]));
  ("publish", FlagBool false); ("environment", FlagText "dev"); ("delete-descriptors", FlagBool false)].
Definition homeDir (Getenv : string → string) : string :=
  match Getenv "HOME" with "" => Getenv "USERPROFILE" | h => h end.

(** The descriptor of a metric, a gauge of 64-bit integers with the label of its
    environment. *)
Record LabelDescriptor := MkLabelDescriptor { Label_Key : string; Label_ValueType : string; Label_Description : string }.
Record MetricDescriptor := MkMetricDescriptor {
  Descriptor_Name : string; DisplayName : string; Descriptor_Type : string;
  Descriptor_Labels : list LabelDescriptor; MetricKind : string; Descriptor_ValueType : string;
  Descriptor_Unit : string; Descriptor_Description : string }.
Definition metric_descriptor (name metricType description : string) : MetricDescriptor :=
  MkMetricDescriptor name name metricType
    [MkLabelDescriptor "environment" "STRING" "The environment of the reported metric"]
    "GAUGE" "INT64" "1" description.

Section metrics_main.
Context `{GoFmt} {W : Type} (Getenv : string → string).
Context (BuildConfigFromFlags : string → result RestConfig) (InClusterConfig : result RestConfig).
Context (client_New : RestConfig → result (io W (list (RunObject * Z)))) (NewMetricClient : io W unit).
Context (CreateMetricDescriptor : string → MetricDescriptor → io W MetricDescriptor).
Context (DeleteMetricDescriptor : string → io W unit).
Context (CreateTimeSeries : string → list TimeSeries → io W unit) (clock : W → Z * W).

Definition createCustomMetric (name metricType description : string) : io W MetricDescriptor :=
  prefixed "could not create custom metric: "
    (CreateMetricDescriptor ("projects/" +:+ projectID) (metric_descriptor name metricType description)).
Definition deleteMetric (name : string) : io W unit :=
  _ ← NewMetricClient; prefixed "could not delete metric: " (DeleteMetricDescriptor name).
Definition k8sClient (kubeconfig : string) : result (io W (list (RunObject * Z))) :=
  config ← match BuildConfigFromFlags kubeconfig with Err _ => InClusterConfig | r => r end;
  client_New config.

(** The loop has no end; [n] of its rounds. *)
Definition metrics_main (n : nat) (args : list string) : command W unit :=
  fs ← parsed (metrics_flags (homeDir Getenv)) args;
  kc ← or_panic (lift (k8sClient (flag_text fs "kubeconfig")));
  _ ← or_panic NewMetricClient;
  if flag_bool fs "delete-descriptors" then
    _ ← or_panic (deleteMetric ("projects/" +:+ projectID +:+ "/metricDescriptors/" +:+ statusType));
    or_panic (deleteMetric ("projects/" +:+ projectID +:+ "/metricDescriptors/" +:+ oldestType))
  else
    _ ← (if flag_bool fs "publish" then
           _ ← or_panic (createCustomMetric "Pending Workflow Runs" statusType
                 "The number of Workflow Runs with a status of `pending`");
           _ ← or_panic (createCustomMetric "Oldest Pending Workflow Run" oldestType
                 "The number of seconds since the oldest Workflow Runs with a status of `pending` was started");
           mret tt
         else mret tt);
    or_panic (rounds kc CreateTimeSeries clock (flag_text fs "environment") (flag_bool fs "publish") n).
End metrics_main.

(** * From the operator to the metadata service

    Without settings, the operator encrypts with the key the service decrypts with. *)
Lemma default_transit_agrees {Delegate} (Getenv : string → string) fs url (alerts : option Delegate) :
  parse_flags operator_flags [] = Ok (fs, []) → (∀ x, Getenv x = "") →
  Operator_TransitPath (operator_config fs url alerts) = Service.VaultTransitPath (NewConfig Getenv)
  ∧ Operator_TransitKey (operator_config fs url alerts) = Service.VaultTransitKey (NewConfig Getenv).
Proof.
  intros [= <-] Hg. unfold NewConfig, operator_config, GetString, viper_find, getEnv.
  cbn [Operator_TransitPath Operator_TransitKey Service.VaultTransitPath Service.VaultTransitKey].
  rewrite !Hg. split; vm_compute; reflexivity.
Qed.

(** A setting that has a default is not empty. *)
Lemma first_of_set Getenv keys last : last ≠ "" → first_of Getenv keys last ≠ "".
Proof.
  intros Hl. unfold first_of. induction keys as [|k keys IH]; [done|]. cbn [omap list_omap].
  unfold getEnv at 1. by destruct (Getenv k).
Qed.

Section accepted.
Context `{JSONText, JWT} {W Delegate : Type}.
(** The operator, and the service with its clients. *)
Context (dm : DependencyManager W Delegate) (Getenv : string → string) (NewPool : string → io W unit).
Context (kubernetes_NewForConfig : RestConfig → result (KubernetesClientset (W := W))).
Context (kc : KubernetesInterface W) (vc : VaultWrite W).
Context (fuel : nat) (http_do : string → string → string → io W Z) (ip_text : net_ip → string).
Context (VaultClient : Type) (logical : VaultClient → Logical W).
Context (login : string → string → gmap string value → effect auth_error W (option VaultClient)).
Context (sat : effect auth_error W string) (sha256 : string → string).

Definition annotate_action (d : ActionDeps) (a : Action) (max_time now : Z) (target : ObjectMeta)
    : effect auth_error W ObjectMeta :=
  match a with
  | AStep s => AnnotateStepToken (transit_issuer dm) sat d s now target
  | ATrigger t => AnnotateTriggerToken (transit_issuer dm) sat sha256 d t max_time now target
  end.
Definition action_expiry (a : Action) (max_time now : Z) : Z :=
  match a with AStep _ => (now + step_lifetime)%Z | ATrigger _ => max_time end.

(** An object without a token has one afterwards only if it was issued. *)
Lemma annotate_action_issued d a max_time now target w target' w' :
  annotations_of target !! KubernetesTokenAnnotation = None →
  annotate_action d a max_time now target w = (Ok target', w') → has_token target' →
  ∃ token w1 tok,
    transit_issuer dm (issued_claims d token a (action_expiry a max_time now) now) w1 = (Ok tok, w')
    ∧ annotations_of target' !! KubernetesTokenAnnotation = Some tok
    ∧ subject_of target' = Some (action_subject a).
Proof.
  intros Ht. unfold annotate_action, AnnotateStepToken, AnnotateTriggerToken, action_expiry.
  destruct a as [s|t]; [unfold annotations_of in Ht; rewrite Ht|]; rewrite effect_bind_run;
    destruct (sat w) as [[token|e|x] w1]; try done; cbv zeta; [|case_match].
  2: { intros [= <- <-] Hh. unfold has_token in Hh. rewrite Ht in Hh. by destruct Hh. }
  all: rewrite effect_bind_run;
    (destruct (transit_issuer dm _ w1) as [[tok|e|x] w2] eqn:E; try done);
    intros [= <- <-] _; exists token, w1, tok; split; [exact E|];
    unfold put_token, subject_of; rewrite !annotate_lookup;
    rewrite decide_False by done; by rewrite !decide_True.
Qed.

(** ** While a token can be used

    In the worlds of [live], what is running goes on: Vault decrypts what it encrypted, the
    pod with the address runs in the namespace of the claims, and Vault lets the tokens of
    the action in, whose claims are those that were signed.  Clients can be made. *)
Notation cfg := (Dm_Config dm).
Notation c := (NewConfig Getenv).
Record usable (live : W → Prop) (ip : net_ip) (pod : Pod) (d : ActionDeps) (a : Action)
    (expiry now : Z) : Prop := {
  usable_transit plaintext context w data ct w1 :
    Dm_VaultClient dm (vaultTransitEncryptPath (Operator_TransitPath cfg) (Operator_TransitKey cfg))
      (transit_data "plaintext" plaintext context) w = (Ok (Some data), w1) →
    data !! "ciphertext" = Some (VString ct) →
    ct ≠ "" ∧ ∀ w, live w → ∃ w',
      vc (vaultTransitDecryptPath (Operator_TransitPath cfg) (Operator_TransitKey cfg))
        (transit_data "ciphertext" ct context) w
      = (Ok (Some {["plaintext" := VString plaintext]}), w') ∧ live w';
  usable_pod w : live w → ∃ w', list_pods kc (ip_text ip) "Running" w = (Ok [pod], w') ∧ live w';
  usable_namespace w : live w → ∃ w',
    namespace_uid kc (Pod_Namespace pod) w = (Ok (deps_namespace_uid d), w') ∧ live w';
  usable_signed token raw : token_sign (Dm_JWTSigner dm) (issued_claims d token a expiry now) = Ok raw →
    (∃ tok, ParseSigned raw = Ok tok ∧ token_UnsafeClaims tok = Ok (issued_claims d token a expiry now))
    ∧ ∀ data w, data !! "jwt" = Some (VString raw) → live w → ∃ md w',
        login (VaultAuthURL c) (path_join [VaultAuthPath c; "login"]) data w = (Ok (Some md), w') ∧ live w';
  usable_client token w : live w → ∃ client w',
    service_factory Getenv NewPool kubernetes_NewForConfig c token w = (Ok client, w') ∧ live w' }.
Notation service_run := (KubernetesAuthenticator_Authenticate fuel http_do ip_text
                           VaultClient logical login).
Notation ka := (cluster_authenticator Getenv NewPool kubernetes_NewForConfig c kc vc).

Lemma cluster_intermediary r :
  service_intermediary ip_text ka r
  = KubernetesIntermediary_Chain (kubernetes_on_outside kc) ip_text (RemoteIP r) (λ raw md,
      mret (VaultTransitIntermediary (λ p d, on_outside (vc p d)) (Service.VaultTransitPath c)
              (Service.VaultTransitKey c) (VaultTransitNamespaceContext (NamespaceUID md)) raw)).
Proof. done. Qed.

Section issued.
Context (live : W → Prop) (ip : net_ip) (pod : Pod) (d : ActionDeps) (a : Action) (expiry now : Z).
Context (Hu : usable live ip pod d a expiry now).

(** The pod is found, with its token. *)
Lemma own_token_found {V} (client : KubernetesInterface V) p tok subject v :
  tok ≠ "" → Pod_Annotations p !! KubernetesTokenAnnotation = Some tok →
  Pod_Annotations p !! KubernetesSubjectAnnotation = Some subject →
  pod_token client p v = (Ok (subject, tok), v).
Proof.
  intros Htok Ht Hs. unfold pod_token, annotation. rewrite Ht, Hs. cbn [from_option id].
  unfold id. by rewrite (proj2 (String.eqb_neq _ _) Htok).
Qed.
Lemma pod_found tok subject st (s : Service W) :
  live (outside s) → ip ≠ "" → IsUnspecified ip = false → tok ≠ "" →
  Pod_Annotations pod !! KubernetesTokenAnnotation = Some tok →
  Pod_Annotations pod !! KubernetesSubjectAnnotation = Some subject →
  ∃ w', kubernetes_next (kubernetes_on_outside kc) ip_text ip (st, s)
    = (Ok (tok, MkMetadata (deps_namespace_uid d)),
       (append st (MkAuthentication [namespace_validator (MkMetadata (deps_namespace_uid d));
                                     subject_validator subject] []),
        MkService w' (mgrs s) (tags s))) ∧ live w'.
Proof.
  intros Hl Hip Hun Htok Ht Hs. unfold kubernetes_next. rewrite effect_bind_run. unfold in_world at 1.
  unfold kubernetes_lookup. rewrite Hun. destruct (String.eqb_spec ip "") as [|_]; [done|]. cbn [orb].
  rewrite effect_bind_run. cbn [list_pods kubernetes_on_outside]. unfold on_outside at 1.
  destruct (usable_pod _ _ _ _ _ _ _ Hu _ Hl) as (w1 & -> & Hl1). rewrite effect_bind_run.
  unfold lookup_or at 1. rewrite effect_bind_run. unfold attempt at 1.
  cbn [namespace_uid kubernetes_on_outside]. unfold on_outside at 1. cbn [outside].
  destruct (usable_namespace _ _ _ _ _ _ _ Hu _ Hl1) as (w2 & -> & Hl2).
  unfold lift at 1. rewrite effect_bind_run, (own_token_found _ _ _ _ _ Htok Ht Hs), effect_ret_run.
  rewrite !effect_bind_run. cbn [AddValidator fst snd outside mgrs tags].
  rewrite effect_bind_run. cbn [AddValidator validators injectors]. rewrite effect_ret_run.
  exists w2. split; [|done]. unfold append. cbn [validators injectors].
  by rewrite <- app_assoc, app_nil_r.
Qed.

Notation claims token := (issued_claims d token a expiry now).

(** What the operator encrypted is what the service decrypts. *)
Lemma issued_decrypted token w tok w1 :
  transit_issuer dm (claims token) w = (Ok tok, w1) →
  tok ≠ "" ∧ ∃ raw, token_sign (Dm_JWTSigner dm) (claims token) = Ok raw ∧
    ∀ st (s : Service W), live (outside s) → ∃ w',
      VaultTransitIntermediary (λ p x, on_outside (vc p x)) (Operator_TransitPath cfg)
        (Operator_TransitKey cfg) (VaultTransitNamespaceContext (deps_namespace_uid d)) tok (st, s)
      = (Ok raw, (st, MkService w' (mgrs s) (tags s))) ∧ live w'.
Proof.
  unfold transit_issuer. rewrite effect_bind_run. unfold KeySignerIssuer, lift.
  destruct (token_sign _ _) as [raw| |] eqn:Er; cbn [map_err]; [|done..].
  unfold VaultTransitWrapper. rewrite effect_bind_run.
  destruct (Dm_VaultClient dm _ _ w) as [[[data|]| |] w2] eqn:Ew; [|done..].
  destruct (data !! "ciphertext") as [v|] eqn:Ed; [|done]. cbn [mbind option_bind].
  destruct v; try done. cbn [as_string]. rewrite effect_ret_run. intros [= -> ->].
  destruct (usable_transit _ _ _ _ _ _ _ Hu _ _ _ _ _ _ Ew Ed) as [Hne Hd]. split; [done|].
  exists raw. split; [done|]. intros st s Hl. destruct (Hd _ Hl) as (w' & Hw & Hl'). exists w'.
  split; [|done]. unfold VaultTransitIntermediary, in_world. rewrite effect_bind_run.
  unfold on_outside at 1. cbn [KubernetesNamespaceUID issued_claims] in Hw. rewrite Hw, lookup_singleton_eq.
  cbn [mbind option_bind as_string]. unfold lift. by rewrite Base64.decode_encode.
Qed.

(** Vault lets the token in, and vouches for the claims. *)
Lemma auth_url_set : VaultAuthURL c ≠ "".
Proof.
  destruct (vault_settings Getenv) as (_ & -> & _). by apply first_of_set.
Qed.
Lemma issued_resolved token raw st (s : Service W) :
  token_sign (Dm_JWTSigner dm) (claims token) = Ok raw → live (outside s) →
  ∃ md w', service_resolver VaultClient logical login ka raw (st, s)
    = (Ok (claims token), (append st (MkAuthentication [] [λ cl, vault_injector VaultClient logical cl md]),
       MkService w' (mgrs s) (tags s))) ∧ live w'.
Proof.
  intros Hs Hl. destruct (usable_signed _ _ _ _ _ _ _ Hu _ _ Hs) as [(tok & Ht & Hc) Hlog].
  unfold service_resolver, vault_resolvers. cbn [vaultJWTAuthAddr cluster_authenticator NewKubernetesAuthenticator
    foldl KubernetesAuthenticatorWithVaultResolver keys KubernetesAuthenticatorWithKubernetesIntermediary
    KubernetesAuthenticatorWithChainToVaultTransitIntermediary vaultJWTAuthPath vaultJWTAuthRole].
  rewrite (proj2 (String.eqb_neq _ _) auth_url_set). cbn [fmap list_fmap app AnyResolver].
  unfold VaultResolver. cbv zeta. set (data := if String.eqb _ "" then _ else _).
  assert (Hj : data !! "jwt" = Some (VString raw)).
  { unfold data. destruct (String.eqb _ ""); [by rewrite lookup_singleton_eq|].
    by rewrite lookup_insert_ne, lookup_singleton_eq. }
  destruct (Hlog data _ Hj Hl) as (md & w' & Hw & Hl'). exists md, w'. split; [|done].
  rewrite effect_bind_run. unfold in_world at 1, on_outside at 1. rewrite Hw.
  rewrite effect_bind_run. unfold in_world at 1, lift at 1. rewrite Ht. cbn [map_err].
  rewrite effect_bind_run. unfold in_world at 1, lift at 1. rewrite Hc. cbn [map_err].
  by rewrite effect_bind_run, add_injectors, effect_ret_run.
Qed.

(** The claims are those of the pod, and the managers are made. *)
Lemma issued_validated token subject (s : Service W) :
  deps_namespace_uid d ≠ "" → subject = action_subject a →
  validate_all [namespace_validator (MkMetadata (deps_namespace_uid d)); subject_validator subject]
    (claims token) s = (Ok true, s).
Proof.
  intros Hne ->. cbn [validate_all]. unfold namespace_validator, subject_validator.
  cbn [KubernetesNamespaceUID issued_claims NamespaceUID].
  rewrite (proj2 (String.eqb_neq _ _) Hne), String.eqb_refl. rewrite effect_bind_run, effect_ret_run.
  rewrite !effect_bind_run. unfold lift, claims_subject. cbn [registered issued_claims Subject].
  rewrite (proj2 (String.eqb_neq _ _)); [by rewrite String.eqb_refl, !effect_ret_run|].
  rewrite action_subject_eq. by destruct a.
Qed.
Lemma issued_injected token md (s : Service W) :
  action_named a → live (outside s) →
  ∃ client w', inject_all [service_injector fuel http_do ka; λ cl, vault_injector VaultClient logical cl md]
      (claims token) s
    = (Ok tt, MkService w' (vault_managers VaultClient logical (claims token) md
                 (action_managers fuel http_do client (claims token) a (mgrs s)))
              (tags s ++ claim_tags (claims token) a)) ∧ live w'.
Proof.
  intros Ha Hl. destruct (usable_client _ _ _ _ _ _ _ Hu (Authenticate.KubernetesServiceAccountToken (claims token)) _ Hl)
    as (client & w' & Hw & Hl'). exists client, w'. split; [|done].
  unfold inject_all. cbn [each_effect]. rewrite effect_bind_run. unfold service_injector at 1.
  rewrite effect_bind_run. unfold on_outside at 1. cbn [factory cluster_authenticator NewKubernetesAuthenticator
    foldl KubernetesAuthenticatorWithVaultResolver KubernetesAuthenticatorWithKubernetesIntermediary
    KubernetesAuthenticatorWithChainToVaultTransitIntermediary].
  rewrite Hw, effect_bind_run. unfold lift. rewrite (claims_action_subject _ a) by done.
  rewrite effect_bind_run. unfold set_managers at 1, add_tags. cbn [outside mgrs tags].
  by rewrite effect_bind_run, vault_injector_run.
Qed.
End issued.

(** C10: A token that the operator issues for an action is accepted, as that action: with the
    same transit key on both sides, once an object without a token was annotated, every
    request from a running pod that has its two annotations, in the namespace the token was
    issued for, is authenticated, whatever its header says, with the managers and the tags
    of the claims that were issued, while Vault takes the token. *)
Theorem issued_token_accepted live ip pod d a max_time now target w target' w1 :
  Service.VaultTransitPath c = Operator_TransitPath cfg →
  Service.VaultTransitKey c = Operator_TransitKey cfg →
  action_named a → deps_namespace_uid d ≠ "" →
  annotations_of target !! KubernetesTokenAnnotation = None →
  annotate_action d a max_time now target w = (Ok target', w1) → has_token target' →
  Forall (λ k, Pod_Annotations pod !! k = annotations_of target' !! k)
    [KubernetesTokenAnnotation; KubernetesSubjectAnnotation] →
  ip ≠ "" → IsUnspecified ip = false →
  usable live ip pod d a (action_expiry a max_time now) now →
  ∀ w2 header, live w2 → ∃ token client md w3,
    let claims := issued_claims d token a (action_expiry a max_time now) now in
    service_run ka (MkRequest ip header) w2
    = (Ok (Some (MkCredential
         (Build (vault_managers VaultClient logical claims md
                   (action_managers fuel http_do client claims a NewMetadataBuilder)))
         (claim_tags claims a))), w3)
    ∧ live w3.
Proof.
  intros Hp Hk Ha Huid Hnone Hann Hhas Hpod Hip Hun Hu w2 header Hl.
  destruct (annotate_action_issued _ _ _ _ _ _ _ _ Hnone Hann Hhas) as (token & w0 & tok & Hi & Et & Es).
  apply Forall_cons in Hpod as [Ept [Eps _]%Forall_cons]. exists token.
  assert (Ept' := eq_trans Ept Et). assert (Eps' := eq_trans Eps Es).
  destruct (issued_decrypted _ _ _ _ _ _ _ Hu _ _ _ _ Hi) as (Htok & raw & Hs & Hdec).
  unfold KubernetesAuthenticator_Authenticate, Authenticate, service_authenticator.
  cbn [intermediary resolver own_validators own_injectors NewAuthenticator foldl AuthenticatorWithInjector app].
  rewrite cluster_intermediary. cbn [RemoteIP].
  unfold KubernetesIntermediary_Chain. rewrite effect_bind_run.
  destruct (pod_found _ _ _ _ _ _ _ Hu tok (action_subject a)
    (MkAuthentication [] [service_injector fuel http_do ka]) (MkService w2 NewMetadataBuilder [])
    Hl Hip Hun Htok Ept' Eps') as (wa & -> & Hla).
  rewrite effect_bind_run. unfold in_world at 1. rewrite effect_ret_run. cbn [fst snd NamespaceUID].
  rewrite Hp, Hk.
  set (st := append _ _). cbn [mgrs tags].
  destruct (Hdec st (MkService wa NewMetadataBuilder []) Hla) as (wb & -> & Hlb). cbn [mgrs tags].
  destruct (issued_resolved _ _ _ _ _ _ _ Hu token raw st (MkService wb NewMetadataBuilder []) Hs Hlb)
    as (md & wc & -> & Hlc).
  rewrite (claims_action_subject _ a) by done. rewrite effect_bind_run.
  unfold st, append. cbn [validators injectors app mgrs tags].
  rewrite (issued_validated _ _ _ _ _ _ _ Hu) by done.
  destruct (issued_injected _ _ _ _ _ _ _ Hu token md (MkService wc NewMetadataBuilder []) Ha Hlc)
    as (client & wd & Hj & Hld).
  rewrite effect_bind_run, Hj, effect_ret_run. by exists client, md, wd.
Qed.
End accepted.

(** *** A step of the operator with its default settings *)
Definition issue_jwt : JWT := {|
  Token := string; Key := unit;
  ParseSigned s := Ok s;
  token_Claims tok _ := Ok (issued_claims sample_deps tok sample_action 3909 9);
  token_UnsafeClaims tok := Ok (issued_claims sample_deps tok sample_action 3909 9);
  token_sign _ c := Ok (Authenticate.KubernetesServiceAccountToken c);
|}.

(** A transit engine that marks what it was given. *)
Definition text_of (d : gmap string value) (k : string) : string := default "" (d !! k ≫= as_string).
Definition marking_transit : VaultWrite unit := λ p d w,
  (Ok (Some (if String.eqb p "transit/encrypt/metadata-api"
             then {["ciphertext" := VString ("vault:v1:" +:+ text_of d "plaintext")]}
             else {["plaintext" := VString (drop_string 9 (text_of d "ciphertext"))]})), w).

Lemma marking_encrypts d w :
  marking_transit (vaultTransitEncryptPath "transit" "metadata-api") d w
  = (Ok (Some {["ciphertext" := VString ("vault:v1:" +:+ text_of d "plaintext")]}), w).
Proof. reflexivity. Qed.
Lemma marking_decrypts d w :
  marking_transit (vaultTransitDecryptPath "transit" "metadata-api") d w
  = (Ok (Some {["plaintext" := VString (drop_string 9 (text_of d "ciphertext"))]}), w).
Proof. reflexivity. Qed.

Definition idle {A} : io unit A := lift (Err (EText "idle")).
Definition idle_client {S} : ObjectClient unit S := MkObjectClient unit S (λ _, idle) (λ _, idle) (λ _, idle) (λ _, idle).
Definition idle_manager : Manager (W := unit) :=
  MkManager (MkKubeClient unit (λ _, idle_client) (λ _ _, idle))
    (MkClients unit idle_client idle_client idle_client idle_client idle_client (λ _, idle))
    (MkVolumeClients unit idle_client idle_client idle_client) (λ _ _ _, idle) (λ _ _, None).
Definition sample_dm : @DependencyManager issue_jwt unit unit :=
  @MkDependencyManager issue_jwt unit unit idle_manager (operator_config operator_flags "http://metadata" None)
    (λ _ _ _, idle) marking_transit tt (λ _ _, idle).

Definition token_target : ObjectMeta :=
  default zero_meta match @annotate_action tree_json issue_jwt unit unit sample_dm (λ w, (Ok "sat", w)) id
                            sample_deps sample_action 0 9 zero_meta tt with
                    | (Ok m, _) => Some m | _ => None end.
Definition token_pod : Pod := MkPod "ns" (annotations_of token_target) ∅.
Definition token_kubernetes : KubernetesInterface unit := {|
  list_pods ip phase w := (Ok [token_pod], w);
  namespace_uid n w := (Ok "uid-1", w);
  condition_annotations ns n w := (Err (AuthError (EAPI ReasonNotFound "")), w);
|}.
(** Outside of a cluster the service is told where Kubernetes is. *)
Definition told_env : string → string := λ k,
  if String.eqb k "RELAY_METADATA_API_KUBERNETES_URL" then "https://kubernetes"
  else if String.eqb k "RELAY_METADATA_API_KUBERNETES_CA_DATA" then "ca" else "".
Definition clients_of (cfg : RestConfig) : result (KubernetesClientset (W := unit)) :=
  Ok (MkClientset (λ _ _ w, (Ok [], w)) (λ _ w, (Ok "", w)) no_client).

Lemma same_answer {A B C} (a b : A) (w w' : C) : (@Ok B _ (Some a), w) = (Ok (Some b), w') → a = b ∧ w = w'.
Proof. by intros [= -> ->]. Qed.

Lemma issued_token_accepted_witness :
  ∃ token client md w3,
    let claims := issued_claims sample_deps token sample_action 3909 9 in
    @KubernetesAuthenticator_Authenticate unit tree_json issue_jwt 5 (λ _ _ _ w, (Ok 200%Z, w)) (λ ip, ip)
      unit (λ _, no_vault) (λ _ _ _ w, (Ok (Some tt), w))
      (@cluster_authenticator issue_jwt unit told_env (λ _, mret tt) clients_of (NewConfig told_env)
         token_kubernetes marking_transit) (MkRequest "1234" "") tt
    = (Ok (Some (MkCredential
         (Build (vault_managers unit (λ _, no_vault) claims md
            (@action_managers unit tree_json 5 (λ _ _ _ w, (Ok 200%Z, w)) client claims sample_action
               NewMetadataBuilder)))
         (claim_tags claims sample_action))), w3)
    ∧ True.
Proof.
  apply (@issued_token_accepted tree_json issue_jwt unit unit sample_dm told_env (λ _, mret tt) clients_of
    token_kubernetes marking_transit 5 (λ _ _ _ w, (Ok 200%Z, w)) (λ ip, ip) unit (λ _, no_vault)
    (λ _ _ _ w, (Ok (Some tt), w)) (λ w, (Ok "sat", w)) id (λ _, True) "1234" token_pod sample_deps
    sample_action 0 9 zero_meta tt token_target tt).
  - vm_compute. reflexivity.
  - vm_compute. reflexivity.
  - split; discriminate.
  - discriminate.
  - reflexivity.
  - vm_compute. reflexivity.
  - vm_compute. eauto.
  - repeat constructor.
  - discriminate.
  - reflexivity.
  - split.
    + intros plaintext context w data ct w1. change (Operator_TransitPath _) with "transit".
      change (Operator_TransitKey _) with "metadata-api". cbn [Dm_VaultClient sample_dm].
      rewrite marking_encrypts. intros [<- _]%same_answer. rewrite lookup_singleton_eq. intros [= <-].
      split; [discriminate|]. intros w0 _. exists w0. split; [|exact I]. rewrite marking_decrypts.
      unfold text_of. rewrite (transit_data_field "plaintext"), (transit_data_field "ciphertext") by discriminate.
      reflexivity.
    + intros w _. by exists w.
    + intros w _. by exists w.
    + intros token raw [= <-]. split; [by exists token|]. intros data w _ _. by exists tt, w.
    + intros token w _. exists no_client, w. split; [|exact I]. vm_compute. reflexivity.
  - exact I.
Defined.
